(* ===== verification/_CoqProject ===== *)
-Q . S2P
Spec2Rocq.v
GoRuntime.v
Objects.v
Naming.v
Env.v
Builder.v
Store.v
Controller.v
Convergence.v
Lifecycle.v
Frame.v
Watch.v
Loop.v
Faults.v
Settle.v
Teardown.v
Template.v
Collision.v
Main.v
