(* ===== verification/Spec2Rocq.v ===== *)
(** * A verification development for maisem/tailscale-operator

    ** The program

    The operator is one Kubernetes controller ([src/pkg/controller]).  For
    every Service it is asked about, [ServiceReconciler.Reconcile]
    ([controller.go]) reads the Service and decides from the annotation
    [tailscale.maisem.dev/enable] and the deletion timestamp whether the
    Service is enabled.  If it is, it persists the finalizer
    [tailscale.maisem.dev/finalizer] on the Service and then [deployTailscale]
    runs [reconcileService] and [reconcileStatefulSet] ([tailscale.go]):
    each parses a template file ([svc.yaml], [sts.yaml]), patches it for
    the parent (selector [svc=<name>], [DEST_IP] = the parent's cluster
    IP, pod hostname [<name>-<uid[:8]>]) and hands it to [createOrUpdate],
    a wrapper of [controllerutil.CreateOrUpdate] that sets the owner
    reference, the [svc] label and the whole [Spec] of the child
    [<name>-tailscale].  If the Service is disabled or being deleted,
    [handleDelete] removes the finalizer, but only when the device-ID
    annotation is present.  [New] ([controller.go]) registers the
    reconciler with the manager through controller-runtime's builder:
    [For(Service)] enqueues the key of every changed Service, the two
    [Owns] watches enqueue the controller owner of every changed
    StatefulSet or Service.  [main] ([src/main.go]) builds the manager,
    calls [New] and blocks in [manager.Start], whose worker takes requests
    off a de-duplicating work queue, runs [Reconcile] on each, re-adds a
    request whose pass failed, and does not recover panics.

    ** The files

    - [Spec2Rocq] (this file): the prelude.  The [res] type of fallible Go
      code, the state/error monad [stM] with notations in [ctrl_scope]
      ([x <- m ;; k], [let? x := r in k]), its laws, and the [within R m]
      framework: a preorder [R] on states kept by every run of a program,
      whatever it returns, composed through [sbind] ([within_bind]) and
      intersected ([within_conj]).  String and list lemmas, the hint
      database [ctrl], and the tactics [decide_by_vm] and [absurd_by_vm]
      that discharge the hypotheses of the witnesses by evaluation.
    - [GoRuntime]: Go's error and panic values, nil-able maps
      ([gomap_set] panics on nil), slice and index bounds panics,
      [strings.ToLower].
    - [Objects]: the records of [corev1.Service] and [appsv1.StatefulSet]
      restricted to the fields the code touches, the [object] interface of
      [tailscale.go] as a type class with its laws, the normal form behind
      [Semantic.DeepEqual], and the [controllerutil] helpers on finalizers
      and owner references (library code, modelled from its contract).
    - [Naming] (Module [Naming]): [childName] (the [Sprintf] of
      [reconcileService]/[reconcileStatefulSet]) and [hostName]
      ([controller.go]).
    - [Env] (Module [Env]): [addOrUpdateEnv] ([tailscale.go]) and a
      reference definition it is proved equal to.
    - [Builder] (Module [Builder]): the pure parts of the two reconcile
      functions: [service_init]/[statefulset_init] ([svcOrig], [stsOrig]),
      [statefulset_desired] (the patching of the template, Go statements in
      their order, each panic an [Err]), and the mutate closures
      [service_mutate]/[statefulset_mutate].
    - [Store] (Module [Store]): the API server as the client sees it: a
      [World] of two tables keyed by [(namespace, name)], the template
      files, a fault oracle [w_faults] (one entry consumed per API call;
      [Some e] makes the call fail with [e]) and the log of writes.
      [client_get], [client_create], [client_update] (optimistic
      concurrency on the resource version, server-managed fields kept,
      no-op when unchanged, deletion once the last finalizer of a
      deletion-requested object is gone) and [CreateOrUpdate]; the
      well-formedness invariant [store_wf]; the preorders [log_grows],
      [wf_kept] and [table_step] with their [within] lemmas.
    - [Controller] (Module [Controller]): [parseFile_svc]/[parseFile_sts],
      [createOrUpdate], [reconcileService], [reconcileStatefulSet],
      [handleDelete], [deployTailscale], [Reconcile] as programs of the
      world monad, in the code's order with every early return; the class
      [within_primitives] is the interface between the controller and the
      store: the controller's invariance theorems are proved against it,
      and [Store]'s lemmas discharge it for [log_grows] and [wf_kept].
      [run_queue] runs [Reconcile] on a sequence of keys (the work queue).
    - [Lifecycle] (Module [Lifecycle]): the contract of spec section 4.2
      stated abstractly: [wantEnabled] (the spec's enable rule, with the
      ASCII casings of ["true"]), a view [AView] of the store from one
      parent key, and one step [spec_pass] of the spec's state machine;
      the refinement theorem relating [Reconcile] to [spec_pass].
    - [Frame] (Module [Frame]): the relation [frame_rel] (writes only at
      the parent and the child key, no deletion but the parent's, store
      kept well formed) and the frame theorem of a pass.
    - [Convergence] (Module [Convergence]): the invariant [provisionable]
      that every pass on an enabled parent keeps under any failures (its
      proof follows each API call of the pass through the [key_step]
      relation of [Store] and the exact outcomes of [client_update]), and
      the convergence theorem built on it.
    - [Watch] (Module [Watch]): the builder ([NewControllerManagedBy],
      [For], [Owns], [Complete]) and [New]; the event handlers
      [EnqueueRequestForObject] and [EnqueueRequestForOwner] (with
      [GetControllerOf]); the events the informers deliver for a change
      of the store ([store_events], one per changed key).
    - [Loop] (Module [Loop]): the state of the running controller
      ([LState]: the cluster and the work queue), [wq_add] (the queue's
      de-duplicating [Add]), [reconcileHandler] (one request: [Reconcile],
      the watches' requests for the writes it made, the request re-added
      after an error, a panic reported) and [run], the worker processing
      at most [fuel] requests; [user_write] for a change made by someone
      else between two requests.
    - [Faults] (Module [Faults]): a pass that succeeds under the fault
      oracle is a fault-free pass ([ok_sim]), the errors a pass can end
      with ([api_error]), and every pass consuming an entry of the oracle.
    - [Settle] (Module [Settle]): the invariant [loop_inv] of the running
      controller working for one parent (the parent provisionable, no
      controller references, the queue holding only the parent's key and
      its child key, the parent queued or done), kept by every request
      whatever fails; no pass of the parent panics; the [budget] measure
      of the fault-free phase; the generic section [Drain]: a worker whose
      requests keep an invariant and, once the oracle is exhausted, use up
      a budget becomes idle within [length faults + m0] requests.
    - [Teardown] (Module [Teardown]): the invariant [tear_inv] of the
      worker releasing a disabled parent (the queue holds at most the
      parent's key, the parent keeps its annotations, deletion timestamp
      and owner references, no StatefulSet is written), the pass
      [Reconcile_release] that removes the finalizer or fails with an
      injected error, and its [Drain] instance.
    - [Template] (Module [Template]): [parseFile] over the working
      directory [Dir] with its two early returns ([ReadFile]'s and
      [Unmarshal]'s errors), the decoder class [Unmarshal] for
      [yaml.Unmarshal], and [files_of], the [Files] view of a directory
      that [Controller]'s [parseFile_svc] and [parseFile_sts] read.
    - [Collision] (Module [Collision]): the preorder [ident_kept] (the
      Service at the child key keeps its UID, annotations and finalizers)
      kept by every pass, and the takeover of a foreign Service that sits
      under the child name.
    - [Main] (Module [Main]): [main] with its [os.Exit(1)] branches, the
      process environment [ProcEnv], [Start] (the informers' initial list,
      then the worker until the signal).

    ** The theorems

    - Provisioning ([Reconcile_provisions]): an enabled Service in a
      fault-free world gets the finalizer and both children, owned by it
      and carrying the desired specs, in one pass; a second pass changes
      nothing and writes only a no-op update of the parent
      ([Reconcile_idempotent]), because both mutate functions are
      idempotent and [CreateOrUpdate] skips settled objects.  An existing
      child with nil labels makes every pass panic after the finalizer is
      written ([Reconcile_nil_labels_panics]).
    - Refinement ([Reconcile_refines_spec]): a fault-free pass moves the
      abstract view exactly as one step of the spec's state machine;
      [reconcile_disabled_spec]: the code's enable test is the spec's rule.
    - Convergence ([Reconcile_converges]): after any number of passes
      under any pattern of failures, a pass without failures completes
      provisioning; failed passes are resumed, not rolled back.
    - Frame ([Reconcile_frame]): under any faults a pass writes only the
      parent and the objects at its child key, and deletes nothing but the
      parent; children are only owner-tagged, never deleted.
    - Ordering under any faults: the finalizer is written before any
      child ([Reconcile_finalizer_first]).
    - Teardown: with the device-ID annotation the finalizer goes and the
      Service is deleted when due ([Reconcile_removes_finalizer]); without
      it nothing is written and the deletion never completes
      ([Reconcile_keeps_finalizer]); disabled
      Services without the finalizer are left alone; a missing Service is
      an error, also on the pass that follows the release of a deleted
      parent ([Reconcile_teardown_second_pass]).
    - The builder: content, totality and panics of the desired StatefulSet,
      the closures replacing the children's specs, the [ServiceName].
    - [addOrUpdateEnv]: equivalence with the reference, by-key behaviour,
      idempotence.  [hostName]: bounds, and equal hostnames exactly for
      equal names and equal [uid[:8]].
    - The running controller ([controller_settles]): started with the
      parent's request queued, the worker becomes idle within
      [length faults + 4] requests, never crashes, and leaves the parent
      provisioned; [main_provisions] lifts it to the process: [main] on a
      cluster whose only Service is the parent exits 0 after the signal
      with the parent provisioned.  [main_exit_one]: [main] exits 1 only
      on a missing configuration or an error of [NewManager] or [Start];
      the error branch of [New] is dead.  Disabling a parent that has
      the device-ID annotation releases it ([disable_releases]): the
      worker becomes idle within [length faults + 2] requests with the
      finalizer gone and the parent otherwise as it was.  Deleting a
      parent whose only finalizer is ours ends in a request that never
      leaves the queue ([deletion_spins]): the release lets the API server
      delete it, and every later pass fails with [NotFound].  A [svc.yaml]
      that cannot be read or decoded has the same effect on an enabled
      parent ([template_error_spins]): the finalizer is written, no child,
      and the request is re-added forever.  A [sts.yaml] that fails
      while [svc.yaml] is usable leaves the parent half provisioned
      ([sts_template_error_partial]): the finalizer and the Service child
      are written, no StatefulSet, because [deployTailscale] reconciles
      the Service child first.
    - Name collisions ([Reconcile_takes_over_sibling]): a Service a user
      created under the name [<name>-tailscale] is taken over by the
      parent's pass: it keeps its UID and annotations but gets the
      parent's owner reference, label and the template's spec.
    - What the wiring misses: the owner references [createOrUpdate] writes
      carry no controller flag, so the [Owns] watches never enqueue the parent
      ([Owns_never_enqueues_owner]) and a deleted child stays deleted
      while the worker idles ([child_deletion_not_repaired]); a deleted
      Service is retried forever ([deleted_service_retried_forever]); one
      foreign Service with nil labels under a child name crashes the
      process ([main_crashes_nil_labels]).

    ** Bounds and fuel

    Every definition of the reconciler is structurally recursive: its
    loops are the loop of [addOrUpdateEnv] over the container's
    environment and the loops of the [controllerutil] helpers over
    finalizers and owner references, all over finite lists; [run_queue]
    recurses on the finite list of requests the scheduler delivers.  The
    worker loop never ends by itself, so [run] takes fuel: the number of
    requests processed before the process is stopped ([ProcEnv]'s
    signal).  The fuel [length faults + 4] of [controller_settles] is
    enough because every pass consumes an entry of the oracle while it
    lasts ([Reconcile_consumes]), and afterwards at most four requests
    remain: the queue holds at most the parent's key and its child key,
    and the parent's first fault-free pass, which may re-add both, leaves
    it done, after which passes write nothing ([budget]).  The fuel
    [length faults + 2] of [disable_releases] counts the release and the
    pass its own update asks for.  Resource versions and timestamps are
    [nat]: the code only compares them.

    ** Not modelled

    The struct [ServiceReconciler] of [controller.go], which only embeds
    the client: its methods are programs of the world monad [M], whose
    state is what the client reaches.  Logging; the value of the flag [--tailscale-image] of [src/main.go]
    ([Main.flags] records its registration; [flag.Parse] is never called
    and the value never read); a manager running several controllers (only
    one is ever registered); the rate limiter's delays (a failed request
    is re-added at once: delays change when a request runs, not which
    requests run) and the periodic resync; [MaxConcurrentReconciles]
    above one (the default is one worker); the informer
    cache (reads here see the store itself, not a stale copy); the YAML
    grammar ([Template]'s [parseFile] reads the working directory and calls
    the decoder [Unmarshal], whose result is not computed from the text); UID generation by the API server on create, and its
    defaulting of the children's specs (the allocated cluster IP, the
    StatefulSet defaults): the closures replace the whole spec with the
    template's, so against a defaulting server the idempotence theorem
    becomes an [Update] per child and pass that the server finds
    unchanged; Kubernetes garbage collection of owned children, which acts
    outside the controller; Service status and the fields the code never
    reads.  Passes run one at a time, as with the single worker [New]
    gets by default; writes by other clients are modelled between two
    requests ([user_write]), and a write racing with a pass shows up in
    the pass as a conflict on a stale resource version, which is among
    the failures the fault oracle injects.  [referSameObject]
    takes the group of an [apiVersion] as the text before its first
    ["/"], where [schema.ParseGroupVersion] rejects a malformed value. *)

From stdpp Require Export base gmap strings list.
From Stdlib Require Export Ascii.

(** ** Prelude: results of fallible Go code and the reconciler's monad *)

Declare Scope ctrl_scope.
Delimit Scope ctrl_scope with ctrl.

(** A Go function returning [(T, error)], or panicking, yields [Ok v] or
    [Err e]. *)
Inductive res (E A : Type) : Type :=
| Ok (a : A)
| Err (e : E).
Arguments Ok {E A} a.
Arguments Err {E A} e.

Definition res_bind {E A B} (r : res E A) (k : A -> res E B) : res E B :=
  match r with Ok a => k a | Err e => Err e end.

Definition is_ok {E A} (r : res E A) : bool :=
  match r with Ok _ => true | Err _ => false end.

(** Stateful code against the API server threads an explicit world. *)
Definition stM (S E A : Type) : Type := S -> res E A * S.

Definition sret {S E A} (a : A) : stM S E A := fun s => (Ok a, s).
Definition sfail {S E A} (e : E) : stM S E A := fun s => (Err e, s).
Definition slift {S E A} (r : res E A) : stM S E A := fun s => (r, s).
Definition sbind {S E A B} (m : stM S E A) (k : A -> stM S E B) : stM S E B :=
  fun s => match m s with
           | (Ok a, s') => k a s'
           | (Err e, s') => (Err e, s')
           end.

Notation "'let?' x := r 'in' k" := (res_bind r (fun x => k))
  (at level 10, x name, r at level 100, k at level 200) : ctrl_scope.
Notation "x <- m ;; k" := (sbind m (fun x => k))
  (at level 100, m at next level, right associativity) : ctrl_scope.
Notation "m ;;; k" := (sbind m (fun _ => k))
  (at level 100, right associativity) : ctrl_scope.

Open Scope ctrl_scope.

Section MonadLaws.
Context {S E : Type}.

Lemma sbind_ok {A B} (m : stM S E A) (k : A -> stM S E B) s a s' :
  m s = (Ok a, s') -> sbind m k s = k a s'.
Proof. unfold sbind. by intros ->. Qed.

Lemma sbind_err {A B} (m : stM S E A) (k : A -> stM S E B) s e s' :
  m s = (Err e, s') -> sbind m k s = (Err e, s').
Proof. unfold sbind. by intros ->. Qed.

Lemma sbind_assoc {A B C} (m : stM S E A) (k : A -> stM S E B)
      (h : B -> stM S E C) s :
  sbind (sbind m k) h s = sbind m (fun a => sbind (k a) h) s.
Proof. unfold sbind. destruct (m s) as [[a|e] s']; reflexivity. Qed.

Lemma sbind_ret {A B} (a : A) (k : A -> stM S E B) s :
  sbind (sret a) k s = k a s.
Proof. reflexivity. Qed.
End MonadLaws.

(** A program stays [within] a preorder [R] on states when every run,
    successful or failed, ends in a state [R]-related to the start:
    invariants (logs only grow, well-formedness is kept) proved once per
    primitive and composed through [sbind]. *)
Section Within.
Context {S E : Type} (R : S -> S -> Prop) `{!PreOrder R}.

Definition within {A} (m : stM S E A) : Prop := forall s, R s (snd (m s)).

Lemma within_ret {A} (a : A) : within (sret a).
Proof. intros s. simpl. reflexivity. Qed.

Lemma within_fail {A} (e : E) : within (A:=A) (sfail e).
Proof. intros s. simpl. reflexivity. Qed.

Lemma within_lift {A} (r : res E A) : within (slift r).
Proof. intros s. simpl. reflexivity. Qed.

Lemma within_bind {A B} (m : stM S E A) (k : A -> stM S E B) :
  within m -> (forall a, within (k a)) -> within (sbind m k).
Proof.
  intros Hm Hk s. unfold sbind. specialize (Hm s).
  destruct (m s) as [[a|e] s'] eqn:Hms; simpl in *; [|done].
  etrans; [exact Hm|apply Hk].
Qed.
End Within.

(** Two relations a program stays within combine into any relation their
    intersection implies. *)
Lemma within_conj {S E A} (R1 R2 R3 : S -> S -> Prop) (m : stM S E A) :
  within R1 m -> within R2 m -> (forall s s', R1 s s' -> R2 s s' -> R3 s s') -> within R3 m.
Proof. intros H1 H2 H s. apply H; [apply H1|apply H2]. Qed.

(** ** Generic lemmas on strings, lists and options *)

(** stdpp declares [String.append] [simpl never]; its two equations. *)
Lemma string_app_nil (t : string) : String.append EmptyString t = t.
Proof. reflexivity. Qed.

Lemma string_app_cons c (s t : string) :
  String.append (String c s) t = String c (String.append s t).
Proof. reflexivity. Qed.

Lemma string_length_app (s1 s2 : string) :
  String.length (String.append s1 s2) = String.length s1 + String.length s2.
Proof.
  induction s1 as [|c s1 IH]; [reflexivity|].
  rewrite string_app_cons; simpl; rewrite IH; reflexivity.
Qed.

(** [fmt.Sprintf("%s<suffix>", s)] is injective in [s]: cancel a common
    suffix. *)
Lemma string_app_cancel_r (t s1 s2 : string) :
  String.append s1 t = String.append s2 t -> s1 = s2.
Proof.
  revert s2. induction s1 as [|c1 s1 IH]; intros [|c2 s2] H;
    rewrite ?string_app_nil, ?string_app_cons in H.
  - done.
  - apply (f_equal String.length) in H. simpl in H; rewrite string_length_app in H; lia.
  - apply (f_equal String.length) in H. simpl in H; rewrite string_length_app in H; lia.
  - injection H as -> H. f_equal. by apply IH.
Qed.

Lemma string_app_cancel_l (t s1 s2 : string) :
  String.append t s1 = String.append t s2 -> s1 = s2.
Proof. apply (inj (String.append t)). Qed.

(** Filtering twice by one predicate is filtering once. *)
Lemma filter_idemp {A} (P : A -> Prop) `{!forall x, Decision (P x)} (l : list A) :
  filter P (filter P l) = filter P l.
Proof.
  induction l as [|x l IH]; [done|]. rewrite filter_cons.
  destruct (decide (P x)); [|done]. by rewrite filter_cons, decide_True, IH.
Qed.

(** ** Automation *)

(** [ctrl] holds the facts that close the side conditions the models
    raise again and again (the child key differs from the parent's). *)
Create HintDb ctrl discriminated.

(** Decide a decidable proposition about a concrete value by evaluation. *)
Ltac decide_by_vm := apply (proj1 (bool_decide_eq_true _)); vm_compute; reflexivity.

(** Refute a hypothesis [lookup = Some _] about a concrete store by
    evaluation. *)
Ltac absurd_by_vm := let H := fresh "H" in intros ? H; vm_compute in H; discriminate.
