(* ===== verification/GoRuntime.v ===== *)
(** * The Go semantics the controller relies on

    The error values of the controller (API errors, file errors, and the
    run-time panics of the Go code), Go's nil-able [map[string]string] with
    the panic on assignment into a nil map, the zero-or-value read
    [v, ok := m[k]], slice indexing [c[0]] and string slicing [s[:n]] with
    their bounds panics, and [strings.ToLower] as used on the enable
    annotation. *)

From S2P Require Import Spec2Rocq.

(** ** Errors *)

(** Run-time panics that the controller's code can raise. *)
Inductive panic : Type :=
| PanicNilMap        (** assignment to entry in nil map *)
| PanicIndex         (** index out of range, [Containers[0]] *)
| PanicSlice         (** slice bounds out of range, [string(uid)[:8]] *)
| PanicNilPointer.   (** nil pointer dereference, [Spec.Selector.MatchLabels] *)

(** Errors a reconcile pass can end with: the API server's status errors,
    the template files of [parseFile], the owner-reference check of
    [controllerutil.SetOwnerReference], the key check of
    [controllerutil.CreateOrUpdate], and panics. *)
Inductive go_error : Type :=
| ErrNotFound
| ErrAlreadyExists
| ErrConflict
| ErrTransient
| ErrFile (fn : string)
| ErrOwner
| ErrMutateKey
| ErrPanic (p : panic).

#[export] Instance panic_eq_dec : EqDecision panic.
Proof. solve_decision. Defined.
#[export] Instance go_error_eq_dec : EqDecision go_error.
Proof. solve_decision. Defined.

(** ** Go maps: [nil] is [None], [make(map[string]string)] is [Some ∅] *)

Abbreviation GoMap := (option (gmap string string)).

Definition gomap_make : GoMap := Some ∅.

(** [m[k] = v]: panics on a nil map. *)
Definition gomap_set (m : GoMap) (k v : string) : res go_error GoMap :=
  match m with
  | None => Err (ErrPanic PanicNilMap)
  | Some m' => Ok (Some (<[k:=v]> m'))
  end.

(** [v, ok := m[k]]: reading a nil map finds nothing. *)
Definition gomap_get (m : GoMap) (k : string) : option string :=
  match m with
  | None => None
  | Some m' => m' !! k
  end.

(** [equality.Semantic.DeepEqual] treats a nil map and an empty map as
    equal: the normal form used to compare objects. *)
Definition gomap_norm (m : GoMap) : GoMap :=
  match m with
  | Some m' => if decide (m' = ∅) then None else Some m'
  | None => None
  end.

(** ** Slices and strings *)

(** [l[i]] on a slice: panics out of range. *)
Definition go_index {A} (l : list A) (i : nat) : res go_error A :=
  match l !! i with
  | Some x => Ok x
  | None => Err (ErrPanic PanicIndex)
  end.

(** [s[:n]] on a string (bytes): panics when [n > len(s)]. *)
Definition go_slice_prefix (s : string) (n : nat) : res go_error string :=
  if decide (n <= String.length s) then Ok (String.substring 0 n s)
  else Err (ErrPanic PanicSlice).

(** [strings.ToLower], on the bytes of the string: ASCII upper-case letters
    are shifted to lower case.  Go maps every rune through
    [unicode.ToLower]; for the only use in the controller, a comparison
    with ["true"], the two agree, since no non-ASCII rune has [t], [r], [u]
    or [e] as its lower case. *)
Definition ascii_lower (c : ascii) : ascii :=
  let n := nat_of_ascii c in
  if decide (65 <= n /\ n <= 90) then ascii_of_nat (n + 32) else c.

Fixpoint go_to_lower (s : string) : string :=
  match s with
  | EmptyString => EmptyString
  | String c s' => String (ascii_lower c) (go_to_lower s')
  end.

(** ** Lemmas *)

Lemma gomap_set_ok (m : gmap string string) k v :
  gomap_set (Some m) k v = Ok (Some (<[k:=v]> m)).
Proof. reflexivity. Qed.

Lemma gomap_set_nil k v : gomap_set None k v = Err (ErrPanic PanicNilMap).
Proof. reflexivity. Qed.

Lemma gomap_get_set (m m' : GoMap) k v :
  gomap_set m k v = Ok m' -> gomap_get m' k = Some v.
Proof.
  destruct m; simpl; intros H; inversion H; subst. simpl. apply lookup_insert_eq.
Qed.

Lemma gomap_get_set_ne (m m' : GoMap) k k' v :
  k <> k' -> gomap_set m k v = Ok m' -> gomap_get m' k' = gomap_get m k'.
Proof.
  destruct m; simpl; intros Hne H; inversion H; subst. simpl.
  by apply lookup_insert_ne.
Qed.

Lemma gomap_set_is_some (m m' : GoMap) k v :
  gomap_set m k v = Ok m' -> is_Some m /\ is_Some m'.
Proof. destruct m; simpl; intros H; inversion H; subst; eauto. Qed.

Lemma gomap_norm_idemp (m : GoMap) : gomap_norm (gomap_norm m) = gomap_norm m.
Proof.
  destruct m as [m|]; simpl; [|done].
  destruct (decide (m = ∅)); simpl; [done|]. by rewrite decide_False.
Qed.

Lemma go_index_0 {A} (x : A) l : go_index (x :: l) 0 = Ok x.
Proof. reflexivity. Qed.

Lemma go_index_nil {A} i : @go_index A [] i = Err (ErrPanic PanicIndex).
Proof. reflexivity. Qed.

Lemma go_slice_prefix_ok s n :
  n <= String.length s -> go_slice_prefix s n = Ok (String.substring 0 n s).
Proof. intros H. unfold go_slice_prefix. by rewrite decide_True. Qed.

Lemma go_slice_prefix_panic s n :
  String.length s < n -> go_slice_prefix s n = Err (ErrPanic PanicSlice).
Proof. intros H. unfold go_slice_prefix. rewrite decide_False; [done|lia]. Qed.

Lemma substring_0_length s n :
  n <= String.length s -> String.length (String.substring 0 n s) = n.
Proof.
  revert s. induction n as [|n IH]; intros [|c s] H; simpl in *; try lia.
  f_equal. apply IH. lia.
Qed.

Lemma go_to_lower_length s : String.length (go_to_lower s) = String.length s.
Proof. induction s; simpl; congruence. Qed.

