(* ===== verification/Objects.v ===== *)
(** * The Kubernetes objects the controller reads and writes

    The fields of [corev1.Service] and [appsv1.StatefulSet] that the code of
    [src/pkg/controller] reads or writes, as records (status and the fields
    the code never touches are left out); the [object] interface of
    [tailscale.go] as a type class with its laws; the normal form behind
    [equality.Semantic.DeepEqual]; and the [controllerutil] helpers the
    code calls on finalizers and owner references. *)

From S2P Require Import Spec2Rocq GoRuntime.

(** ** Records *)

(** [Controller] is a [*bool]: [None] is [nil]. *)
Record OwnerReference : Type := mkOwnerReference {
  or_api_version : string;
  or_kind : string;
  or_name : string;
  or_uid : string;
  or_controller : option bool
}.

Record ObjectMeta : Type := mkObjectMeta {
  om_name : string;
  om_namespace : string;
  om_uid : string;
  om_resource_version : nat;
  om_labels : GoMap;
  om_annotations : GoMap;
  om_finalizers : list string;
  om_deletion_timestamp : option nat;
  om_owner_references : list OwnerReference
}.

Record ServicePort : Type := mkServicePort {
  sp_name : string;
  sp_port : nat;
  sp_target_port : nat
}.

Record ServiceSpec : Type := mkServiceSpec {
  svc_selector : GoMap;
  svc_cluster_ip : string;
  svc_ports : list ServicePort;
  svc_type : string
}.

Record Service : Type := mkService {
  svc_meta : ObjectMeta;
  svc_spec : ServiceSpec
}.

(** [valueFrom]: a reference to a field, secret or config map. *)
Record EnvVarSource : Type := mkEnvVarSource { evs_ref : string }.

Record EnvVar : Type := mkEnvVar {
  ev_name : string;
  ev_value : string;
  ev_value_from : option EnvVarSource
}.

Record Container : Type := mkContainer {
  c_name : string;
  c_image : string;
  c_env : list EnvVar
}.

Record PodSpec : Type := mkPodSpec {
  ps_hostname : string;
  ps_containers : list Container
}.

(** [Template.Labels] is the template's [ObjectMeta.Labels]. *)
Record PodTemplateSpec : Type := mkPodTemplateSpec {
  pt_labels : GoMap;
  pt_spec : PodSpec
}.

Record LabelSelector : Type := mkLabelSelector { ls_match_labels : GoMap }.

(** [Selector] is a pointer: [None] is [nil]. *)
Record StatefulSetSpec : Type := mkStatefulSetSpec {
  sts_replicas : option nat;
  sts_selector : option LabelSelector;
  sts_template : PodTemplateSpec;
  sts_service_name : string
}.

Record StatefulSet : Type := mkStatefulSet {
  sts_meta : ObjectMeta;
  sts_spec : StatefulSetSpec
}.

#[export] Instance OwnerReference_eq_dec : EqDecision OwnerReference.
Proof. solve_decision. Defined.
#[export] Instance ObjectMeta_eq_dec : EqDecision ObjectMeta.
Proof. solve_decision. Defined.
#[export] Instance ServicePort_eq_dec : EqDecision ServicePort.
Proof. solve_decision. Defined.
#[export] Instance ServiceSpec_eq_dec : EqDecision ServiceSpec.
Proof. solve_decision. Defined.
#[export] Instance Service_eq_dec : EqDecision Service.
Proof. solve_decision. Defined.
#[export] Instance EnvVarSource_eq_dec : EqDecision EnvVarSource.
Proof. solve_decision. Defined.
#[export] Instance EnvVar_eq_dec : EqDecision EnvVar.
Proof. solve_decision. Defined.
#[export] Instance Container_eq_dec : EqDecision Container.
Proof. solve_decision. Defined.
#[export] Instance PodSpec_eq_dec : EqDecision PodSpec.
Proof. solve_decision. Defined.
#[export] Instance PodTemplateSpec_eq_dec : EqDecision PodTemplateSpec.
Proof. solve_decision. Defined.
#[export] Instance LabelSelector_eq_dec : EqDecision LabelSelector.
Proof. solve_decision. Defined.
#[export] Instance StatefulSetSpec_eq_dec : EqDecision StatefulSetSpec.
Proof. solve_decision. Defined.
#[export] Instance StatefulSet_eq_dec : EqDecision StatefulSet.
Proof. solve_decision. Defined.

(** ** Field updates (Go assignments [x.f = v]) *)

Definition meta_with_labels (l : GoMap) (m : ObjectMeta) : ObjectMeta :=
  mkObjectMeta (om_name m) (om_namespace m) (om_uid m) (om_resource_version m)
    l (om_annotations m) (om_finalizers m) (om_deletion_timestamp m)
    (om_owner_references m).

Definition meta_with_finalizers (f : list string) (m : ObjectMeta) : ObjectMeta :=
  mkObjectMeta (om_name m) (om_namespace m) (om_uid m) (om_resource_version m)
    (om_labels m) (om_annotations m) f (om_deletion_timestamp m)
    (om_owner_references m).

Definition meta_with_owner_references (r : list OwnerReference) (m : ObjectMeta)
  : ObjectMeta :=
  mkObjectMeta (om_name m) (om_namespace m) (om_uid m) (om_resource_version m)
    (om_labels m) (om_annotations m) (om_finalizers m) (om_deletion_timestamp m) r.

Definition meta_with_resource_version (rv : nat) (m : ObjectMeta) : ObjectMeta :=
  mkObjectMeta (om_name m) (om_namespace m) (om_uid m) rv
    (om_labels m) (om_annotations m) (om_finalizers m) (om_deletion_timestamp m)
    (om_owner_references m).

(** The fields the API server manages: a write keeps the stored object's
    UID and deletion timestamp and sets the resource version. *)
Definition meta_with_system (uid : string) (dts : option nat) (rv : nat) (m : ObjectMeta)
  : ObjectMeta :=
  mkObjectMeta (om_name m) (om_namespace m) uid rv
    (om_labels m) (om_annotations m) (om_finalizers m) dts (om_owner_references m).

(** [ObjectMeta{Name: n, Namespace: ns, Labels: make(map[string]string)}]. *)
Definition meta_init (ns n : string) : ObjectMeta :=
  mkObjectMeta n ns "" 0 gomap_make None [] None [].

(** The normal form of metadata under [DeepEqual]: nil and empty maps
    are identified. *)
Definition meta_norm (m : ObjectMeta) : ObjectMeta :=
  mkObjectMeta (om_name m) (om_namespace m) (om_uid m) (om_resource_version m)
    (gomap_norm (om_labels m)) (gomap_norm (om_annotations m)) (om_finalizers m)
    (om_deletion_timestamp m) (om_owner_references m).

(** ** The [object] interface of [tailscale.go] *)

(** [type object interface { runtime.Object; client.Object }]: an object
    with metadata, a kind, and the normal form its [DeepEqual] compares. *)
Class object (T : Type) := {
  obj_kind : string;
  obj_api_version : string;
  obj_meta : T -> ObjectMeta;
  obj_set_meta : ObjectMeta -> T -> T;
  obj_norm : T -> T;
  obj_meta_set : forall m o, obj_meta (obj_set_meta m o) = m;
  obj_set_meta_id : forall o, obj_set_meta (obj_meta o) o = o;
  obj_set_set : forall m m' o, obj_set_meta m (obj_set_meta m' o) = obj_set_meta m o;
  obj_meta_norm : forall o, obj_meta (obj_norm o) = meta_norm (obj_meta o)
}.

Definition obj_key {T} `{object T} (o : T) : string * string :=
  (om_namespace (obj_meta o), om_name (obj_meta o)).

(** [equality.Semantic.DeepEqual] on two objects. *)
Definition semantic_deep_equal {T} `{object T} `{EqDecision T} (a b : T) : bool :=
  bool_decide (obj_norm a = obj_norm b).

Definition service_spec_norm (sp : ServiceSpec) : ServiceSpec :=
  mkServiceSpec (gomap_norm (svc_selector sp)) (svc_cluster_ip sp) (svc_ports sp) (svc_type sp).

Definition service_norm (s : Service) : Service :=
  mkService (meta_norm (svc_meta s)) (service_spec_norm (svc_spec s)).

Definition statefulset_spec_norm (sp : StatefulSetSpec) : StatefulSetSpec :=
  let tp := sts_template sp in
  mkStatefulSetSpec (sts_replicas sp)
    (option_map (fun ls => mkLabelSelector (gomap_norm (ls_match_labels ls))) (sts_selector sp))
    (mkPodTemplateSpec (gomap_norm (pt_labels tp)) (pt_spec tp))
    (sts_service_name sp).

Definition statefulset_norm (s : StatefulSet) : StatefulSet :=
  mkStatefulSet (meta_norm (sts_meta s)) (statefulset_spec_norm (sts_spec s)).

#[export] Program Instance Service_object : object Service := {|
  obj_kind := "Service";
  obj_api_version := "v1";
  obj_meta := svc_meta;
  obj_set_meta := fun m s => mkService m (svc_spec s);
  obj_norm := service_norm
|}.
Next Obligation. done. Qed.
Next Obligation. by intros []. Qed.
Next Obligation. done. Qed.
Next Obligation. done. Qed.

#[export] Program Instance StatefulSet_object : object StatefulSet := {|
  obj_kind := "StatefulSet";
  obj_api_version := "apps/v1";
  obj_meta := sts_meta;
  obj_set_meta := fun m s => mkStatefulSet m (sts_spec s);
  obj_norm := statefulset_norm
|}.
Next Obligation. done. Qed.
Next Obligation. by intros []. Qed.
Next Obligation. done. Qed.
Next Obligation. done. Qed.

(** ** [controllerutil]: finalizers *)

Section Finalizers.
Context {T : Type} `{object T}.

Definition ContainsFinalizer (o : T) (f : string) : bool :=
  bool_decide (f ∈ om_finalizers (obj_meta o)).

Definition AddFinalizer (o : T) (f : string) : T :=
  if ContainsFinalizer o f then o
  else obj_set_meta
         (meta_with_finalizers (om_finalizers (obj_meta o) ++ [f]) (obj_meta o)) o.

Definition RemoveFinalizer (o : T) (f : string) : T :=
  obj_set_meta
    (meta_with_finalizers (filter (fun e => e <> f) (om_finalizers (obj_meta o)))
       (obj_meta o)) o.
End Finalizers.

(** ** [controllerutil]: owner references *)

(** [schema.ParseGroupVersion(v).Group]: the part of [apiVersion] before
    ["/"], empty for the core group ["v1"]. *)
Fixpoint group_prefix (v : string) : option string :=
  match v with
  | EmptyString => None
  | String c v' =>
      if decide (c = "/"%char) then Some EmptyString
      else option_map (String c) (group_prefix v')
  end.

Definition api_group (v : string) : string := default EmptyString (group_prefix v).

(** [referSameObject]: same group, kind and name (the UID is not compared). *)
Definition referSameObject (a b : OwnerReference) : bool :=
  bool_decide (api_group (or_api_version a) = api_group (or_api_version b) /\
               or_kind a = or_kind b /\ or_name a = or_name b).

Fixpoint indexOwnerRef (l : list OwnerReference) (r : OwnerReference) : option nat :=
  match l with
  | [] => None
  | x :: l' => if referSameObject x r then Some 0 else S <$> indexOwnerRef l' r
  end.

(** [validateOwner]: a namespaced owner must live in the object's namespace. *)
Definition validateOwner (owner obj : ObjectMeta) : res go_error unit :=
  if decide (om_namespace owner = "") then Ok tt
  else if decide (om_namespace obj = "") then Err ErrOwner
  else if decide (om_namespace owner = om_namespace obj) then Ok tt
  else Err ErrOwner.

Section OwnerRefs.
Context {TO T : Type} `{object TO} `{object T}.

(** [upsertOwnerRef]: replace the reference to the same object, or append. *)
Definition upsertOwnerRef (r : OwnerReference) (o : T) : T :=
  let owners := om_owner_references (obj_meta o) in
  let owners' := match indexOwnerRef owners r with
                 | None => owners ++ [r]
                 | Some i => <[i:=r]> owners
                 end in
  obj_set_meta (meta_with_owner_references owners' (obj_meta o)) o.

(** The reference [SetOwnerReference] builds: [APIVersion], [Kind], [Name]
    and [UID] of the owner; [Controller] and [BlockOwnerDeletion] are left
    [nil] (only [SetControllerReference] sets them). *)
Definition owner_ref_of (owner : TO) : OwnerReference :=
  mkOwnerReference (@obj_api_version TO _) (@obj_kind TO _)
    (om_name (obj_meta owner)) (om_uid (obj_meta owner)) None.

Definition SetOwnerReference (owner : TO) (o : T) : res go_error T :=
  let? _ := validateOwner (obj_meta owner) (obj_meta o) in
  Ok (upsertOwnerRef (owner_ref_of owner) o).
End OwnerRefs.

(** ** Lemmas *)

Lemma gomap_get_norm (m : GoMap) k : gomap_get (gomap_norm m) k = gomap_get m k.
Proof.
  destruct m as [m|]; simpl; [|done].
  destruct (decide (m = ∅)) as [->|]; simpl; [by rewrite lookup_empty|done].
Qed.

(** What two objects [DeepEqual] identifies have in common. *)
Lemma meta_norm_inv (a b : ObjectMeta) :
  meta_norm a = meta_norm b ->
  om_owner_references a = om_owner_references b /\
  om_finalizers a = om_finalizers b /\
  (forall k, gomap_get (om_labels a) k = gomap_get (om_labels b) k) /\
  (forall k, gomap_get (om_annotations a) k = gomap_get (om_annotations b) k).
Proof.
  destruct a, b; unfold meta_norm; simpl. intros [= -> -> -> -> Hl Ha -> -> ->].
  split; [done|]. split; [done|].
  split; intros k; [rewrite <- (gomap_get_norm om_labels0), Hl|
                    rewrite <- (gomap_get_norm om_annotations0), Ha]; apply gomap_get_norm.
Qed.

Lemma service_norm_inv (a b : Service) :
  service_norm a = service_norm b ->
  meta_norm (svc_meta a) = meta_norm (svc_meta b) /\
  svc_cluster_ip (svc_spec a) = svc_cluster_ip (svc_spec b) /\
  svc_ports (svc_spec a) = svc_ports (svc_spec b) /\
  svc_type (svc_spec a) = svc_type (svc_spec b) /\
  (forall k, gomap_get (svc_selector (svc_spec a)) k = gomap_get (svc_selector (svc_spec b)) k).
Proof.
  intros H. pose proof (f_equal svc_meta H) as Hm. pose proof (f_equal svc_spec H) as Hs.
  simpl in Hm, Hs. split; [exact Hm|]. clear H Hm.
  destruct a as [ma [sa ca pa ta]], b as [mb [sb cb pb tb]]; simpl in *.
  unfold service_spec_norm in Hs; simpl in Hs. injection Hs as Hs -> -> ->.
  do 3 (split; [done|]). intros k.
  by rewrite <- (gomap_get_norm sa), Hs, gomap_get_norm.
Qed.

Lemma statefulset_spec_norm_idemp sp :
  statefulset_spec_norm (statefulset_spec_norm sp) = statefulset_spec_norm sp.
Proof.
  destruct sp as [r [[ml]|] [tl ps] sn]; unfold statefulset_spec_norm; simpl;
    by rewrite !gomap_norm_idemp.
Qed.

Lemma upsertOwnerRef_meta {T} `{object T} r (o : T) :
  obj_meta (upsertOwnerRef r o) =
  meta_with_owner_references (om_owner_references (obj_meta (upsertOwnerRef r o))) (obj_meta o).
Proof. unfold upsertOwnerRef. by rewrite !obj_meta_set. Qed.

Lemma indexOwnerRef_lt l r i : indexOwnerRef l r = Some i -> i < length l.
Proof.
  revert i. induction l as [|x l IH]; intros i; simpl; [done|].
  destruct (referSameObject x r); [intros [= <-]; lia|].
  destruct (indexOwnerRef l r) as [j|]; simpl; [intros [= <-]|done].
  specialize (IH j eq_refl). lia.
Qed.

(** After [upsertOwnerRef r], the object refers to [r]. *)
Lemma upsertOwnerRef_in {T} `{object T} r (o : T) :
  r ∈ om_owner_references (obj_meta (upsertOwnerRef r o)).
Proof.
  unfold upsertOwnerRef. rewrite obj_meta_set. simpl.
  destruct (indexOwnerRef _ r) as [i|] eqn:E.
  - apply indexOwnerRef_lt in E. apply list_elem_of_lookup_2 with i.
    by apply list_lookup_insert_eq.
  - set_solver.
Qed.

Lemma referSameObject_refl r : referSameObject r r = true.
Proof. unfold referSameObject. by apply bool_decide_eq_true. Qed.

Lemma indexOwnerRef_insert l r i :
  indexOwnerRef l r = Some i -> indexOwnerRef (<[i:=r]> l) r = Some i.
Proof.
  revert i. induction l as [|x l IH]; intros i; simpl; [done|].
  destruct (referSameObject x r) eqn:Hx.
  - intros [= <-]. simpl. by rewrite referSameObject_refl.
  - destruct (indexOwnerRef l r) as [j|] eqn:E; simpl; [|done].
    intros [= <-]. simpl. rewrite Hx. by rewrite (IH j eq_refl).
Qed.

Lemma indexOwnerRef_app_new l r :
  indexOwnerRef l r = None -> indexOwnerRef (l ++ [r]) r = Some (length l).
Proof.
  induction l as [|x l IH]; simpl; [by rewrite referSameObject_refl|].
  destruct (referSameObject x r); [done|].
  destruct (indexOwnerRef l r); simpl; [done|]. intros _. by rewrite IH.
Qed.

(** The owner list [upsertOwnerRef] computes is a fixed point of it: a
    second upsert of the same reference finds it where the first put it. *)
Lemma upsert_refs_idem (l : list OwnerReference) r :
  let l' := match indexOwnerRef l r with None => l ++ [r] | Some i => <[i:=r]> l end in
  match indexOwnerRef l' r with None => l' ++ [r] | Some i => <[i:=r]> l' end = l'.
Proof.
  simpl. destruct (indexOwnerRef l r) as [i|] eqn:E.
  - rewrite (indexOwnerRef_insert _ _ _ E). apply list_insert_insert_eq.
  - rewrite (indexOwnerRef_app_new _ _ E). apply list_insert_id.
    by rewrite lookup_app_r, Nat.sub_diag by lia.
Qed.

(** Every reference after [upsertOwnerRef r] is [r] or was there before. *)
Lemma upsertOwnerRef_sub {T} `{object T} r (o : T) x :
  x ∈ om_owner_references (obj_meta (upsertOwnerRef r o)) ->
  x = r \/ x ∈ om_owner_references (obj_meta o).
Proof.
  unfold upsertOwnerRef. rewrite obj_meta_set. simpl.
  destruct (indexOwnerRef _ r) as [i|].
  - intros [j Hj]%list_elem_of_lookup.
    apply list_lookup_insert_Some in Hj as [(_ & -> & _)|[_ Hj]]; [by left|].
    right. by apply list_elem_of_lookup_2 with j.
  - intros [Hx | ->%list_elem_of_singleton]%elem_of_app; [by right|by left].
Qed.

Lemma SetOwnerReference_inv {TO T} `{object TO} `{object T} (owner : TO) (o o' : T) :
  SetOwnerReference owner o = Ok o' ->
  validateOwner (obj_meta owner) (obj_meta o) = Ok tt /\
  o' = upsertOwnerRef (owner_ref_of owner) o.
Proof.
  unfold SetOwnerReference. destruct (validateOwner _ _) as [[]|]; simpl; [|done].
  by intros [= <-].
Qed.

(** A namespaced owner is accepted only in the object's own namespace. *)
Lemma validateOwner_ns owner obj :
  om_namespace owner <> "" -> validateOwner owner obj = Ok tt ->
  om_namespace obj = om_namespace owner.
Proof.
  unfold validateOwner. intros Hne. rewrite decide_False by done.
  destruct (decide (om_namespace obj = "")); [done|].
  by destruct (decide (om_namespace owner = om_namespace obj)).
Qed.

(** In its own namespace, [SetOwnerReference] cannot fail. *)
Lemma SetOwnerReference_same_ns {TO T} `{object TO} `{object T} (owner : TO) (o : T) :
  om_namespace (obj_meta o) = om_namespace (obj_meta owner) ->
  SetOwnerReference owner o = Ok (upsertOwnerRef (owner_ref_of owner) o).
Proof.
  intros Hns. unfold SetOwnerReference, validateOwner. rewrite Hns.
  destruct (decide (om_namespace (obj_meta owner) = "")); simpl; [done|].
  by rewrite decide_True.
Qed.

Lemma AddFinalizer_meta {T} `{object T} (o : T) f :
  ContainsFinalizer o f = false ->
  obj_meta (AddFinalizer o f) =
  meta_with_finalizers (om_finalizers (obj_meta o) ++ [f]) (obj_meta o).
Proof. unfold AddFinalizer. intros ->. by rewrite obj_meta_set. Qed.

Lemma AddFinalizer_present {T} `{object T} (o : T) f :
  ContainsFinalizer o f = true -> AddFinalizer o f = o.
Proof. unfold AddFinalizer. by intros ->. Qed.

Lemma RemoveFinalizer_meta {T} `{object T} (o : T) f :
  obj_meta (RemoveFinalizer o f) =
  meta_with_finalizers (filter (fun e => e <> f) (om_finalizers (obj_meta o))) (obj_meta o).
Proof. unfold RemoveFinalizer. by rewrite obj_meta_set. Qed.

Lemma ContainsFinalizer_spec {T} `{object T} (o : T) f :
  ContainsFinalizer o f = true <-> f ∈ om_finalizers (obj_meta o).
Proof. unfold ContainsFinalizer. apply bool_decide_eq_true. Qed.

Lemma AddFinalizer_key {T} `{object T} (o : T) f : obj_key (AddFinalizer o f) = obj_key o.
Proof.
  unfold AddFinalizer, obj_key. destruct (ContainsFinalizer o f); [done|].
  by rewrite obj_meta_set.
Qed.

Lemma AddFinalizer_in {T} `{object T} (o : T) f : f ∈ om_finalizers (obj_meta (AddFinalizer o f)).
Proof.
  unfold AddFinalizer. destruct (ContainsFinalizer o f) eqn:Hc.
  - by apply ContainsFinalizer_spec.
  - rewrite obj_meta_set. simpl. set_solver.
Qed.

Lemma RemoveFinalizer_key {T} `{object T} (o : T) f : obj_key (RemoveFinalizer o f) = obj_key o.
Proof. unfold RemoveFinalizer, obj_key. by rewrite obj_meta_set. Qed.
