(* ===== verification/Naming.v ===== *)
(** * Child naming: [fmt.Sprintf("%s-tailscale", svc.Name)] and [hostName]

    The deterministic name of both children of a Service, and the pod
    hostname built from the Service's name and the first eight bytes of
    its UID ([src/pkg/controller/controller.go], [hostName]). *)

From S2P Require Import Spec2Rocq GoRuntime Objects.

Module Naming.

(** [fmt.Sprintf("%s-tailscale", svc.Name)], the name of both children. *)
Definition childName (svc : Service) : string :=
  String.append (om_name (svc_meta svc)) "-tailscale".

(** [fmt.Sprintf("%s-%s", svc.Name, string(svc.UID)[:8])]; the slice
    panics when the UID is shorter than eight bytes. *)
Definition hostName (svc : Service) : res go_error string :=
  let? p := go_slice_prefix (om_uid (svc_meta svc)) 8 in
  Ok (String.append (om_name (svc_meta svc)) (String.append "-" p)).

(** The key [(namespace, name)] of both children. *)
Definition childKey (svc : Service) : string * string :=
  (om_namespace (svc_meta svc), childName svc).

(** A Service fixture for the witnesses below. *)
Definition sample_service (name uid : string) : Service :=
  mkService (mkObjectMeta name "default" uid 1 None None [] None [])
    (mkServiceSpec None "10.0.0.5" [] "ClusterIP").

(** ** Lemmas *)

Lemma childName_length svc :
  String.length (childName svc) = String.length (om_name (svc_meta svc)) + 10.
Proof. unfold childName. by rewrite string_length_app. Qed.

(** A Service is never its own child: the child key differs from the
    parent's key, so writing a child never overwrites the parent. *)
Lemma childKey_ne_parent svc :
  childKey svc <> (om_namespace (svc_meta svc), om_name (svc_meta svc)).
Proof.
  unfold childKey. intros H. injection H as H.
  apply (f_equal String.length) in H. rewrite childName_length in H. lia.
Qed.

(** The child key of a stored parent is never the parent's key. *)
Lemma childKey_ne svc k : obj_key svc = k -> childKey svc <> k.
Proof. intros <-. apply childKey_ne_parent. Qed.

(** [childName] is injective: within a namespace, distinct parents have
    distinct children. *)
Lemma childName_inj s1 s2 :
  childName s1 = childName s2 -> om_name (svc_meta s1) = om_name (svc_meta s2).
Proof. unfold childName. apply string_app_cancel_r. Qed.

Lemma hostName_ok svc :
  8 <= String.length (om_uid (svc_meta svc)) ->
  hostName svc = Ok (String.append (om_name (svc_meta svc))
                       (String.append "-" (String.substring 0 8 (om_uid (svc_meta svc))))).
Proof. intros H. unfold hostName. by rewrite go_slice_prefix_ok. Qed.

(** Strings whose first parts have one length are equal only part by
    part. *)
Lemma string_app_inj a b c d :
  String.length a = String.length c -> String.append a b = String.append c d -> a = c /\ b = d.
Proof.
  revert c. induction a as [|x a IH]; intros [|y c] Hl Heq; simpl in *; try discriminate; [done|].
  injection Heq as -> Heq. destruct (IH c) as [-> ->]; [lia|done|done].
Qed.

(** ** Properties *)

(** C33: [hostName] panics (slice bounds out of range) exactly when the
    UID is shorter than eight bytes; otherwise it returns
    [name ++ "-" ++ uid[:8]], of length [len(name) + 9]. *)
Lemma hostName_bounds svc :
  (String.length (om_uid (svc_meta svc)) < 8 ->
     hostName svc = Err (ErrPanic PanicSlice)) /\
  (8 <= String.length (om_uid (svc_meta svc)) ->
     exists h, hostName svc = Ok h /\
               String.length h = String.length (om_name (svc_meta svc)) + 9).
Proof.
  split; intros H.
  - unfold hostName. by rewrite go_slice_prefix_panic.
  - rewrite hostName_ok by done. eexists; split; [reflexivity|].
    rewrite !string_length_app, substring_0_length by done. simpl. lia.
Qed.

(** C34: [hostName] separates Services only by name and [uid[:8]]: for
    UIDs of eight bytes or more, two Services get the same pod hostname
    exactly when they have the same name and their UIDs share their first
    eight bytes, whatever the rest of the UIDs. *)
Lemma hostName_collision s1 s2 :
  8 <= String.length (om_uid (svc_meta s1)) ->
  8 <= String.length (om_uid (svc_meta s2)) ->
  hostName s1 = hostName s2 <->
  om_name (svc_meta s1) = om_name (svc_meta s2) /\
  String.substring 0 8 (om_uid (svc_meta s1)) = String.substring 0 8 (om_uid (svc_meta s2)).
Proof.
  intros H1 H2. rewrite !hostName_ok by done. split; [|by intros [-> ->]].
  intros [= Heq].
  apply string_app_inj in Heq as [Hn Hp];
    [split; [done|by injection Hp]|].
  apply (f_equal String.length) in Heq. rewrite !string_length_app in Heq.
  rewrite !substring_0_length in Heq by done. simpl in Heq. lia.
Qed.

Lemma hostName_collision_witness :
  om_uid (svc_meta (sample_service "web" "abcd1234-0000-0000-0000-000000000001")) <>
  om_uid (svc_meta (sample_service "web" "abcd1234-0000-0000-0000-000000000002")) /\
  hostName (sample_service "web" "abcd1234-0000-0000-0000-000000000001") =
  hostName (sample_service "web" "abcd1234-0000-0000-0000-000000000002").
Proof.
  split; [simpl; discriminate|].
  apply hostName_collision; simpl; [lia|lia|split; reflexivity].
Defined.

End Naming.

#[export] Hint Resolve Naming.childKey_ne : ctrl.
