(* ===== verification/Env.v ===== *)
(** * [addOrUpdateEnv]: setting [DEST_IP] in a container's environment

    [src/pkg/controller/tailscale.go], [addOrUpdateEnv]: the loop over
    [c.Env] that overwrites the first entry named [key] in place (value
    set, [ValueFrom] cleared) and returns, or appends [{key, value}] when
    no entry has that name.  Proved against a reference definition by
    [list_find] and list insertion, with the by-key properties the spec
    asks of the [DEST_IP] entry. *)

From S2P Require Import Spec2Rocq GoRuntime Objects.

Module Env.

(** [const destIPKey = "DEST_IP"]. *)
Definition destIPKey : string := "DEST_IP".

(** The [for i := range c.Env] loop: [Some env'] when it returned early
    after overwriting entry [i], [None] when it ran to the end. *)
Fixpoint update_first (key value : string) (env : list EnvVar) : option (list EnvVar) :=
  match env with
  | [] => None
  | e :: env' =>
      if decide (ev_name e = key)
      then Some (mkEnvVar (ev_name e) value None :: env')
      else cons e <$> update_first key value env'
  end.

Definition addOrUpdateEnv (key value : string) (c : Container) : Container :=
  mkContainer (c_name c) (c_image c)
    (match update_first key value (c_env c) with
     | Some env' => env'
     | None => c_env c ++ [mkEnvVar key value None]
     end).

(** Reference: find the first entry with that name and replace it, or
    append. *)
Definition set_env_spec (key value : string) (env : list EnvVar) : list EnvVar :=
  match list_find (fun e => ev_name e = key) env with
  | Some (i, _) => <[i := mkEnvVar key value None]> env
  | None => env ++ [mkEnvVar key value None]
  end.

(** The entry a by-key lookup finds: the first one with that name. *)
Definition env_lookup (key : string) (env : list EnvVar) : option EnvVar :=
  snd <$> list_find (fun e => ev_name e = key) env.

Definition env_count (key : string) (env : list EnvVar) : nat :=
  length (filter (fun e => ev_name e = key) env).

(** ** Lemmas on the loop *)

Lemma update_first_spec key value env :
  update_first key value env =
  (fun p => <[p.1 := mkEnvVar key value None]> env)
    <$> list_find (fun e => ev_name e = key) env.
Proof.
  induction env as [|e env IH]; simpl; [done|].
  destruct (decide (ev_name e = key)) as [Hk|Hk]; simpl.
  - by rewrite Hk.
  - rewrite IH. by destruct (list_find _ env) as [[i x]|].
Qed.

Lemma update_first_None key value env :
  update_first key value env = None -> env_lookup key env = None.
Proof.
  rewrite update_first_spec. unfold env_lookup.
  by destruct (list_find _ env).
Qed.

Lemma update_first_lookup key value env env' :
  update_first key value env = Some env' ->
  env_lookup key env' = Some (mkEnvVar key value None).
Proof.
  revert env'. induction env as [|e env IH]; intros env' H; simpl in H; [done|].
  unfold env_lookup; simpl.
  destruct (decide (ev_name e = key)) as [Hk|Hk].
  - injection H as <-. simpl. rewrite decide_True by done. simpl. by rewrite Hk.
  - destruct (update_first key value env) as [l|] eqn:E; simpl in H; [|done].
    injection H as <-. simpl. rewrite decide_False by done.
    specialize (IH l eq_refl). unfold env_lookup in IH.
    destruct (list_find _ l) as [[i x]|]; simpl in *; congruence.
Qed.

Lemma env_lookup_app_new key value env :
  env_lookup key env = None ->
  env_lookup key (env ++ [mkEnvVar key value None]) = Some (mkEnvVar key value None).
Proof.
  unfold env_lookup. induction env as [|e env IH]; simpl.
  - rewrite decide_True by done. done.
  - destruct (decide (ev_name e = key)); [done|].
    destruct (list_find _ env) as [[i x]|]; simpl; [done|].
    intros _. specialize (IH eq_refl).
    destruct (list_find _ (env ++ _)) as [[??]|]; simpl in *; congruence.
Qed.

Lemma update_first_None_count key value env :
  update_first key value env = None -> env_count key env = 0.
Proof.
  unfold env_count. induction env as [|e env IH]; simpl; intros H; [done|].
  destruct (decide (ev_name e = key)); [done|].
  rewrite filter_cons, decide_False by done.
  destruct (update_first key value env); simpl in H; [done|]. auto.
Qed.

Lemma update_first_count key value env env' :
  update_first key value env = Some env' -> env_count key env' = env_count key env.
Proof.
  unfold env_count. revert env'.
  induction env as [|e env IH]; intros env' H; simpl in H; [done|].
  destruct (decide (ev_name e = key)) as [Hk|Hk].
  - injection H as <-. rewrite !filter_cons. simpl.
    rewrite !decide_True by done. done.
  - destruct (update_first key value env) as [l|] eqn:E; simpl in H; [|done].
    injection H as <-. rewrite !filter_cons, !decide_False by done. eauto.
Qed.

Lemma update_first_others key value env env' :
  update_first key value env = Some env' ->
  filter (fun e => ev_name e <> key) env' = filter (fun e => ev_name e <> key) env.
Proof.
  revert env'. induction env as [|e env IH]; intros env' H; simpl in H; [done|].
  destruct (decide (ev_name e = key)) as [Hk|Hk].
  - injection H as <-. rewrite !filter_cons. simpl.
    rewrite !decide_False by (intros []; done). done.
  - destruct (update_first key value env) as [l|] eqn:E; simpl in H; [|done].
    injection H as <-. rewrite !filter_cons, !decide_True by done. f_equal; eauto.
Qed.

Lemma update_first_again key value env env' :
  update_first key value env = Some env' -> update_first key value env' = Some env'.
Proof.
  revert env'. induction env as [|e env IH]; intros env' H; simpl in H; [done|].
  destruct (decide (ev_name e = key)) as [Hk|Hk].
  - injection H as <-. simpl. by rewrite decide_True.
  - destruct (update_first key value env) as [l|] eqn:E; simpl in H; [|done].
    injection H as <-. simpl. rewrite decide_False by done. by rewrite (IH l).
Qed.

Lemma update_first_app_new key value env :
  update_first key value env = None ->
  update_first key value (env ++ [mkEnvVar key value None]) =
  Some (env ++ [mkEnvVar key value None]).
Proof.
  induction env as [|e env IH]; simpl; intros H.
  - by rewrite decide_True.
  - destruct (decide (ev_name e = key)); [done|].
    destruct (update_first key value env); simpl in *; [done|]. by rewrite IH.
Qed.

(** ** Properties *)

(** C31: [addOrUpdateEnv] computes the reference [set_env_spec]: the loop
    with its early return replaces the first entry named [key], or appends
    one when there is none. *)
Theorem addOrUpdateEnv_equiv key value c :
  c_env (addOrUpdateEnv key value c) = set_env_spec key value (c_env c).
Proof.
  unfold addOrUpdateEnv, set_env_spec. simpl. rewrite update_first_spec.
  by destruct (list_find _ (c_env c)) as [[i x]|].
Qed.

(** After [addOrUpdateEnv key value], the first entry named [key] is the
    literal [{key, value}]. *)
Lemma addOrUpdateEnv_lookup key value c :
  env_lookup key (c_env (addOrUpdateEnv key value c)) = Some (mkEnvVar key value None).
Proof.
  unfold addOrUpdateEnv; simpl.
  destruct (update_first key value (c_env c)) as [env'|] eqn:E.
  - by eapply update_first_lookup.
  - apply env_lookup_app_new. by eapply update_first_None.
Qed.

(** C30: the environment is set by key: afterwards the first entry named
    [key] is the literal [{key, value}] with no [ValueFrom]; the number of
    entries named [key] is one if there was none and unchanged otherwise
    (nothing is appended next to an existing entry, and existing
    duplicates are kept); entries with other names, and the container's
    name and image, are untouched. *)
Theorem addOrUpdateEnv_by_key key value c :
  let c' := addOrUpdateEnv key value c in
  env_lookup key (c_env c') = Some (mkEnvVar key value None) /\
  env_count key (c_env c') = Nat.max 1 (env_count key (c_env c)) /\
  filter (fun e => ev_name e <> key) (c_env c') =
    filter (fun e => ev_name e <> key) (c_env c) /\
  c_name c' = c_name c /\ c_image c' = c_image c.
Proof.
  unfold addOrUpdateEnv; simpl.
  destruct (update_first key value (c_env c)) as [env'|] eqn:E.
  - split; [by eapply update_first_lookup|].
    split; [|split; [by eapply update_first_others|done]].
    rewrite (update_first_count _ _ _ _ E).
    apply update_first_lookup in E as Hl. rewrite update_first_spec in E.
    unfold env_count. destruct (list_find _ (c_env c)) as [[i x]|] eqn:F; [|done].
    apply list_find_Some in F as (Hi & Hx & _).
    assert (x ∈ filter (fun e => ev_name e = key) (c_env c)) as Hin.
    { apply list_elem_of_filter. split; [done|]. by eapply list_elem_of_lookup_2. }
    destruct (filter _ (c_env c)); [set_solver|]. simpl. lia.
  - apply update_first_None in E as Hn.
    split; [by apply env_lookup_app_new|].
    pose proof (update_first_None_count _ _ _ E) as H0. rewrite H0. unfold env_count. rewrite !filter_app.
    split; [|split; [|done]].
    + rewrite length_app. unfold env_count in H0. rewrite H0.
      rewrite filter_cons, decide_True by done. done.
    + rewrite filter_cons, decide_False by (intros []; done). simpl. apply app_nil_r.
Qed.

(** C32: setting the same key to the same value twice is setting it once. *)
Theorem addOrUpdateEnv_idempotent key value c :
  addOrUpdateEnv key value (addOrUpdateEnv key value c) = addOrUpdateEnv key value c.
Proof.
  unfold addOrUpdateEnv; simpl.
  destruct (update_first key value (c_env c)) as [env'|] eqn:E.
  - by rewrite (update_first_again _ _ _ _ E).
  - by rewrite update_first_app_new.
Qed.

End Env.
