(* ===== verification/Builder.v ===== *)
(** * The desired-state builder: the children built from the templates

    The pure parts of [reconcileService] and [reconcileStatefulSet]
    ([src/pkg/controller/tailscale.go]): the initial child objects
    [svcOrig]/[stsOrig], the patching of the StatefulSet template
    ([DEST_IP], hostname, labels, selector, service name), and the two
    mutate closures handed to [createOrUpdate], which set the [svc] label
    and replace the child's whole [Spec] with the template's.  Go panics
    (nil maps, nil selector, empty container list, short UID) are [Err]
    values, raised in the order the Go statements run. *)

From S2P Require Import Spec2Rocq GoRuntime Objects Naming Env.

Module Builder.
Import Naming Env.

(** The label key the children and their selectors carry. *)
Definition svcLabel : string := "svc".

Definition empty_service_spec : ServiceSpec := mkServiceSpec None "" [] "".

Definition empty_statefulset_spec : StatefulSetSpec :=
  mkStatefulSetSpec None None (mkPodTemplateSpec None (mkPodSpec "" [])) "".

Definition service_with_selector (sel : GoMap) (sp : ServiceSpec) : ServiceSpec :=
  mkServiceSpec sel (svc_cluster_ip sp) (svc_ports sp) (svc_type sp).

(** [svcOrig := &corev1.Service{ObjectMeta: {Name: "<name>-tailscale",
    Namespace: svc.Namespace, Labels: make(map[string]string)}}]. *)
Definition service_init (svc : Service) : Service :=
  mkService (meta_init (om_namespace (svc_meta svc)) (childName svc)) empty_service_spec.

(** The closure of [reconcileService]: [svcOrig.Labels["svc"] = svc.Name],
    [stsSvc.Spec.Selector["svc"] = svc.Name], then
    [stsSvc.Spec.DeepCopyInto(&svcOrig.Spec)]. *)
Definition service_mutate (svc tmpl obj : Service) : res go_error Service :=
  let name := om_name (svc_meta svc) in
  let? labels := gomap_set (om_labels (svc_meta obj)) svcLabel name in
  let? sel := gomap_set (svc_selector (svc_spec tmpl)) svcLabel name in
  Ok (mkService (meta_with_labels labels (svc_meta obj))
                (service_with_selector sel (svc_spec tmpl))).

(** [stsOrig], as [svcOrig]. *)
Definition statefulset_init (svc : Service) : StatefulSet :=
  mkStatefulSet (meta_init (om_namespace (svc_meta svc)) (childName svc))
    empty_statefulset_spec.

(** [sts.Spec.Selector.MatchLabels["svc"] = svc.Name]: a nil [Selector] is a
    nil pointer dereference, a nil [MatchLabels] a nil-map assignment. *)
Definition selector_set (sel : option LabelSelector) (k v : string)
  : res go_error LabelSelector :=
  match sel with
  | None => Err (ErrPanic PanicNilPointer)
  | Some ls => let? m := gomap_set (ls_match_labels ls) k v in Ok (mkLabelSelector m)
  end.

(** The patching of the parsed template [sts] before [createOrUpdate]:
    [addOrUpdateEnv(destIPKey, svc.Spec.ClusterIP, &...Containers[0])],
    [Hostname = hostName(svc)], [Template.Labels["svc"] = svc.Name],
    [Selector.MatchLabels["svc"] = svc.Name], [ServiceName = sts.Name]. *)
Definition statefulset_desired (svc : Service) (sts : StatefulSet)
  : res go_error StatefulSet :=
  let name := om_name (svc_meta svc) in
  let sp := sts_spec sts in
  let tp := sts_template sp in
  let cs := ps_containers (pt_spec tp) in
  let? c0 := go_index cs 0 in
  let cs' := <[0 := addOrUpdateEnv destIPKey (svc_cluster_ip (svc_spec svc)) c0]> cs in
  let? hn := hostName svc in
  let? tlabels := gomap_set (pt_labels tp) svcLabel name in
  let? sel := selector_set (sts_selector sp) svcLabel name in
  Ok (mkStatefulSet (sts_meta sts)
        (mkStatefulSetSpec (sts_replicas sp) (Some sel)
           (mkPodTemplateSpec tlabels (mkPodSpec hn cs'))
           (om_name (sts_meta sts)))).

(** The closure of [reconcileStatefulSet]: [stsOrig.Labels["svc"] =
    svc.Name], then [sts.Spec.DeepCopyInto(&stsOrig.Spec)]. *)
Definition statefulset_mutate (svc : Service) (desired obj : StatefulSet)
  : res go_error StatefulSet :=
  let? labels := gomap_set (om_labels (sts_meta obj)) svcLabel (om_name (svc_meta svc)) in
  Ok (mkStatefulSet (meta_with_labels labels (sts_meta obj)) (sts_spec desired)).

(** A template is usable when the code's assignments into it cannot
    panic: [svc.yaml] needs a non-nil selector; [sts.yaml] needs a
    container, non-nil template labels and a selector with non-nil
    [matchLabels]. *)
Definition svc_template_ok (tmpl : Service) : bool :=
  bool_decide (is_Some (svc_selector (svc_spec tmpl))).

Definition selector_ok (sel : option LabelSelector) : bool :=
  match sel with
  | Some ls => bool_decide (is_Some (ls_match_labels ls))
  | None => false
  end.

Definition sts_template_ok (tmpl : StatefulSet) : bool :=
  let sp := sts_spec tmpl in
  bool_decide (ps_containers (pt_spec (sts_template sp)) <> [] /\
               is_Some (pt_labels (sts_template sp))) && selector_ok (sts_selector sp).

(** Template fixtures for the witnesses: the shape of [svc.yaml] and
    [sts.yaml], the latter with a [DEST_IP] entry taken from a field
    reference. *)
Definition sample_svc_template : Service :=
  mkService (mkObjectMeta "tailscale" "" "" 0 None None [] None [])
    (mkServiceSpec (Some ∅) "None" [mkServicePort "http" 80 80] "ClusterIP").

Definition sample_sts_template : StatefulSet :=
  mkStatefulSet (mkObjectMeta "tailscale" "" "" 0 None None [] None [])
    (mkStatefulSetSpec (Some 1) (Some (mkLabelSelector (Some ∅)))
       (mkPodTemplateSpec (Some ∅)
          (mkPodSpec "" [mkContainer "tailscale" "tailscale/tailscale"
                           [mkEnvVar "DEST_IP" "" (Some (mkEnvVarSource "status.podIP"))]]))
       "").

(** ** Properties *)

(** C27: the Service child's closure replaces the child's whole spec: the
    result's spec is the template's, with [svc=<parent>] added to its
    selector; its labels gain [svc=<parent>]; and the result depends on
    the existing child only through its metadata, so stale spec fields of
    an earlier desired state never survive. *)
Theorem service_mutate_replaces_spec svc tmpl obj o :
  service_mutate svc tmpl obj = Ok o ->
  (exists sel, svc_spec o = service_with_selector sel (svc_spec tmpl) /\
     gomap_get sel svcLabel = Some (om_name (svc_meta svc)) /\
     forall k, k <> svcLabel -> gomap_get sel k = gomap_get (svc_selector (svc_spec tmpl)) k) /\
  gomap_get (om_labels (svc_meta o)) svcLabel = Some (om_name (svc_meta svc)) /\
  forall obj', svc_meta obj' = svc_meta obj -> service_mutate svc tmpl obj' = Ok o.
Proof.
  unfold service_mutate. intros H.
  destruct (gomap_set (om_labels _) _ _) as [l|] eqn:El; simpl in H; [|done].
  destruct (gomap_set (svc_selector _) _ _) as [sel|] eqn:Es; simpl in H; [|done].
  injection H as <-. split; [|split].
  - exists sel. split; [done|]. split; [by eapply gomap_get_set|].
    intros k Hk. by eapply gomap_get_set_ne.
  - simpl. by eapply gomap_get_set.
  - intros obj' ->. by rewrite El.
Qed.

Lemma service_mutate_replaces_spec_witness :
  exists o, service_mutate (sample_service "web" "abcd1234-0000") sample_svc_template
              (service_init (sample_service "web" "abcd1234-0000")) = Ok o /\
    gomap_get (om_labels (svc_meta o)) svcLabel = Some "web" /\
    svc_ports (svc_spec o) = svc_ports (svc_spec sample_svc_template).
Proof.
  eexists. split; [reflexivity|].
  destruct (service_mutate_replaces_spec (sample_service "web" "abcd1234-0000")
              sample_svc_template (service_init (sample_service "web" "abcd1234-0000")) _
              eq_refl) as ([sel [Hs _]] & Hl & _).
  split; [exact Hl|]. by rewrite Hs.
Defined.

(** C28: the StatefulSet child's closure replaces the child's whole spec
    with the desired one and sets the [svc] label; the existing child's
    spec plays no part. *)
Theorem statefulset_mutate_replaces_spec svc desired obj o :
  statefulset_mutate svc desired obj = Ok o ->
  sts_spec o = sts_spec desired /\
  gomap_get (om_labels (sts_meta o)) svcLabel = Some (om_name (svc_meta svc)) /\
  forall obj', sts_meta obj' = sts_meta obj -> statefulset_mutate svc desired obj' = Ok o.
Proof.
  unfold statefulset_mutate. intros H.
  destruct (gomap_set _ _ _) as [l|] eqn:El; simpl in H; [|done].
  injection H as <-. split; [done|]. split; [simpl; by eapply gomap_get_set|].
  intros obj' ->. by rewrite El.
Qed.

Lemma statefulset_mutate_replaces_spec_witness :
  exists o, statefulset_mutate (sample_service "web" "abcd1234-0000") sample_sts_template
              (statefulset_init (sample_service "web" "abcd1234-0000")) = Ok o /\
    sts_spec o = sts_spec sample_sts_template /\
    gomap_get (om_labels (sts_meta o)) svcLabel = Some "web".
Proof.
  eexists. split; [reflexivity|].
  destruct (statefulset_mutate_replaces_spec (sample_service "web" "abcd1234-0000")
              sample_sts_template (statefulset_init (sample_service "web" "abcd1234-0000")) _
              eq_refl) as (Hs & Hl & _).
  split; [exact Hs|exact Hl].
Defined.

(** C26: building the desired StatefulSet succeeds exactly when the
    template is usable and the parent's UID has at least eight bytes;
    otherwise the reconcile pass panics. *)
Theorem statefulset_desired_total svc tmpl :
  is_ok (statefulset_desired svc tmpl) =
  sts_template_ok tmpl && bool_decide (8 <= String.length (om_uid (svc_meta svc))).
Proof.
  destruct tmpl as [m [r sel [tl [hn cs]] sn]].
  unfold statefulset_desired, sts_template_ok, hostName, go_slice_prefix; simpl.
  destruct cs as [|c cs], (decide (8 <= _)), tl as [tl|], sel as [[[ml|]]|]; simpl;
    repeat case_bool_decide; naive_solver.
Qed.

(** With a well-formed template and a long enough UID, building the
    desired StatefulSet succeeds. *)
Lemma statefulset_desired_ok svc tmpl :
  sts_template_ok tmpl = true ->
  8 <= String.length (om_uid (svc_meta svc)) ->
  exists d, statefulset_desired svc tmpl = Ok d.
Proof.
  destruct tmpl as [m [r sel [tl [hn cs]] sn]].
  unfold sts_template_ok; simpl. intros Hok Hu.
  apply andb_true_iff in Hok as [Hok Hsel]. apply bool_decide_eq_true in Hok as [Hcs [tl' ->]].
  destruct cs as [|c cs]; [done|].
  destruct sel as [[[ml|]]|]; simpl in Hsel; try done.
  unfold statefulset_desired; simpl. rewrite hostName_ok by done. simpl. by eexists.
Qed.

(** C25: the desired StatefulSet built from a usable template: the pod
    hostname is [hostName(parent)], the pod template and the selector
    carry [svc=<parent>], the first container's [DEST_IP] entry is the
    literal cluster IP of the parent with no [ValueFrom], and the other
    containers are the template's. *)
Theorem statefulset_desired_content svc tmpl :
  sts_template_ok tmpl = true ->
  8 <= String.length (om_uid (svc_meta svc)) ->
  exists d, statefulset_desired svc tmpl = Ok d /\
    hostName svc = Ok (ps_hostname (pt_spec (sts_template (sts_spec d)))) /\
    gomap_get (pt_labels (sts_template (sts_spec d))) svcLabel = Some (om_name (svc_meta svc)) /\
    (exists ls, sts_selector (sts_spec d) = Some ls /\
                gomap_get (ls_match_labels ls) svcLabel = Some (om_name (svc_meta svc))) /\
    (exists c0 c0' rest,
        ps_containers (pt_spec (sts_template (sts_spec tmpl))) = c0 :: rest /\
        ps_containers (pt_spec (sts_template (sts_spec d))) = c0' :: rest /\
        env_lookup destIPKey (c_env c0') =
          Some (mkEnvVar destIPKey (svc_cluster_ip (svc_spec svc)) None)).
Proof.
  destruct tmpl as [m [r sel [tl [hn cs]] sn]].
  unfold sts_template_ok; simpl. intros Hok Hu.
  apply andb_true_iff in Hok as [Hok Hsel]. apply bool_decide_eq_true in Hok as [Hcs [tl' ->]].
  destruct cs as [|c cs]; [done|].
  destruct sel as [[[ml|]]|]; simpl in Hsel; try done.
  unfold statefulset_desired; simpl. rewrite hostName_ok by done. simpl.
  eexists; split; [reflexivity|]; simpl.
  split; [done|]. split; [apply lookup_insert_eq|].
  split; [eexists; split; [done|]; apply lookup_insert_eq|].
  eexists _, _, _; split; [done|]; split; [done|].
  apply addOrUpdateEnv_lookup.
Qed.

Lemma statefulset_desired_content_witness :
  sts_template_ok sample_sts_template = true /\
  8 <= String.length (om_uid (svc_meta (sample_service "web" "abcd1234-0000"))) /\
  exists d, statefulset_desired (sample_service "web" "abcd1234-0000") sample_sts_template = Ok d /\
    hostName (sample_service "web" "abcd1234-0000") =
      Ok (ps_hostname (pt_spec (sts_template (sts_spec d)))) /\
    gomap_get (pt_labels (sts_template (sts_spec d))) svcLabel = Some "web" /\
    (exists ls, sts_selector (sts_spec d) = Some ls /\
                gomap_get (ls_match_labels ls) svcLabel = Some "web") /\
    (exists c0 c0' rest,
        ps_containers (pt_spec (sts_template (sts_spec sample_sts_template))) = c0 :: rest /\
        ps_containers (pt_spec (sts_template (sts_spec d))) = c0' :: rest /\
        env_lookup destIPKey (c_env c0') = Some (mkEnvVar destIPKey "10.0.0.5" None)).
Proof.
  split; [reflexivity|]. split; [simpl; lia|].
  apply (statefulset_desired_content (sample_service "web" "abcd1234-0000")
           sample_sts_template); [reflexivity|simpl; lia].
Defined.

(** [ServiceName] of the desired StatefulSet is the name of the parsed
    template ([sts.Name]). *)
Lemma statefulset_desired_service_name svc tmpl d :
  statefulset_desired svc tmpl = Ok d ->
  sts_service_name (sts_spec d) = om_name (sts_meta tmpl).
Proof.
  unfold statefulset_desired.
  destruct (go_index _ _); simpl; [|done].
  destruct (hostName svc); simpl; [|done].
  destruct (gomap_set _ _ _); simpl; [|done].
  destruct (selector_set _ _ _); simpl; [|done].
  by intros [= <-].
Qed.

End Builder.
