(* ===== verification/Store.v ===== *)
(** * The API server and the client the reconciler calls

    The external store of spec section 6, as the reconciler sees it through
    [client.Client]: two tables keyed by [(namespace, name)] (Services,
    StatefulSets), the template files [parseFile] reads, a fault oracle
    that makes any API call fail with a transient or conflict error, and a
    log of the writes issued.  [Get], [Create] and [Update] follow the API
    server's contract: [Update] is conditioned on the resource version
    (optimistic concurrency), keeps the server-managed fields, is a no-op
    when nothing changed, and deletes an object whose deletion was
    requested once its last finalizer is gone.  On top of them,
    [controllerutil.CreateOrUpdate]. *)

From S2P Require Import Spec2Rocq GoRuntime Objects.

Module Store.

Record Store : Type := mkStore {
  st_services : gmap (string * string) Service;
  st_statefulsets : gmap (string * string) StatefulSet
}.

(** [svc.yaml] and [sts.yaml] as [parseFile] finds them: [None] when the
    file is missing or does not parse. *)
Record Files : Type := mkFiles {
  file_svc_yaml : option Service;
  file_sts_yaml : option StatefulSet
}.

(** A write request the API server accepted. *)
Inductive Write : Type :=
| WCreate (kind : string) (key : string * string) (m : ObjectMeta)
| WUpdate (kind : string) (key : string * string) (m : ObjectMeta).

(** The fault oracle [w_faults] is consumed one entry per API call:
    [Some e] makes that call fail with [e], [None] (or an exhausted list)
    lets it through. *)
Record World : Type := mkWorld {
  w_store : Store;
  w_files : Files;
  w_faults : list (option go_error);
  w_log : list Write
}.

Abbreviation M A := (stM World go_error A).

#[export] Instance Store_eq_dec : EqDecision Store.
Proof. solve_decision. Defined.
#[export] Instance Write_eq_dec : EqDecision Write.
Proof. solve_decision. Defined.

Definition world_with_store (s : Store) (w : World) : World :=
  mkWorld s (w_files w) (w_faults w) (w_log w).
Definition world_with_faults (fs : list (option go_error)) (w : World) : World :=
  mkWorld (w_store w) (w_files w) fs (w_log w).
Definition world_log (ev : Write) (w : World) : World :=
  mkWorld (w_store w) (w_files w) (w_faults w) (w_log w ++ [ev]).

(** Access to the table that holds objects of type [T]. *)
Class Stored (T : Type) := {
  tbl : Store -> gmap (string * string) T;
  tbl_put : gmap (string * string) T -> Store -> Store;
  tbl_put_tbl : forall m s, tbl (tbl_put m s) = m;
  tbl_tbl_put : forall s, tbl_put (tbl s) s = s;
  tbl_put_put : forall m m' s, tbl_put m (tbl_put m' s) = tbl_put m s
}.

#[export] Program Instance Service_Stored : Stored Service := {|
  tbl := st_services;
  tbl_put := fun m s => mkStore m (st_statefulsets s)
|}.
Next Obligation. done. Qed.
Next Obligation. by intros []. Qed.
Next Obligation. done. Qed.

#[export] Program Instance StatefulSet_Stored : Stored StatefulSet := {|
  tbl := st_statefulsets;
  tbl_put := fun m s => mkStore (st_services s) m
|}.
Next Obligation. done. Qed.
Next Obligation. by intros []. Qed.
Next Obligation. done. Qed.

(** Every API call first consults the fault oracle. *)
Definition api_call : M unit := fun w =>
  match w_faults w with
  | [] => (Ok tt, w)
  | None :: fs => (Ok tt, world_with_faults fs w)
  | Some e :: fs => (Err e, world_with_faults fs w)
  end.

Definition log_write (ev : Write) : M unit := fun w => (Ok tt, world_log ev w).

Inductive OperationResult : Type := OpNone | OpCreated | OpUpdated.

Section Client.
Context {T : Type} `{EqDecision T} `{object T} `{Stored T}.

Definition store_lookup (k : string * string) : M (option T) :=
  fun w => (Ok (tbl (w_store w) !! k), w).

Definition store_put (k : string * string) (o : T) : M unit :=
  fun w => (Ok tt, world_with_store (tbl_put (<[k:=o]> (tbl (w_store w))) (w_store w)) w).

Definition store_delete (k : string * string) : M unit :=
  fun w => (Ok tt, world_with_store (tbl_put (delete k (tbl (w_store w))) (w_store w)) w).

Definition with_system (uid : string) (dts : option nat) (rv : nat) (o : T) : T :=
  obj_set_meta (meta_with_system uid dts rv (obj_meta o)) o.

(** [client.Get]. *)
Definition client_get (k : string * string) : M T :=
  api_call ;;;
  ot <- store_lookup k ;;
  match ot with Some o => sret o | None => sfail ErrNotFound end.

(** [client.Create]: refused when the key is taken; the stored object
    starts at resource version 1 with no deletion timestamp. *)
Definition client_create (o : T) : M T :=
  let k := obj_key o in
  api_call ;;;
  ot <- store_lookup k ;;
  match ot with
  | Some _ => sfail ErrAlreadyExists
  | None =>
      let o' := with_system (om_uid (obj_meta o)) None 1 o in
      store_put k o' ;;; log_write (WCreate obj_kind k (obj_meta o')) ;;; sret o'
  end.

(** The update removes the last finalizer of an object being deleted:
    the API server deletes it. *)
Definition finalised (cur o : T) : bool :=
  bool_decide (is_Some (om_deletion_timestamp (obj_meta cur)) /\
               om_finalizers (obj_meta o) = []).

(** [client.Update]: a stale resource version is a conflict; an update
    that changes nothing is accepted without a new version. *)
Definition client_update (o : T) : M T :=
  let k := obj_key o in
  api_call ;;;
  ot <- store_lookup k ;;
  match ot with
  | None => sfail ErrNotFound
  | Some cur =>
      let m := obj_meta cur in
      if decide (om_resource_version (obj_meta o) = om_resource_version m) then
        let o' := with_system (om_uid m) (om_deletion_timestamp m)
                    (S (om_resource_version m)) o in
        if semantic_deep_equal o cur then
          log_write (WUpdate obj_kind k m) ;;; sret cur
        else if finalised cur o then
          store_delete k ;;; log_write (WUpdate obj_kind k (obj_meta o')) ;;; sret o'
        else
          store_put k o' ;;; log_write (WUpdate obj_kind k (obj_meta o')) ;;; sret o'
      else sfail ErrConflict
  end.

(** [controllerutil]'s [mutate]: run the mutate function and check that it
    left the object's key alone. *)
Definition mutate (f : T -> res go_error T) (k : string * string) (o : T)
  : res go_error T :=
  let? o' := f o in
  if decide (obj_key o' = k) then Ok o' else Err ErrMutateKey.

(** [controllerutil.CreateOrUpdate]: [Get] into [obj]; on [NotFound]
    mutate the initial object and [Create] it; otherwise mutate the
    fetched object and [Update] it unless [Semantic.DeepEqual] finds it
    unchanged. *)
Definition CreateOrUpdate (obj : T) (f : T -> res go_error T) : M OperationResult :=
  let k := obj_key obj in
  fun w =>
    match client_get k w with
    | (Ok cur, w1) =>
        (o <- slift (mutate f k cur) ;;
         if semantic_deep_equal cur o then sret OpNone
         else client_update o ;;; sret OpUpdated) w1
    | (Err ErrNotFound, w1) =>
        (o <- slift (mutate f k obj) ;; client_create o ;;; sret OpCreated) w1
    | (Err e, w1) => (Err e, w1)
    end.

(** A stored object on which [CreateOrUpdate] with [f] writes nothing: the
    mutated object keeps the key and is [DeepEqual] to it. *)
Definition settled (f : T -> res go_error T) (o : T) : Prop :=
  exists y, mutate f (obj_key o) o = Ok y /\ semantic_deep_equal o y = true.
End Client.

(** Objects of a table sit at their own key, and an object whose deletion
    was requested still has a finalizer (the API server deletes it as soon
    as it has none). *)
Definition tbl_wf {T} `{object T} (m : gmap (string * string) T) : Prop :=
  forall k o, m !! k = Some o ->
    obj_key o = k /\
    (is_Some (om_deletion_timestamp (obj_meta o)) -> om_finalizers (obj_meta o) <> []).

Definition store_wf (s : Store) : Prop :=
  tbl_wf (st_services s) /\ tbl_wf (st_statefulsets s).

#[export] Instance tbl_wf_dec {T} `{object T} (m : gmap (string * string) T) :
  Decision (tbl_wf m).
Proof. unfold tbl_wf. exact (map_Forall_dec _ m). Defined.

#[export] Instance store_wf_dec (s : Store) : Decision (store_wf s).
Proof. unfold store_wf. apply _. Defined.

(** The write log only grows. *)
Definition log_grows (w w' : World) : Prop := exists new, w_log w' = w_log w ++ new.

#[export] Instance log_grows_preorder : PreOrder log_grows.
Proof.
  split; [intros w; exists []; by rewrite app_nil_r|].
  intros w1 w2 w3 [n1 H1] [n2 H2]. exists (n1 ++ n2). by rewrite H2, H1, app_assoc.
Qed.

Lemma log_grows_same w w' : w_log w' = w_log w -> log_grows w w'.
Proof. intros H. exists []. by rewrite H, app_nil_r. Qed.

Lemma log_grows_one w w' ev : w_log w' = w_log w ++ [ev] -> log_grows w w'.
Proof. intros H. by exists [ev]. Qed.

(** The store stays well formed. *)
Definition wf_kept (w w' : World) : Prop := store_wf (w_store w) -> store_wf (w_store w').

#[export] Instance wf_kept_preorder : PreOrder wf_kept.
Proof. split; [intros w H; exact H|]. intros w1 w2 w3 H1 H2 H. auto. Qed.

Lemma tbl_wf_delete {T} `{object T} (m : gmap (string * string) T) k :
  tbl_wf m -> tbl_wf (delete k m).
Proof.
  intros Hwf k' o. destruct (decide (k = k')) as [<-|Hne].
  - by rewrite lookup_delete_eq.
  - rewrite lookup_delete_ne by done. apply Hwf.
Qed.

Lemma tbl_wf_insert {T} `{object T} (m : gmap (string * string) T) k o :
  tbl_wf m -> obj_key o = k ->
  (is_Some (om_deletion_timestamp (obj_meta o)) -> om_finalizers (obj_meta o) <> []) ->
  tbl_wf (<[k:=o]> m).
Proof.
  intros Hwf Hk Hd k' o'. destruct (decide (k = k')) as [<-|Hne].
  - rewrite lookup_insert_eq. by intros [= <-].
  - rewrite lookup_insert_ne by done. apply Hwf.
Qed.

(** Case analysis on the oracle, the table and the tests of the client's
    primitives. *)
Ltac client_cases :=
  unfold sbind, sret, sfail, slift in *; simpl;
  repeat (match goal with
          | |- context [match w_faults ?w with _ => _ end] =>
              destruct (w_faults w) as [|[?|] ?]
          | |- context [match tbl ?s !! ?k with _ => _ end] =>
              destruct (tbl s !! k) eqn:?
          | |- context [if decide ?P then _ else _] => destruct (decide P)
          | |- context [if semantic_deep_equal ?a ?b then _ else _] =>
              destruct (semantic_deep_equal a b) eqn:?
          | |- context [if finalised ?a ?b then _ else _] =>
              destruct (finalised a b) eqn:?
          end; unfold sbind, sret, sfail, slift in *; simpl).

Section ClientLemmas.
Context {T : Type} `{EqDecision T} `{object T} `{Stored T}.

Lemma api_call_nofault w : w_faults w = [] -> api_call w = (Ok tt, w).
Proof. unfold api_call. by intros ->. Qed.

Lemma client_get_found w k (o : T) :
  w_faults w = [] -> tbl (w_store w) !! k = Some o -> client_get k w = (Ok o, w).
Proof.
  intros Hf Hk. unfold client_get, sbind. rewrite api_call_nofault by done.
  unfold store_lookup. by rewrite Hk.
Qed.

Lemma client_get_missing w k :
  w_faults w = [] -> tbl (w_store w) !! k = (None : option T) ->
  client_get (T:=T) k w = (Err ErrNotFound, w).
Proof.
  intros Hf Hk. unfold client_get, sbind. rewrite api_call_nofault by done.
  unfold store_lookup. by rewrite Hk.
Qed.

(** Writing a table of a world. *)
Definition world_put (k : string * string) (o : T) (w : World) : World :=
  world_with_store (tbl_put (<[k:=o]> (tbl (w_store w))) (w_store w)) w.

Lemma client_create_ok w (o : T) :
  w_faults w = [] -> tbl (w_store w) !! obj_key o = None ->
  let o' := with_system (om_uid (obj_meta o)) None 1 o in
  client_create o w =
    (Ok o', world_log (WCreate obj_kind (obj_key o) (obj_meta o'))
              (world_put (obj_key o) o' w)).
Proof.
  intros Hf Hk. unfold client_create, sbind. rewrite api_call_nofault by done.
  unfold store_lookup. by rewrite Hk.
Qed.

Lemma client_update_noop w (o cur : T) :
  w_faults w = [] -> tbl (w_store w) !! obj_key o = Some cur ->
  om_resource_version (obj_meta o) = om_resource_version (obj_meta cur) ->
  semantic_deep_equal o cur = true ->
  client_update o w = (Ok cur, world_log (WUpdate obj_kind (obj_key o) (obj_meta cur)) w).
Proof.
  intros Hf Hk Hrv Heq. unfold client_update, sbind. rewrite api_call_nofault by done.
  unfold store_lookup. rewrite Hk, decide_True by done. by rewrite Heq.
Qed.

Lemma client_update_put w (o cur : T) :
  w_faults w = [] -> tbl (w_store w) !! obj_key o = Some cur ->
  om_resource_version (obj_meta o) = om_resource_version (obj_meta cur) ->
  semantic_deep_equal o cur = false -> finalised cur o = false ->
  let o' := with_system (om_uid (obj_meta cur)) (om_deletion_timestamp (obj_meta cur))
              (S (om_resource_version (obj_meta cur))) o in
  client_update o w =
    (Ok o', world_log (WUpdate obj_kind (obj_key o) (obj_meta o')) (world_put (obj_key o) o' w)).
Proof.
  intros Hf Hk Hrv Heq Hfin. unfold client_update, sbind. rewrite api_call_nofault by done.
  unfold store_lookup. rewrite Hk, decide_True by done. by rewrite Heq, Hfin.
Qed.

Lemma client_update_delete w (o cur : T) :
  w_faults w = [] -> tbl (w_store w) !! obj_key o = Some cur ->
  om_resource_version (obj_meta o) = om_resource_version (obj_meta cur) ->
  semantic_deep_equal o cur = false -> finalised cur o = true ->
  let o' := with_system (om_uid (obj_meta cur)) (om_deletion_timestamp (obj_meta cur))
              (S (om_resource_version (obj_meta cur))) o in
  client_update o w =
    (Ok o', world_log (WUpdate obj_kind (obj_key o) (obj_meta o'))
              (world_with_store (tbl_put (delete (obj_key o) (tbl (w_store w))) (w_store w)) w)).
Proof.
  intros Hf Hk Hrv Heq Hfin. unfold client_update, sbind. rewrite api_call_nofault by done.
  unfold store_lookup. rewrite Hk, decide_True by done. by rewrite Heq, Hfin.
Qed.

Lemma client_update_conflict w (o cur : T) :
  w_faults w = [] -> tbl (w_store w) !! obj_key o = Some cur ->
  om_resource_version (obj_meta o) <> om_resource_version (obj_meta cur) ->
  client_update o w = (Err ErrConflict, w).
Proof.
  intros Hf Hk Hrv. unfold client_update, sbind. rewrite api_call_nofault by done.
  unfold store_lookup. by rewrite Hk, decide_False.
Qed.
(** What a mutate function may change of the metadata: labels, annotations
    and owner references, never the identity, version, finalizers or
    deletion state. *)
Definition meta_frame (x y : ObjectMeta) : Prop :=
  om_name y = om_name x /\ om_namespace y = om_namespace x /\ om_uid y = om_uid x /\
  om_resource_version y = om_resource_version x /\
  om_finalizers y = om_finalizers x /\ om_deletion_timestamp y = om_deletion_timestamp x.

Lemma semantic_deep_equal_sym (a b : T) :
  semantic_deep_equal a b = semantic_deep_equal b a.
Proof.
  unfold semantic_deep_equal. apply bool_decide_ext. split; intros; congruence.
Qed.

Lemma with_system_key uid dts rv (o : T) : obj_key (with_system uid dts rv o) = obj_key o.
Proof. unfold obj_key, with_system. by rewrite obj_meta_set. Qed.

Lemma with_system_finalizers uid dts rv (o : T) :
  om_finalizers (obj_meta (with_system uid dts rv o)) = om_finalizers (obj_meta o).
Proof. unfold with_system. by rewrite obj_meta_set. Qed.

Lemma with_system_dts uid dts rv (o : T) :
  om_deletion_timestamp (obj_meta (with_system uid dts rv o)) = dts.
Proof. unfold with_system. by rewrite obj_meta_set. Qed.

Lemma world_put_store k (o : T) w :
  w_store (world_put k o w) = tbl_put (<[k:=o]> (tbl (w_store w))) (w_store w).
Proof. reflexivity. Qed.

(** [CreateOrUpdate] in a fault-free world, when the mutate function
    succeeds within its frame on the stored object (or on the initial one
    when there is none) and its result satisfies [Q]: the call succeeds
    and leaves at the key an object satisfying [Q], changing nothing else,
    provided [Q] cannot tell apart what [DeepEqual] identifies nor the
    fields the server manages. *)
Lemma CreateOrUpdate_post (obj : T) (f : T -> res go_error T) (Q : T -> Prop) w :
  w_faults w = [] -> tbl_wf (tbl (w_store w)) ->
  (forall x, tbl (w_store w) !! obj_key obj = Some x \/ x = obj ->
     exists y, f x = Ok y /\ meta_frame (obj_meta x) (obj_meta y) /\ Q y) ->
  (forall a b, obj_norm a = obj_norm b -> Q a -> Q b) ->
  (forall a uid dts rv, Q a -> Q (with_system uid dts rv a)) ->
  exists op o w', CreateOrUpdate obj f w = (Ok op, w') /\ Q o /\
    obj_key o = obj_key obj /\
    (is_Some (om_deletion_timestamp (obj_meta o)) -> om_finalizers (obj_meta o) <> []) /\
    w_store w' = tbl_put (<[obj_key obj:=o]> (tbl (w_store w))) (w_store w) /\
    w_files w' = w_files w /\ w_faults w' = [].
Proof.
  intros Hf Hwf Hmut Hnorm Hsys. unfold CreateOrUpdate.
  destruct (tbl (w_store w) !! obj_key obj) as [cur|] eqn:Hk.
  - rewrite (client_get_found _ _ cur) by done.
    destruct (Hmut cur (or_introl eq_refl)) as (y & Hy & Hfr & HQ).
    destruct (Hwf _ _ Hk) as [Hkey Hdel].
    destruct Hfr as (Hn & Hns & Hu & Hrv & Hfin & Hdts).
    assert (obj_key y = obj_key obj) as Hky.
    { rewrite <- Hkey. unfold obj_key. by rewrite Hn, Hns. }
    unfold sbind, slift, mutate. rewrite Hy. simpl. rewrite decide_True by done.
    destruct (semantic_deep_equal cur y) eqn:Heq.
    + exists OpNone, cur, w. split; [done|].
      split; [apply (Hnorm y); [|done]; by apply bool_decide_eq_true in Heq|].
      split; [done|]. split; [done|].
      split; [|done]. rewrite insert_id by done. by rewrite tbl_tbl_put.
    + rewrite <- Hky in Hk.
      rewrite (client_update_put _ y cur) by
        (try done; try (by rewrite semantic_deep_equal_sym);
         unfold finalised; apply bool_decide_eq_false; intros [Hd Hnil];
         rewrite Hfin in Hnil; by apply (proj2 (Hwf _ _ Hk))).
      eexists _, _, _. split; [reflexivity|].
      split; [by apply Hsys|].
      rewrite with_system_key, with_system_finalizers, with_system_dts, Hfin, Hky.
      split; [done|]. split; [done|]. done.
  - rewrite client_get_missing by done.
    destruct (Hmut obj (or_intror eq_refl)) as (y & Hy & Hfr & HQ).
    destruct Hfr as (Hn & Hns & Hu & Hrv & Hfin & Hdts).
    assert (obj_key y = obj_key obj) as Hky by (unfold obj_key; by rewrite Hn, Hns).
    unfold sbind, slift, mutate. rewrite Hy. simpl. rewrite decide_True by done.
    rewrite <- Hky in Hk. rewrite client_create_ok by done.
    eexists OpCreated, (with_system (om_uid (obj_meta y)) None 1 y), _.
    split; [reflexivity|].
    split; [by apply Hsys|].
    rewrite with_system_key, with_system_dts, Hky.
    split; [done|]. split; [by intros []|]. done.
Qed.

Lemma settled_with_system (f : T -> res go_error T) x y uid dts rv :
  (forall x y uid dts rv, f x = Ok y -> f (with_system uid dts rv y) = Ok (with_system uid dts rv y)) ->
  f x = Ok y -> settled f (with_system uid dts rv y).
Proof.
  intros Hi Hy. exists (with_system uid dts rv y). unfold mutate.
  rewrite (Hi _ _ _ _ _ Hy). simpl. rewrite decide_True by done.
  split; [done|]. by apply bool_decide_eq_true.
Qed.

Lemma settled_ext (f g : T -> res go_error T) o :
  (forall x, f x = g x) -> settled f o -> settled g o.
Proof. intros Hfg (y & Hy & He). exists y. unfold mutate in *. by rewrite <- Hfg. Qed.

(** On a settled object, [CreateOrUpdate] in a fault-free world reads it
    and writes nothing: the world is unchanged. *)
Lemma CreateOrUpdate_noop (obj cur : T) f w :
  w_faults w = [] -> tbl (w_store w) !! obj_key obj = Some cur ->
  obj_key cur = obj_key obj -> settled f cur ->
  CreateOrUpdate obj f w = (Ok OpNone, w).
Proof.
  intros Hf Hk Hkey (y & Hy & Heq). unfold CreateOrUpdate.
  rewrite (client_get_found _ _ cur) by done.
  unfold sbind, slift. rewrite <- Hkey, Hy. simpl. by rewrite Heq.
Qed.

(** When [f] succeeds within its frame and is idempotent up to the
    server-managed fields, [CreateOrUpdate] leaves a settled object at the
    key. *)
Lemma CreateOrUpdate_settles (obj : T) f w :
  w_faults w = [] -> tbl_wf (tbl (w_store w)) ->
  (forall x, tbl (w_store w) !! obj_key obj = Some x \/ x = obj ->
     exists y, f x = Ok y /\ meta_frame (obj_meta x) (obj_meta y)) ->
  (forall x y uid dts rv, f x = Ok y -> f (with_system uid dts rv y) = Ok (with_system uid dts rv y)) ->
  exists op w', CreateOrUpdate obj f w = (Ok op, w') /\
    exists o, tbl (w_store w') !! obj_key obj = Some o /\ obj_key o = obj_key obj /\ settled f o.
Proof.
  intros Hf Hwf Hmut Hi. unfold CreateOrUpdate.
  destruct (tbl (w_store w) !! obj_key obj) as [cur|] eqn:Hk.
  - rewrite (client_get_found _ _ cur) by done.
    destruct (Hmut cur (or_introl eq_refl)) as (y & Hy & Hn & Hns & _ & Hrv & Hfin & _).
    destruct (Hwf _ _ Hk) as [Hkey Hdel].
    assert (obj_key y = obj_key obj) as Hky.
    { rewrite <- Hkey. unfold obj_key. by rewrite Hn, Hns. }
    unfold sbind, slift, mutate. rewrite Hy. simpl. rewrite decide_True by done.
    destruct (semantic_deep_equal cur y) eqn:Heq.
    + eexists _, _. split; [reflexivity|]. exists cur. split; [done|]. split; [done|].
      exists y. unfold mutate. rewrite Hkey, Hy. simpl. by rewrite decide_True.
    + rewrite <- Hky in Hk.
      rewrite (client_update_put _ y cur) by
        (try done; try (by rewrite semantic_deep_equal_sym);
         unfold finalised; apply bool_decide_eq_false; intros [Hd Hnil];
         rewrite Hfin in Hnil; by apply (proj2 (Hwf _ _ Hk))).
      eexists _, _. split; [reflexivity|]. eexists. simpl. rewrite tbl_put_tbl, Hky.
      rewrite lookup_insert_eq. split; [done|]. rewrite with_system_key.
      split; [done|]. by eapply settled_with_system.
  - rewrite client_get_missing by done.
    destruct (Hmut obj (or_intror eq_refl)) as (y & Hy & Hn & Hns & _).
    assert (obj_key y = obj_key obj) as Hky by (unfold obj_key; by rewrite Hn, Hns).
    unfold sbind, slift, mutate. rewrite Hy. simpl. rewrite decide_True by done.
    rewrite <- Hky in Hk. rewrite client_create_ok by done.
    eexists _, _. split; [reflexivity|]. eexists. simpl. rewrite tbl_put_tbl, Hky.
    rewrite lookup_insert_eq. split; [done|]. rewrite with_system_key.
    split; [done|]. by eapply settled_with_system.
Qed.

(** Only the table of [T] changes, and it stays well formed. *)
Definition table_step (w w' : World) : Prop :=
  w_store w' = tbl_put (tbl (w_store w')) (w_store w) /\
  (tbl_wf (tbl (w_store w)) -> tbl_wf (tbl (w_store w'))).

Global Instance table_step_preorder : PreOrder table_step.
Proof.
  split.
  - intros w. split; [by rewrite tbl_tbl_put|done].
  - intros w1 w2 w3 [H12 W12] [H23 W23]. split; [|auto].
    rewrite H23 at 1. rewrite H12 at 1. by rewrite tbl_put_put.
Qed.

Lemma table_step_same w w' :
  w_store w' = w_store w -> table_step w w'.
Proof. intros Hs. split; [by rewrite Hs, tbl_tbl_put|by rewrite Hs]. Qed.

Lemma table_step_put w (k : string * string) (o : T) w' :
  w_store w' = tbl_put (<[k:=o]> (tbl (w_store w))) (w_store w) ->
  obj_key o = k ->
  (is_Some (om_deletion_timestamp (obj_meta o)) -> om_finalizers (obj_meta o) <> []) ->
  table_step w w'.
Proof.
  intros Hs Hk Hd. split.
  - by rewrite Hs, tbl_put_tbl.
  - intros Hwf. rewrite Hs, tbl_put_tbl. by apply tbl_wf_insert.
Qed.

Lemma table_step_delete w (k : string * string) w' :
  w_store w' = tbl_put (delete k (tbl (w_store w))) (w_store w) -> table_step w w'.
Proof.
  intros Hs. split.
  - by rewrite Hs, tbl_put_tbl.
  - intros Hwf. rewrite Hs, tbl_put_tbl. by apply tbl_wf_delete.
Qed.

Lemma client_get_within k :
  within table_step (client_get (T:=T) k) /\ within log_grows (client_get (T:=T) k).
Proof.
  split; intros w; unfold client_get, api_call, store_lookup; client_cases;
    first [apply table_step_same; reflexivity | apply log_grows_same; reflexivity].
Qed.

Lemma client_create_within (o : T) :
  within table_step (client_create o) /\ within log_grows (client_create o).
Proof.
  split; intros w; unfold client_create, api_call, store_lookup, store_put, log_write;
    client_cases;
    first [apply table_step_same; reflexivity | apply log_grows_same; reflexivity
          | eapply table_step_put; [reflexivity|apply with_system_key|by rewrite with_system_dts; intros []]
          | eapply log_grows_one; reflexivity].
Qed.

Lemma client_update_within (o : T) :
  within table_step (client_update o) /\ within log_grows (client_update o).
Proof.
  split; intros w; unfold client_update, api_call, store_lookup, store_put, store_delete,
    log_write; client_cases;
    first [apply table_step_same; reflexivity | apply log_grows_same; reflexivity
          | eapply table_step_delete; reflexivity
          | eapply log_grows_one; reflexivity
          | eapply table_step_put; [reflexivity|apply with_system_key|]].
  all: rewrite with_system_dts, with_system_finalizers; intros Hd.
  all: match goal with H : finalised _ _ = false |- _ =>
         unfold finalised in H; apply bool_decide_eq_false in H end; tauto.
Qed.

Lemma client_get_inv k w (o : T) w' :
  client_get k w = (Ok o, w') ->
  tbl (w_store w) !! k = Some o /\ w_store w' = w_store w /\ w_log w' = w_log w.
Proof.
  unfold client_get, api_call, store_lookup. client_cases; intros Hr; simplify_eq; done.
Qed.

Lemma client_get_frame k w :
  w_store (snd (client_get (T:=T) k w)) = w_store w /\
  w_files (snd (client_get (T:=T) k w)) = w_files w.
Proof. unfold client_get, api_call, store_lookup. by client_cases. Qed.

Lemma client_get_log k w : w_log (snd (client_get (T:=T) k w)) = w_log w.
Proof. unfold client_get, api_call, store_lookup. by client_cases. Qed.

Lemma client_update_err_log (o : T) w e w' :
  client_update o w = (Err e, w') -> w_log w' = w_log w.
Proof.
  unfold client_update, api_call, store_lookup, store_put, store_delete, log_write.
  client_cases; intros Hr; simplify_eq; done.
Qed.

(** A successful [Update] logs one write of the object's key, with the
    finalizers of the object sent. *)
Lemma client_update_ok_log (o : T) w o' w' :
  client_update o w = (Ok o', w') ->
  exists m, w_log w' = w_log w ++ [WUpdate obj_kind (obj_key o) m] /\
            om_finalizers m = om_finalizers (obj_meta o).
Proof.
  unfold client_update, api_call, store_lookup, store_put, store_delete, log_write.
  client_cases; intros Hr; simplify_eq; eexists; (split; [reflexivity|]);
    try (by rewrite with_system_finalizers).
  all: match goal with Hs : semantic_deep_equal _ _ = true |- _ =>
         apply bool_decide_eq_true in Hs; apply (f_equal obj_meta) in Hs;
         rewrite !obj_meta_norm in Hs; apply meta_norm_inv in Hs; symmetry; apply Hs end.
Qed.

Lemma CreateOrUpdate_within_gen (R : World -> World -> Prop) `{!PreOrder R}
    (obj : T) (f : T -> res go_error T) :
  (forall k, within R (client_get (T:=T) k)) -> (forall o, within R (client_create o)) ->
  (forall o, within R (client_update o)) -> within R (CreateOrUpdate obj f).
Proof.
  intros Hg Hc Hu w. unfold CreateOrUpdate. specialize (Hg (obj_key obj) w).
  destruct (client_get (obj_key obj) w) as [[cur|[]] w1]; simpl in *;
    try done; (etrans; [exact Hg|]); refine (within_bind R _ _ (within_lift R _) _ w1);
    intros o.
  - destruct (semantic_deep_equal cur o); [apply within_ret; apply _|].
    exact (within_bind R _ _ (Hu o) (fun _ => within_ret R _)).
  - exact (within_bind R _ _ (Hc o) (fun _ => within_ret R _)).
Qed.

Lemma CreateOrUpdate_within (obj : T) f :
  within table_step (CreateOrUpdate obj f) /\ within log_grows (CreateOrUpdate obj f).
Proof.
  split; apply CreateOrUpdate_within_gen; try apply _;
    intros; first [apply client_get_within | apply client_create_within
                  | apply client_update_within].
Qed.

(** Only the entry at [k] of the table of [T] changes, the files stay,
    and what is stored at [k] afterwards was there before or satisfies
    [Q]. *)
Definition key_step (k : string * string) (Q : T -> Prop) (w w' : World) : Prop :=
  w_files w' = w_files w /\
  w_store w' = tbl_put (tbl (w_store w')) (w_store w) /\
  (forall k', k' <> k -> tbl (w_store w') !! k' = tbl (w_store w) !! k') /\
  (forall o, tbl (w_store w') !! k = Some o -> tbl (w_store w) !! k = Some o \/ Q o).

Global Instance key_step_preorder k Q : PreOrder (key_step k Q).
Proof.
  split.
  - intros w. split; [done|]. split; [by rewrite tbl_tbl_put|]. split; [done|]. auto.
  - intros w1 w2 w3 (F12 & S12 & O12 & K12) (F23 & S23 & O23 & K23).
    split; [congruence|]. split.
    + rewrite S23 at 1. rewrite S12 at 1. by rewrite tbl_put_put.
    + split; [intros k' Hk; by rewrite O23, O12|].
      intros o Ho. destruct (K23 o Ho) as [H2|]; [|by right]. by apply K12.
Qed.

Lemma key_step_same k Q w w' :
  w_files w' = w_files w -> w_store w' = w_store w -> key_step k Q w w'.
Proof.
  intros Hf Hs. split; [done|]. rewrite Hs.
  split; [by rewrite tbl_tbl_put|]. split; [done|]. auto.
Qed.

Lemma key_step_put k Q (o : T) w w' :
  w_files w' = w_files w -> w_store w' = tbl_put (<[k:=o]> (tbl (w_store w))) (w_store w) ->
  Q o -> key_step k Q w w'.
Proof.
  intros Hf Hs Hq. split; [done|]. rewrite Hs, tbl_put_tbl.
  split; [done|]. split; [intros; by rewrite lookup_insert_ne|].
  intros o'. rewrite lookup_insert_eq. intros [= <-]. by right.
Qed.

Lemma key_step_delete k Q w w' :
  w_files w' = w_files w -> w_store w' = tbl_put (delete k (tbl (w_store w))) (w_store w) ->
  key_step k Q w w'.
Proof.
  intros Hf Hs. split; [done|]. rewrite Hs, tbl_put_tbl.
  split; [done|]. split; [intros; by rewrite lookup_delete_ne|].
  intros o'. by rewrite lookup_delete_eq.
Qed.

Lemma client_get_key_step k Q k' : within (key_step k Q) (client_get (T:=T) k').
Proof.
  intros w; unfold client_get, api_call, store_lookup; client_cases;
    apply key_step_same; reflexivity.
Qed.

Lemma client_create_key_step (o : T) Q :
  (forall uid dts rv, Q (with_system uid dts rv o)) ->
  within (key_step (obj_key o) Q) (client_create o).
Proof.
  intros Hq w; unfold client_create, api_call, store_lookup, store_put, log_write; client_cases;
    first [apply key_step_same; reflexivity | eapply key_step_put; [reflexivity|reflexivity|apply Hq]].
Qed.

Lemma client_update_key_step (o : T) Q :
  (forall uid dts rv, Q (with_system uid dts rv o)) ->
  within (key_step (obj_key o) Q) (client_update o).
Proof.
  intros Hq w; unfold client_update, api_call, store_lookup, store_put, store_delete, log_write;
    client_cases;
    first [apply key_step_same; reflexivity | eapply key_step_delete; reflexivity
          | eapply key_step_put; [reflexivity|reflexivity|apply Hq]].
Qed.

(** [CreateOrUpdate] writes only at the key of [obj], and only what the
    mutate function produced, with the server-managed fields set. *)
Lemma CreateOrUpdate_key_step (obj : T) f Q :
  (forall x y, f x = Ok y -> forall uid dts rv, Q (with_system uid dts rv y)) ->
  within (key_step (obj_key obj) Q) (CreateOrUpdate obj f).
Proof.
  intros Hq w. unfold CreateOrUpdate.
  pose proof (client_get_key_step (obj_key obj) Q (obj_key obj) w) as Hg.
  destruct (client_get (obj_key obj) w) as [[cur|[]] w1]; simpl in *; try done;
    (etrans; [exact Hg|]); unfold sbind, slift, mutate.
  - destruct (f cur) as [y|e] eqn:Hy; simpl; [|reflexivity].
    destruct (decide (obj_key y = obj_key obj)) as [Hk|]; simpl; [|reflexivity].
    destruct (semantic_deep_equal cur y); simpl; [reflexivity|].
    pose proof (client_update_key_step y Q (Hq _ _ Hy) w1) as Hu. rewrite Hk in Hu.
    destruct (client_update y w1) as [[] w2]; exact Hu.
  - destruct (f obj) as [y|e] eqn:Hy; simpl; [|reflexivity].
    destruct (decide (obj_key y = obj_key obj)) as [Hk|]; simpl; [|reflexivity].
    pose proof (client_create_key_step y Q (Hq _ _ Hy) w1) as Hc. rewrite Hk in Hc.
    destruct (client_create y w1) as [[] w2]; exact Hc.
Qed.

(** Every outcome of [client.Update]: nothing stored changes and a result
    is the stored object, or the object is written (or, once finalised,
    deleted) with the server-managed fields of the stored one. *)
Lemma client_update_outcome (o : T) w r w' :
  client_update o w = (r, w') ->
  w_files w' = w_files w /\
  ((w_store w' = w_store w /\ forall x, r = Ok x -> tbl (w_store w) !! obj_key o = Some x) \/
   exists cur, tbl (w_store w) !! obj_key o = Some cur /\
     let o' := with_system (om_uid (obj_meta cur)) (om_deletion_timestamp (obj_meta cur))
                 (S (om_resource_version (obj_meta cur))) o in
     r = Ok o' /\
     ((finalised cur o = false /\
       w_store w' = tbl_put (<[obj_key o := o']> (tbl (w_store w))) (w_store w)) \/
      (finalised cur o = true /\
       w_store w' = tbl_put (delete (obj_key o) (tbl (w_store w))) (w_store w)))).
Proof.
  unfold client_update, api_call, store_lookup, store_put, store_delete, log_write.
  client_cases; intros Hr; simplify_eq; split; try reflexivity;
    first [left; split; [reflexivity|]; intros x Hx; simplify_eq; done
          | right; eexists; split; [done|]; split; [reflexivity|];
            first [left; split; [done|reflexivity] | right; split; [done|reflexivity]]].
Qed.

Lemma client_create_outcome (o : T) w r w' :
  client_create o w = (r, w') ->
  w_files w' = w_files w /\
  (w_store w' = w_store w \/
   exists o', w_store w' = tbl_put (<[obj_key o := o']> (tbl (w_store w))) (w_store w)).
Proof.
  unfold client_create, api_call, store_lookup, store_put, log_write.
  client_cases; intros Hr; simplify_eq; split; try reflexivity;
    first [by left | right; eexists; reflexivity].
Qed.

(** When the mutate function leaves the finalizers alone, [CreateOrUpdate]
    deletes nothing, whatever fails: an object it updates still has the
    finalizers that keep it while its deletion is pending. *)
Lemma CreateOrUpdate_no_delete (obj : T) f w k' :
  tbl_wf (tbl (w_store w)) ->
  (forall x y, f x = Ok y -> om_finalizers (obj_meta y) = om_finalizers (obj_meta x)) ->
  is_Some (tbl (w_store w) !! k') ->
  is_Some (tbl (w_store (snd (CreateOrUpdate obj f w))) !! k').
Proof.
  intros Hwf Hfin Hk. unfold CreateOrUpdate.
  destruct (client_get_frame (obj_key obj) w) as [Hs1 _].
  destruct (client_get (obj_key obj) w) as [[cur|[]] w1] eqn:Hg; simpl in *; rewrite <- ?Hs1 in Hk;
    try done; unfold sbind, slift, mutate.
  - apply client_get_inv in Hg as (Hcur & _).
    destruct (f cur) as [y|e] eqn:Hy; simpl; [|done].
    destruct (decide (obj_key y = obj_key obj)) as [Hky|]; simpl; [|done].
    destruct (semantic_deep_equal cur y); simpl; [done|].
    destruct (client_update y w1) as [r w2] eqn:Hu.
    apply client_update_outcome in Hu as (_ & [(Hs & _) | (c & Hc & _ & [(_ & Hs) | (Hfz & _)])]).
    + destruct r; simpl; by rewrite Hs.
    + destruct r; simpl; rewrite Hs, tbl_put_tbl;
        (destruct (decide (k' = obj_key y)) as [->|]; [rewrite lookup_insert_eq; eauto|
                                                         by rewrite lookup_insert_ne]).
    + exfalso. rewrite Hky, Hs1, Hcur in Hc. injection Hc as <-.
      unfold finalised in Hfz. apply bool_decide_eq_true in Hfz as [Hd Hnil].
      rewrite (Hfin _ _ Hy) in Hnil. by apply (proj2 (Hwf _ _ Hcur)).
  - destruct (f obj) as [y|e] eqn:Hy; simpl; [|done].
    destruct (decide (obj_key y = obj_key obj)); simpl; [|done].
    destruct (client_create y w1) as [r w2] eqn:Hc.
    apply client_create_outcome in Hc as (_ & [Hs | (o' & Hs)]);
      destruct r; simpl; rewrite Hs; try done; rewrite tbl_put_tbl;
      (destruct (decide (k' = obj_key y)) as [->|]; [rewrite lookup_insert_eq; eauto|
                                                       by rewrite lookup_insert_ne]).
Qed.

End ClientLemmas.

(** Changing only one table within [table_step] keeps the whole store well
    formed. *)
Lemma table_step_svc_wf w w' : table_step (T:=Service) w w' -> wf_kept w w'.
Proof.
  intros [Hs Hw] [H1 H2]. rewrite Hs. simpl. split; [by apply Hw|done].
Qed.

Lemma table_step_sts_wf w w' : table_step (T:=StatefulSet) w w' -> wf_kept w w'.
Proof.
  intros [Hs Hw] [H1 H2]. rewrite Hs. simpl. split; [done|by apply Hw].
Qed.

Lemma within_mono {A} (R1 R2 : World -> World -> Prop) (m : M A) :
  (forall w w', R1 w w' -> R2 w w') -> within R1 m -> within R2 m.
Proof. intros H Hm w. apply H, Hm. Qed.

End Store.
