(* ===== verification/Controller.v ===== *)
(** * The convergence engine: [Reconcile] and what it calls

    [src/pkg/controller/controller.go] ([Reconcile], [handleDelete],
    [deployTailscale]) and [src/pkg/controller/tailscale.go]
    ([createOrUpdate], [reconcileService], [reconcileStatefulSet],
    [parseFile]) as programs in the world monad of [Store]: every call to
    the API server, every early return and every error of the Go code is a
    step of the model, in the code's order. *)

From S2P Require Import Spec2Rocq GoRuntime Objects Naming Env Builder Store.

Module Controller.
Import Naming Env Builder Store.

(** The annotation and finalizer names of [controller.go]. *)
Definition enableAnnotation : string := "tailscale.maisem.dev/enable".
Definition ipAnnotation : string := "tailscale.maisem.dev/ip".
Definition deviceIDAnnotation : string := "tailscale.maisem.dev/deviceID".
Definition finalizer : string := "tailscale.maisem.dev/finalizer".

(** [parseFile("svc.yaml", stsSvc)] and [parseFile("sts.yaml", sts)]: the
    templates are read from the working directory on every call. *)
Definition parseFile_svc : M Service := fun w =>
  match file_svc_yaml (w_files w) with
  | Some t => (Ok t, w)
  | None => (Err (ErrFile "svc.yaml"), w)
  end.

Definition parseFile_sts : M StatefulSet := fun w =>
  match file_sts_yaml (w_files w) with
  | Some t => (Ok t, w)
  | None => (Err (ErrFile "sts.yaml"), w)
  end.

(** [r.createOrUpdate(ctx, owner, obj, fn)]: [CreateOrUpdate] with a mutate
    function that first sets the owner reference, then runs [fn]. *)
Definition createOrUpdate {T} `{EqDecision T} `{object T} `{Stored T}
    (owner : Service) (obj : T) (fn : T -> res go_error T) : M unit :=
  _ <- CreateOrUpdate obj (fun o => let? o' := SetOwnerReference owner o in fn o') ;;
  sret tt.

Definition reconcileService (svc : Service) : M unit :=
  tmpl <- parseFile_svc ;;
  createOrUpdate svc (service_init svc) (service_mutate svc tmpl).

Definition reconcileStatefulSet (svc : Service) : M unit :=
  tmpl <- parseFile_sts ;;
  desired <- slift (statefulset_desired svc tmpl) ;;
  createOrUpdate svc (statefulset_init svc) (statefulset_mutate svc desired).

(** [handleDelete]: nothing to do without the finalizer; nothing either
    without the device-ID annotation (the early [return] of the code);
    otherwise remove the finalizer and [Update]. *)
Definition handleDelete (svc : Service) : M unit :=
  if ContainsFinalizer svc finalizer then
    match gomap_get (om_annotations (svc_meta svc)) deviceIDAnnotation with
    | None => sret tt
    | Some _ => _ <- client_update (RemoveFinalizer svc finalizer) ;; sret tt
    end
  else sret tt.

Definition deployTailscale (svc : Service) : M unit :=
  reconcileService svc ;;; reconcileStatefulSet svc.

(** The condition of [Reconcile]'s [if]: [!ok || strings.ToLower(ant) !=
    "true" || !svc.GetDeletionTimestamp().IsZero()]. *)
Definition reconcile_disabled (svc : Service) : bool :=
  match gomap_get (om_annotations (svc_meta svc)) enableAnnotation with
  | None => true
  | Some ant => negb (bool_decide (go_to_lower ant = "true")) ||
                bool_decide (is_Some (om_deletion_timestamp (svc_meta svc)))
  end.

(** [Reconcile]: fetch the Service (every error returned, [NotFound]
    included); disabled or deleted: [handleDelete]; enabled: add the
    finalizer, [Update] (which refreshes [svc]), then deploy the children. *)
Definition Reconcile (req : string * string) : M unit :=
  svc <- client_get req ;;
  if reconcile_disabled svc then handleDelete svc
  else svc' <- client_update (AddFinalizer svc finalizer) ;;
       deployTailscale svc'.

(** ** What a provisioned parent looks like *)

(** The Service child serves the parent [P]: it refers to [P] as owner,
    carries [svc=<P>], and its spec is the template's with [svc=<P>] added
    to the selector.  Stated up to what [DeepEqual] identifies. *)
Definition child_service_ok (P tsvc cs : Service) : Prop :=
  owner_ref_of P ∈ om_owner_references (svc_meta cs) /\
  gomap_get (om_labels (svc_meta cs)) svcLabel = Some (om_name (svc_meta P)) /\
  svc_cluster_ip (svc_spec cs) = svc_cluster_ip (svc_spec tsvc) /\
  svc_ports (svc_spec cs) = svc_ports (svc_spec tsvc) /\
  svc_type (svc_spec cs) = svc_type (svc_spec tsvc) /\
  gomap_get (svc_selector (svc_spec cs)) svcLabel = Some (om_name (svc_meta P)) /\
  (forall k, k <> svcLabel ->
     gomap_get (svc_selector (svc_spec cs)) k = gomap_get (svc_selector (svc_spec tsvc)) k).

(** The StatefulSet child serves [P]: owner, label, and a spec equal (up to
    [DeepEqual]) to the one built from the template. *)
Definition child_sts_ok (P : Service) (tsts ss : StatefulSet) : Prop :=
  owner_ref_of P ∈ om_owner_references (sts_meta ss) /\
  gomap_get (om_labels (sts_meta ss)) svcLabel = Some (om_name (svc_meta P)) /\
  exists d, statefulset_desired P tsts = Ok d /\
            statefulset_spec_norm (sts_spec ss) = statefulset_spec_norm (sts_spec d).

(** Two versions of one Service as the children see it: same name,
    namespace, UID and spec. *)
Definition same_identity (P P' : Service) : Prop :=
  om_name (svc_meta P') = om_name (svc_meta P) /\
  om_namespace (svc_meta P') = om_namespace (svc_meta P) /\
  om_uid (svc_meta P') = om_uid (svc_meta P) /\ svc_spec P' = svc_spec P.

(** The key a logged write went to. *)
Definition write_key (ev : Write) : string * string :=
  match ev with WCreate _ k _ | WUpdate _ k _ => k end.

(** The mutate function [createOrUpdate] runs for each child. *)
Definition service_child_fn (P tsvc : Service) (o : Service) : res go_error Service :=
  let? o' := SetOwnerReference P o in service_mutate P tsvc o'.

Definition sts_child_fn (P : Service) (d : StatefulSet) (o : StatefulSet)
  : res go_error StatefulSet :=
  let? o' := SetOwnerReference P o in statefulset_mutate P d o'.

(** A cluster for the witnesses: the Service [default/web] of spec section 8
    (UID [abcd1234-...], enable annotation ["True"], cluster IP 10.0.0.5),
    the two templates on disk, no faults. *)
Definition demo_parent (annotations : gmap string string) (dts : option nat)
    (finalizers : list string) : Service :=
  mkService (mkObjectMeta "web" "default" "abcd1234-0000-0000-0000-000000000000" 3 None
               (Some annotations) finalizers dts [])
    (mkServiceSpec None "10.0.0.5" [] "ClusterIP").

Definition demo_world (P : Service) : World :=
  mkWorld (mkStore {[("default", "web") := P]} ∅)
    (mkFiles (Some sample_svc_template) (Some sample_sts_template)) [] [].

Definition demo_enabled : Service :=
  demo_parent {[enableAnnotation := "True"]} None [].

(** A Service some user created under the child's name, without labels,
    next to the enabled parent. *)
Definition demo_unlabelled_child : Service :=
  mkService (mkObjectMeta "web-tailscale" "default" "ffff0000-0000-0000-0000-000000000000" 2
               None None [] None [])
    (mkServiceSpec None "10.0.0.9" [] "ClusterIP").

Definition demo_world_unlabelled : World :=
  world_with_store
    (mkStore (<[("default", "web-tailscale") := demo_unlabelled_child]>
                {[("default", "web") := demo_enabled]}) ∅)
    (demo_world demo_enabled).

(** What the controller's programs need of the store to stay within a
    preorder [R] on worlds: every client primitive they call does. *)
Class within_primitives (R : World -> World -> Prop) := {
  wp_get : forall k, within R (client_get (T:=Service) k);
  wp_update : forall o : Service, within R (client_update o);
  wp_cou_svc : forall (o : Service) f, within R (CreateOrUpdate o f);
  wp_cou_sts : forall (o : StatefulSet) f, within R (CreateOrUpdate o f)
}.

(** The queue of reconcile requests the work queue hands the reconciler,
    one pass after another; a failed pass is simply followed by the next
    request (the scheduler's retry). *)
Fixpoint run_queue (q : list (string * string)) (w : World) : World :=
  match q with
  | [] => w
  | k :: q' => run_queue q' (snd (Reconcile k w))
  end.

(** ** Lemmas *)

Lemma reconcile_disabled_false P :
  reconcile_disabled P = false -> om_deletion_timestamp (svc_meta P) = None.
Proof.
  unfold reconcile_disabled. destruct (gomap_get _ _); [|done].
  intros H. apply orb_false_iff in H as [_ H]. apply bool_decide_eq_false in H.
  destruct (om_deletion_timestamp _); [exfalso; eauto|done].
Qed.

Lemma same_identity_childKey P P' : same_identity P P' -> childKey P' = childKey P.
Proof. intros (Hn & Hns & _). unfold childKey, childName. by rewrite Hn, Hns. Qed.

Lemma same_identity_owner_ref P P' : same_identity P P' -> owner_ref_of P' = owner_ref_of P.
Proof. intros (Hn & _ & Hu & _). unfold owner_ref_of. simpl. by rewrite Hn, Hu. Qed.

Lemma same_identity_desired P P' tsts :
  same_identity P P' -> statefulset_desired P' tsts = statefulset_desired P tsts.
Proof.
  intros (Hn & _ & Hu & Hs). unfold statefulset_desired, hostName. by rewrite Hn, Hu, Hs.
Qed.

Lemma same_identity_child_service_ok P P' tsvc cs :
  same_identity P P' -> child_service_ok P' tsvc cs -> child_service_ok P tsvc cs.
Proof.
  intros Hid. unfold child_service_ok. rewrite (same_identity_owner_ref _ _ Hid).
  destruct Hid as (Hn & _). by rewrite Hn.
Qed.

Lemma same_identity_child_sts_ok P P' tsts ss :
  same_identity P P' -> child_sts_ok P' tsts ss -> child_sts_ok P tsts ss.
Proof.
  intros Hid. unfold child_sts_ok.
  rewrite (same_identity_owner_ref _ _ Hid), (same_identity_desired _ _ _ Hid).
  destruct Hid as (Hn & _). by rewrite Hn.
Qed.

(** Adding the finalizer on the enabled path: the [Update] succeeds, the
    stored parent carries the finalizer, and nothing else is written. *)
Lemma update_add_finalizer w k P :
  w_faults w = [] -> store_wf (w_store w) ->
  st_services (w_store w) !! k = Some P ->
  om_deletion_timestamp (svc_meta P) = None ->
  exists P' w1, client_update (AddFinalizer P finalizer) w = (Ok P', w1) /\
    finalizer ∈ om_finalizers (svc_meta P') /\ same_identity P P' /\
    om_deletion_timestamp (svc_meta P') = None /\
    w_store w1 = mkStore (<[k:=P']> (st_services (w_store w))) (st_statefulsets (w_store w)) /\
    w_files w1 = w_files w /\ w_faults w1 = [] /\
    w_log w1 = w_log w ++ [WUpdate "Service" k (svc_meta P')] /\
    om_annotations (svc_meta P') = om_annotations (svc_meta P) /\
    filter (fun e => e <> finalizer) (om_finalizers (svc_meta P')) =
      filter (fun e => e <> finalizer) (om_finalizers (svc_meta P)) /\
    om_owner_references (svc_meta P') = om_owner_references (svc_meta P).
Proof.
  intros Hf [Hwf _] Hk Hd. destruct (Hwf _ _ Hk) as [Hkey _].
  destruct (ContainsFinalizer P finalizer) eqn:Hc.
  - rewrite AddFinalizer_present by done. rewrite <- Hkey in Hk.
    rewrite (client_update_noop _ P P) by (try done; by apply bool_decide_eq_true).
    eexists _, _. split; [reflexivity|]. split; [exact (proj1 (ContainsFinalizer_spec P finalizer) Hc)|].
    split; [done|]. split; [done|]. simpl. rewrite Hkey. split; [|done].
    rewrite insert_id by (by rewrite <- Hkey). by destruct (w_store w).
  - pose proof (AddFinalizer_meta P finalizer Hc) as Hm. simpl in Hm.
    assert (obj_key (AddFinalizer P finalizer) = k) as HkA.
    { rewrite <- Hkey. unfold obj_key. simpl. by rewrite Hm. }
    rewrite <- HkA in Hk.
    rewrite (client_update_put _ _ P); cycle 1.
    { done. } { done. } { simpl. by rewrite Hm. }
    { apply bool_decide_eq_false. intros Heq.
      apply (f_equal (fun s => om_finalizers (svc_meta s))) in Heq. simpl in Heq.
      rewrite Hm in Heq. simpl in Heq.
      apply (f_equal length) in Heq. rewrite length_app in Heq. simpl in Heq. lia. }
    { apply bool_decide_eq_false. intros [[? Hs] _]. simpl in Hs. congruence. }
    eexists _, _. split; [reflexivity|]. simpl. rewrite Hm. simpl.
    assert (svc_spec (AddFinalizer P finalizer) = svc_spec P) as Hsp
      by (unfold AddFinalizer; by rewrite Hc).
    split; [set_solver|]. split; [repeat split; simpl; by rewrite ?Hsp|]. split; [done|].
    rewrite HkA. do 4 (split; [done|]).
    rewrite filter_app, filter_cons, decide_False by (intros []; done).
    rewrite filter_nil. split; [done|]. split; [apply app_nil_r|done].
Qed.

Lemma child_service_ok_norm P tsvc a b :
  service_norm a = service_norm b -> child_service_ok P tsvc a -> child_service_ok P tsvc b.
Proof.
  intros H. apply service_norm_inv in H as (Hm & Hc & Hp & Ht & Hs).
  apply meta_norm_inv in Hm as (Hr & _ & Hl & _).
  unfold child_service_ok. rewrite <- Hr, <- Hl, <- Hc, <- Hp, <- Ht, <- Hs.
  intros (? & ? & ? & ? & ? & ? & Hk). do 6 (split; [done|]).
  intros k. rewrite <- Hs. auto.
Qed.

Lemma child_service_ok_sys P tsvc a uid dts rv :
  child_service_ok P tsvc a -> child_service_ok P tsvc (with_system uid dts rv a).
Proof. done. Qed.

(** For any object in the parent's namespace with non-nil labels, the
    Service child's mutate function succeeds within its frame and yields a
    child serving the parent. *)
Lemma service_child_fn_ok P tsvc x :
  svc_template_ok tsvc = true ->
  om_namespace (svc_meta x) = om_namespace (svc_meta P) ->
  is_Some (om_labels (svc_meta x)) ->
  exists y, service_child_fn P tsvc x = Ok y /\
    meta_frame (svc_meta x) (svc_meta y) /\ child_service_ok P tsvc y.
Proof.
  intros Ht Hns [l Hl]. unfold service_child_fn.
  rewrite (SetOwnerReference_same_ns P x) by done.
  pose proof (upsertOwnerRef_in (owner_ref_of P) x) as Hin.
  unfold upsertOwnerRef in *; simpl in *.
  set (refs := match indexOwnerRef (om_owner_references (svc_meta x)) (owner_ref_of P) with
               | Some i => _ | None => _ end) in *.
  unfold svc_template_ok in Ht. apply bool_decide_eq_true in Ht as [sel Hsel].
  unfold service_mutate; simpl. rewrite Hl, Hsel. simpl.
  eexists. split; [reflexivity|]. split; [repeat split|].
  unfold child_service_ok; simpl. rewrite Hsel.
  split; [done|]. split; [apply lookup_insert_eq|].
  do 3 (split; [done|]). split; [apply lookup_insert_eq|].
  intros k Hk. by rewrite lookup_insert_ne.
Qed.

Lemma child_sts_ok_norm P tsts a b :
  statefulset_norm a = statefulset_norm b -> child_sts_ok P tsts a -> child_sts_ok P tsts b.
Proof.
  intros H. pose proof (f_equal sts_meta H) as Hm. pose proof (f_equal sts_spec H) as Hs.
  simpl in Hm, Hs. apply meta_norm_inv in Hm as (Hr & _ & Hl & _).
  unfold child_sts_ok. rewrite <- Hr, <- Hl, <- Hs. done.
Qed.

Lemma child_sts_ok_sys P tsts a uid dts rv :
  child_sts_ok P tsts a -> child_sts_ok P tsts (with_system uid dts rv a).
Proof. done. Qed.

Lemma sts_child_fn_ok P d x :
  om_namespace (sts_meta x) = om_namespace (svc_meta P) ->
  is_Some (om_labels (sts_meta x)) ->
  exists y, sts_child_fn P d x = Ok y /\ meta_frame (sts_meta x) (sts_meta y) /\
    owner_ref_of P ∈ om_owner_references (sts_meta y) /\
    gomap_get (om_labels (sts_meta y)) svcLabel = Some (om_name (svc_meta P)) /\
    sts_spec y = sts_spec d.
Proof.
  intros Hns [l Hl]. unfold sts_child_fn.
  rewrite (SetOwnerReference_same_ns P x) by done.
  pose proof (upsertOwnerRef_in (owner_ref_of P) x) as Hin.
  unfold upsertOwnerRef in *; simpl in *.
  set (refs := match indexOwnerRef (om_owner_references (sts_meta x)) (owner_ref_of P) with
               | Some i => _ | None => _ end) in *.
  unfold statefulset_mutate; simpl. rewrite Hl. simpl.
  eexists. split; [reflexivity|]. split; [repeat split|]. simpl.
  split; [done|]. split; [apply lookup_insert_eq|done].
Qed.

(** Of the metadata, the closures change only the owner references (by
    [SetOwnerReference]) and the labels. *)
Lemma service_child_fn_meta P tsvc x y :
  service_child_fn P tsvc x = Ok y ->
  exists x1, SetOwnerReference P x = Ok x1 /\
             svc_meta y = meta_with_labels (om_labels (svc_meta y)) (svc_meta x1).
Proof.
  unfold service_child_fn, service_mutate.
  destruct (SetOwnerReference P x) as [x1|]; simpl; [|done].
  destruct (gomap_set _ _ _); simpl; [|done]. destruct (gomap_set (svc_selector _) _ _); [|done].
  intros [= <-]. by exists x1.
Qed.

Lemma sts_child_fn_meta P d x y :
  sts_child_fn P d x = Ok y ->
  exists x1, SetOwnerReference P x = Ok x1 /\
             sts_meta y = meta_with_labels (om_labels (sts_meta y)) (sts_meta x1).
Proof.
  unfold sts_child_fn, statefulset_mutate.
  destruct (SetOwnerReference P x) as [x1|]; simpl; [|done].
  destruct (gomap_set _ _ _); simpl; [|done]. intros [= <-]. by exists x1.
Qed.

(** The mutate functions of both children are idempotent and ignore the
    fields the API server manages: on what they produced, they produce it
    again. *)
Lemma service_child_fn_idem P tsvc x y uid dts rv :
  service_child_fn P tsvc x = Ok y ->
  service_child_fn P tsvc (with_system uid dts rv y) = Ok (with_system uid dts rv y).
Proof.
  destruct x as [[n ns u rv0 l an fi dt ors] sp].
  unfold service_child_fn, SetOwnerReference, upsertOwnerRef, service_mutate, with_system.
  cbn. destruct (validateOwner _ _) eqn:Hv; cbn; [|done].
  destruct l as [l|]; cbn; [|done].
  destruct (svc_selector (svc_spec tsvc)) as [sel|]; cbn; [|done].
  intros [= <-]. cbn. unfold validateOwner in *. cbn in *.
  repeat case_decide; try discriminate; cbn; rewrite upsert_refs_idem, insert_insert_eq;
    reflexivity.
Qed.

Lemma sts_child_fn_idem P d x y uid dts rv :
  sts_child_fn P d x = Ok y ->
  sts_child_fn P d (with_system uid dts rv y) = Ok (with_system uid dts rv y).
Proof.
  destruct x as [[n ns u rv0 l an fi dt ors] sp].
  unfold sts_child_fn, SetOwnerReference, upsertOwnerRef, statefulset_mutate, with_system.
  cbn. destruct (validateOwner _ _) eqn:Hv; cbn; [|done].
  destruct l as [l|]; cbn; [|done].
  intros [= <-]. cbn. unfold validateOwner in *. cbn in *.
  repeat case_decide; try discriminate; cbn; rewrite upsert_refs_idem, insert_insert_eq;
    reflexivity.
Qed.

Lemma same_identity_service_child_fn P P' tsvc x :
  same_identity P P' -> service_child_fn P' tsvc x = service_child_fn P tsvc x.
Proof.
  intros Hid. pose proof (same_identity_owner_ref _ _ Hid) as Hr.
  destruct Hid as (Hn & Hns & _). unfold service_child_fn, SetOwnerReference, service_mutate.
  rewrite Hr. unfold validateOwner. simpl. by rewrite Hn, Hns.
Qed.

Lemma same_identity_sts_child_fn P P' d x :
  same_identity P P' -> sts_child_fn P' d x = sts_child_fn P d x.
Proof.
  intros Hid. pose proof (same_identity_owner_ref _ _ Hid) as Hr.
  destruct Hid as (Hn & Hns & _). unfold sts_child_fn, SetOwnerReference, statefulset_mutate.
  rewrite Hr. unfold validateOwner. simpl. by rewrite Hn, Hns.
Qed.

Lemma reconcileService_post P tsvc w :
  w_faults w = [] -> store_wf (w_store w) ->
  file_svc_yaml (w_files w) = Some tsvc -> svc_template_ok tsvc = true ->
  (forall c, st_services (w_store w) !! childKey P = Some c -> is_Some (om_labels (svc_meta c))) ->
  exists cs w', reconcileService P w = (Ok tt, w') /\ child_service_ok P tsvc cs /\
    obj_key cs = childKey P /\
    (is_Some (om_deletion_timestamp (svc_meta cs)) -> om_finalizers (svc_meta cs) <> []) /\
    w_store w' = mkStore (<[childKey P := cs]> (st_services (w_store w)))
                         (st_statefulsets (w_store w)) /\
    w_files w' = w_files w /\ w_faults w' = [] /\ settled (service_child_fn P tsvc) cs.
Proof.
  intros Hf [Hwf _] Hfile Ht Hlab.
  assert (forall x, st_services (w_store w) !! obj_key (service_init P) = Some x \/ x = service_init P ->
            exists y, service_child_fn P tsvc x = Ok y /\
              meta_frame (svc_meta x) (svc_meta y) /\ child_service_ok P tsvc y) as Hmut.
  { intros x Hx. apply service_child_fn_ok; [done| |].
    - destruct Hx as [Hx| ->]; [|done].
      apply Hwf in Hx as [Hx _]. unfold obj_key, childKey in Hx. simpl in Hx. congruence.
    - destruct Hx as [Hx| ->]; [by apply Hlab|simpl; eauto]. }
  destruct (CreateOrUpdate_post (service_init P) (service_child_fn P tsvc)
              (child_service_ok P tsvc) w) as (op & cs & w' & Heq & HQ & Hk & Hd & Hs & Hfi & Hfa);
    [done|done|exact Hmut|apply child_service_ok_norm|apply child_service_ok_sys|].
  destruct (CreateOrUpdate_settles (service_init P) (service_child_fn P tsvc) w)
    as (op2 & w2 & Heq2 & o & Ho & _ & Hset); [done|done| |apply service_child_fn_idem|].
  { intros x Hx. destruct (Hmut x Hx) as (y & ? & ? & _). eauto. }
  rewrite Heq in Heq2. injection Heq2 as <- <-. rewrite Hs in Ho. simpl in Ho.
  rewrite lookup_insert_eq in Ho. injection Ho as Ho. subst o.
  exists cs, w'. unfold reconcileService, sbind, parseFile_svc. rewrite Hfile.
  unfold createOrUpdate, sbind. unfold service_child_fn in Heq. rewrite Heq.
  repeat (split; [done|]). done.
Qed.

Lemma reconcileStatefulSet_post P tsts d w :
  w_faults w = [] -> store_wf (w_store w) ->
  file_sts_yaml (w_files w) = Some tsts -> statefulset_desired P tsts = Ok d ->
  (forall c, st_statefulsets (w_store w) !! childKey P = Some c ->
             is_Some (om_labels (sts_meta c))) ->
  exists ss w', reconcileStatefulSet P w = (Ok tt, w') /\ child_sts_ok P tsts ss /\
    obj_key ss = childKey P /\
    (is_Some (om_deletion_timestamp (sts_meta ss)) -> om_finalizers (sts_meta ss) <> []) /\
    w_store w' = mkStore (st_services (w_store w))
                         (<[childKey P := ss]> (st_statefulsets (w_store w))) /\
    w_files w' = w_files w /\ w_faults w' = [] /\ settled (sts_child_fn P d) ss.
Proof.
  intros Hf [_ Hwf] Hfile Hd Hlab.
  assert (forall x, st_statefulsets (w_store w) !! obj_key (statefulset_init P) = Some x \/
                    x = statefulset_init P ->
            exists y, sts_child_fn P d x = Ok y /\
              meta_frame (sts_meta x) (sts_meta y) /\ child_sts_ok P tsts y) as Hmut.
  { intros x Hx. destruct (sts_child_fn_ok P d x) as (y & Hy & Hfr & Hr & Hl & Hsp).
    - destruct Hx as [Hx| ->]; [|done].
      apply Hwf in Hx as [Hx _]. unfold obj_key, childKey in Hx. simpl in Hx. congruence.
    - destruct Hx as [Hx| ->]; [by apply Hlab|simpl; eauto].
    - exists y. split; [done|]. split; [done|]. split; [done|]. split; [done|].
      exists d. by rewrite Hsp. }
  destruct (CreateOrUpdate_post (statefulset_init P) (sts_child_fn P d)
              (child_sts_ok P tsts) w) as (op & ss & w' & Heq & HQ & Hk & Hdl & Hs & Hfi & Hfa);
    [done|done|exact Hmut|apply child_sts_ok_norm|apply child_sts_ok_sys|].
  destruct (CreateOrUpdate_settles (statefulset_init P) (sts_child_fn P d) w)
    as (op2 & w2 & Heq2 & o & Ho & _ & Hset); [done|done| |apply sts_child_fn_idem|].
  { intros x Hx. destruct (Hmut x Hx) as (y & ? & ? & _). eauto. }
  rewrite Heq in Heq2. injection Heq2 as <- <-. rewrite Hs in Ho. simpl in Ho.
  rewrite lookup_insert_eq in Ho. injection Ho as Ho. subst o.
  exists ss, w'. unfold reconcileStatefulSet, sbind, parseFile_sts, slift. rewrite Hfile, Hd.
  unfold createOrUpdate, sbind. unfold sts_child_fn in Heq. rewrite Heq.
  repeat (split; [done|]). done.
Qed.

(** The first pass on an enabled parent, in a fault-free world: the
    parent gets the finalizer, both children are written and left settled
    (a later [CreateOrUpdate] with the same mutate function writes
    nothing). *)
Lemma Reconcile_first_pass w k P tsvc tsts :
  w_faults w = [] -> store_wf (w_store w) ->
  st_services (w_store w) !! k = Some P -> reconcile_disabled P = false ->
  file_svc_yaml (w_files w) = Some tsvc -> svc_template_ok tsvc = true ->
  file_sts_yaml (w_files w) = Some tsts -> sts_template_ok tsts = true ->
  8 <= String.length (om_uid (svc_meta P)) ->
  (forall c, st_services (w_store w) !! childKey P = Some c -> is_Some (om_labels (svc_meta c))) ->
  (forall c, st_statefulsets (w_store w) !! childKey P = Some c ->
             is_Some (om_labels (sts_meta c))) ->
  exists P' cs ss d w', Reconcile k w = (Ok tt, w') /\
    st_services (w_store w') = <[childKey P:=cs]> (<[k:=P']> (st_services (w_store w))) /\
    st_statefulsets (w_store w') = <[childKey P:=ss]> (st_statefulsets (w_store w)) /\
    finalizer ∈ om_finalizers (svc_meta P') /\ same_identity P P' /\
    om_deletion_timestamp (svc_meta P') = None /\
    om_annotations (svc_meta P') = om_annotations (svc_meta P) /\
    filter (fun e => e <> finalizer) (om_finalizers (svc_meta P')) =
      filter (fun e => e <> finalizer) (om_finalizers (svc_meta P)) /\ obj_key P' = k /\
    child_service_ok P tsvc cs /\ settled (service_child_fn P tsvc) cs /\
    obj_key cs = childKey P /\ statefulset_desired P tsts = Ok d /\
    child_sts_ok P tsts ss /\ settled (sts_child_fn P d) ss /\ obj_key ss = childKey P /\
    w_files w' = w_files w /\ w_faults w' = [].
Proof.
  intros Hf Hwf HP Hen Hfs Hts Hfst Htst Hu Hl1 Hl2.
  destruct (statefulset_desired_ok P tsts Htst Hu) as [d Hd].
  pose proof (reconcile_disabled_false _ Hen) as Hdts.
  destruct (proj1 Hwf _ _ HP) as [HkP _].
  assert (childKey P <> k) as Hck by eauto with ctrl.
  destruct (update_add_finalizer w k P)
    as (P' & w1 & Hup & Hfin & Hid & Hd' & Hs1 & Hfi1 & Hfa1 & _ & Han & Hflt & _); try done.
  pose proof (same_identity_childKey _ _ Hid) as HcK.
  assert (obj_key P' = k) as HkP'.
  { rewrite <- HkP. destruct Hid as (Hn & Hns & _). unfold obj_key. simpl. by rewrite Hn, Hns. }
  assert (store_wf (w_store w1)) as Hwf1.
  { rewrite Hs1. split; [|apply Hwf]. simpl. apply tbl_wf_insert; [apply Hwf|done|].
    simpl. by rewrite Hd'; intros []. }
  destruct (reconcileService_post P' tsvc w1)
    as (cs & w2 & Hrs & Hcs & Hkcs & Hdcs & Hs2 & Hfi2 & Hfa2 & Hset1); [done|done|congruence|done| |].
  { intros c. rewrite Hs1. simpl. rewrite HcK, lookup_insert_ne by done. apply Hl1. }
  assert (store_wf (w_store w2)) as Hwf2.
  { rewrite Hs2. split; [|apply Hwf1]. simpl. apply tbl_wf_insert; [apply Hwf1|done|done]. }
  destruct (reconcileStatefulSet_post P' tsts d w2)
    as (ss & w3 & Hrt & Hss & Hkss & _ & Hs3 & Hfi3 & Hfa3 & Hset2);
    [done|done|congruence|by rewrite (same_identity_desired _ _ _ Hid)| |].
  { intros c. rewrite Hs2, Hs1. simpl. rewrite HcK. apply Hl2. }
  exists P', cs, ss, d, w3. split.
  { unfold Reconcile, sbind. rewrite (client_get_found w k P) by done. rewrite Hen, Hup.
    unfold deployTailscale, sbind. rewrite Hrs. exact Hrt. }
  rewrite Hs3, Hs2, Hs1, HcK. simpl. do 2 (split; [done|]).
  do 6 (split; [done|]).
  split; [by apply (same_identity_child_service_ok _ P')|].
  split; [eapply settled_ext; [|exact Hset1]; intros x; by apply same_identity_service_child_fn|].
  rewrite <- HcK. split; [done|]. split; [done|].
  split; [by apply (same_identity_child_sts_ok _ P')|].
  split; [eapply settled_ext; [|exact Hset2]; intros x; by apply same_identity_sts_child_fn|].
  split; [done|]. split; [congruence|done].
Qed.

(** A parent that already has the finalizer and settled children: the pass
    writes nothing but a no-op [Update] of the parent. *)
Lemma Reconcile_settled w k P tsvc tsts d cs ss :
  w_faults w = [] -> st_services (w_store w) !! k = Some P -> obj_key P = k ->
  reconcile_disabled P = false -> finalizer ∈ om_finalizers (svc_meta P) ->
  file_svc_yaml (w_files w) = Some tsvc -> file_sts_yaml (w_files w) = Some tsts ->
  statefulset_desired P tsts = Ok d ->
  st_services (w_store w) !! childKey P = Some cs -> obj_key cs = childKey P ->
  settled (service_child_fn P tsvc) cs ->
  st_statefulsets (w_store w) !! childKey P = Some ss -> obj_key ss = childKey P ->
  settled (sts_child_fn P d) ss ->
  Reconcile k w = (Ok tt, world_log (WUpdate "Service" k (svc_meta P)) w).
Proof.
  intros Hf Hk HkP Hen Hfin Hfs Hft Hd Hcs Hkcs Hscs Hss Hkss Hsss.
  unfold Reconcile, sbind. rewrite (client_get_found w k P) by done. rewrite Hen.
  rewrite AddFinalizer_present by (by apply ContainsFinalizer_spec).
  rewrite <- HkP in Hk.
  rewrite (client_update_noop _ P P) by (try done; by apply bool_decide_eq_true).
  rewrite HkP.
  set (w1 := world_log _ w).
  assert (w_faults w1 = []) as Hf1 by exact Hf.
  unfold deployTailscale, reconcileService, reconcileStatefulSet, sbind, parseFile_svc, parseFile_sts.
  change (w_files w1) with (w_files w). rewrite Hfs. unfold createOrUpdate, sbind.
  rewrite (CreateOrUpdate_noop (service_init P) cs _ w1); [|done|exact Hcs|exact Hkcs|exact Hscs].
  cbn [sret]. change (w_files w1) with (w_files w). rewrite Hft. unfold slift. rewrite Hd.
  rewrite (CreateOrUpdate_noop (statefulset_init P) ss _ w1); [|done|exact Hss|exact Hkss|exact Hsss].
  reflexivity.
Qed.

Lemma reconcile_disabled_ext P P' :
  om_annotations (svc_meta P') = om_annotations (svc_meta P) ->
  om_deletion_timestamp (svc_meta P') = om_deletion_timestamp (svc_meta P) ->
  reconcile_disabled P' = reconcile_disabled P.
Proof. intros Ha Hd. unfold reconcile_disabled. by rewrite Ha, Hd. Qed.

(** Teardown with the device-ID annotation: [RemoveFinalizer] and an
    accepted [Update]; the parent is deleted when that was its last
    finalizer and its deletion was requested. *)
Lemma handleDelete_removes w k P :
  w_faults w = [] -> store_wf (w_store w) -> st_services (w_store w) !! k = Some P ->
  finalizer ∈ om_finalizers (svc_meta P) ->
  is_Some (gomap_get (om_annotations (svc_meta P)) deviceIDAnnotation) ->
  exists w', handleDelete P w = (Ok tt, w') /\ w_faults w' = [] /\
    st_statefulsets (w_store w') = st_statefulsets (w_store w) /\
    (forall k', k' <> k -> st_services (w_store w') !! k' = st_services (w_store w) !! k') /\
    (st_services (w_store w') !! k = None <->
       is_Some (om_deletion_timestamp (svc_meta P)) /\
       filter (fun e => e <> finalizer) (om_finalizers (svc_meta P)) = []) /\
    (forall P', st_services (w_store w') !! k = Some P' ->
       (finalizer ∉ om_finalizers (svc_meta P')) /\ same_identity P P' /\
       om_annotations (svc_meta P') = om_annotations (svc_meta P) /\
       om_deletion_timestamp (svc_meta P') = om_deletion_timestamp (svc_meta P) /\
       om_finalizers (svc_meta P') = filter (fun e => e <> finalizer) (om_finalizers (svc_meta P))).
Proof.
  intros Hf Hwf Hk Hin [d Hdev]. destruct (proj1 Hwf _ _ Hk) as [HkS _].
  unfold handleDelete.
  assert (ContainsFinalizer P finalizer = true) as Hc
    by (unfold ContainsFinalizer; apply bool_decide_eq_true; exact Hin).
  rewrite Hc, Hdev. unfold sbind.
  pose proof (RemoveFinalizer_meta P finalizer) as Hm. simpl in Hm.
  assert (obj_key (RemoveFinalizer P finalizer) = k) as HkR by (by rewrite RemoveFinalizer_key).
  assert (finalizer ∉ filter (fun e => e <> finalizer) (om_finalizers (svc_meta P))) as Hnot
    by (intros Hx; apply list_elem_of_filter in Hx; tauto).
  assert (semantic_deep_equal (RemoveFinalizer P finalizer) P = false) as Hne.
  { apply bool_decide_eq_false. intros Heq. apply (f_equal svc_meta) in Heq.
    simpl in Heq. try rewrite Hm in Heq. apply meta_norm_inv in Heq as (_ & Hfin & _).
    simpl in Hfin. rewrite Hfin in Hnot. done. }
  rewrite <- HkR in Hk.
  destruct (finalised P (RemoveFinalizer P finalizer)) eqn:Hfz.
  - rewrite (client_update_delete _ _ P) by (try done; simpl; by rewrite Hm).
    eexists. split; [reflexivity|]. rewrite HkR. simpl. split; [done|]. split; [done|].
    split; [intros k' Hk'; by rewrite lookup_delete_ne|].
    unfold finalised in Hfz. apply bool_decide_eq_true in Hfz. simpl in Hfz.
    split; [split; [intros _; exact Hfz|intros _; apply lookup_delete_eq]|].
    by rewrite lookup_delete_eq.
  - rewrite (client_update_put _ _ P) by (try done; simpl; by rewrite Hm).
    eexists. split; [reflexivity|]. rewrite HkR. simpl. split; [done|]. split; [done|].
    split; [intros k' Hk'; by rewrite lookup_insert_ne|].
    unfold finalised in Hfz. apply bool_decide_eq_false in Hfz. simpl in Hfz.
    rewrite lookup_insert_eq. split; [split; [done|intros Hc2; exfalso; exact (Hfz Hc2)]|].
    intros P' [= <-]. simpl. split; [done|].
    repeat split; unfold RemoveFinalizer; simpl; done.
Qed.

Section Programs.
Context (R : World -> World -> Prop) `{!PreOrder R} `{!within_primitives R}.

Lemma parseFile_within_svc : within R parseFile_svc.
Proof. intros w. unfold parseFile_svc. destruct (file_svc_yaml _); simpl; reflexivity. Qed.

Lemma parseFile_within_sts : within R parseFile_sts.
Proof. intros w. unfold parseFile_sts. destruct (file_sts_yaml _); simpl; reflexivity. Qed.

Lemma createOrUpdate_within_svc (owner o : Service) fn : within R (createOrUpdate owner o fn).
Proof. exact (within_bind R _ _ (wp_cou_svc _ _) (fun _ => within_ret R _)). Qed.

Lemma createOrUpdate_within_sts (owner : Service) (o : StatefulSet) fn :
  within R (createOrUpdate owner o fn).
Proof. exact (within_bind R _ _ (wp_cou_sts _ _) (fun _ => within_ret R _)). Qed.

Lemma deployTailscale_within svc : within R (deployTailscale svc).
Proof.
  refine (within_bind R _ _ _ (fun _ => _)).
  - exact (within_bind R _ _ parseFile_within_svc (fun _ => createOrUpdate_within_svc _ _ _)).
  - refine (within_bind R _ _ parseFile_within_sts (fun _ => _)).
    exact (within_bind R _ _ (within_lift R _) (fun _ => createOrUpdate_within_sts _ _ _)).
Qed.

Lemma handleDelete_within svc : within R (handleDelete svc).
Proof.
  unfold handleDelete. destruct (ContainsFinalizer svc finalizer); [|apply within_ret; apply _].
  destruct (gomap_get _ _); [|apply within_ret; apply _].
  exact (within_bind R _ _ (wp_update _) (fun _ => within_ret R _)).
Qed.

Lemma Reconcile_within k : within R (Reconcile k).
Proof.
  refine (within_bind R _ _ (wp_get k) (fun svc => _)).
  destruct (reconcile_disabled svc); [apply handleDelete_within|].
  exact (within_bind R _ _ (wp_update _) deployTailscale_within).
Qed.
End Programs.

#[export] Instance log_grows_primitives : within_primitives log_grows.
Proof.
  split; intros; first [apply (proj2 (client_get_within _))
                       | apply (proj2 (client_update_within _))
                       | apply (proj2 (CreateOrUpdate_within _ _))].
Qed.

#[export] Instance wf_kept_primitives : within_primitives wf_kept.
Proof.
  split; intros.
  - eapply within_mono; [apply table_step_svc_wf|apply (proj1 (client_get_within _))].
  - eapply within_mono; [apply table_step_svc_wf|apply (proj1 (client_update_within _))].
  - eapply within_mono; [apply table_step_svc_wf|apply (proj1 (CreateOrUpdate_within _ _))].
  - eapply within_mono; [apply table_step_sts_wf|apply (proj1 (CreateOrUpdate_within _ _))].
Qed.

(** [handleDelete] writes nothing but the Service it was given. *)
Lemma handleDelete_keys svc w :
  exists new, w_log (snd (handleDelete svc w)) = w_log w ++ new /\
              forall ev, ev ∈ new -> write_key ev = obj_key svc.
Proof.
  unfold handleDelete.
  destruct (ContainsFinalizer svc finalizer);
    [|exists []; split; [simpl; by rewrite app_nil_r|set_solver]].
  destruct (gomap_get _ _); [|exists []; split; [simpl; by rewrite app_nil_r|set_solver]].
  unfold sbind. destruct (client_update (RemoveFinalizer svc finalizer) w) as [[o|e] w'] eqn:Hu.
  - apply client_update_ok_log in Hu as (m & Hl & _). simpl.
    eexists. split; [exact Hl|]. intros ev ->%list_elem_of_singleton.
    apply RemoveFinalizer_key.
  - apply client_update_err_log in Hu. simpl. exists [].
    split; [by rewrite Hu, app_nil_r|set_solver].
Qed.

Lemma Reconcile_handleDelete w k P :
  w_faults w = [] -> st_services (w_store w) !! k = Some P -> reconcile_disabled P = true ->
  Reconcile k w = handleDelete P w.
Proof.
  intros Hf Hk Hd. unfold Reconcile, sbind. rewrite (client_get_found w k P) by done.
  by rewrite Hd.
Qed.

(** ** Properties *)

(** C1: provisioning.  For an enabled Service (annotation [true] in any
    case, no deletion requested) in a fault-free world whose templates are
    usable, whose UID has eight bytes and whose existing children (if any)
    have labels, one [Reconcile] pass succeeds and leaves the Service with
    the finalizer, a Service child [<name>-tailscale] owned by it with the
    template's spec and the [svc=<name>] selector, and a StatefulSet child
    [<name>-tailscale] owned by it whose spec is the desired one. *)
Theorem Reconcile_provisions w k P tsvc tsts :
  w_faults w = [] -> store_wf (w_store w) ->
  st_services (w_store w) !! k = Some P -> reconcile_disabled P = false ->
  file_svc_yaml (w_files w) = Some tsvc -> svc_template_ok tsvc = true ->
  file_sts_yaml (w_files w) = Some tsts -> sts_template_ok tsts = true ->
  8 <= String.length (om_uid (svc_meta P)) ->
  (forall c, st_services (w_store w) !! childKey P = Some c -> is_Some (om_labels (svc_meta c))) ->
  (forall c, st_statefulsets (w_store w) !! childKey P = Some c ->
             is_Some (om_labels (sts_meta c))) ->
  exists w', Reconcile k w = (Ok tt, w') /\
    (exists P', st_services (w_store w') !! k = Some P' /\
                finalizer ∈ om_finalizers (svc_meta P')) /\
    (exists cs, st_services (w_store w') !! childKey P = Some cs /\ child_service_ok P tsvc cs) /\
    (exists ss, st_statefulsets (w_store w') !! childKey P = Some ss /\ child_sts_ok P tsts ss).
Proof.
  intros Hf Hwf HP Hen Hfs Hts Hfst Htst Hu Hl1 Hl2.
  destruct (Reconcile_first_pass w k P tsvc tsts)
    as (P' & cs & ss & d & w' & Hr & Hsv & Hst & Hfin & _ & _ & _ & _ & _ & Hcs & _ & _ & _
        & Hss & _); try done.
  destruct (proj1 Hwf _ _ HP) as [HkP _].
  assert (childKey P <> k) as Hck by eauto with ctrl.
  exists w'. split; [done|].
  rewrite Hsv, Hst. split; [exists P'; by rewrite lookup_insert_ne, lookup_insert_eq|].
  split; [exists cs; by rewrite lookup_insert_eq|]. exists ss. by rewrite lookup_insert_eq.
Qed.

Lemma Reconcile_provisions_witness :
  exists w', Reconcile ("default", "web") (demo_world demo_enabled) = (Ok tt, w') /\
    (exists P', st_services (w_store w') !! ("default", "web") = Some P' /\
                finalizer ∈ om_finalizers (svc_meta P')) /\
    (exists cs, st_services (w_store w') !! childKey demo_enabled = Some cs /\
                child_service_ok demo_enabled sample_svc_template cs) /\
    (exists ss, st_statefulsets (w_store w') !! childKey demo_enabled = Some ss /\
                child_sts_ok demo_enabled sample_sts_template ss).
Proof.
  apply Reconcile_provisions; try reflexivity.
  - decide_by_vm.
  - simpl. lia.
  - absurd_by_vm.
  - absurd_by_vm.
Defined.

(** C3: idempotence.  Under the hypotheses of provisioning, a second pass
    on the world the first pass left succeeds and changes nothing: the
    store is the same, and the only write issued is a no-op [Update] of
    the parent (which already carries the finalizer).  The children are
    read and found [DeepEqual] to their desired state.  The store here does
    no server-side defaulting (cluster-IP allocation, StatefulSet
    defaults), which the code's wholesale spec replacement would undo on
    every pass. *)
Theorem Reconcile_idempotent w k P tsvc tsts :
  w_faults w = [] -> store_wf (w_store w) ->
  st_services (w_store w) !! k = Some P -> reconcile_disabled P = false ->
  file_svc_yaml (w_files w) = Some tsvc -> svc_template_ok tsvc = true ->
  file_sts_yaml (w_files w) = Some tsts -> sts_template_ok tsts = true ->
  8 <= String.length (om_uid (svc_meta P)) ->
  (forall c, st_services (w_store w) !! childKey P = Some c -> is_Some (om_labels (svc_meta c))) ->
  (forall c, st_statefulsets (w_store w) !! childKey P = Some c ->
             is_Some (om_labels (sts_meta c))) ->
  exists w1 m, Reconcile k w = (Ok tt, w1) /\
    Reconcile k w1 = (Ok tt, world_log (WUpdate "Service" k m) w1) /\
    finalizer ∈ om_finalizers m.
Proof.
  intros Hf Hwf HP Hen Hfs Hts Hfst Htst Hu Hl1 Hl2.
  destruct (Reconcile_first_pass w k P tsvc tsts)
    as (P' & cs & ss & d & w1 & Hr & Hsv & Hst & Hfin & Hid & Hd' & Han & _ & HkP' & _ & Hscs & Hkcs
        & Hd & _ & Hsss & Hkss & Hfi & Hfa); try done.
  destruct (proj1 Hwf _ _ HP) as [HkP _].
  assert (childKey P <> k) as Hck by eauto with ctrl.
  pose proof (same_identity_childKey _ _ Hid) as HcK.
  exists w1, (svc_meta P'). split; [done|]. split; [|done].
  apply (Reconcile_settled w1 k P' tsvc tsts d cs ss); try congruence.
  - rewrite Hsv. by rewrite lookup_insert_ne, lookup_insert_eq.
  - rewrite (reconcile_disabled_ext P P'); [done|done|].
    rewrite Hd'. symmetry. by apply reconcile_disabled_false.
  - by rewrite (same_identity_desired _ _ _ Hid).
  - rewrite HcK, Hsv. apply lookup_insert_eq.
  - eapply settled_ext; [|exact Hscs]. intros x. symmetry. by apply same_identity_service_child_fn.
  - rewrite HcK, Hst. apply lookup_insert_eq.
  - eapply settled_ext; [|exact Hsss]. intros x. symmetry. by apply same_identity_sts_child_fn.
Qed.

Lemma Reconcile_idempotent_witness :
  exists w1 m, Reconcile ("default", "web") (demo_world demo_enabled) = (Ok tt, w1) /\
    Reconcile ("default", "web") w1 = (Ok tt, world_log (WUpdate "Service" ("default", "web") m) w1) /\
    finalizer ∈ om_finalizers m.
Proof.
  apply (Reconcile_idempotent _ _ demo_enabled sample_svc_template sample_sts_template);
    try reflexivity.
  - decide_by_vm.
  - simpl. lia.
  - absurd_by_vm.
  - absurd_by_vm.
Defined.

(** C13: the finalizer is persisted before any child is written.  In every
    pass, whatever API calls fail, each write to a key other than the
    parent's is preceded, in the same pass, by an accepted update of the
    parent that carries the finalizer. *)
Theorem Reconcile_finalizer_first k w :
  store_wf (w_store w) ->
  exists new, w_log (snd (Reconcile k w)) = w_log w ++ new /\
    forall i ev, new !! i = Some ev -> write_key ev <> k ->
      exists j m, j < i /\ new !! j = Some (WUpdate "Service" k m) /\
                  finalizer ∈ om_finalizers m.
Proof.
  intros Hwf. unfold Reconcile, sbind.
  destruct (client_get k w) as [[svc|e] w1] eqn:Hg; simpl;
    [|exists []; rewrite app_nil_r; split; [|intros i ev Hi; by rewrite lookup_nil in Hi];
      pose proof (client_get_log (T:=Service) k w) as Hl; rewrite Hg in Hl; exact Hl].
  apply client_get_inv in Hg as (Hk & _ & Hl1).
  destruct (proj1 Hwf _ _ Hk) as [HkS _].
  destruct (reconcile_disabled svc).
  - destruct (handleDelete_keys svc w1) as (new & Hn & Hkeys).
    exists new. rewrite Hn, Hl1. split; [done|].
    intros i ev Hi Hne. exfalso. apply Hne. rewrite <- HkS. apply Hkeys.
    by eapply list_elem_of_lookup_2.
  - destruct (client_update (AddFinalizer svc finalizer) w1) as [[svc'|e] w2] eqn:Hu.
    + apply client_update_ok_log in Hu as (m & Hl2 & Hfm).
      destruct (deployTailscale_within log_grows svc' w2) as [rest Hl3].
      exists (WUpdate "Service" k m :: rest). rewrite Hl3, Hl2, Hl1, AddFinalizer_key, HkS.
      split; [by rewrite <- app_assoc|].
      intros [|i] ev Hi Hne; simpl in Hi; [by injection Hi as <-|].
      exists 0, m. split; [lia|]. split; [done|]. rewrite Hfm. apply AddFinalizer_in.
    + apply client_update_err_log in Hu. exists []. simpl. rewrite Hu, Hl1, app_nil_r.
      split; [done|]. intros i ev Hi. by rewrite lookup_nil in Hi.
Qed.

Lemma Reconcile_finalizer_first_witness :
  exists new, w_log (snd (Reconcile ("default", "web") (demo_world demo_enabled))) =
              w_log (demo_world demo_enabled) ++ new /\
    forall i ev, new !! i = Some ev -> write_key ev <> ("default", "web") ->
      exists j m, j < i /\ new !! j = Some (WUpdate "Service" ("default", "web") m) /\
                  finalizer ∈ om_finalizers m.
Proof.
  apply Reconcile_finalizer_first.
  decide_by_vm.
Defined.

(** C22: a disabled Service that never carried the finalizer is left alone:
    the pass succeeds and writes nothing. *)
Theorem Reconcile_disabled_noop w k P :
  w_faults w = [] -> st_services (w_store w) !! k = Some P ->
  reconcile_disabled P = true -> finalizer ∉ om_finalizers (svc_meta P) ->
  Reconcile k w = (Ok tt, w).
Proof.
  intros Hf Hk Hd Hn. rewrite (Reconcile_handleDelete w k P) by done.
  unfold handleDelete. destruct (ContainsFinalizer P finalizer) eqn:Hc; [|done].
  by apply ContainsFinalizer_spec in Hc.
Qed.

Lemma Reconcile_disabled_noop_witness :
  Reconcile ("default", "web") (demo_world (demo_parent ∅ None []))
  = (Ok tt, demo_world (demo_parent ∅ None [])).
Proof.
  apply Reconcile_disabled_noop with (P := demo_parent ∅ None []);
    [reflexivity|reflexivity|reflexivity|simpl; set_solver].
Defined.

(** Without the device-ID annotation [handleDelete] writes nothing and
    succeeds, whatever the finalizers. *)
Lemma handleDelete_no_deviceID P w :
  gomap_get (om_annotations (svc_meta P)) deviceIDAnnotation = None ->
  handleDelete P w = (Ok tt, w).
Proof. intros Hn. unfold handleDelete. rewrite Hn. by destruct (ContainsFinalizer P finalizer). Qed.

(** C12: a disabled or deleted Service without the device-ID annotation
    keeps its finalizer: the pass succeeds without writing anything, even
    when the Service carries the finalizer and its deletion was requested
    ([handleDelete] returns before [RemoveFinalizer]). *)
Theorem Reconcile_keeps_finalizer w k P :
  w_faults w = [] -> st_services (w_store w) !! k = Some P ->
  reconcile_disabled P = true ->
  gomap_get (om_annotations (svc_meta P)) deviceIDAnnotation = None ->
  Reconcile k w = (Ok tt, w).
Proof.
  intros Hf Hk Hd Hn. rewrite (Reconcile_handleDelete w k P) by done.
  by apply handleDelete_no_deviceID.
Qed.

(** A Service being deleted, with the finalizer and no device ID. *)
Lemma Reconcile_keeps_finalizer_witness :
  Reconcile ("default", "web") (demo_world (demo_parent ∅ (Some 7) [finalizer]))
    = (Ok tt, demo_world (demo_parent ∅ (Some 7) [finalizer])) /\
  st_services (w_store (demo_world (demo_parent ∅ (Some 7) [finalizer]))) !! ("default", "web")
    = Some (demo_parent ∅ (Some 7) [finalizer]).
Proof.
  split; [|reflexivity].
  apply Reconcile_keeps_finalizer with (P := demo_parent ∅ (Some 7) [finalizer]); reflexivity.
Defined.

(** C14: with the device-ID annotation, a disabled or deleted Service that
    carries the finalizer has it removed in one pass: the Service is gone
    from the store exactly when its deletion was requested and no other
    finalizer remains; otherwise it is stored without the finalizer.
    Nothing else is written. *)
Theorem Reconcile_removes_finalizer w k P :
  w_faults w = [] -> store_wf (w_store w) -> st_services (w_store w) !! k = Some P ->
  reconcile_disabled P = true -> finalizer ∈ om_finalizers (svc_meta P) ->
  is_Some (gomap_get (om_annotations (svc_meta P)) deviceIDAnnotation) ->
  exists w', Reconcile k w = (Ok tt, w') /\
    st_statefulsets (w_store w') = st_statefulsets (w_store w) /\
    (forall k', k' <> k -> st_services (w_store w') !! k' = st_services (w_store w) !! k') /\
    (st_services (w_store w') !! k = None <->
       is_Some (om_deletion_timestamp (svc_meta P)) /\
       filter (fun e => e <> finalizer) (om_finalizers (svc_meta P)) = []) /\
    (forall P', st_services (w_store w') !! k = Some P' ->
       (finalizer ∉ om_finalizers (svc_meta P')) /\ same_identity P P').
Proof.
  intros Hf Hwf Hk Hd Hin Hdev. rewrite (Reconcile_handleDelete w k P) by done.
  destruct (handleDelete_removes w k P) as (w' & Hr & _ & Hs & Ho & Hdel & HP); try done.
  exists w'. do 4 (split; [done|]). intros P' HP'. by destruct (HP P' HP') as (? & ? & _).
Qed.

Lemma Reconcile_removes_finalizer_witness :
  exists w', Reconcile ("default", "web")
               (demo_world (demo_parent {[deviceIDAnnotation := "n123"]} (Some 7) [finalizer]))
             = (Ok tt, w') /\
    st_statefulsets (w_store w') = ∅ /\
    (forall k', k' <> ("default", "web") -> st_services (w_store w') !! k' =
       st_services (w_store (demo_world (demo_parent {[deviceIDAnnotation := "n123"]} (Some 7) [finalizer]))) !! k') /\
    (st_services (w_store w') !! ("default", "web") = None <->
       is_Some (om_deletion_timestamp (svc_meta (demo_parent {[deviceIDAnnotation := "n123"]} (Some 7) [finalizer]))) /\
       filter (fun e => e <> finalizer)
         (om_finalizers (svc_meta (demo_parent {[deviceIDAnnotation := "n123"]} (Some 7) [finalizer]))) = []) /\
    (forall P', st_services (w_store w') !! ("default", "web") = Some P' ->
       (finalizer ∉ om_finalizers (svc_meta P')) /\
       same_identity (demo_parent {[deviceIDAnnotation := "n123"]} (Some 7) [finalizer]) P').
Proof.
  apply Reconcile_removes_finalizer; try reflexivity.
  - decide_by_vm.
  - simpl. set_solver.
  - simpl. eauto.
Defined.

(** C21: the pass after a teardown.  Spec section 8 says that once the
    finalizer is removed, reconciling again is a no-op.  In a fault-free
    world, after the teardown pass of [Reconcile_removes_finalizer], the
    next pass is a no-op (world unchanged, nothing written) while the
    parent remains; when the teardown released a parent whose deletion
    was requested, the parent is gone and the next pass returns [Get]'s
    [NotFound] as an error. *)
Theorem Reconcile_teardown_second_pass w k P :
  w_faults w = [] -> store_wf (w_store w) -> st_services (w_store w) !! k = Some P ->
  reconcile_disabled P = true -> finalizer ∈ om_finalizers (svc_meta P) ->
  is_Some (gomap_get (om_annotations (svc_meta P)) deviceIDAnnotation) ->
  exists w1, Reconcile k w = (Ok tt, w1) /\
    ((exists P', st_services (w_store w1) !! k = Some P' /\ Reconcile k w1 = (Ok tt, w1)) \/
     (st_services (w_store w1) !! k = None /\ Reconcile k w1 = (Err ErrNotFound, w1))).
Proof.
  intros Hf Hwf Hk Hd Hin Hdev.
  destruct (handleDelete_removes w k P) as (w1 & Hr & Hf1 & _ & _ & _ & HP); try done.
  exists w1. split; [by rewrite (Reconcile_handleDelete w k P)|].
  destruct (st_services (w_store w1) !! k) as [P'|] eqn:Hk1.
  - left. exists P'. split; [done|]. destruct (HP P' eq_refl) as (Hn & _ & Ha & Hdt & _).
    rewrite (Reconcile_handleDelete w1 k P') by (try done; by rewrite (reconcile_disabled_ext P P')).
    unfold handleDelete. destruct (ContainsFinalizer P' finalizer) eqn:Hc; [|done].
    by apply ContainsFinalizer_spec in Hc.
  - right. split; [done|]. unfold Reconcile, sbind. by rewrite (client_get_missing (T:=Service)).
Qed.

Lemma Reconcile_teardown_second_pass_witness :
  exists w1, Reconcile ("default", "web")
               (demo_world (demo_parent {[deviceIDAnnotation := "n123"]} (Some 7) [finalizer]))
             = (Ok tt, w1) /\
    ((exists P', st_services (w_store w1) !! ("default", "web") = Some P' /\
                 Reconcile ("default", "web") w1 = (Ok tt, w1)) \/
     (st_services (w_store w1) !! ("default", "web") = None /\
      Reconcile ("default", "web") w1 = (Err ErrNotFound, w1))).
Proof.
  apply (Reconcile_teardown_second_pass _ _ (demo_parent {[deviceIDAnnotation := "n123"]} (Some 7) [finalizer])); try reflexivity.
  - decide_by_vm.
  - simpl. set_solver.
  - simpl. eauto.
Defined.

(** [Reconcile] of a Service that no longer exists returns the
    [NotFound] error of [Get] (the scheduler retries it) instead of
    ending quietly. *)
Theorem Reconcile_not_found w k :
  w_faults w = [] -> st_services (w_store w) !! k = None ->
  Reconcile k w = (Err ErrNotFound, w).
Proof.
  intros Hf Hk. unfold Reconcile, sbind. by rewrite (client_get_missing (T:=Service)).
Qed.

Lemma Reconcile_not_found_witness :
  Reconcile ("default", "gone") (demo_world demo_enabled) = (Err ErrNotFound, demo_world demo_enabled).
Proof. apply Reconcile_not_found; reflexivity. Defined.

(** C29: the StatefulSet child names the template's Service.  After the
    provisioning pass, the stored StatefulSet child's [ServiceName] is the
    name written in [sts.yaml] ([sts.Spec.ServiceName = sts.Name]), the
    same for every parent, and so differs from the name [<name>-tailscale]
    of the Service child the pass created, unless the template happens to
    carry that name. *)
Theorem Reconcile_sts_service_name w k P tsvc tsts :
  w_faults w = [] -> store_wf (w_store w) ->
  st_services (w_store w) !! k = Some P -> reconcile_disabled P = false ->
  file_svc_yaml (w_files w) = Some tsvc -> svc_template_ok tsvc = true ->
  file_sts_yaml (w_files w) = Some tsts -> sts_template_ok tsts = true ->
  8 <= String.length (om_uid (svc_meta P)) ->
  (forall c, st_services (w_store w) !! childKey P = Some c -> is_Some (om_labels (svc_meta c))) ->
  (forall c, st_statefulsets (w_store w) !! childKey P = Some c ->
             is_Some (om_labels (sts_meta c))) ->
  exists w' ss cs, Reconcile k w = (Ok tt, w') /\
    st_statefulsets (w_store w') !! childKey P = Some ss /\
    st_services (w_store w') !! childKey P = Some cs /\
    sts_service_name (sts_spec ss) = om_name (sts_meta tsts) /\
    (om_name (sts_meta tsts) <> childName P -> sts_service_name (sts_spec ss) <> om_name (svc_meta cs)).
Proof.
  intros Hf Hwf HP Hen Hfs Hts Hfst Htst Hu Hl1 Hl2.
  destruct (Reconcile_first_pass w k P tsvc tsts)
    as (P' & cs & ss & d & w' & Hr & Hsv & Hst & _ & _ & _ & _ & _ & _ & _ & _ & Hkcs & _
        & Hss & _); try done.
  destruct Hss as (_ & _ & d' & Hd' & Hn).
  apply (f_equal sts_service_name) in Hn. simpl in Hn.
  rewrite (statefulset_desired_service_name _ _ _ Hd') in Hn.
  exists w', ss, cs. split; [done|]. rewrite Hsv, Hst, !lookup_insert_eq.
  split; [done|]. split; [done|]. split; [done|].
  intros Hne. rewrite Hn. unfold obj_key, childKey in Hkcs. injection Hkcs as _ ->. done.
Qed.

Lemma Reconcile_sts_service_name_witness :
  exists w' ss cs, Reconcile ("default", "web") (demo_world demo_enabled) = (Ok tt, w') /\
    st_statefulsets (w_store w') !! childKey demo_enabled = Some ss /\
    st_services (w_store w') !! childKey demo_enabled = Some cs /\
    sts_service_name (sts_spec ss) = om_name (sts_meta sample_sts_template) /\
    (om_name (sts_meta sample_sts_template) <> childName demo_enabled ->
     sts_service_name (sts_spec ss) <> om_name (svc_meta cs)).
Proof.
  apply (Reconcile_sts_service_name _ _ demo_enabled sample_svc_template sample_sts_template);
    try reflexivity.
  - decide_by_vm.
  - simpl. lia.
  - absurd_by_vm.
  - absurd_by_vm.
Defined.

(** The pass of an enabled parent whose child key holds a Service with nil
    labels: the finalizer is written, then the Service closure panics. *)
Lemma Reconcile_nil_labels w k P tsvc c :
  w_faults w = [] -> store_wf (w_store w) ->
  st_services (w_store w) !! k = Some P -> reconcile_disabled P = false ->
  file_svc_yaml (w_files w) = Some tsvc ->
  st_services (w_store w) !! childKey P = Some c -> om_labels (svc_meta c) = None ->
  exists w', Reconcile k w = (Err (ErrPanic PanicNilMap), w') /\
    st_services (w_store w') !! childKey P = Some c /\
    st_statefulsets (w_store w') = st_statefulsets (w_store w) /\
    exists P', st_services (w_store w') !! k = Some P' /\ finalizer ∈ om_finalizers (svc_meta P').
Proof.
  intros Hf Hwf HP Hen Hfs Hc Hl.
  destruct (proj1 Hwf _ _ HP) as [HkP _].
  assert (childKey P <> k) as Hck by eauto with ctrl.
  destruct (proj1 Hwf _ _ Hc) as [Hkc _].
  pose proof (reconcile_disabled_false _ Hen) as Hdts.
  destruct (update_add_finalizer w k P)
    as (P' & w1 & Hup & Hfin & Hid & _ & Hs1 & Hfi1 & Hfa1 & _); try done.
  pose proof (same_identity_childKey _ _ Hid) as HcK.
  assert (st_services (w_store w1) !! childKey P' = Some c) as Hc1.
  { rewrite Hs1, HcK. simpl. by rewrite lookup_insert_ne. }
  exists w1. split; [|rewrite Hs1; simpl; rewrite lookup_insert_ne, lookup_insert_eq by done;
                      split; [done|]; split; [done|]; by exists P'].
  unfold Reconcile, sbind. rewrite (client_get_found w k P) by done. rewrite Hen, Hup.
  unfold deployTailscale, reconcileService, sbind, parseFile_svc. rewrite Hfi1, Hfs.
  unfold createOrUpdate, sbind, CreateOrUpdate.
  rewrite (client_get_found w1 _ c) by done.
  unfold sbind, slift, mutate.
  rewrite (SetOwnerReference_same_ns P' c).
  - unfold service_mutate. simpl. rewrite Hl. reflexivity.
  - destruct Hid as (_ & Hns & _). unfold obj_key, childKey in Hkc. simpl in *. congruence.
Qed.

(** C23: an existing Service named [<name>-tailscale] with nil labels makes
    the pass panic.  In a fault-free world, for an enabled parent, the
    finalizer is written, then the Service child's mutate closure assigns
    into the child's nil label map ([svcOrig.Labels["svc"] = svc.Name]) and
    the pass ends in the nil-map panic, leaving the child and the
    StatefulSets as they were.  Every retry does the same. *)
Theorem Reconcile_nil_labels_panics w k P tsvc c :
  w_faults w = [] -> store_wf (w_store w) ->
  st_services (w_store w) !! k = Some P -> reconcile_disabled P = false ->
  file_svc_yaml (w_files w) = Some tsvc ->
  st_services (w_store w) !! childKey P = Some c -> om_labels (svc_meta c) = None ->
  exists w', Reconcile k w = (Err (ErrPanic PanicNilMap), w') /\
    st_services (w_store w') !! childKey P = Some c /\
    st_statefulsets (w_store w') = st_statefulsets (w_store w) /\
    exists P', st_services (w_store w') !! k = Some P' /\ finalizer ∈ om_finalizers (svc_meta P').
Proof. apply Reconcile_nil_labels. Qed.

Lemma Reconcile_nil_labels_panics_witness :
  exists w', Reconcile ("default", "web") demo_world_unlabelled = (Err (ErrPanic PanicNilMap), w') /\
    st_services (w_store w') !! childKey demo_enabled = Some demo_unlabelled_child /\
    st_statefulsets (w_store w') = st_statefulsets (w_store demo_world_unlabelled) /\
    exists P', st_services (w_store w') !! ("default", "web") = Some P' /\
               finalizer ∈ om_finalizers (svc_meta P').
Proof.
  apply (Reconcile_nil_labels_panics _ _ demo_enabled sample_svc_template); try reflexivity.
  decide_by_vm.
Defined.

End Controller.
