(* ===== verification/Convergence.v ===== *)
(** * Convergence after failures: retried passes complete provisioning

    The scheduler's contract (spec sections 5 and 7): a pass that fails
    part-way is not rolled back, and a later pass is expected to finish
    what it started.  [provisionable] is what a pass of [Reconcile] on an
    enabled parent keeps whatever API calls fail: the store stays well
    formed, the parent stays at its key with its identity, annotations and
    no deletion request, the template files stay, and any child at the
    child key has labels.  In a fault-free world it is exactly the
    precondition of provisioning, so after any number of failed passes a
    fault-free pass provisions. *)

From S2P Require Import Spec2Rocq GoRuntime Objects Naming Env Builder Store Controller.

Module Convergence.
Import Naming Env Builder Store Controller.

(** [P'] is the parent [P] as later passes may find it: same identity,
    annotations, and no deletion request (its finalizers and resource
    version may have changed). *)
Definition compat (P P' : Service) : Prop :=
  same_identity P P' /\ om_annotations (svc_meta P') = om_annotations (svc_meta P) /\
  om_deletion_timestamp (svc_meta P') = None.

Definition provisionable (k : string * string) (P : Service) (F : Files) (w : World) : Prop :=
  store_wf (w_store w) /\ w_files w = F /\
  (exists P', st_services (w_store w) !! k = Some P' /\ compat P P') /\
  (forall c, st_services (w_store w) !! childKey P = Some c -> is_Some (om_labels (svc_meta c))) /\
  (forall c, st_statefulsets (w_store w) !! childKey P = Some c ->
             is_Some (om_labels (sts_meta c))).

Definition prov_kept k P F (w w' : World) : Prop :=
  provisionable k P F w -> provisionable k P F w'.

#[export] Instance prov_kept_preorder k P F : PreOrder (prov_kept k P F).
Proof. split; [intros w H; exact H|]. intros w1 w2 w3 H1 H2 H. auto. Qed.

(** ** Lemmas *)

Lemma compat_refl P : om_deletion_timestamp (svc_meta P) = None -> compat P P.
Proof. intros Hd. split; [|done]. by repeat split. Qed.

Lemma compat_trans P P1 P2 : compat P P1 -> compat P1 P2 -> compat P P2.
Proof.
  intros ((Hn & Hns & Hu & Hs) & Ha & _) ((Hn' & Hns' & Hu' & Hs') & Ha' & Hd').
  split; [repeat split; congruence|]. split; [congruence|done].
Qed.

Lemma compat_enabled P P' :
  reconcile_disabled P = false -> compat P P' -> reconcile_disabled P' = false.
Proof.
  intros Hen (_ & Ha & Hd). rewrite (reconcile_disabled_ext P P'); [done|done|].
  rewrite Hd. symmetry. by apply reconcile_disabled_false.
Qed.

Lemma provisionable_frame k P F w w' :
  w_store w' = w_store w -> w_files w' = w_files w ->
  provisionable k P F w -> provisionable k P F w'.
Proof. intros Hs Hf. unfold provisionable. by rewrite Hs, Hf. Qed.

Lemma service_child_fn_labels P tsvc x y :
  service_child_fn P tsvc x = Ok y -> is_Some (om_labels (svc_meta y)).
Proof.
  unfold service_child_fn, service_mutate. destruct (SetOwnerReference P x); simpl; [|done].
  destruct (gomap_set _ _ _) eqn:E; simpl; [|done]. destruct (gomap_set (svc_selector _) _ _); [|done].
  intros [= <-]. simpl. unfold gomap_set in E. destruct (om_labels _); simpl in E; by simplify_eq.
Qed.

Lemma sts_child_fn_labels P d x y :
  sts_child_fn P d x = Ok y -> is_Some (om_labels (sts_meta y)).
Proof.
  unfold sts_child_fn, statefulset_mutate. destruct (SetOwnerReference P x); simpl; [|done].
  destruct (gomap_set _ _ _) eqn:E; simpl; [|done].
  intros [= <-]. simpl. unfold gomap_set in E. destruct (om_labels _); simpl in E; by simplify_eq.
Qed.

Section Invariant.
Context (k : string * string) (P : Service) (F : Files).
Hypothesis HkP : obj_key P = k.

Lemma client_get_prov k' : within (prov_kept k P F) (client_get (T:=Service) k').
Proof.
  intros w. destruct (client_get_frame (T:=Service) k' w). unfold prov_kept.
  by apply provisionable_frame.
Qed.

(** A step that only writes labelled Services at the child key keeps the
    invariant; likewise for StatefulSets. *)
Lemma child_svc_prov w w' :
  key_step (T:=Service) (childKey P) (fun o => is_Some (om_labels (svc_meta o))) w w' ->
  table_step (T:=Service) w w' -> prov_kept k P F w w'.
Proof.
  intros (Hf & Hs & Ho & Hk) Ht (Hwf & HF & (P' & HP' & Hc) & Hl1 & Hl2).
  assert (childKey P <> k) as Hck by eauto with ctrl.
  split; [exact (table_step_svc_wf w w' Ht Hwf)|]. split; [congruence|].
  split; [exists P'; simpl in Ho; by rewrite Ho|].
  split; [intros c Hc'; destruct (Hk c Hc'); auto|].
  rewrite Hs. simpl. exact Hl2.
Qed.

Lemma child_sts_prov w w' :
  key_step (T:=StatefulSet) (childKey P) (fun o => is_Some (om_labels (sts_meta o))) w w' ->
  table_step (T:=StatefulSet) w w' -> prov_kept k P F w w'.
Proof.
  intros (Hf & Hs & Ho & Hk) Ht (Hwf & HF & HP & Hl1 & Hl2).
  split; [exact (table_step_sts_wf w w' Ht Hwf)|]. split; [congruence|].
  rewrite Hs. simpl. split; [exact HP|]. split; [exact Hl1|].
  intros c Hc'. destruct (Hk c Hc'); auto.
Qed.

Lemma reconcileService_prov x : compat P x -> within (prov_kept k P F) (reconcileService x).
Proof.
  intros Hc. unfold reconcileService.
  refine (within_bind _ _ _ _ _);
    [intros w; unfold parseFile_svc; destruct (file_svc_yaml _); intros H; exact H|].
  intros tmpl. unfold createOrUpdate.
  refine (within_bind _ _ _ _ (fun _ => within_ret _ _)).
  assert (obj_key (service_init x) = childKey P) as Hk.
  { rewrite <- (same_identity_childKey P x) by apply Hc. reflexivity. }
  refine (within_conj _ _ _ _
            (CreateOrUpdate_key_step (service_init x) _
               (fun o => is_Some (om_labels (svc_meta o))) _)
            (proj1 (CreateOrUpdate_within (service_init x) _)) _).
  - intros a y Hy u d r. exact (service_child_fn_labels x tmpl a y Hy).
  - intros w w' H1 H2. rewrite Hk in H1. exact (child_svc_prov w w' H1 H2).
Qed.

Lemma reconcileStatefulSet_prov x : compat P x -> within (prov_kept k P F) (reconcileStatefulSet x).
Proof.
  intros Hc. unfold reconcileStatefulSet.
  refine (within_bind _ _ _ _ _);
    [intros w; unfold parseFile_sts; destruct (file_sts_yaml _); intros H; exact H|].
  intros tmpl. refine (within_bind _ _ _ (within_lift _ _) _). intros d.
  unfold createOrUpdate.
  refine (within_bind _ _ _ _ (fun _ => within_ret _ _)).
  assert (obj_key (statefulset_init x) = childKey P) as Hk.
  { rewrite <- (same_identity_childKey P x) by apply Hc. reflexivity. }
  refine (within_conj _ _ _ _
            (CreateOrUpdate_key_step (statefulset_init x) _
               (fun o => is_Some (om_labels (sts_meta o))) _)
            (proj1 (CreateOrUpdate_within (statefulset_init x) _)) _).
  - intros a y Hy u dt r. exact (sts_child_fn_labels x d a y Hy).
  - intros w w' H1 H2. rewrite Hk in H1. exact (child_sts_prov w w' H1 H2).
Qed.

Lemma deployTailscale_prov x : compat P x -> within (prov_kept k P F) (deployTailscale x).
Proof.
  intros Hc. exact (within_bind _ _ _ (reconcileService_prov x Hc)
                      (fun _ => reconcileStatefulSet_prov x Hc)).
Qed.

Lemma compat_add_finalizer P' rv :
  compat P P' ->
  compat P (with_system (om_uid (svc_meta P')) (om_deletion_timestamp (svc_meta P')) rv
              (AddFinalizer P' finalizer)).
Proof.
  intros ((Hn & Hns & Hu & Hs) & Ha & Hd). unfold AddFinalizer, compat, same_identity.
  destruct (ContainsFinalizer P' finalizer); simpl; repeat split; congruence.
Qed.

(** The parent's [Update] with the finalizer, whatever its outcome, keeps
    the invariant, and what it returns is still the parent. *)
Lemma update_prov P'' w r w2 :
  provisionable k P F w -> st_services (w_store w) !! k = Some P'' -> compat P P'' ->
  client_update (AddFinalizer P'' finalizer) w = (r, w2) ->
  provisionable k P F w2 /\ forall x, r = Ok x -> compat P x.
Proof.
  intros Hpr HP'' Hc Hu.
  assert (childKey P <> k) as Hck by eauto with ctrl.
  pose proof (proj1 (proj1 (proj1 Hpr) _ _ HP'')) as HkP''.
  apply client_update_outcome in Hu as (Hf & [(Hs & Hr) | (cur & Hcur & Hr & [(Hfin & Hs) | (Hfin & Hs)])]);
    rewrite AddFinalizer_key, HkP'' in *.
  - split; [by eapply provisionable_frame|].
    intros x ->. specialize (Hr x eq_refl). simpl in Hr. congruence.
  - simpl in Hcur. rewrite HP'' in Hcur. injection Hcur as <-. subst r.
    set (o' := with_system _ _ _ (AddFinalizer P'' finalizer)) in *.
    assert (compat P o') as Hc' by (by apply compat_add_finalizer).
    assert (obj_key o' = k) as Hk' by (unfold o'; by rewrite with_system_key, AddFinalizer_key).
    clearbody o'. split; [|by intros x [= <-]].
    destruct Hpr as (Hwf & HF & _ & Hl1 & Hl2). unfold provisionable. rewrite Hs. simpl.
    split; [split; [|apply Hwf]|].
    { apply tbl_wf_insert; [apply Hwf|done|]. intros [? Hd]. cbn in Hd.
      by rewrite (proj2 (proj2 Hc')) in Hd. }
    split; [congruence|].
    split; [eexists; split; [apply lookup_insert_eq|done]|].
    split; [intros c; rewrite lookup_insert_ne by done; apply Hl1|exact Hl2].
  - exfalso. simpl in Hcur. rewrite HP'' in Hcur. injection Hcur as <-.
    unfold finalised in Hfin. apply bool_decide_eq_true in Hfin as [[? Hd] _].
    simpl in Hd. by rewrite (proj2 (proj2 Hc)) in Hd.
Qed.

(** A pass of [Reconcile] on the enabled parent keeps the invariant,
    whatever API calls fail. *)
Lemma Reconcile_prov : reconcile_disabled P = false -> within (prov_kept k P F) (Reconcile k).
Proof.
  intros Hen w Hpr. unfold Reconcile, sbind.
  pose proof (client_get_prov k w Hpr) as Hpr1.
  destruct (client_get k w) as [[P''|e] w1] eqn:Hg; simpl in *; [|exact Hpr1].
  apply client_get_inv in Hg as (HP'' & Hs1 & _).
  destruct Hpr as (_ & _ & (P' & HP' & Hc) & _). simpl in HP''. rewrite HP'' in HP'.
  injection HP' as <-.
  rewrite (compat_enabled P P'') by done.
  destruct (client_update (AddFinalizer P'' finalizer) w1) as [r w2] eqn:Hu.
  destruct (update_prov P'' w1 r w2) as [Hpr2 Hr]; [done|by rewrite Hs1|done|done|].
  destruct r as [x|e]; simpl; [|exact Hpr2].
  exact (deployTailscale_prov x (Hr x eq_refl) w2 Hpr2).
Qed.

Lemma run_queue_prov n w :
  reconcile_disabled P = false -> provisionable k P F w ->
  provisionable k P F (run_queue (repeat k n) w).
Proof.
  intros Hen. revert w. induction n as [|n IH]; intros w Hpr; simpl; [done|].
  apply IH. by apply (Reconcile_prov Hen w).
Qed.
End Invariant.

(** ** Properties *)

(** C4: convergence after failures.  Start from an enabled parent whose
    templates are usable and whose existing children (if any) have labels,
    with any pattern of API failures.  After any number [n] of passes, the
    failures cutting each one short at any call, a pass in which no call
    fails completes provisioning: the parent carries the finalizer and
    both children serve it.  Nothing a failed pass left behind stands in
    the way. *)
Theorem Reconcile_converges w k P tsvc tsts n :
  store_wf (w_store w) ->
  st_services (w_store w) !! k = Some P -> reconcile_disabled P = false ->
  file_svc_yaml (w_files w) = Some tsvc -> svc_template_ok tsvc = true ->
  file_sts_yaml (w_files w) = Some tsts -> sts_template_ok tsts = true ->
  8 <= String.length (om_uid (svc_meta P)) ->
  (forall c, st_services (w_store w) !! childKey P = Some c -> is_Some (om_labels (svc_meta c))) ->
  (forall c, st_statefulsets (w_store w) !! childKey P = Some c ->
             is_Some (om_labels (sts_meta c))) ->
  exists w', Reconcile k (world_with_faults [] (run_queue (repeat k n) w)) = (Ok tt, w') /\
    (exists P', st_services (w_store w') !! k = Some P' /\
                finalizer ∈ om_finalizers (svc_meta P')) /\
    (exists cs, st_services (w_store w') !! childKey P = Some cs /\ child_service_ok P tsvc cs) /\
    (exists ss, st_statefulsets (w_store w') !! childKey P = Some ss /\ child_sts_ok P tsts ss).
Proof.
  intros Hwf HP Hen Hfs Hts Hfst Htst Hu Hl1 Hl2.
  destruct (proj1 Hwf _ _ HP) as [HkP _].
  assert (childKey P <> k) as Hck by eauto with ctrl.
  assert (provisionable k P (w_files w) w) as Hpr.
  { split; [done|]. split; [done|].
    split; [exists P; split; [done|apply compat_refl; by apply reconcile_disabled_false]|].
    split; done. }
  pose proof (run_queue_prov k P (w_files w) HkP n w Hen Hpr) as Hpr'.
  set (wn := run_queue (repeat k n) w) in *.
  destruct Hpr' as (Hwf' & HF & (P' & HP' & Hc) & Hl1' & Hl2').
  pose proof (same_identity_childKey _ _ (proj1 Hc)) as HcK.
  destruct (Reconcile_first_pass (world_with_faults [] wn) k P' tsvc tsts)
    as (P'' & cs & ss & d & w' & Hr & Hsv & Hst & Hfin & _ & _ & _ & _ & _ & Hcs & _ & _ & _ & Hss & _);
    [reflexivity|exact Hwf'|exact HP'|by apply (compat_enabled P P')|simpl; congruence|done
    |simpl; congruence|done| |rewrite HcK; exact Hl1'|rewrite HcK; exact Hl2'|].
  { destruct Hc as ((_ & _ & Hu' & _) & _). by rewrite Hu'. }
  rewrite HcK in Hsv, Hst. exists w'. split; [done|]. rewrite Hsv, Hst.
  split; [exists P''; by rewrite lookup_insert_ne, lookup_insert_eq|].
  split; [exists cs; rewrite lookup_insert_eq; split; [done|];
          by apply (same_identity_child_service_ok P P' _ _ (proj1 Hc))|].
  exists ss. rewrite lookup_insert_eq. split; [done|].
  by apply (same_identity_child_sts_ok P P' _ _ (proj1 Hc)).
Qed.

Lemma Reconcile_converges_witness :
  exists w', Reconcile ("default", "web")
               (world_with_faults []
                  (run_queue (repeat ("default", "web") 2)
                     (world_with_faults [None; Some ErrConflict; None; None; Some ErrTransient]
                        (demo_world demo_enabled)))) = (Ok tt, w') /\
    (exists P', st_services (w_store w') !! ("default", "web") = Some P' /\
                finalizer ∈ om_finalizers (svc_meta P')) /\
    (exists cs, st_services (w_store w') !! childKey demo_enabled = Some cs /\
                child_service_ok demo_enabled sample_svc_template cs) /\
    (exists ss, st_statefulsets (w_store w') !! childKey demo_enabled = Some ss /\
                child_sts_ok demo_enabled sample_sts_template ss).
Proof.
  apply (Reconcile_converges _ _ demo_enabled sample_svc_template sample_sts_template);
    try reflexivity.
  - decide_by_vm.
  - simpl. lia.
  - absurd_by_vm.
  - absurd_by_vm.
Defined.

End Convergence.
