(* ===== verification/Lifecycle.v ===== *)
(** * The lifecycle contract of spec section 4.2, and its refinement

    The spec describes the Convergence Engine as a state machine over a
    parent: compute [wantEnabled] (enable annotation equal to ["true"] up
    to case, and no deletion marker), then provision, tear down, or do
    nothing.  This file states that contract abstractly, over a view of
    the store from one parent key ([AView]: present, wanted, finalizer,
    deletion requested, other finalizers, children serving it), as one
    step [spec_pass], and proves that [Reconcile] moves the view exactly as
    [spec_pass] does, given the conditions the code needs (usable
    templates for provisioning, the device-ID annotation for teardown). *)

From S2P Require Import Spec2Rocq GoRuntime Objects Naming Env Builder Store Controller.

Module Lifecycle.
Import Naming Env Builder Store Controller.

(** ** The spec's enable rule *)

(** ASCII upper case, and all the ASCII casings of a string. *)
Definition ascii_upper (c : ascii) : ascii :=
  let n := nat_of_ascii c in
  if decide (97 <= n /\ n <= 122) then ascii_of_nat (n - 32) else c.

Fixpoint casings (s : string) : list string :=
  match s with
  | EmptyString => [EmptyString]
  | String c s' =>
      let r := casings s' in
      if decide (ascii_upper c = c) then String c <$> r
      else (String c <$> r) ++ (String (ascii_upper c) <$> r)
  end.

Definition all_ascii : list ascii := ascii_of_nat <$> seq 0 256.


(** [wantEnabled] of spec 4.2, step 1: the enable annotation is present and
    case-insensitively equal to ["true"], and there is no deletion marker. *)
Definition wantEnabled (P : Service) : bool :=
  match gomap_get (om_annotations (svc_meta P)) enableAnnotation with
  | Some a => bool_decide (a ∈ casings "true")
  | None => false
  end && bool_decide (om_deletion_timestamp (svc_meta P) = None).

(** ** The abstract lifecycle *)

(** What the spec's state machine observes of one parent key. *)
Record AView : Type := mkAView {
  av_present : bool;
  av_want : bool;
  av_fin : bool;
  av_deleting : bool;
  av_others : bool;
  av_children : bool
}.

Definition absent_view : AView := mkAView false false false false false false.

(** A child serves [P]: it names [P] as owner and carries [svc=<P>]. *)
Definition serves_svc (P c : Service) : bool :=
  bool_decide (owner_ref_of P ∈ om_owner_references (svc_meta c)) &&
  bool_decide (gomap_get (om_labels (svc_meta c)) svcLabel = Some (om_name (svc_meta P))).

Definition serves_sts (P : Service) (c : StatefulSet) : bool :=
  bool_decide (owner_ref_of P ∈ om_owner_references (sts_meta c)) &&
  bool_decide (gomap_get (om_labels (sts_meta c)) svcLabel = Some (om_name (svc_meta P))).

Definition children_served (s : Store) (P : Service) : bool :=
  match st_services s !! childKey P, st_statefulsets s !! childKey P with
  | Some c, Some t => serves_svc P c && serves_sts P t
  | _, _ => false
  end.

Definition view (k : string * string) (s : Store) : AView :=
  match st_services s !! k with
  | None => absent_view
  | Some P =>
      mkAView true (wantEnabled P)
        (bool_decide (finalizer ∈ om_finalizers (svc_meta P)))
        (bool_decide (is_Some (om_deletion_timestamp (svc_meta P))))
        (bool_decide (filter (fun e => e <> finalizer) (om_finalizers (svc_meta P)) <> []))
        (children_served s P)
  end.

(** One pass of the spec's state machine: provisioning attaches the
    finalizer and puts both children in place; teardown removes the
    finalizer, and the store deletes the parent when that was the last
    finalizer of a parent being deleted; otherwise nothing changes. *)
Definition spec_pass (a : AView) : AView :=
  if negb (av_present a) then a
  else if av_want a then mkAView true true true (av_deleting a) (av_others a) true
  else if av_fin a then
    (if av_deleting a && negb (av_others a) then absent_view
     else mkAView true false false (av_deleting a) (av_others a) (av_children a))
  else a.

(** ** Lemmas *)

Lemma all_ascii_in c : c ∈ all_ascii.
Proof.
  rewrite <- (ascii_nat_embedding c). apply list_elem_of_fmap_2.
  apply elem_of_seq. pose proof (nat_ascii_bounded c). lia.
Qed.

Lemma ascii_lower_inv c x : ascii_lower c = x -> c = x \/ c = ascii_upper x.
Proof.
  assert (forallb (fun x => forallb (fun c =>
            implb (bool_decide (ascii_lower c = x))
                  (bool_decide (c = x) || bool_decide (c = ascii_upper x))) all_ascii) all_ascii = true)
    as Hall by (vm_compute; reflexivity).
  intros Hc. rewrite forallb_forall in Hall.
  pose proof (Hall x (proj1 (list_elem_of_In _ _) (all_ascii_in x))) as Hx.
  rewrite forallb_forall in Hx.
  specialize (Hx c (proj1 (list_elem_of_In _ _) (all_ascii_in c))).
  rewrite (bool_decide_eq_true_2 _ Hc) in Hx. simpl in Hx.
  apply orb_true_iff in Hx as [H|H]; apply bool_decide_eq_true in H; auto.
Qed.

Lemma go_to_lower_true a : go_to_lower a = "true" <-> a ∈ casings "true".
Proof.
  split.
  - intros H. pose proof (f_equal String.length H) as Hl. rewrite go_to_lower_length in Hl.
    destruct a as [|c1 [|c2 [|c3 [|c4 [|c5 a]]]]]; simpl in Hl; try discriminate.
    simpl in H. injection H as H1 H2 H3 H4.
    apply ascii_lower_inv in H1 as [-> | ->], H2 as [-> | ->], H3 as [-> | ->], H4 as [-> | ->];
      apply (bool_decide_unpack _ (dec:=list_elem_of_dec _ _)); vm_compute; reflexivity.
  - intros H.
    assert (forallb (fun a => bool_decide (go_to_lower a = "true")) (casings "true") = true)
      as Hall by (vm_compute; reflexivity).
    rewrite forallb_forall in Hall. specialize (Hall a (proj1 (list_elem_of_In _ _) H)).
    by apply bool_decide_eq_true in Hall.
Qed.

(** The code's test [!ok || strings.ToLower(ant) != "true" || deletion]
    is the negation of [wantEnabled]. *)
Lemma reconcile_disabled_want P : reconcile_disabled P = negb (wantEnabled P).
Proof.
  unfold reconcile_disabled, wantEnabled.
  destruct (gomap_get _ _) as [a|]; [|done]. rewrite negb_andb. f_equal.
  - f_equal. apply bool_decide_ext, go_to_lower_true.
  - by destruct (om_deletion_timestamp _).
Qed.

Lemma wantEnabled_ext P P' :
  om_annotations (svc_meta P') = om_annotations (svc_meta P) ->
  om_deletion_timestamp (svc_meta P') = om_deletion_timestamp (svc_meta P) ->
  wantEnabled P' = wantEnabled P.
Proof. intros Ha Hd. unfold wantEnabled. by rewrite Ha, Hd. Qed.

Lemma serves_svc_same_identity P P' c :
  same_identity P P' -> serves_svc P' c = serves_svc P c.
Proof.
  intros Hid. unfold serves_svc. rewrite (same_identity_owner_ref _ _ Hid).
  by rewrite (proj1 Hid).
Qed.

Lemma serves_sts_same_identity P P' c :
  same_identity P P' -> serves_sts P' c = serves_sts P c.
Proof.
  intros Hid. unfold serves_sts. rewrite (same_identity_owner_ref _ _ Hid).
  by rewrite (proj1 Hid).
Qed.

(** The children seen from [P'] in [s'] are those seen from [P] in [s]
    when [P'] is [P] as far as children go and nothing changed at the
    child key. *)
Lemma children_served_ext s s' P P' :
  same_identity P P' ->
  st_services s' !! childKey P = st_services s !! childKey P ->
  st_statefulsets s' !! childKey P = st_statefulsets s !! childKey P ->
  children_served s' P' = children_served s P.
Proof.
  intros Hid H1 H2. unfold children_served. rewrite (same_identity_childKey _ _ Hid), H1, H2.
  destruct (st_services s !! _), (st_statefulsets s !! _); try done.
  by rewrite (serves_svc_same_identity P P'), (serves_sts_same_identity P P').
Qed.

Lemma view_some k s P :
  st_services s !! k = Some P ->
  view k s = mkAView true (wantEnabled P)
               (bool_decide (finalizer ∈ om_finalizers (svc_meta P)))
               (bool_decide (is_Some (om_deletion_timestamp (svc_meta P))))
               (bool_decide (filter (fun e => e <> finalizer) (om_finalizers (svc_meta P)) <> []))
               (children_served s P).
Proof. intros Hk. unfold view. by rewrite Hk. Qed.

(** The three branches of the refinement. *)
Lemma refine_noop w k P :
  w_faults w = [] -> st_services (w_store w) !! k = Some P ->
  wantEnabled P = false -> finalizer ∉ om_finalizers (svc_meta P) ->
  Reconcile k w = (Ok tt, w) /\ view k (w_store w) = spec_pass (view k (w_store w)).
Proof.
  intros Hf Hk Hw Hn. split.
  - rewrite (Reconcile_handleDelete w k P) by (by rewrite ?reconcile_disabled_want, ?Hw).
    unfold handleDelete. destruct (ContainsFinalizer P finalizer) eqn:Hc; [|done].
    by apply ContainsFinalizer_spec in Hc.
  - rewrite (view_some _ _ P) by done. unfold spec_pass. simpl. rewrite Hw.
    by rewrite bool_decide_eq_false_2.
Qed.

Lemma refine_teardown w k P :
  w_faults w = [] -> store_wf (w_store w) -> st_services (w_store w) !! k = Some P ->
  wantEnabled P = false -> finalizer ∈ om_finalizers (svc_meta P) ->
  is_Some (gomap_get (om_annotations (svc_meta P)) deviceIDAnnotation) ->
  exists w', Reconcile k w = (Ok tt, w') /\ view k (w_store w') = spec_pass (view k (w_store w)).
Proof.
  intros Hf Hwf Hk Hw Hin Hdev.
  destruct (proj1 Hwf _ _ Hk) as [HkP _].
  assert (childKey P <> k) as Hck by eauto with ctrl.
  rewrite (Reconcile_handleDelete w k P) by (by rewrite ?reconcile_disabled_want, ?Hw).
  destruct (handleDelete_removes w k P) as (w' & Hr & _ & Hsts & Ho & Hdel & HP); try done.
  exists w'. split; [done|].
  rewrite (view_some k (w_store w) P Hk). unfold spec_pass. simpl. rewrite Hw, (bool_decide_eq_true_2 (finalizer ∈ _) Hin).
  simpl. destruct (st_services (w_store w') !! k) as [P'|] eqn:Hk'.
  - destruct (HP P' eq_refl) as (Hn & Hid & Ha & Hd & Hfs).
    destruct (bool_decide (is_Some _) && negb _) eqn:Hb.
    { exfalso. apply andb_true_iff in Hb as [Hb1 Hb2]. apply bool_decide_eq_true in Hb1.
      apply negb_true_iff, bool_decide_eq_false in Hb2.
      assert (Some P' = None) as Hnone
        by (apply Hdel; split; [done|]; by apply dec_stable).
      discriminate. }
    rewrite (view_some _ _ P') by done. rewrite (wantEnabled_ext P P'), Hw by done.
    rewrite bool_decide_eq_false_2 by done. rewrite Hd, Hfs, filter_idemp.
    rewrite (children_served_ext (w_store w) (w_store w') P P' Hid); [reflexivity| |].
    + by apply Ho.
    + by rewrite Hsts.
  - unfold view. rewrite Hk'. destruct (proj1 Hdel eq_refl) as [Hd Hnil].
    rewrite bool_decide_eq_true_2 by done. rewrite Hnil, bool_decide_eq_false_2 by (intros Hc; by apply Hc). done.
Qed.

Lemma wantEnabled_no_deletion P :
  wantEnabled P = true -> om_deletion_timestamp (svc_meta P) = None.
Proof. unfold wantEnabled. intros H. apply andb_true_iff in H as [_ H]. by apply bool_decide_eq_true in H. Qed.

Lemma refine_provision w k P tsvc tsts :
  w_faults w = [] -> store_wf (w_store w) -> st_services (w_store w) !! k = Some P ->
  wantEnabled P = true ->
  file_svc_yaml (w_files w) = Some tsvc -> svc_template_ok tsvc = true ->
  file_sts_yaml (w_files w) = Some tsts -> sts_template_ok tsts = true ->
  8 <= String.length (om_uid (svc_meta P)) ->
  (forall c, st_services (w_store w) !! childKey P = Some c -> is_Some (om_labels (svc_meta c))) ->
  (forall c, st_statefulsets (w_store w) !! childKey P = Some c ->
             is_Some (om_labels (sts_meta c))) ->
  exists w', Reconcile k w = (Ok tt, w') /\ view k (w_store w') = spec_pass (view k (w_store w)).
Proof.
  intros Hf Hwf Hk Hw Hfs Hts Hfst Htst Hu Hl1 Hl2.
  destruct (proj1 Hwf _ _ Hk) as [HkP _].
  assert (childKey P <> k) as Hck by eauto with ctrl.
  pose proof (wantEnabled_no_deletion P Hw) as Hd0.
  destruct (Reconcile_first_pass w k P tsvc tsts)
    as (P' & cs & ss & d & w' & Hr & Hsv & Hst & Hfin & Hid & Hd' & Han & Hflt & _ & Hcs & _ & _
        & _ & Hss & _); try done; [by rewrite reconcile_disabled_want, Hw|].
  exists w'. split; [done|].
  rewrite (view_some k (w_store w) P Hk).
  assert (st_services (w_store w') !! k = Some P') as Hk'.
  { rewrite Hsv, lookup_insert_ne by done. apply lookup_insert_eq. }
  rewrite (view_some k (w_store w') P' Hk').
  unfold spec_pass. simpl. rewrite Hw. simpl.
  rewrite (wantEnabled_ext P P'), Hw by congruence.
  rewrite (bool_decide_eq_true_2 (finalizer ∈ _) Hfin), Hd', Hd0, Hflt.
  unfold children_served. rewrite (same_identity_childKey _ _ Hid), Hsv, Hst, !lookup_insert_eq.
  rewrite (serves_svc_same_identity P P'), (serves_sts_same_identity P P') by done.
  destruct Hcs as (Ho1 & Hl1' & _), Hss as (Ho2 & Hl2' & _).
  unfold serves_svc, serves_sts.
  by rewrite (bool_decide_eq_true_2 _ Ho1), (bool_decide_eq_true_2 _ Hl1'),
    (bool_decide_eq_true_2 _ Ho2), (bool_decide_eq_true_2 _ Hl2').
Qed.

(** ** Properties *)

(** C24: the code's enable test is the spec's rule.  [Reconcile] takes the
    provisioning path exactly when the enable annotation is present and is
    one of the sixteen ASCII casings of ["true"] ([strings.ToLower(a) ==
    "true"], checked over every byte), and no deletion was requested; any
    other value, a missing annotation, or a deletion marker leads to
    [handleDelete]. *)
Theorem reconcile_disabled_spec P :
  reconcile_disabled P = false <->
  (exists a, gomap_get (om_annotations (svc_meta P)) enableAnnotation = Some a /\
             a ∈ casings "true") /\
  om_deletion_timestamp (svc_meta P) = None.
Proof.
  rewrite reconcile_disabled_want, negb_false_iff. unfold wantEnabled.
  rewrite andb_true_iff, bool_decide_eq_true.
  destruct (gomap_get _ _) as [a|].
  - rewrite bool_decide_eq_true. split.
    + intros [Ha Hd]. split; [exists a; by split|done].
    + intros [(a' & [= <-] & Ha) Hd]. done.
  - split; [intros [H _]; discriminate|]. intros [(a' & Ha & _) _]. discriminate.
Qed.

(** C2: refinement of the lifecycle contract.  On a present parent, in a
    fault-free world, one pass of [Reconcile] succeeds and moves the view of
    the store from the parent's key exactly as one step of the spec's
    state machine [spec_pass]: provisioning when the parent is wanted (given
    usable templates, an eight-byte UID and labelled existing children),
    teardown when it is not and carries the finalizer (given the
    device-ID annotation, without which the code does nothing, see
    [Reconcile_keeps_finalizer]), and no change otherwise. *)
Theorem Reconcile_refines_spec w k P :
  w_faults w = [] -> store_wf (w_store w) -> st_services (w_store w) !! k = Some P ->
  (wantEnabled P = true ->
     exists tsvc tsts,
       file_svc_yaml (w_files w) = Some tsvc /\ svc_template_ok tsvc = true /\
       file_sts_yaml (w_files w) = Some tsts /\ sts_template_ok tsts = true /\
       8 <= String.length (om_uid (svc_meta P)) /\
       (forall c, st_services (w_store w) !! childKey P = Some c ->
                  is_Some (om_labels (svc_meta c))) /\
       (forall c, st_statefulsets (w_store w) !! childKey P = Some c ->
                  is_Some (om_labels (sts_meta c)))) ->
  (wantEnabled P = false -> finalizer ∈ om_finalizers (svc_meta P) ->
     is_Some (gomap_get (om_annotations (svc_meta P)) deviceIDAnnotation)) ->
  exists w', Reconcile k w = (Ok tt, w') /\ view k (w_store w') = spec_pass (view k (w_store w)).
Proof.
  intros Hf Hwf Hk Hprov Hdev. destruct (wantEnabled P) eqn:Hw.
  - destruct (Hprov eq_refl) as (tsvc & tsts & ? & ? & ? & ? & ? & ? & ?).
    by apply (refine_provision w k P tsvc tsts).
  - destruct (decide (finalizer ∈ om_finalizers (svc_meta P))) as [Hin|Hn].
    + apply (refine_teardown w k P); auto.
    + exists w. by apply (refine_noop w k P).
Qed.

Lemma Reconcile_refines_spec_witness :
  exists w', Reconcile ("default", "web") (demo_world demo_enabled) = (Ok tt, w') /\
    view ("default", "web") (w_store w') =
      spec_pass (view ("default", "web") (w_store (demo_world demo_enabled))).
Proof.
  apply (Reconcile_refines_spec _ _ demo_enabled); [reflexivity| |reflexivity| |].
  - decide_by_vm.
  - intros _. exists sample_svc_template, sample_sts_template.
    split; [reflexivity|]. split; [reflexivity|]. split; [reflexivity|].
    split; [reflexivity|]. split; [simpl; lia|].
    split; intros c Hc; vm_compute in Hc; discriminate.
  - intros Hw. vm_compute in Hw. discriminate.
Defined.

End Lifecycle.
