(* ===== verification/Frame.v ===== *)
(** * What a reconcile pass may touch

    Whatever API calls fail, a pass of [Reconcile] for the key [k] writes
    only the parent at [k] and the two objects at the child key of the
    parent it read; it never deletes a child or any other object, the
    parent being the only object that can disappear (when an update
    removes its last finalizer during a pending deletion); and the store
    stays well formed.  This is the "owner tag, not direct delete"
    contract of spec section 9, and shows the reach of the adoption of
    foreign objects at the child key. *)

From S2P Require Import Spec2Rocq GoRuntime Objects Naming Env Builder Store Controller.

Module Frame.
Import Naming Env Builder Store Controller.

(** A step that writes only at [parent] and at [child], keeps the store
    well formed, and removes no object except possibly the Service at
    [parent]. *)
Definition frame_rel (parent child : string * string) (w w' : World) : Prop :=
  (store_wf (w_store w) -> store_wf (w_store w')) /\ w_files w' = w_files w /\
  (forall k', k' <> parent -> k' <> child ->
     st_services (w_store w') !! k' = st_services (w_store w) !! k' /\
     st_statefulsets (w_store w') !! k' = st_statefulsets (w_store w) !! k') /\
  (store_wf (w_store w) -> forall k', k' <> parent ->
     is_Some (st_services (w_store w) !! k') -> is_Some (st_services (w_store w') !! k')) /\
  (store_wf (w_store w) -> forall k',
     is_Some (st_statefulsets (w_store w) !! k') -> is_Some (st_statefulsets (w_store w') !! k')).

#[export] Instance frame_rel_preorder p c : PreOrder (frame_rel p c).
Proof.
  split.
  - intros w. split; [done|]. split; [done|]. split; [done|]. split; auto.
  - intros w1 w2 w3 (W1 & F1 & O1 & S1 & T1) (W2 & F2 & O2 & S2 & T2).
    split; [auto|]. split; [congruence|].
    split; [intros k' Hp Hc; destruct (O1 k' Hp Hc), (O2 k' Hp Hc); split; congruence|].
    split; [intros Hwf k' Hp Hk; apply (S2 (W1 Hwf) k' Hp), (S1 Hwf k' Hp Hk)|].
    intros Hwf k' Hk. apply (T2 (W1 Hwf)), (T1 Hwf), Hk.
Qed.

(** A cluster for the witness: the parent, a foreign Service at the child
    key, and a pass whose third API call fails. *)
Definition demo_faulty_world : World :=
  world_with_faults [None; None; Some ErrTransient] demo_world_unlabelled.

(** The frame of a pass: the parent's key and the child key of the parent
    stored there. *)
Definition pass_child (w : World) (k : string * string) : string * string :=
  match st_services (w_store w) !! k with Some P => childKey P | None => k end.

(** ** Lemmas *)

Lemma frame_same p c w w' :
  w_store w' = w_store w -> w_files w' = w_files w -> frame_rel p c w w'.
Proof.
  intros Hs Hf. unfold frame_rel. rewrite Hs, Hf.
  split; [done|]. split; [done|]. split; [done|]. split; auto.
Qed.

(** The children's mutate functions leave the finalizers alone. *)
Lemma service_child_fn_finalizers P tsvc x y :
  service_child_fn P tsvc x = Ok y -> om_finalizers (svc_meta y) = om_finalizers (svc_meta x).
Proof.
  destruct x as [[n ns u rv l an fi dt ors] sp].
  unfold service_child_fn, SetOwnerReference, upsertOwnerRef, service_mutate.
  destruct (validateOwner _ _); cbn; [|done].
  destruct l; cbn; [|done]. destruct (svc_selector _); cbn; [|done].
  by intros [= <-].
Qed.

Lemma sts_child_fn_finalizers P d x y :
  sts_child_fn P d x = Ok y -> om_finalizers (sts_meta y) = om_finalizers (sts_meta x).
Proof.
  destruct x as [[n ns u rv l an fi dt ors] sp].
  unfold sts_child_fn, SetOwnerReference, upsertOwnerRef, statefulset_mutate.
  destruct (validateOwner _ _); cbn; [|done].
  destruct l; cbn; [|done]. by intros [= <-].
Qed.

Section Steps.
Context (p c : string * string).

Lemma child_svc_step w w' :
  key_step (T:=Service) c (fun _ => True) w w' -> table_step (T:=Service) w w' ->
  (tbl_wf (st_services (w_store w)) -> forall k',
     is_Some (st_services (w_store w) !! k') -> is_Some (st_services (w_store w') !! k')) ->
  frame_rel p c w w'.
Proof.
  intros (Hf & Hs & Ho & _) Ht Hd.
  split; [exact (table_step_svc_wf w w' Ht)|]. split; [done|].
  split; [intros k' _ Hc; split; [by apply Ho|by rewrite Hs]|].
  split; [intros Hwf k' _; apply Hd, Hwf|]. intros _ k'. by rewrite Hs.
Qed.

Lemma child_sts_step w w' :
  key_step (T:=StatefulSet) c (fun _ => True) w w' -> table_step (T:=StatefulSet) w w' ->
  (tbl_wf (st_statefulsets (w_store w)) -> forall k',
     is_Some (st_statefulsets (w_store w) !! k') -> is_Some (st_statefulsets (w_store w') !! k')) ->
  frame_rel p c w w'.
Proof.
  intros (Hf & Hs & Ho & _) Ht Hd.
  split; [exact (table_step_sts_wf w w' Ht)|]. split; [done|].
  split; [intros k' _ Hc; split; [by rewrite Hs|by apply Ho]|].
  split; [intros _ k' _; by rewrite Hs|]. intros Hwf k'. apply Hd, Hwf.
Qed.

Lemma reconcileService_frame x : childKey x = c -> within (frame_rel p c) (reconcileService x).
Proof.
  intros Hc. unfold reconcileService.
  refine (within_bind _ _ _ _ _);
    [intros w; unfold parseFile_svc; destruct (file_svc_yaml _); by apply frame_same|].
  intros tmpl. unfold createOrUpdate.
  refine (within_bind _ _ _ _ (fun _ => within_ret _ _)). intros w.
  apply child_svc_step.
  - pose proof (CreateOrUpdate_key_step (service_init x) (service_child_fn x tmpl)
                  (fun _ => True) (fun _ _ _ _ _ _ => I) w) as H. by rewrite <- Hc.
  - exact (proj1 (CreateOrUpdate_within (service_init x) (service_child_fn x tmpl)) w).
  - intros Hwf k' Hk.
    exact (CreateOrUpdate_no_delete (service_init x) (service_child_fn x tmpl) w k' Hwf
             (service_child_fn_finalizers x tmpl) Hk).
Qed.

Lemma reconcileStatefulSet_frame x :
  childKey x = c -> within (frame_rel p c) (reconcileStatefulSet x).
Proof.
  intros Hc. unfold reconcileStatefulSet.
  refine (within_bind _ _ _ _ _);
    [intros w; unfold parseFile_sts; destruct (file_sts_yaml _); by apply frame_same|].
  intros tmpl. refine (within_bind _ _ _ (within_lift _ _) _). intros d.
  unfold createOrUpdate.
  refine (within_bind _ _ _ _ (fun _ => within_ret _ _)). intros w.
  apply child_sts_step.
  - pose proof (CreateOrUpdate_key_step (statefulset_init x) (sts_child_fn x d)
                  (fun _ => True) (fun _ _ _ _ _ _ => I) w) as H. by rewrite <- Hc.
  - exact (proj1 (CreateOrUpdate_within (statefulset_init x) (sts_child_fn x d)) w).
  - intros Hwf k' Hk.
    exact (CreateOrUpdate_no_delete (statefulset_init x) (sts_child_fn x d) w k' Hwf
             (sts_child_fn_finalizers x d) Hk).
Qed.

Lemma deployTailscale_frame x : childKey x = c -> within (frame_rel p c) (deployTailscale x).
Proof.
  intros Hc. exact (within_bind _ _ _ (reconcileService_frame x Hc)
                      (fun _ => reconcileStatefulSet_frame x Hc)).
Qed.

(** An [Update] of the parent, whatever its outcome. *)
Lemma update_parent_frame (o : Service) :
  obj_key o = p -> within (frame_rel p c) (client_update o).
Proof.
  intros Hk w. pose proof (proj1 (client_update_within o) w) as Ht.
  destruct (client_update o w) as [r w'] eqn:Hu. simpl in *.
  apply client_update_outcome in Hu as (Hf & [(Hs & _) | (cur & _ & _ & [(_ & Hs) | (_ & Hs)])]);
    [by apply frame_same| |]; rewrite Hk in Hs.
  - split; [exact (table_step_svc_wf w w' Ht)|]. split; [done|]. rewrite Hs. simpl.
    split; [intros k' Hp _; by rewrite lookup_insert_ne|].
    split; [|done]. intros _ k' Hp. by rewrite lookup_insert_ne.
  - split; [exact (table_step_svc_wf w w' Ht)|]. split; [done|]. rewrite Hs. simpl.
    split; [intros k' Hp _; by rewrite lookup_delete_ne|].
    split; [|done]. intros _ k' Hp. by rewrite lookup_delete_ne.
Qed.
End Steps.

(** The parent the pass reads and updates keeps its child key. *)
Lemma update_result_childKey (P x : Service) w r w' :
  st_services (w_store w) !! obj_key P = Some P ->
  client_update (AddFinalizer P finalizer) w = (r, w') -> r = Ok x -> childKey x = childKey P.
Proof.
  intros HP Hu ->.
  apply client_update_outcome in Hu as (_ & [(_ & Hr) | (cur & _ & Hr & _)]).
  - specialize (Hr x eq_refl). simpl in Hr. rewrite AddFinalizer_key in Hr. congruence.
  - injection Hr as ->. unfold childKey, childName, with_system, AddFinalizer. simpl.
    by destruct (ContainsFinalizer P finalizer).
Qed.

Lemma Reconcile_frame_rel w k :
  store_wf (w_store w) -> frame_rel k (pass_child w k) w (snd (Reconcile k w)).
Proof.
  intros Hwf. set (c := pass_child w k).
  unfold Reconcile, sbind.
  destruct (client_get_frame (T:=Service) k w) as [Hs1 Hf1].
  destruct (client_get k w) as [[P''|e] w1] eqn:Hg; simpl in *; [|by apply frame_same].
  apply client_get_inv in Hg as (HP & _). change (st_services (w_store w) !! k = Some P'') in HP.
  assert (obj_key P'' = k) as Hk by apply (proj1 Hwf _ _ HP).
  assert (c = childKey P'') as Hc by (unfold c, pass_child; by rewrite HP).
  assert (frame_rel k c w w1) as H1 by (by apply frame_same).
  etrans; [exact H1|]. clear H1.
  destruct (reconcile_disabled P'').
  - unfold handleDelete. destruct (ContainsFinalizer P'' finalizer); [|reflexivity].
    destruct (gomap_get _ _); [|reflexivity].
    exact (within_bind _ _ _ (update_parent_frame k c _ (eq_trans (RemoveFinalizer_key _ _) Hk))
             (fun _ => within_ret _ _) w1).
  - destruct (client_update (AddFinalizer P'' finalizer) w1) as [r w2] eqn:Hu.
    pose proof (update_parent_frame k c (AddFinalizer P'' finalizer)
                  (eq_trans (AddFinalizer_key _ _) Hk) w1) as H2.
    rewrite Hu in H2. simpl in H2.
    destruct r as [x|e]; simpl; [|exact H2].
    etrans; [exact H2|]. apply deployTailscale_frame.
    rewrite Hc. apply (update_result_childKey P'' x w1 (Ok x) w2); [|done|done].
    by rewrite Hk, Hs1.
Qed.

(** ** Properties *)

(** C11: a pass writes only its parent and the parent's children.  Whatever
    API calls fail, after [Reconcile k] on a well-formed store: the store
    is still well formed and the template files are untouched; every key
    other than [k] and the child key of the parent at [k] holds what it
    held in both tables; no Service other than the parent and no
    StatefulSet disappears (children are never deleted by the controller,
    only tagged with the owner). *)
Theorem Reconcile_frame w k :
  store_wf (w_store w) ->
  let w' := snd (Reconcile k w) in
  store_wf (w_store w') /\ w_files w' = w_files w /\
  (forall k', k' <> k -> (forall P, st_services (w_store w) !! k = Some P -> k' <> childKey P) ->
     st_services (w_store w') !! k' = st_services (w_store w) !! k' /\
     st_statefulsets (w_store w') !! k' = st_statefulsets (w_store w) !! k') /\
  (forall k', k' <> k ->
     is_Some (st_services (w_store w) !! k') -> is_Some (st_services (w_store w') !! k')) /\
  (forall k', is_Some (st_statefulsets (w_store w) !! k') ->
              is_Some (st_statefulsets (w_store w') !! k')).
Proof.
  intros Hwf. simpl.
  destruct (Reconcile_frame_rel w k Hwf) as (Hw' & Hf' & Ho & Hsv & Hst).
  split; [auto|]. split; [done|]. split.
  - intros k' Hk' Hp. apply Ho; [done|]. unfold pass_child.
    destruct (st_services (w_store w) !! k) as [P|]; [by apply Hp|done].
  - split; [by apply Hsv|by apply Hst].
Qed.

Lemma Reconcile_frame_witness :
  store_wf (w_store (snd (Reconcile ("default", "web") demo_faulty_world))) /\
  w_files (snd (Reconcile ("default", "web") demo_faulty_world)) = w_files demo_faulty_world /\
  (forall k', k' <> ("default", "web") ->
     (forall P, st_services (w_store demo_faulty_world) !! ("default", "web") = Some P ->
                k' <> childKey P) ->
     st_services (w_store (snd (Reconcile ("default", "web") demo_faulty_world))) !! k' =
       st_services (w_store demo_faulty_world) !! k' /\
     st_statefulsets (w_store (snd (Reconcile ("default", "web") demo_faulty_world))) !! k' =
       st_statefulsets (w_store demo_faulty_world) !! k') /\
  (forall k', k' <> ("default", "web") ->
     is_Some (st_services (w_store demo_faulty_world) !! k') ->
     is_Some (st_services (w_store (snd (Reconcile ("default", "web") demo_faulty_world))) !! k')) /\
  (forall k', is_Some (st_statefulsets (w_store demo_faulty_world) !! k') ->
     is_Some (st_statefulsets (w_store (snd (Reconcile ("default", "web") demo_faulty_world))) !! k')).
Proof.
  apply Reconcile_frame.
  decide_by_vm.
Defined.

End Frame.
