(* ===== verification/Watch.v ===== *)
(** * The controller's watches: [New] and the handlers it installs

    [New] ([src/pkg/controller/controller.go]) registers the reconciler
    with the manager through controller-runtime's builder:
    [For(&corev1.Service{})] installs [handler.EnqueueRequestForObject] on
    Services, each [Owns(...)] an [handler.EnqueueRequestForOwner] whose
    owner type is the [For] type and which only follows the controller
    reference of the changed object ([IsController: true]).  The builder,
    the handlers, [metav1.GetControllerOf] and the informers' events are
    the framework's and are modelled from its contract; the events of a
    change of the store are computed from the two stores, one event per
    changed key. *)

From S2P Require Import Spec2Rocq GoRuntime Objects Naming Env Builder Store Controller.

Module Watch.
Import Naming Builder Store Controller.

(** ** Data *)

(** [schema.GroupKind]. *)
Record GroupKind : Type := mkGroupKind { gk_group : string; gk_kind : string }.

#[export] Instance GroupKind_eq_dec : EqDecision GroupKind.
Proof. solve_decision. Defined.

Definition gk_of (T : Type) `{object T} : GroupKind :=
  mkGroupKind (api_group (@obj_api_version T _)) (@obj_kind T _).

Definition service_gk : GroupKind := gk_of Service.
Definition statefulset_gk : GroupKind := gk_of StatefulSet.

(** [reconcile.Request]: a [types.NamespacedName]. *)
Abbreviation Request := (string * string)%type.

(** The events an informer delivers for a watched kind, with the
    metadata of the object before and after the change. *)
Inductive Event : Type :=
| CreateEvent (gk : GroupKind) (o : ObjectMeta)
| UpdateEvent (gk : GroupKind) (old new : ObjectMeta)
| DeleteEvent (gk : GroupKind) (o : ObjectMeta).

Definition event_kind (ev : Event) : GroupKind :=
  match ev with CreateEvent gk _ | UpdateEvent gk _ _ | DeleteEvent gk _ => gk end.

(** [handler.EventHandler]: the two handlers the builder installs. *)
Inductive EventHandler : Type :=
| EnqueueRequestForObject
| EnqueueRequestForOwner (OwnerType : GroupKind) (IsController : bool).

(** [source.Kind] with its handler. *)
Record WatchSpec : Type := mkWatch { watch_kind : GroupKind; watch_handler : EventHandler }.

(** A controller: the watches that feed its queue (the reconciler is
    [Controller.Reconcile]). *)
Record Controller : Type := mkController { ctrl_watches : list WatchSpec }.

(** The manager: the controllers registered with it. *)
Record Manager : Type := mkManager { mgr_controllers : list Controller }.

(** [builder.Builder]: the [For] input (and whether [For] was called
    twice, which [Complete] reports) and the [Owns] inputs in call order. *)
Record Builder : Type := mkBuilder {
  b_for : option GroupKind;
  b_for_twice : bool;
  b_owns : list GroupKind
}.

(** ** The handlers *)

Definition request_of (m : ObjectMeta) : Request := (om_namespace m, om_name m).

(** [metav1.GetControllerOf]: the first reference whose [Controller] is
    set and true. *)
Definition GetControllerOf (m : ObjectMeta) : option OwnerReference :=
  find (fun r => bool_decide (or_controller r = Some true)) (om_owner_references m).

(** [EnqueueRequestForOwner.getOwnersReferences]. *)
Definition getOwnersReferences (IsController : bool) (m : ObjectMeta) : list OwnerReference :=
  if IsController then
    match GetControllerOf m with Some r => [r] | None => [] end
  else om_owner_references m.

(** [EnqueueRequestForOwner.getOwnerReconcileRequest]: the references of
    the owner's group and kind, as requests in the object's namespace
    (the owner type, [Service], is namespaced). *)
Definition getOwnerReconcileRequest (OwnerType : GroupKind) (IsController : bool)
    (m : ObjectMeta) : list Request :=
  (fun r => (om_namespace m, or_name r)) <$>
    filter (fun r => or_kind r = gk_kind OwnerType /\
                     api_group (or_api_version r) = gk_group OwnerType)
      (getOwnersReferences IsController m).

(** The requests a handler adds for an event (the owner handler collects
    them in a set first, and looks at both versions of an update). *)
Definition handle (h : EventHandler) (ev : Event) : list Request :=
  match h, ev with
  | EnqueueRequestForObject, CreateEvent _ o => [request_of o]
  | EnqueueRequestForObject, UpdateEvent _ _ n => [request_of n]
  | EnqueueRequestForObject, DeleteEvent _ o => [request_of o]
  | EnqueueRequestForOwner gk c, CreateEvent _ o => remove_dups (getOwnerReconcileRequest gk c o)
  | EnqueueRequestForOwner gk c, UpdateEvent _ old n =>
      remove_dups (getOwnerReconcileRequest gk c old ++ getOwnerReconcileRequest gk c n)
  | EnqueueRequestForOwner gk c, DeleteEvent _ o => remove_dups (getOwnerReconcileRequest gk c o)
  end.

(** Every watch of the event's kind hands the event to its handler. *)
Definition requests (c : Controller) (ev : Event) : list Request :=
  concat ((fun ws => if decide (watch_kind ws = event_kind ev)
                     then handle (watch_handler ws) ev else []) <$> ctrl_watches c).

(** ** The builder and [New] *)

Definition NewControllerManagedBy : Builder := mkBuilder None false [].

Definition For (gk : GroupKind) (b : Builder) : Builder :=
  match b_for b with
  | None => mkBuilder (Some gk) (b_for_twice b) (b_owns b)
  | Some _ => mkBuilder (b_for b) true (b_owns b)
  end.

Definition Owns (gk : GroupKind) (b : Builder) : Builder :=
  mkBuilder (b_for b) (b_for_twice b) (b_owns b ++ [gk]).

(** [Complete]: refuses a builder without a [For] type or with two; else
    registers a controller watching the [For] type with
    [EnqueueRequestForObject] and each [Owns] type with
    [EnqueueRequestForOwner{OwnerType: For type, IsController: true}]. *)
Definition Complete (b : Builder) (mgr : Manager) : res string Manager :=
  match b_for b with
  | None => Err "must provide an object for reconciliation"
  | Some f =>
      if b_for_twice b then Err "For(...) should only be called once"
      else Ok (mkManager (mgr_controllers mgr ++
             [mkController (mkWatch f EnqueueRequestForObject ::
                            ((fun o => mkWatch o (EnqueueRequestForOwner f true)) <$> b_owns b))]))
  end.

Definition New (mgr : Manager) : res string Manager :=
  Complete (Owns service_gk (Owns statefulset_gk (For service_gk NewControllerManagedBy))) mgr.

(** The controller [New] registers. *)
Definition ServiceController : Controller :=
  mkController [mkWatch service_gk EnqueueRequestForObject;
                mkWatch statefulset_gk (EnqueueRequestForOwner service_gk true);
                mkWatch service_gk (EnqueueRequestForOwner service_gk true)].

(** ** Events of a change of the store *)

Section Events.
Context {T : Type} `{EqDecision T} `{object T} `{Stored T}.

Definition key_event (gk : GroupKind) (old new : option T) : list Event :=
  match old, new with
  | None, Some n => [CreateEvent gk (obj_meta n)]
  | Some o, Some n => [UpdateEvent gk (obj_meta o) (obj_meta n)]
  | Some o, None => [DeleteEvent gk (obj_meta o)]
  | None, None => []
  end.

(** One event per key of the table whose object changed. *)
Definition table_events (gk : GroupKind) (s s' : Store) : list Event :=
  let m := tbl (T:=T) s in
  let m' := tbl (T:=T) s' in
  concat ((fun k => if decide (m !! k = m' !! k) then [] else key_event gk (m !! k) (m' !! k))
            <$> elements (dom m ∪ dom m')).
End Events.

Definition store_events (s s' : Store) : list Event :=
  table_events (T:=Service) service_gk s s' ++ table_events (T:=StatefulSet) statefulset_gk s s'.

(** The objects an event carries. *)
Definition event_metas (ev : Event) : list ObjectMeta :=
  match ev with
  | CreateEvent _ o | DeleteEvent _ o => [o]
  | UpdateEvent _ old n => [old; n]
  end.

(** The object an event is about now (the new version of an update). *)
Definition event_object (ev : Event) : ObjectMeta :=
  match ev with CreateEvent _ o | DeleteEvent _ o | UpdateEvent _ _ o => o end.

(** ** Fixtures *)

(** An owner Service and two objects under its child name, without owner
    references. *)
Definition demo_owner : Service :=
  mkService (mkObjectMeta "web" "default" "abcd1234-0000-0000-0000-000000000000" 3 None
               None [] None [])
    (mkServiceSpec None "10.0.0.5" [] "ClusterIP").

Definition demo_child_sts : StatefulSet :=
  mkStatefulSet (mkObjectMeta "web-tailscale" "default" "" 0 (Some ∅) None [] None [])
    (mkStatefulSetSpec None None (mkPodTemplateSpec None (mkPodSpec "" [])) "").

Definition demo_child_svc : Service :=
  mkService (mkObjectMeta "web-tailscale" "default" "" 0 (Some ∅) None [] None [])
    (mkServiceSpec None "" [] "").

(** ** Lemmas *)

Lemma GetControllerOf_None m :
  GetControllerOf m = None <->
  Forall (fun r => or_controller r <> Some true) (om_owner_references m).
Proof.
  unfold GetControllerOf. induction (om_owner_references m) as [|r l IH]; simpl.
  - split; [constructor|done].
  - rewrite Forall_cons. case_bool_decide as Hr.
    + split; [discriminate|]. by intros [? _].
    + rewrite IH. split; [by split|]. by intros [_ ?].
Qed.

Lemma Forall_sub_pair {A} (P : A -> Prop) (a b : A) l :
  l ⊆ [a; b] -> P a -> P b -> Forall P l.
Proof.
  intros Hsub Ha Hb. apply Forall_forall. intros x Hx.
  apply Hsub in Hx. rewrite !elem_of_cons in Hx.
  destruct Hx as [->|[->|Hx]]; [done|done|by apply not_elem_of_nil in Hx].
Qed.

(** [SetOwnerReference] never makes an object controlled: the reference it
    writes has no [Controller] flag. *)
Lemma SetOwnerReference_uncontrolled {T} `{object T} (P : Service) (o o' : T) :
  GetControllerOf (obj_meta o) = None -> SetOwnerReference P o = Ok o' ->
  GetControllerOf (obj_meta o') = None.
Proof.
  rewrite !GetControllerOf_None, !Forall_forall. intros Hc (_ & ->)%SetOwnerReference_inv x Hx.
  apply upsertOwnerRef_sub in Hx as [->|Hx]; [done|by apply Hc].
Qed.

Lemma getOwnerReconcileRequest_uncontrolled gk m :
  GetControllerOf m = None -> getOwnerReconcileRequest gk true m = [].
Proof. unfold getOwnerReconcileRequest, getOwnersReferences. by intros ->. Qed.

Lemma New_registers mgr : New mgr = Ok (mkManager (mgr_controllers mgr ++ [ServiceController])).
Proof. reflexivity. Qed.

Lemma handle_owner_uncontrolled gk ev :
  Forall (fun m => GetControllerOf m = None) (event_metas ev) ->
  handle (EnqueueRequestForOwner gk true) ev = [].
Proof.
  destruct ev; simpl; rewrite ?Forall_cons; intros Hf;
    rewrite ?(getOwnerReconcileRequest_uncontrolled _ _ (proj1 Hf)); try done.
  destruct Hf as [_ [Hn _]]. by rewrite getOwnerReconcileRequest_uncontrolled.
Qed.

(** The requests of [ServiceController] for an event on objects without
    controller reference: the object itself when it is a Service, nothing
    otherwise. *)
Lemma ServiceController_requests ev :
  Forall (fun m => GetControllerOf m = None) (event_metas ev) ->
  requests ServiceController ev =
    if decide (event_kind ev = service_gk) then [request_of (event_object ev)] else [].
Proof.
  intros Hf. unfold requests. cbn -[handle decide].
  rewrite !(handle_owner_uncontrolled _ _ Hf).
  repeat case_decide; try congruence; simpl; [by destruct ev..|done|done].
Qed.

(** The reference [SetOwnerReference] writes for a namespaced owner
    decodes back to the owner's key when every reference is followed. *)
Lemma SetOwnerReference_roundtrip {T} `{object T} (P : Service) (o o' : T) l :
  om_namespace (svc_meta P) <> "" -> SetOwnerReference P o = Ok o' ->
  obj_key P ∈ getOwnerReconcileRequest service_gk false (meta_with_labels l (obj_meta o')).
Proof.
  intros Hns (Hv & ->)%SetOwnerReference_inv.
  pose proof (validateOwner_ns _ _ Hns Hv) as Hons.
  unfold getOwnerReconcileRequest, getOwnersReferences.
  apply list_elem_of_fmap. exists (owner_ref_of P). split.
  - rewrite upsertOwnerRef_meta. simpl. by rewrite Hons.
  - apply list_elem_of_filter. split; [done|]. apply upsertOwnerRef_in.
Qed.

(** ** Properties *)

(** C16: the [Owns] watches of [New] never lead from a child to its owner.
    The reference the closures of [createOrUpdate] add is not a
    controller reference ([SetOwnerReference] leaves [Controller] nil), so
    for a child without controller reference the owner handlers [New]
    installs ([IsController: true]) find no owner: an event on the child
    StatefulSet enqueues nothing, an event on the child Service only the
    child itself, never the parent. *)
Theorem Owns_never_enqueues_owner (P tsvc : Service) (d : StatefulSet)
    (s s' : Service) (c c' : StatefulSet) :
  GetControllerOf (svc_meta s) = None -> service_child_fn P tsvc s = Ok s' ->
  GetControllerOf (sts_meta c) = None -> sts_child_fn P d c = Ok c' ->
  getOwnerReconcileRequest service_gk true (sts_meta c') = [] /\
  getOwnerReconcileRequest service_gk true (svc_meta s') = [] /\
  (forall ev, event_metas ev ⊆ [sts_meta c; sts_meta c'] ->
              event_kind ev = statefulset_gk -> requests ServiceController ev = []) /\
  (forall ev, event_metas ev ⊆ [svc_meta s; svc_meta s'] ->
              event_kind ev = service_gk ->
              requests ServiceController ev = [request_of (event_object ev)]).
Proof.
  intros Hs (s1 & Hs1 & Hms)%service_child_fn_meta Hc (c1 & Hc1 & Hmc)%sts_child_fn_meta.
  assert (GetControllerOf (sts_meta c') = None) as Hu.
  { rewrite Hmc. exact (SetOwnerReference_uncontrolled P c c1 Hc Hc1). }
  assert (GetControllerOf (svc_meta s') = None) as Hv.
  { rewrite Hms. exact (SetOwnerReference_uncontrolled P s s1 Hs Hs1). }
  split; [by apply getOwnerReconcileRequest_uncontrolled|].
  split; [by apply getOwnerReconcileRequest_uncontrolled|].
  split; intros ev Hsub Hk;
    (rewrite ServiceController_requests, Hk; [|by apply (Forall_sub_pair _ _ _ _ Hsub)]).
  - by rewrite decide_False.
  - by rewrite decide_True.
Qed.

Lemma Owns_never_enqueues_owner_witness :
  exists s' c',
    GetControllerOf (svc_meta demo_child_svc) = None /\
    service_child_fn demo_owner sample_svc_template demo_child_svc = Ok s' /\
    GetControllerOf (sts_meta demo_child_sts) = None /\
    sts_child_fn demo_owner sample_sts_template demo_child_sts = Ok c' /\
    getOwnerReconcileRequest service_gk true (sts_meta c') = [] /\
    getOwnerReconcileRequest service_gk true (svc_meta s') = [] /\
    (forall ev, event_metas ev ⊆ [sts_meta demo_child_sts; sts_meta c'] ->
                event_kind ev = statefulset_gk -> requests ServiceController ev = []) /\
    (forall ev, event_metas ev ⊆ [svc_meta demo_child_svc; svc_meta s'] ->
                event_kind ev = service_gk ->
                requests ServiceController ev = [request_of (event_object ev)]).
Proof.
  do 2 eexists. split; [reflexivity|]. split; [reflexivity|].
  split; [reflexivity|]. split; [reflexivity|].
  apply (Owns_never_enqueues_owner demo_owner sample_svc_template sample_sts_template
           demo_child_svc _ demo_child_sts _); reflexivity.
Defined.

End Watch.
