(* ===== verification/Loop.v ===== *)
(** * The running controller: work queue, watches and [Reconcile]

    What [manager.Start] runs once [New] has registered the controller
    ([src/main.go], [src/pkg/controller/controller.go]): a worker that
    takes requests off the work queue one at a time
    ([processNextWorkItem]), runs [Reconcile] on each, lets the informers
    turn the resulting change of the store into events that the watches
    of [New] map to requests, and re-adds a failed request
    ([AddRateLimited]); a panic in [Reconcile] stops the process.  The
    queue never holds a request twice ([workqueue.Add] of a waiting
    request is a no-op).  The queue, the worker and the rate limiter are
    controller-runtime's and are modelled from its contract; the backoff
    delay is abstracted away (a failed request goes to the back of the
    queue, after the requests of the events of its own pass). *)

From S2P Require Import Spec2Rocq GoRuntime Objects Naming Store Controller Watch.

Module Loop.
Import Naming Store Controller Watch.

(** The state of the running controller: the cluster and the queue. *)
Record LState : Type := mkLState { ls_world : World; ls_queue : list Request }.

(** [workqueue.Add]. *)
Definition wq_add (q : list Request) (r : Request) : list Request :=
  if decide (r ∈ q) then q else q ++ [r].

Definition wq_add_all (q : list Request) (rs : list Request) : list Request :=
  foldl wq_add q rs.

(** The requests the watches of [c] add for a change of the store. *)
Definition change_requests (c : Controller) (s s' : Store) : list Request :=
  concat (requests c <$> store_events s s').

(** [reconcileHandler] on the request taken off the queue: run
    [Reconcile]; the events of the change go to the watches; an error
    re-adds the request; a panic is reported. *)
Definition reconcileHandler (c : Controller) (req : Request) (q : list Request) (w : World)
  : LState * option panic :=
  let (r, w') := Reconcile req w in
  let q' := wq_add_all q (change_requests c (w_store w) (w_store w')) in
  match r with
  | Ok _ => (mkLState w' q', None)
  | Err (ErrPanic p) => (mkLState w' q', Some p)
  | Err _ => (mkLState w' (wq_add q' req), None)
  end.

(** How a run ends: the queue is empty and the worker waits, the process
    crashed, or the fuel (the number of requests processed) ran out. *)
Inductive Outcome : Type := Idle | Crashed (p : panic) | Running.

(** [processNextWorkItem] repeated, at most [fuel] times. *)
Fixpoint run (c : Controller) (fuel : nat) (ls : LState) : Outcome * LState :=
  match ls_queue ls with
  | [] => (Idle, ls)
  | req :: q =>
      match fuel with
      | 0 => (Running, ls)
      | S n =>
          match reconcileHandler c req q (ls_world ls) with
          | (ls', Some p) => (Crashed p, ls')
          | (ls', None) => run c n ls'
          end
      end
  end.

(** A change made by a user (or another client) between two requests:
    the informers deliver its events to the same queue. *)
Definition user_write (c : Controller) (s' : Store) (ls : LState) : LState :=
  mkLState (world_with_store s' (ls_world ls))
    (wq_add_all (ls_queue ls) (change_requests c (w_store (ls_world ls)) s')).

(** A user deletes the StatefulSet at [k] (the API server removes it at
    once when it has no finalizer). *)
Definition delete_sts (k : Request) (s : Store) : Store :=
  mkStore (st_services s) (delete k (st_statefulsets s)).

(** The cluster after the controller has provisioned the demo parent. *)
Definition demo_start : LState := mkLState (demo_world demo_enabled) [("default", "web")].

(** ** Lemmas *)

(** *** The work queue *)

Lemma wq_add_NoDup q r : NoDup q -> NoDup (wq_add q r).
Proof.
  unfold wq_add. intros Hq. case_decide as Hr; [done|].
  apply NoDup_app. split; [done|]. split; [|apply NoDup_singleton].
  intros x Hx ->%list_elem_of_singleton. contradiction.
Qed.

Lemma wq_add_all_NoDup q rs : NoDup q -> NoDup (wq_add_all q rs).
Proof.
  revert q. induction rs as [|r rs IH]; intros q Hq; simpl; [done|].
  apply IH, wq_add_NoDup, Hq.
Qed.

Lemma elem_of_wq_add q r x : x ∈ wq_add q r <-> x = r \/ x ∈ q.
Proof.
  unfold wq_add. case_decide as Hr; rewrite ?elem_of_app, ?list_elem_of_singleton.
  - split; [by right|]. by intros [->|].
  - tauto.
Qed.

Lemma elem_of_wq_add_all q rs x : x ∈ wq_add_all q rs <-> x ∈ rs \/ x ∈ q.
Proof.
  revert q. induction rs as [|r rs IH]; intros q; simpl.
  - split; [by right|]. intros [Hx|]; [by apply not_elem_of_nil in Hx|done].
  - rewrite IH, elem_of_wq_add, elem_of_cons. tauto.
Qed.

(** *** Events and requests *)

Lemma elem_of_concat_fmap {A B} (f : A -> list B) l y :
  y ∈ concat (f <$> l) <-> exists x, x ∈ l /\ y ∈ f x.
Proof.
  induction l as [|a l IH]; simpl.
  - split; [by intros ?%not_elem_of_nil|]. by intros (x & ?%not_elem_of_nil & _).
  - rewrite elem_of_app, IH. split.
    + intros [Hy|(x & Hx & Hy)]; [exists a|exists x]; rewrite elem_of_cons; auto.
    + intros (x & [->|Hx]%elem_of_cons & Hy); [by left|right; eauto].
Qed.

Section TableEvents.
Context {T : Type} `{EqDecision T} `{object T} `{Stored T}.

(** An event of a table is the event of a key whose entry changed. *)
Lemma table_events_elem gk s s' ev :
  ev ∈ table_events (T:=T) gk s s' ->
  exists x, tbl (T:=T) s !! x <> tbl s' !! x /\ ev ∈ key_event gk (tbl s !! x) (tbl s' !! x).
Proof.
  unfold table_events. intros (x & _ & Hev)%elem_of_concat_fmap.
  case_decide as Hx; [by apply not_elem_of_nil in Hev|]. by exists x.
Qed.

(** The event of a key carries the objects found there before and after,
    and is about the one found after, unless it is gone. *)
Lemma key_event_inv gk (o o' : option T) ev :
  ev ∈ key_event gk o o' ->
  event_kind ev = gk /\
  (forall m, m ∈ event_metas ev -> exists x, (o = Some x \/ o' = Some x) /\ m = obj_meta x) /\
  exists x, (o = Some x \/ o' = Some x) /\ event_object ev = obj_meta x.
Proof.
  destruct o as [x|], o' as [x'|]; simpl;
    [intros ->%list_elem_of_singleton..|by intros ?%not_elem_of_nil];
    (split; [done|]); simpl.
  - split; [|eauto]. intros m [-> | ->%list_elem_of_singleton]%elem_of_cons; eauto.
  - split; [|eauto]. intros m ->%list_elem_of_singleton; eauto.
  - split; [|eauto]. intros m ->%list_elem_of_singleton; eauto.
Qed.
End TableEvents.

(** With no controller reference on the objects of the changed keys, the
    watches of [New] ask for exactly the keys of the Services that
    changed; a change of StatefulSets alone asks for nothing. *)
Lemma change_requests_changed s s' r :
  (forall x o, st_services s !! x <> st_services s' !! x ->
     st_services s !! x = Some o \/ st_services s' !! x = Some o ->
     GetControllerOf (svc_meta o) = None /\ obj_key o = x) ->
  (forall x o, st_statefulsets s !! x <> st_statefulsets s' !! x ->
     st_statefulsets s !! x = Some o \/ st_statefulsets s' !! x = Some o ->
     GetControllerOf (sts_meta o) = None) ->
  r ∈ change_requests ServiceController s s' -> st_services s !! r <> st_services s' !! r.
Proof.
  intros Hsvc Hsts (ev & Hev & Hr)%elem_of_concat_fmap.
  unfold store_events in Hev. apply elem_of_app in Hev as [Hev|Hev];
    apply table_events_elem in Hev as (x & Hx & Hev);
    apply key_event_inv in Hev as (Hk & Hm & (o & Ho & Heo)); rewrite ServiceController_requests, Hk in Hr.
  - rewrite decide_True in Hr by done. apply list_elem_of_singleton in Hr as ->.
    rewrite Heo. destruct (Hsvc x o Hx Ho) as [_ Hkey].
    change (request_of (obj_meta o)) with (obj_key o). by rewrite Hkey.
  - apply Forall_forall. intros m (y & Hy & ->)%Hm. apply (Hsvc x y Hx Hy).
  - rewrite decide_False in Hr by discriminate. by apply not_elem_of_nil in Hr.
  - apply Forall_forall. intros m (y & Hy & ->)%Hm. apply (Hsts x y Hx Hy).
Qed.

(** Conversely, every changed key of a table has its event. *)
Lemma table_events_complete {T} `{EqDecision T} `{object T} `{Stored T} gk s s' x ev :
  tbl (T:=T) s !! x <> tbl s' !! x -> ev ∈ key_event gk (tbl s !! x) (tbl s' !! x) ->
  ev ∈ table_events (T:=T) gk s s'.
Proof.
  intros Hx Hev. unfold table_events. apply elem_of_concat_fmap. exists x.
  rewrite decide_False by done. split; [|done].
  apply elem_of_elements, elem_of_union.
  destruct (tbl s !! x) eqn:E; [left; by apply elem_of_dom; rewrite E|].
  right. apply elem_of_dom. destruct (tbl s' !! x); [done|congruence].
Qed.

(** The watch on Services asks for every key whose Service changed, when
    the objects there carry no controller reference. *)
Lemma change_requests_complete s s' k :
  st_services s !! k <> st_services s' !! k ->
  (forall o, st_services s !! k = Some o \/ st_services s' !! k = Some o ->
     GetControllerOf (svc_meta o) = None /\ obj_key o = k) ->
  k ∈ change_requests ServiceController s s'.
Proof.
  intros Hk Ho.
  assert (exists ev, ev ∈ key_event (T:=Service) service_gk (st_services s !! k) (st_services s' !! k))
    as [ev Hev].
  { destruct (st_services s !! k) as [o|], (st_services s' !! k) as [o'|]; simpl; [..|done];
      eexists; by apply elem_of_cons; left. }
  apply key_event_inv in Hev as Hinv. destruct Hinv as (Hkind & Hm & (o & Hox & Heo)).
  apply elem_of_concat_fmap. exists ev. split.
  - unfold store_events. apply elem_of_app. left. by apply (table_events_complete (T:=Service) _ _ _ k).
  - rewrite ServiceController_requests, decide_True by
      (done || (apply Forall_forall; intros m (y & Hy & ->)%Hm; apply (Ho y Hy))).
    rewrite Heo. change (request_of (obj_meta o)) with (obj_key o). rewrite (proj2 (Ho o Hox)).
    by apply elem_of_cons; left.
Qed.

(** A change confined to the Service at [k], whose objects there carry no
    controller reference, asks only for [k]. *)
Lemma change_requests_at k s s' r :
  (forall x, x <> k -> st_services s' !! x = st_services s !! x) ->
  st_statefulsets s' = st_statefulsets s ->
  (forall o, st_services s !! k = Some o \/ st_services s' !! k = Some o ->
     GetControllerOf (svc_meta o) = None /\ obj_key o = k) ->
  r ∈ change_requests ServiceController s s' -> r = k.
Proof.
  intros Hx Hs Ho Hr. apply change_requests_changed in Hr.
  - destruct (decide (r = k)) as [->|Hne]; [done|]. exfalso. apply Hr. by rewrite Hx.
  - intros x o Hch Hox. destruct (decide (x = k)) as [->|Hne]; [by apply Ho|].
    exfalso. apply Hch. by rewrite Hx.
  - intros x o Hch. exfalso. apply Hch. by rewrite Hs.
Qed.

(** A duplicate-free list whose elements are all [k] and which holds [k]
    is [[k]]. *)
Lemma NoDup_only l (k : Request) : NoDup l -> (forall x, x ∈ l -> x = k) -> k ∈ l -> l = [k].
Proof.
  intros Hnd Hl Hk. destruct l as [|a [|b l]]; [by apply not_elem_of_nil in Hk| |].
  - by rewrite (Hl a ltac:(by left)).
  - exfalso. apply NoDup_cons in Hnd as [Hab _]. apply Hab.
    rewrite (Hl a ltac:(by left)), (Hl b ltac:(by right; left)). by left.
Qed.

(** [Add] of [k] to a queue that holds nothing but [k]. *)
Lemma wq_add_single q (k : Request) : NoDup q -> (forall x, x ∈ q -> x = k) -> wq_add q k = [k].
Proof.
  intros Hnd Hq. unfold wq_add. destruct q as [|a [|b l]].
  - by rewrite decide_False by (by intros ?%not_elem_of_nil).
  - rewrite (Hq a ltac:(by left)). by rewrite decide_True by (by left).
  - exfalso. apply NoDup_cons in Hnd as [Hab _]. apply Hab.
    rewrite (Hq a ltac:(by left)), (Hq b ltac:(by right; left)). by left.
Qed.

Lemma table_events_same {T} `{EqDecision T} `{object T} `{Stored T} gk s :
  table_events (T:=T) gk s s = [].
Proof.
  unfold table_events. induction (elements _) as [|x l IH]; simpl; [done|].
  by rewrite decide_True.
Qed.

Lemma change_requests_same c s : change_requests c s s = [].
Proof. unfold change_requests, store_events. by rewrite !table_events_same. Qed.

(** *** Passes *)

Lemma reconcileHandler_NoDup c req q w :
  NoDup q -> NoDup (ls_queue (fst (reconcileHandler c req q w))).
Proof.
  intros Hq. unfold reconcileHandler.
  destruct (Reconcile req w) as [[x|e] w']; [|destruct e]; simpl;
    try apply wq_add_NoDup; by apply wq_add_all_NoDup.
Qed.

(** A request whose Service is gone fails, and the pass writes nothing. *)
Lemma Reconcile_missing k w :
  st_services (w_store w) !! k = None ->
  exists e, fst (Reconcile k w) = Err e /\ w_store (snd (Reconcile k w)) = w_store w.
Proof.
  intros Hk. unfold Reconcile, sbind, client_get, api_call, store_lookup, sbind.
  destruct (w_faults w) as [|[e|] fs]; simpl; rewrite ?Hk; simpl; eauto.
Qed.

(** In a fault-free world the pass for a missing Service returns
    [NotFound] and writes nothing. *)
Lemma Reconcile_missing_free k w :
  w_faults w = [] -> st_services (w_store w) !! k = None -> Reconcile k w = (Err ErrNotFound, w).
Proof.
  intros Hf Hk. unfold Reconcile, client_get, sbind, api_call, store_lookup.
  rewrite Hf. cbn -[tbl]. change (tbl (w_store w) !! k) with (st_services (w_store w) !! k).
  by rewrite Hk.
Qed.

(** A fault-free worker whose only request is for a missing Service
    processes it forever, and nothing else changes. *)
Lemma run_missing_free c w k n :
  w_faults w = [] -> st_services (w_store w) !! k = None ->
  run c n (mkLState w [k]) = (Running, mkLState w [k]).
Proof.
  intros Hf Hk. induction n as [|n IH]; [done|]. cbn [run ls_queue ls_world].
  unfold reconcileHandler. rewrite Reconcile_missing_free by done.
  simpl. rewrite change_requests_same. exact IH.
Qed.

(** ** Properties *)

(** C17: a deleted Service is retried forever.  When the Service of a
    request is gone, [Reconcile] returns the [NotFound] error of [Get]
    (or the failure of the call), the worker re-adds the request, and no
    number of passes empties the queue: the controller never goes idle
    (it may only crash on an injected panic).  This is what the deletion
    of a parent leads to, including the deletion [handleDelete] lets
    happen. *)
Theorem deleted_service_retried_forever c w k n :
  st_services (w_store w) !! k = None -> fst (run c n (mkLState w [k])) <> Idle.
Proof.
  revert w. induction n as [|n IH]; intros w Hk; simpl; [done|].
  unfold reconcileHandler.
  destruct (Reconcile_missing k w Hk) as (e & Hr & Hs).
  destruct (Reconcile k w) as [r w'] eqn:HR. simpl in Hr, Hs. subst r.
  rewrite Hs, change_requests_same. simpl.
  destruct e; try (apply IH; by rewrite Hs). done.
Qed.

Lemma deleted_service_retried_forever_witness :
  st_services (w_store (world_with_faults [Some ErrTransient] (demo_world demo_enabled)))
    !! ("default", "gone") = None /\
  fst (run ServiceController 50
         (mkLState (world_with_faults [Some ErrTransient] (demo_world demo_enabled))
            [("default", "gone")])) <> Idle.
Proof.
  split; [reflexivity|].
  apply deleted_service_retried_forever. reflexivity.
Defined.

(** C15: a deleted child is not recreated.  When the worker is idle and a
    user deletes a StatefulSet that has no controller reference (as every
    StatefulSet [createOrUpdate] writes, by [Owns_never_enqueues_owner]),
    the watches of [New] enqueue nothing: the controller stays idle
    however long it runs and the StatefulSet stays deleted, though spec
    section 1 expects a request whenever an owned object changes. *)
Theorem child_deletion_not_repaired ls k n :
  ls_queue ls = [] ->
  (forall ss, st_statefulsets (w_store (ls_world ls)) !! k = Some ss ->
              GetControllerOf (sts_meta ss) = None) ->
  run ServiceController n
      (user_write ServiceController (delete_sts k (w_store (ls_world ls))) ls) =
    (Idle, user_write ServiceController (delete_sts k (w_store (ls_world ls))) ls) /\
  st_statefulsets (w_store (ls_world
      (user_write ServiceController (delete_sts k (w_store (ls_world ls))) ls))) !! k = None.
Proof.
  intros Hq Hunc. split; [|apply lookup_delete_eq].
  assert (change_requests ServiceController (w_store (ls_world ls))
            (delete_sts k (w_store (ls_world ls))) = []) as Hnil.
  { destruct (change_requests _ _ _) as [|r rs] eqn:E; [done|exfalso].
    refine (change_requests_changed (w_store (ls_world ls)) (delete_sts k (w_store (ls_world ls)))
              r _ _ _ eq_refl);
      [intros x o Hx; by exfalso; apply Hx| |rewrite E; apply elem_of_cons; by left].
    intros x o Hx Ho. destruct (decide (x = k)) as [->|Hne].
    - destruct Ho as [Ho|Ho]; [by apply Hunc|]. simpl in Ho. by rewrite lookup_delete_eq in Ho.
    - exfalso. apply Hx. simpl. by rewrite lookup_delete_ne. }
  unfold user_write. rewrite Hnil, Hq. by destruct n.
Qed.

Lemma child_deletion_not_repaired_witness :
  ls_queue (snd (run ServiceController 3 demo_start)) = [] /\
  (forall ss, st_statefulsets (w_store (ls_world (snd (run ServiceController 3 demo_start))))
                !! ("default", "web-tailscale") = Some ss ->
              GetControllerOf (sts_meta ss) = None) /\
  run ServiceController 100
      (user_write ServiceController
         (delete_sts ("default", "web-tailscale")
            (w_store (ls_world (snd (run ServiceController 3 demo_start)))))
         (snd (run ServiceController 3 demo_start))) =
    (Idle, user_write ServiceController
             (delete_sts ("default", "web-tailscale")
                (w_store (ls_world (snd (run ServiceController 3 demo_start)))))
             (snd (run ServiceController 3 demo_start))) /\
  st_statefulsets (w_store (ls_world
      (user_write ServiceController
         (delete_sts ("default", "web-tailscale")
            (w_store (ls_world (snd (run ServiceController 3 demo_start)))))
         (snd (run ServiceController 3 demo_start))))) !! ("default", "web-tailscale") = None.
Proof.
  assert (ls_queue (snd (run ServiceController 3 demo_start)) = []) as Hq by (vm_compute; reflexivity).
  assert (forall ss, st_statefulsets (w_store (ls_world (snd (run ServiceController 3 demo_start))))
                       !! ("default", "web-tailscale") = Some ss ->
                     GetControllerOf (sts_meta ss) = None) as Hu.
  { intros ss H. vm_compute in H. injection H as <-. reflexivity. }
  split; [exact Hq|]. split; [exact Hu|].
  exact (child_deletion_not_repaired _ ("default", "web-tailscale") 100 Hq Hu).
Defined.

End Loop.
