(* ===== verification/Faults.v ===== *)
(** * What the fault oracle can do to a pass

    The oracle [w_faults] of [Store] decides, call after call, whether the
    API server fails a request.  Three facts about a pass of [Reconcile]
    under the oracle: it consumes the oracle in order, at least one entry
    per pass when the oracle is not exhausted (every pass starts with
    [Get]); a pass that succeeds anyway ends exactly where the fault-free
    pass from the same store ends (an injected [NotFound] on a [Get] only
    matters when it differs from the truth, and then the [Create] that
    follows fails); and what the oracle may inject are API status errors,
    never panics. *)

From S2P Require Import Spec2Rocq GoRuntime Objects Naming Env Builder Store Controller.

Module Faults.
Import Naming Env Builder Store Controller.

(** A later world has consumed a prefix of the oracle. *)
Definition faults_suffix (w w' : World) : Prop := w_faults w' `suffix_of` w_faults w.

#[export] Instance faults_suffix_preorder : PreOrder faults_suffix.
Proof.
  split; [intros w; unfold faults_suffix; reflexivity|].
  intros w1 w2 w3 H1 H2. unfold faults_suffix in *. by etrans.
Qed.

(** The world with the oracle emptied: where a fault-free run starts. *)
Definition clean (w : World) : World := world_with_faults [] w.

(** A program whose successful runs are fault-free runs: started from the
    same world with the oracle emptied, it succeeds with the same result
    and ends in the same world, oracle aside. *)
Definition ok_sim {A} (m : M A) : Prop :=
  forall w x w', m w = (Ok x, w') -> m (clean w) = (Ok x, clean w').

(** The API server fails requests with status errors, never a panic. *)
Definition not_panic (e : go_error) : Prop := forall p, e <> ErrPanic p.

Definition api_faults (w : World) : Prop :=
  Forall (fun f => forall e, f = Some e -> not_panic e) (w_faults w).

(** The errors the client's calls end with: the API server's statuses, the
    key check of [CreateOrUpdate], or a failure injected by the oracle of
    the world the call started in. *)
Definition api_error (w : World) (e : go_error) : Prop :=
  e = ErrNotFound \/ e = ErrAlreadyExists \/ e = ErrConflict \/ e = ErrMutateKey \/
  Some e ∈ w_faults w.

(** The world of the witness: the first two calls go through, the [Get]
    of the child Service is failed with [NotFound]. *)
Section Outcome.
Context {T : Type} `{EqDecision T} `{object T} `{Stored T}.

(** What [CreateOrUpdate obj f], started in [w], may leave at the key of
    [obj] and the errors it may end with. *)
Definition cou_outcome (obj : T) (f : T -> res go_error T) (w : World)
    (r : res go_error OperationResult) (w' : World) : Prop :=
  (forall o', tbl (w_store w') !! obj_key obj = Some o' ->
     tbl (w_store w) !! obj_key obj = Some o' \/
     (exists x y rv, tbl (w_store w) !! obj_key obj = Some x /\ f x = Ok y /\
        o' = with_system (om_uid (obj_meta x)) (om_deletion_timestamp (obj_meta x)) rv y) \/
     (exists y, tbl (w_store w) !! obj_key obj = None /\ f obj = Ok y /\
        o' = with_system (om_uid (obj_meta y)) None 1 y)) /\
  (forall e, r = Err e -> api_error w e \/
     exists x, (tbl (w_store w) !! obj_key obj = Some x \/ x = obj) /\ f x = Err e).
End Outcome.

Definition demo_notfound_world : World :=
  world_with_faults [None; None; Some ErrNotFound] (demo_world demo_enabled).

(** ** Lemmas *)

(** An [api_error], the oracle's first entry being known as [Hf]. *)
Ltac api_err Hf :=
  unfold api_error; rewrite ?Hf;
  first [by left | by (right; left) | by (do 2 right; left) | by (do 3 right; left)
        | do 4 right; apply elem_of_cons; by left].

(** The client's primitives by the oracle's first entry, keeping what it
    was. *)
Ltac suffix_cases :=
  let w := fresh "w" in let Hf := fresh "Hf" in
  intros w; unfold faults_suffix, sbind, sret, sfail, slift; simpl;
  destruct (w_faults w) as [|[?|] ?] eqn:Hf; client_cases; rewrite ?Hf;
  first [reflexivity | by apply suffix_cons_r].


Lemma ok_sim_ret {A} (a : A) : ok_sim (sret a).
Proof. intros w x w' [= -> <-]. reflexivity. Qed.

Lemma ok_sim_lift {A} (r : res go_error A) : ok_sim (slift r).
Proof. intros w x w' [= -> <-]. reflexivity. Qed.

Lemma ok_sim_bind {A B} (m : M A) (k : A -> M B) :
  ok_sim m -> (forall x, ok_sim (k x)) -> ok_sim (sbind m k).
Proof.
  intros Hm Hk w y w'. unfold sbind.
  destruct (m w) as [[x|e] w1] eqn:E; [|discriminate].
  rewrite (Hm _ _ _ E). apply Hk.
Qed.

Section Client.
Context {T : Type} `{EqDecision T} `{object T} `{Stored T}.

Lemma client_get_suffix k : within faults_suffix (client_get (T:=T) k).
Proof. unfold client_get, api_call, store_lookup. suffix_cases. Qed.

Lemma client_create_suffix (o : T) : within faults_suffix (client_create o).
Proof. unfold client_create, api_call, store_lookup, store_put, log_write. suffix_cases. Qed.

Lemma client_update_suffix (o : T) : within faults_suffix (client_update o).
Proof.
  unfold client_update, api_call, store_lookup, store_put, store_delete, log_write.
  suffix_cases.
Qed.

Lemma client_get_err k w e w1 : client_get (T:=T) k w = (Err e, w1) -> api_error w e.
Proof.
  unfold client_get, api_call, store_lookup, sbind, sret, sfail, slift; simpl.
  destruct (w_faults w) as [|[?|] ?] eqn:Hf; client_cases; intros Hr; simplify_eq; api_err Hf.
Qed.

Lemma client_create_err (o : T) w e w1 : client_create o w = (Err e, w1) -> api_error w e.
Proof.
  unfold client_create, api_call, store_lookup, store_put, log_write, sbind, sret, sfail, slift;
    simpl.
  destruct (w_faults w) as [|[?|] ?] eqn:Hf; client_cases; intros Hr; simplify_eq; api_err Hf.
Qed.

Lemma client_update_err (o : T) w e w1 : client_update o w = (Err e, w1) -> api_error w e.
Proof.
  unfold client_update, api_call, store_lookup, store_put, store_delete, log_write,
    sbind, sret, sfail, slift; simpl.
  destruct (w_faults w) as [|[?|] ?] eqn:Hf; client_cases; intros Hr; simplify_eq; api_err Hf.
Qed.

(** [Get] consumes the head of the oracle. *)
Lemma client_get_consumes k w f fs :
  w_faults w = f :: fs -> w_faults (snd (client_get (T:=T) k w)) = fs.
Proof.
  intros Hf. unfold client_get, api_call, store_lookup, sbind. rewrite Hf.
  destruct f; simpl; [done|]. by destruct (tbl _ !! k).
Qed.

Lemma client_get_ok_sim k : ok_sim (client_get (T:=T) k).
Proof.
  intros w x w'. unfold clean, client_get, api_call, store_lookup. client_cases;
    intros Hr; simplify_eq; reflexivity.
Qed.

Lemma client_create_ok_sim (o : T) : ok_sim (client_create o).
Proof.
  intros w x w'. unfold clean, client_create, api_call, store_lookup, store_put, log_write.
  client_cases; intros Hr; simplify_eq; reflexivity.
Qed.

Lemma client_update_ok_sim (o : T) : ok_sim (client_update o).
Proof.
  intros w x w'. unfold clean, client_update, api_call, store_lookup, store_put,
    store_delete, log_write.
  client_cases; intros Hr; simplify_eq; reflexivity.
Qed.

(** A [Get] that fails leaves the world as it was, oracle aside. *)
Lemma client_get_err_clean k w e w1 :
  client_get (T:=T) k w = (Err e, w1) -> clean w1 = clean w /\
  (e = ErrNotFound -> (forall f fs, w_faults w = f :: fs -> f = None) ->
   tbl (w_store w) !! k = None).
Proof.
  unfold clean, client_get, api_call, store_lookup.
  client_cases; intros Hr; simplify_eq; split; try reflexivity; try done.
  intros _ Hf. by specialize (Hf _ _ eq_refl).
Qed.

(** A successful [Create] found its key free. *)
Lemma client_create_ok_free (o : T) w x w' :
  client_create o w = (Ok x, w') -> tbl (w_store w) !! obj_key o = None.
Proof.
  unfold client_create, api_call, store_lookup, store_put, log_write.
  client_cases; intros Hr; simplify_eq; done.
Qed.

Lemma mutate_create_ok_sim (f : T -> res go_error T) k (obj : T) :
  ok_sim (o <- slift (mutate f k obj) ;; client_create o ;;; sret OpCreated).
Proof.
  apply ok_sim_bind; [apply ok_sim_lift|intros o].
  apply ok_sim_bind; [apply client_create_ok_sim|intros; apply ok_sim_ret].
Qed.

Lemma mutate_update_ok_sim (f : T -> res go_error T) k (cur : T) :
  ok_sim (o <- slift (mutate f k cur) ;;
          if semantic_deep_equal cur o then sret OpNone else client_update o ;;; sret OpUpdated).
Proof.
  apply ok_sim_bind; [apply ok_sim_lift|intros o].
  destruct (semantic_deep_equal cur o); [apply ok_sim_ret|].
  apply ok_sim_bind; [apply client_update_ok_sim|intros; apply ok_sim_ret].
Qed.

Lemma CreateOrUpdate_ok_sim (obj : T) f : ok_sim (CreateOrUpdate obj f).
Proof.
  intros w x w'. unfold CreateOrUpdate.
  destruct (client_get (obj_key obj) w) as [[cur|e] w1] eqn:Hg.
  - rewrite (client_get_ok_sim _ _ _ _ Hg).
    exact (mutate_update_ok_sim f (obj_key obj) cur w1 x w').
  - destruct (client_get_err_clean _ _ _ _ Hg) as [Hc _].
    destruct e; try discriminate.
    intros Hr. pose proof (mutate_create_ok_sim f (obj_key obj) obj _ _ _ Hr) as Hr'.
    rewrite Hc in Hr'.
    assert (tbl (w_store w) !! obj_key obj = None) as Hfree.
    { unfold sbind, slift in Hr. destruct (mutate f (obj_key obj) obj) as [o|] eqn:Hm;
        [|discriminate].
      destruct (client_create o w1) as [[y|] w2] eqn:Hcr; [|discriminate].
      apply client_create_ok_free in Hcr.
      unfold mutate in Hm. destruct (f obj); [|discriminate]. simpl in Hm.
      destruct (decide _) as [Hk|]; [|discriminate]. injection Hm as <-.
      rewrite Hk in Hcr. pose proof (f_equal w_store Hc) as Hs. simpl in Hs. by rewrite Hs in Hcr. }
    assert (client_get (T:=T) (obj_key obj) (clean w) = (Err ErrNotFound, clean w)) as Hg'.
    { unfold clean, client_get, api_call, store_lookup, sbind, sfail. simpl. by rewrite Hfree. }
    rewrite Hg'. exact Hr'.
Qed.
Lemma api_error_suffix w w1 e : faults_suffix w w1 -> api_error w1 e -> api_error w e.
Proof.
  intros [l Hl] He. unfold api_error in *. rewrite Hl, elem_of_app. tauto.
Qed.

(** [Create] stores the object with fresh server-managed fields, only at a
    free key. *)
Lemma client_create_put (o : T) w r w' :
  client_create o w = (r, w') ->
  w_store w' = w_store w \/
  (tbl (w_store w) !! obj_key o = None /\
   w_store w' = tbl_put (<[obj_key o := with_system (om_uid (obj_meta o)) None 1 o]>
                           (tbl (w_store w))) (w_store w)).
Proof.
  unfold client_create, api_call, store_lookup, store_put, log_write.
  client_cases; intros Hr; simplify_eq; first [by left | right; by split].
Qed.

(** What [CreateOrUpdate] leaves at the key of [obj]: what was there, the
    mutate function's result on it with the stored object's
    server-managed fields, or its result on [obj], created where nothing
    was; and the errors it ends with: the client's, or the mutate
    function's on one of those two objects. *)
Lemma cou_unchanged (obj : T) f w r w' :
  w_store w' = w_store w ->
  (forall e, r = Err e -> api_error w e \/
     exists x, (tbl (w_store w) !! obj_key obj = Some x \/ x = obj) /\ f x = Err e) ->
  cou_outcome obj f w r w'.
Proof. intros Hs He. split; [intros o' Ho'; left; by rewrite <- Hs|exact He]. Qed.

(** The branch where [Get] found [cur]. *)
Lemma cou_found (obj cur : T) f w w1 r w' :
  tbl (w_store w) !! obj_key obj = Some cur -> w_store w1 = w_store w -> faults_suffix w w1 ->
  (o <- slift (mutate f (obj_key obj) cur) ;;
   if semantic_deep_equal cur o then sret OpNone else client_update o ;;; sret OpUpdated) w1 = (r, w') ->
  cou_outcome obj f w r w'.
Proof.
  intros Hcur Hs1 Hsuf. unfold sbind, slift, mutate.
  destruct (f cur) as [y|e] eqn:Hy; simpl;
    [|intros [= <- <-]; apply cou_unchanged; [done|intros e' [= <-]; right; exists cur; by split; [left|]]].
  destruct (decide (obj_key y = obj_key obj)) as [Hk|]; simpl;
    [|intros [= <- <-]; apply cou_unchanged; [done|intros e [= <-]; left; by do 3 right; left]].
  destruct (semantic_deep_equal cur y); simpl; [intros [= <- <-]; by apply cou_unchanged|].
  destruct (client_update y w1) as [r2 w2] eqn:Hu.
  assert (forall e, r2 = Err e -> api_error w e) as Herr.
  { intros e ->. apply (api_error_suffix _ _ _ Hsuf), (client_update_err y w1 e w2 Hu). }
  apply client_update_outcome in Hu as (_ & [(Hs2 & _) | (cur2 & Hcur2 & Hr2 & [(_ & Hs2) | (_ & Hs2)])]);
    try rewrite Hk in *; try rewrite Hs1 in Hcur2.
  - destruct r2; intros [= <- <-]; apply cou_unchanged; try congruence;
      intros e' [= <-]; left; by apply Herr.
  - rewrite Hcur in Hcur2. injection Hcur2 as <-. subst r2. intros [= <- <-].
    split; [|done]. intros o'. rewrite Hs2, tbl_put_tbl, lookup_insert_eq. intros [= <-].
    right; left. by exists cur, y, (S (om_resource_version (obj_meta cur))).
  - subst r2. intros [= <- <-]. split; [|done]. intros o'.
    by rewrite Hs2, tbl_put_tbl, lookup_delete_eq.
Qed.

(** The branch where [Get] returned [NotFound]. *)
Lemma cou_created (obj : T) f w w1 r w' :
  w_store w1 = w_store w -> faults_suffix w w1 ->
  (o <- slift (mutate f (obj_key obj) obj) ;; client_create o ;;; sret OpCreated) w1 = (r, w') ->
  cou_outcome obj f w r w'.
Proof.
  intros Hs1 Hsuf. unfold sbind, slift, mutate.
  destruct (f obj) as [y|e] eqn:Hy; simpl;
    [|intros [= <- <-]; apply cou_unchanged; [done|intros e' [= <-]; right; exists obj; by split; [right|]]].
  destruct (decide (obj_key y = obj_key obj)) as [Hk|]; simpl;
    [|intros [= <- <-]; apply cou_unchanged; [done|intros e [= <-]; left; by do 3 right; left]].
  destruct (client_create y w1) as [r2 w2] eqn:Hc.
  assert (forall e, r2 = Err e -> api_error w e) as Herr.
  { intros e ->. apply (api_error_suffix _ _ _ Hsuf), (client_create_err y w1 e w2 Hc). }
  apply client_create_put in Hc as [Hs2|(Hfree & Hs2)]; try rewrite Hk in *.
  - destruct r2; intros [= <- <-]; apply cou_unchanged; try congruence;
      intros e' [= <-]; left; by apply Herr.
  - destruct r2; intros [= <- <-];
      (split; [|intros e' He; try discriminate; injection He as <-; left; by apply Herr]);
      intros o'; rewrite Hs2, tbl_put_tbl, lookup_insert_eq; intros [= <-];
      right; right; exists y; by rewrite <- Hs1.
Qed.

Lemma CreateOrUpdate_outcome (obj : T) f w r w' :
  CreateOrUpdate obj f w = (r, w') ->
  (forall o', tbl (w_store w') !! obj_key obj = Some o' ->
     tbl (w_store w) !! obj_key obj = Some o' \/
     (exists x y rv, tbl (w_store w) !! obj_key obj = Some x /\ f x = Ok y /\
        o' = with_system (om_uid (obj_meta x)) (om_deletion_timestamp (obj_meta x)) rv y) \/
     (exists y, tbl (w_store w) !! obj_key obj = None /\ f obj = Ok y /\
        o' = with_system (om_uid (obj_meta y)) None 1 y)) /\
  (forall e, r = Err e -> api_error w e \/
     exists x, (tbl (w_store w) !! obj_key obj = Some x \/ x = obj) /\ f x = Err e).
Proof.
  change (CreateOrUpdate obj f w = (r, w') -> cou_outcome obj f w r w').
  unfold CreateOrUpdate.
  pose proof (client_get_suffix (obj_key obj) w) as Hsuf.
  destruct (client_get_frame (T:=T) (obj_key obj) w) as [Hs1 _].
  destruct (client_get (obj_key obj) w) as [[cur|e] w1] eqn:Hg; simpl in Hsuf, Hs1.
  - apply client_get_inv in Hg as (Hcur & _). by apply cou_found.
  - destruct e; try (intros [= <- <-]; apply cou_unchanged;
                     [done|intros e [= <-]; left; by apply (client_get_err (obj_key obj) w _ w1)]).
    by apply cou_created.
Qed.

End Client.

(** *** The controller's programs *)

#[export] Instance faults_suffix_primitives : within_primitives faults_suffix.
Proof.
  split; intros;
    first [apply client_get_suffix | apply client_update_suffix
          | apply CreateOrUpdate_within_gen; try apply _;
            intros; first [apply client_get_suffix | apply client_create_suffix
                          | apply client_update_suffix]].
Qed.

Lemma parseFile_svc_ok_sim : ok_sim parseFile_svc.
Proof. intros w x w'. unfold parseFile_svc. destruct (file_svc_yaml _); by intros [= -> <-]. Qed.

Lemma parseFile_sts_ok_sim : ok_sim parseFile_sts.
Proof. intros w x w'. unfold parseFile_sts. destruct (file_sts_yaml _); by intros [= -> <-]. Qed.

Lemma createOrUpdate_ok_sim {T} `{EqDecision T} `{object T} `{Stored T}
    (owner : Service) (obj : T) fn : ok_sim (createOrUpdate owner obj fn).
Proof. apply ok_sim_bind; [apply CreateOrUpdate_ok_sim|intros; apply ok_sim_ret]. Qed.

Lemma deployTailscale_ok_sim svc : ok_sim (deployTailscale svc).
Proof.
  apply ok_sim_bind; [|intros _].
  - apply ok_sim_bind; [apply parseFile_svc_ok_sim|intros; apply createOrUpdate_ok_sim].
  - apply ok_sim_bind; [apply parseFile_sts_ok_sim|intros tmpl].
    apply ok_sim_bind; [apply ok_sim_lift|intros; apply createOrUpdate_ok_sim].
Qed.

Lemma handleDelete_ok_sim svc : ok_sim (handleDelete svc).
Proof.
  unfold handleDelete. destruct (ContainsFinalizer svc finalizer); [|apply ok_sim_ret].
  destruct (gomap_get _ _); [|apply ok_sim_ret].
  apply ok_sim_bind; [apply client_update_ok_sim|intros; apply ok_sim_ret].
Qed.

Lemma Reconcile_ok_sim k : ok_sim (Reconcile k).
Proof.
  apply ok_sim_bind; [apply client_get_ok_sim|intros svc].
  destruct (reconcile_disabled svc); [apply handleDelete_ok_sim|].
  apply ok_sim_bind; [apply client_update_ok_sim|apply deployTailscale_ok_sim].
Qed.

(** A pass consumes at least the oracle's first entry. *)
Lemma Reconcile_consumes k w f fs :
  w_faults w = f :: fs -> w_faults (snd (Reconcile k w)) `suffix_of` fs.
Proof.
  intros Hf. unfold Reconcile, sbind.
  pose proof (client_get_consumes (T:=Service) k w f fs Hf) as H1.
  destruct (client_get k w) as [[svc|e] w1]; simpl in *; [|by rewrite H1].
  rewrite <- H1. destruct (reconcile_disabled svc).
  - exact (handleDelete_within faults_suffix svc w1).
  - exact (within_bind faults_suffix _ _ (wp_update _) (deployTailscale_within faults_suffix) w1).
Qed.

(** ** Properties *)

End Faults.
