(* ===== verification/Settle.v ===== *)
(** * The running controller settles

    The controller [New] registers, run by the worker of [Loop] on an
    enabled parent [P] at [k] with usable templates: whatever finite
    sequence of API failures the oracle holds, the worker becomes idle
    after at most [length (w_faults w) + 4] requests, without crashing,
    and then the parent carries the finalizer and both children serve it.
    The invariant behind it ([loop_inv]): the parent stays provisionable
    ([Convergence]); the objects at [k] and at the child key carry no
    controller reference and the child Service is one whose own pass
    writes nothing; the queue holds only [k] and the child key (the
    watches of [New] ask for nothing else); and either [k] is queued or
    the parent is done.  Every pass consumes an entry of the oracle while
    it lasts ([Faults]); once it is exhausted, at most four fault-free
    passes remain. *)

From S2P Require Import Spec2Rocq GoRuntime Objects Naming Env Builder Store Controller Convergence Frame Watch Loop Faults.

Module Settle.
Import Naming Env Builder Store Controller Convergence Frame Watch Loop Faults.

(** A Service whose own pass writes nothing: it is disabled, and
    [handleDelete] returns before its [Update]. *)
Definition quiet_svc (c : Service) : Prop :=
  reconcile_disabled c = true /\
  (ContainsFinalizer c finalizer = false \/
   gomap_get (om_annotations (svc_meta c)) deviceIDAnnotation = None).

Definition uncontrolled (m : ObjectMeta) : Prop := GetControllerOf m = None.

(** The parent at [k] and the objects at its child key [ck] carry no
    controller reference, and the child Service is quiet. *)
Definition objs_ok (k ck : Request) (s : Store) : Prop :=
  (forall o, st_services s !! k = Some o -> uncontrolled (svc_meta o)) /\
  (forall c, st_services s !! ck = Some c -> quiet_svc c /\ uncontrolled (svc_meta c)) /\
  (forall c, st_statefulsets s !! k = Some c -> uncontrolled (sts_meta c)) /\
  (forall c, st_statefulsets s !! ck = Some c -> uncontrolled (sts_meta c)).

(** The parent is provisioned and nothing is left to write: it has the
    finalizer, and both children serve it and are settled. *)
Definition parent_done (k : Request) (P tsvc : Service) (tsts : StatefulSet) (s : Store) : Prop :=
  exists P' cs ss d,
    st_services s !! k = Some P' /\ compat P P' /\ finalizer ∈ om_finalizers (svc_meta P') /\
    statefulset_desired P tsts = Ok d /\
    st_services s !! childKey P = Some cs /\ obj_key cs = childKey P /\
    settled (service_child_fn P tsvc) cs /\ child_service_ok P tsvc cs /\
    st_statefulsets s !! childKey P = Some ss /\ obj_key ss = childKey P /\
    settled (sts_child_fn P d) ss /\ child_sts_ok P tsts ss.

(** The requests the queue may hold while the controller works for the
    parent at [k]: [k] itself, and the child key once a Service is there
    (the watch on Services reports the child Service's own key). *)
Definition in_scope (k ck : Request) (s : Store) (r : Request) : Prop :=
  r = k \/ (r = ck /\ is_Some (st_services s !! ck)).

(** The state of the running controller while it works for [P]. *)
Definition loop_inv (k : Request) (P tsvc : Service) (tsts : StatefulSet) (ls : LState) : Prop :=
  provisionable k P (mkFiles (Some tsvc) (Some tsts)) (ls_world ls) /\
  objs_ok k (childKey P) (w_store (ls_world ls)) /\ api_faults (ls_world ls) /\
  NoDup (ls_queue ls) /\
  (forall r, r ∈ ls_queue ls -> in_scope k (childKey P) (w_store (ls_world ls)) r) /\
  (k ∈ ls_queue ls \/ parent_done k P tsvc tsts (w_store (ls_world ls))).

(** What a pass for [req], taken off the queue [req :: q], must achieve for
    the invariant to hold after [reconcileHandler]: the parent stays
    provisionable and the objects uncontrolled, the oracle injects API
    statuses only, the pass does not panic, every request the handler may
    queue is in scope, and [k] stays queued unless the parent is done (or
    the pass for [k] failed, when the handler re-adds it). *)
Definition pass_ok (k : Request) (P tsvc : Service) (tsts : StatefulSet)
    (w : World) (req : Request) (q : list Request) : Prop :=
  let (r, w') := Reconcile req w in
  provisionable k P (mkFiles (Some tsvc) (Some tsts)) w' /\
  objs_ok k (childKey P) (w_store w') /\ api_faults w' /\
  (forall e, r = Err e -> not_panic e) /\
  (forall x, x ∈ q \/ x ∈ change_requests ServiceController (w_store w) (w_store w') \/ x = req ->
     in_scope k (childKey P) (w_store w') x) /\
  (k ∈ q \/ parent_done k P tsvc tsts (w_store w') \/ (req = k /\ exists e, r = Err e)).

(** What the steps of a pass for [k] keep: the objects' properties, and
    the StatefulSets away from the child key. *)
Definition step_ok (k ck : Request) (w w' : World) : Prop :=
  (objs_ok k ck (w_store w) -> objs_ok k ck (w_store w')) /\
  (forall x, x <> ck -> st_statefulsets (w_store w') !! x = st_statefulsets (w_store w) !! x).

(** The programs that cannot panic from a state satisfying [G]. *)
Definition no_panic {A} (G : World -> Prop) (m : M A) : Prop :=
  forall w, G w -> forall e, fst (m w) = Err e -> not_panic e.

(** What the parent's pass needs to be free of panics: the parent is
    provisionable and the oracle injects API statuses only. *)
Definition guard (k : Request) (P : Service) (F : Files) (w : World) : Prop :=
  provisionable k P F w /\ api_faults w.

(** The requests left to process once the oracle is exhausted: at most
    the queue's length, plus two while the parent is not done. *)
Definition budget (k : Request) (P tsvc : Service) (tsts : StatefulSet) (ls : LState) (m : nat)
  : Prop :=
  length (ls_queue ls) <= m /\
  (parent_done k P tsvc tsts (w_store (ls_world ls)) \/ length (ls_queue ls) + 2 <= m).

(** A cluster for the witness: the enabled parent of [Controller], and an
    oracle failing four of the first five API calls with conflicts,
    transient errors and [NotFound]. *)
Definition demo_loop_world : World :=
  world_with_faults [Some ErrConflict; None; Some ErrTransient; Some ErrNotFound; Some ErrConflict]
    (demo_world demo_enabled).

(** ** Lemmas *)

#[export] Instance step_ok_preorder k ck : PreOrder (step_ok k ck).
Proof.
  split; [intros w; by split|].
  intros w1 w2 w3 [O1 S1] [O2 S2]. split; [auto|]. intros x Hx. by rewrite S2, S1.
Qed.

Lemma step_ok_same k ck w w' : w_store w' = w_store w -> step_ok k ck w w'.
Proof. intros Hs. unfold step_ok. by rewrite Hs. Qed.

Lemma no_panic_ret {A} G (a : A) : no_panic G (sret a).
Proof. by intros w _ e. Qed.

Lemma no_panic_bind {A B} G (m : M A) (f : A -> M B) :
  within (fun w w' => G w -> G w') m -> no_panic G m -> (forall x, no_panic G (f x)) ->
  no_panic G (sbind m f).
Proof.
  intros HG Hm Hf w Hw e. unfold sbind.
  pose proof (HG w Hw) as Hw'. pose proof (Hm w Hw e) as He.
  destruct (m w) as [[x|e'] w1]; simpl in *; [exact (Hf x w1 Hw' e)|].
  intros [= <-]. by apply He.
Qed.

Lemma api_faults_suffix w w' : faults_suffix w w' -> api_faults w -> api_faults w'.
Proof. intros [l Hl] Hf. unfold api_faults in *. rewrite Hl, Forall_app in Hf. apply Hf. Qed.

Lemma api_error_not_panic w e : api_faults w -> api_error w e -> not_panic e.
Proof.
  intros Hf He p ->. unfold api_error in He.
  destruct He as [He|[He|[He|[He|He]]]]; try discriminate.
  unfold api_faults in Hf. rewrite Forall_forall in Hf. exact (Hf _ He _ eq_refl p eq_refl).
Qed.

(** *** The objects the steps write *)

Lemma uncontrolled_sys uid dts rv m :
  uncontrolled (meta_with_system uid dts rv m) <-> uncontrolled m.
Proof. done. Qed.

Lemma quiet_svc_ext c c' :
  om_annotations (svc_meta c') = om_annotations (svc_meta c) ->
  om_finalizers (svc_meta c') = om_finalizers (svc_meta c) ->
  om_deletion_timestamp (svc_meta c') = om_deletion_timestamp (svc_meta c) ->
  quiet_svc c -> quiet_svc c'.
Proof.
  intros Ha Hf Hd [Hdis Hq]. unfold quiet_svc, ContainsFinalizer in *. simpl in *.
  rewrite (reconcile_disabled_ext c c' Ha Hd), Ha, Hf. split; [done|]. exact Hq.
Qed.

(** The closure for the Service child keeps the annotations, finalizers
    and deletion timestamp, and adds no controller reference. *)
Lemma service_child_fn_fields x tsvc c y :
  service_child_fn x tsvc c = Ok y ->
  om_annotations (svc_meta y) = om_annotations (svc_meta c) /\
  om_finalizers (svc_meta y) = om_finalizers (svc_meta c) /\
  om_deletion_timestamp (svc_meta y) = om_deletion_timestamp (svc_meta c) /\
  (uncontrolled (svc_meta c) -> uncontrolled (svc_meta y)).
Proof.
  intros (c1 & Hc1 & Hm)%service_child_fn_meta.
  pose proof (fun Hc => SetOwnerReference_uncontrolled x c c1 Hc Hc1) as Hu.
  apply SetOwnerReference_inv in Hc1 as (_ & ->).
  rewrite Hm. unfold upsertOwnerRef in *. simpl in *.
  split; [done|]. split; [done|]. split; [done|]. exact Hu.
Qed.

Lemma sts_child_fn_uncontrolled x d c y :
  sts_child_fn x d c = Ok y -> uncontrolled (sts_meta c) -> uncontrolled (sts_meta y).
Proof.
  intros (c1 & Hc1 & Hm)%sts_child_fn_meta Hc.
  pose proof (SetOwnerReference_uncontrolled x c c1 Hc Hc1) as Hu.
  unfold uncontrolled, GetControllerOf in *. rewrite Hm. exact Hu.
Qed.

(** *** The steps of a pass for the parent *)

Section Steps.
Context (k ck : Request).
Hypothesis Hkc : k <> ck.

(** The parent's [Update] with the finalizer. *)
Lemma update_parent_step P'' w :
  obj_key P'' = k -> st_services (w_store w) !! k = Some P'' ->
  step_ok k ck w (snd (client_update (AddFinalizer P'' finalizer) w)).
Proof.
  intros Hk HP. destruct (client_update _ w) as [r w'] eqn:Hu. simpl.
  apply client_update_outcome in Hu as (_ & [(Hs & _)|(cur & Hcur & _ & [(_ & Hs)|(_ & Hs)])]);
    [by apply step_ok_same| |]; rewrite AddFinalizer_key, Hk in Hs; unfold step_ok; rewrite Hs; simpl;
    (split; [|by intros]); intros (H1 & H2 & H3 & H4);
    (split; [|split; [|split; [exact H3|exact H4]]]).
  - intros o. cbn [st_services]. rewrite lookup_insert_eq. intros [= <-].
    apply H1 in HP. unfold AddFinalizer. by destruct (ContainsFinalizer _ _).
  - intros c. cbn [st_services]. rewrite lookup_insert_ne by done. apply H2.
  - intros o. cbn [st_services]. by rewrite lookup_delete_eq.
  - intros c. cbn [st_services]. rewrite lookup_delete_ne by done. apply H2.
Qed.

(** [CreateOrUpdate] of the Service child. *)
Lemma cou_svc_step (x tsvc : Service) w :
  obj_key (service_init x) = ck ->
  step_ok k ck w (snd (CreateOrUpdate (service_init x) (service_child_fn x tsvc) w)).
Proof.
  intros Hck.
  pose proof (CreateOrUpdate_key_step (service_init x) (service_child_fn x tsvc) (fun _ => True)
                (fun _ _ _ _ _ _ => I) w) as (_ & Hts & Hoth & _).
  destruct (CreateOrUpdate _ _ w) as [r w'] eqn:Hc. simpl in *.
  apply CreateOrUpdate_outcome in Hc as [Hat _]. rewrite Hck in Hat, Hoth.
  assert (st_statefulsets (w_store w') = st_statefulsets (w_store w)) as Hsts
    by (rewrite Hts; reflexivity).
  unfold step_ok. split; [|intros; by rewrite Hsts].
  intros (H1 & H2 & H3 & H4). unfold objs_ok. rewrite Hsts. split; [|split; [|split; [exact H3|exact H4]]].
  - intros o. rewrite (Hoth k) by done. apply H1.
  - intros c Hc. destruct (Hat c Hc) as [Hold|[(x' & y & rv & Hx' & Hy & ->)|(y & _ & Hy & ->)]].
    + by apply H2.
    + destruct (H2 x' Hx') as [Hq Hu].
      destruct (service_child_fn_fields _ _ _ _ Hy) as (Ha & Hf & Hd & Hu').
      split; [|exact (Hu' Hu)]. by apply (quiet_svc_ext x').
    + destruct (service_child_fn_fields _ _ _ _ Hy) as (Ha & Hf & _ & Hu').
      split; [|exact (Hu' eq_refl)].
      split; [unfold reconcile_disabled; simpl; by rewrite Ha|].
      left. unfold ContainsFinalizer. simpl. by rewrite Hf.
Qed.

(** [CreateOrUpdate] of the StatefulSet child. *)
Lemma cou_sts_step (x : Service) d w :
  obj_key (statefulset_init x) = ck ->
  step_ok k ck w (snd (CreateOrUpdate (statefulset_init x) (sts_child_fn x d) w)).
Proof.
  intros Hck.
  pose proof (CreateOrUpdate_key_step (statefulset_init x) (sts_child_fn x d) (fun _ => True)
                (fun _ _ _ _ _ _ => I) w) as (_ & Hts & Hoth & _).
  destruct (CreateOrUpdate _ _ w) as [r w'] eqn:Hc. simpl in *.
  apply CreateOrUpdate_outcome in Hc as [Hat _]. rewrite Hck in Hat, Hoth.
  assert (st_services (w_store w') = st_services (w_store w)) as Hsvc
    by (rewrite Hts; reflexivity).
  unfold step_ok. split; [|exact Hoth].
  intros (H1 & H2 & H3 & H4). unfold objs_ok. rewrite Hsvc. split; [exact H1|split; [exact H2|split]].
  - intros c. rewrite (Hoth k) by done. apply H3.
  - intros c Hc. destruct (Hat c Hc) as [Hold|[(x' & y & rv & Hx' & Hy & ->)|(y & _ & Hy & ->)]].
    + by apply H4.
    + exact (sts_child_fn_uncontrolled _ _ _ _ Hy (H4 x' Hx')).
    + exact (sts_child_fn_uncontrolled _ _ _ _ Hy eq_refl).
Qed.

Lemma deployTailscale_step (x : Service) :
  childKey x = ck -> within (step_ok k ck) (deployTailscale x).
Proof.
  intros Hck. refine (within_bind _ _ _ _ (fun _ => _)).
  - refine (within_bind _ _ _ (fun w => _) (fun tmpl => _)).
    + unfold parseFile_svc. destruct (file_svc_yaml _); by apply step_ok_same.
    + exact (within_bind _ _ _ (fun w => cou_svc_step x tmpl w Hck) (fun _ => within_ret _ _)).
  - refine (within_bind _ _ _ (fun w => _) (fun tmpl => _)).
    + unfold parseFile_sts. destruct (file_sts_yaml _); by apply step_ok_same.
    + refine (within_bind _ _ _ (within_lift _ _) (fun d => _)).
      exact (within_bind _ _ _ (fun w => cou_sts_step x d w Hck) (fun _ => within_ret _ _)).
Qed.

(** A pass for the enabled parent keeps the objects' properties and
    writes StatefulSets only at the child key, whatever fails. *)
Lemma Reconcile_step P F w :
  provisionable k P F w -> obj_key P = k -> childKey P = ck -> reconcile_disabled P = false ->
  step_ok k ck w (snd (Reconcile k w)).
Proof.
  intros Hpr HkP Hck Hen. unfold Reconcile, sbind.
  destruct (client_get_frame (T:=Service) k w) as [Hs1 _].
  destruct (client_get k w) as [[P''|e] w1] eqn:Hg; simpl in *; [|by apply step_ok_same].
  apply client_get_inv in Hg as (HP'' & _). simpl in HP''.
  destruct Hpr as (Hwf & _ & (P' & HP' & Hc) & _). rewrite HP'' in HP'. injection HP' as <-.
  rewrite (compat_enabled P P'') by done.
  assert (obj_key P'' = k) as Hk'' by apply (proj1 Hwf _ _ HP'').
  pose proof (update_parent_step P'' w1 Hk'' ltac:(by rewrite Hs1)) as H2.
  pose proof (update_result_childKey P'') as Hx.
  destruct (client_update (AddFinalizer P'' finalizer) w1) as [r w2] eqn:Hu. simpl in H2.
  etrans; [by apply step_ok_same|].
  destruct r as [x|e]; simpl; [|exact H2].
  etrans; [exact H2|]. apply deployTailscale_step.
  rewrite (Hx x w1 (Ok x) w2); [|by rewrite Hk'', Hs1|done|done].
  rewrite <- Hck. apply same_identity_childKey, Hc.
Qed.
End Steps.

(** *** No panic *)

Lemma SetOwnerReference_err {TO T} `{object TO} `{object T} (owner : TO) (o : T) e :
  SetOwnerReference owner o = Err e -> e = ErrOwner.
Proof. unfold SetOwnerReference, validateOwner. repeat case_decide; simpl; intros Heq; by simplify_eq. Qed.

(** The closures fail only in [SetOwnerReference] once the labels they
    assign into exist. *)
Lemma service_child_fn_not_panic P tsvc x e :
  svc_template_ok tsvc = true -> is_Some (om_labels (svc_meta x)) ->
  service_child_fn P tsvc x = Err e -> not_panic e.
Proof.
  intros Ht [l Hl]. unfold service_child_fn.
  destruct (SetOwnerReference P x) as [x1|e'] eqn:Hs; simpl.
  - apply SetOwnerReference_inv in Hs as (_ & ->).
    unfold svc_template_ok in Ht. apply bool_decide_eq_true in Ht as [sel Hsel].
    unfold service_mutate, upsertOwnerRef; simpl. rewrite Hl, Hsel. by intros ?.
  - intros [= <-]. apply SetOwnerReference_err in Hs as ->. by intros p.
Qed.

Lemma sts_child_fn_not_panic P d x e :
  is_Some (om_labels (sts_meta x)) -> sts_child_fn P d x = Err e -> not_panic e.
Proof.
  intros [l Hl]. unfold sts_child_fn.
  destruct (SetOwnerReference P x) as [x1|e'] eqn:Hs; simpl.
  - apply SetOwnerReference_inv in Hs as (_ & ->).
    unfold statefulset_mutate, upsertOwnerRef; simpl. rewrite Hl. by intros ?.
  - intros [= <-]. apply SetOwnerReference_err in Hs as ->. by intros p.
Qed.

Lemma createOrUpdate_not_panic {T} `{EqDecision T} `{object T} `{Stored T}
    (owner : Service) (obj : T) fn w e :
  api_faults w ->
  (forall x e', (tbl (w_store w) !! obj_key obj = Some x \/ x = obj) ->
     (let? o' := SetOwnerReference owner x in fn o') = Err e' -> not_panic e') ->
  fst (createOrUpdate owner obj fn w) = Err e -> not_panic e.
Proof.
  intros Hf Hx. unfold createOrUpdate, sbind.
  destruct (CreateOrUpdate obj _ w) as [[u|e'] w'] eqn:Hc; simpl; [by intros ?|].
  intros [= <-]. apply CreateOrUpdate_outcome in Hc as [_ He].
  destruct (He e' eq_refl) as [Ha|(x & Hx' & Hfx)]; [by eapply api_error_not_panic|].
  exact (Hx x e' Hx' Hfx).
Qed.

Lemma guard_kept {A} k P F (m : M A) :
  within (prov_kept k P F) m -> within faults_suffix m ->
  within (fun w w' => guard k P F w -> guard k P F w') m.
Proof.
  intros H1 H2. apply (within_conj _ _ _ _ H1 H2).
  intros w w' Hp Hs [Hpr Hf]. split; [by apply Hp|by eapply api_faults_suffix].
Qed.

Section NoPanic.
Context (k : Request) (P tsvc : Service) (tsts : StatefulSet).
Hypothesis HkP : obj_key P = k.
Hypothesis Hts : svc_template_ok tsvc = true.
Hypothesis Htst : sts_template_ok tsts = true.
Hypothesis Hu : 8 <= String.length (om_uid (svc_meta P)).

Let G := guard k P (mkFiles (Some tsvc) (Some tsts)).

Lemma reconcileService_no_panic x : compat P x -> no_panic G (reconcileService x).
Proof.
  intros Hc w [Hpr Hf] e. unfold reconcileService, sbind, parseFile_svc.
  destruct Hpr as (_ & HF & _ & Hl1 & _). rewrite HF. simpl.
  apply createOrUpdate_not_panic; [done|].
  intros y e' Hy. apply (service_child_fn_not_panic x tsvc y e' Hts).
  destruct Hy as [Hy| ->]; [|by eexists].
  apply Hl1. rewrite <- (same_identity_childKey P x (proj1 Hc)). exact Hy.
Qed.

Lemma reconcileStatefulSet_no_panic x : compat P x -> no_panic G (reconcileStatefulSet x).
Proof.
  intros Hc w [Hpr Hf] e. unfold reconcileStatefulSet, sbind, parseFile_sts.
  destruct Hpr as (_ & HF & _ & _ & Hl2). rewrite HF. simpl.
  destruct (statefulset_desired_ok P tsts Htst Hu) as [d Hd].
  rewrite (same_identity_desired P x tsts (proj1 Hc)), Hd. simpl.
  apply createOrUpdate_not_panic; [done|].
  intros y e' Hy. apply (sts_child_fn_not_panic x d y e').
  destruct Hy as [Hy| ->]; [|by eexists].
  apply Hl2. rewrite <- (same_identity_childKey P x (proj1 Hc)). exact Hy.
Qed.

Lemma deployTailscale_no_panic x : compat P x -> no_panic G (deployTailscale x).
Proof.
  intros Hc. apply no_panic_bind.
  - apply guard_kept; [exact (reconcileService_prov k P _ HkP x Hc)|].
    exact (within_bind _ _ _ (parseFile_within_svc _) (fun _ => createOrUpdate_within_svc _ _ _ _)).
  - by apply reconcileService_no_panic.
  - intros _. by apply reconcileStatefulSet_no_panic.
Qed.

(** The parent's pass never panics, whatever statuses the API returns. *)
Lemma Reconcile_no_panic : reconcile_disabled P = false -> no_panic G (Reconcile k).
Proof.
  intros Hen w [Hpr Hf] e. unfold Reconcile, sbind.
  pose proof (client_get_prov k P _ k w Hpr) as Hpr1.
  pose proof (client_get_suffix (T:=Service) k w) as Hs1.
  pose proof (client_get_err (T:=Service) k w) as He1.
  destruct (client_get k w) as [[P''|e'] w1] eqn:Hg; simpl in *; cycle 1.
  { intros [= <-]. eapply api_error_not_panic; [exact Hf|]. by eapply He1. }
  apply client_get_inv in Hg as (HP'' & Hs1' & _).
  pose proof Hpr as (_ & _ & (P' & HP' & Hc) & _). simpl in HP''. rewrite HP'' in HP'.
  injection HP' as <-. rewrite (compat_enabled P P'') by done.
  pose proof (client_update_suffix (AddFinalizer P'' finalizer) w1) as Hs2.
  pose proof (client_update_err (AddFinalizer P'' finalizer) w1) as He2.
  destruct (client_update (AddFinalizer P'' finalizer) w1) as [r w2] eqn:Hu2. simpl in Hs2.
  destruct (update_prov k P (mkFiles (Some tsvc) (Some tsts)) HkP P'' w1 r w2) as [Hpr2 Hr]; [exact Hpr1|by rewrite Hs1'|done|done|].
  destruct r as [x|e']; simpl.
  - refine (deployTailscale_no_panic x (Hr x eq_refl) w2 _ e). split; [done|].
    apply (api_faults_suffix w); [by etrans|done].
  - intros [= <-]. apply (api_error_not_panic w1); [by eapply api_faults_suffix|]. by eapply He2.
Qed.
End NoPanic.

(** *** The keys a pass changes *)

Lemma frame_changed_svc p c w w' x :
  frame_rel p c w w' -> st_services (w_store w) !! x <> st_services (w_store w') !! x ->
  x = p \/ x = c.
Proof.
  intros (_ & _ & Ho & _) Hx. destruct (decide (x = p)); [by left|].
  destruct (decide (x = c)); [by right|]. exfalso. apply Hx. symmetry. by apply Ho.
Qed.

Lemma frame_changed_sts p c w w' x :
  frame_rel p c w w' -> st_statefulsets (w_store w) !! x <> st_statefulsets (w_store w') !! x ->
  x = p \/ x = c.
Proof.
  intros (_ & _ & Ho & _) Hx. destruct (decide (x = p)); [by left|].
  destruct (decide (x = c)); [by right|]. exfalso. apply Hx. symmetry. by apply Ho.
Qed.

(** The watches of [New] answer a pass that writes only at [k] and [ck],
    on objects without controller reference, with requests for [k] and
    for [ck] (which then holds a Service) only. *)
Lemma change_requests_sub k ck w w' r :
  k <> ck -> frame_rel k ck w w' -> store_wf (w_store w) ->
  objs_ok k ck (w_store w) -> objs_ok k ck (w_store w') ->
  r ∈ change_requests ServiceController (w_store w) (w_store w') ->
  in_scope k ck (w_store w') r.
Proof.
  intros Hkc Hfr Hwf Ho Ho' Hr. unfold in_scope.
  pose proof (proj1 Hfr Hwf) as Hwf'.
  apply change_requests_changed in Hr as Hch.
  - destruct (frame_changed_svc _ _ _ _ _ Hfr Hch) as [->| ->]; [by left|right]. split; [done|].
    destruct (st_services (w_store w') !! ck) eqn:E1; [by eexists|exfalso].
    destruct (st_services (w_store w) !! ck) eqn:E0; [|congruence].
    destruct (proj1 (proj2 (proj2 (proj2 Hfr))) Hwf ck (not_eq_sym Hkc) ltac:(rewrite E0; by eexists))
      as [? Hs].
    congruence.
  - intros x o Hx Hox. split; [|destruct Hox as [Hox|Hox];
      [apply (proj1 (proj1 Hwf _ _ Hox))|apply (proj1 (proj1 Hwf' _ _ Hox))]].
    destruct (frame_changed_svc _ _ _ _ _ Hfr Hx) as [->| ->]; destruct Hox as [Hox|Hox];
      first [exact (proj1 Ho _ Hox) | exact (proj1 Ho' _ Hox)
            | exact (proj2 (proj1 (proj2 Ho) _ Hox)) | exact (proj2 (proj1 (proj2 Ho') _ Hox))].
  - intros x o Hx Hox.
    destruct (frame_changed_sts _ _ _ _ _ Hfr Hx) as [->| ->]; destruct Hox as [Hox|Hox];
      first [exact (proj1 (proj2 (proj2 Ho)) _ Hox) | exact (proj1 (proj2 (proj2 Ho')) _ Hox)
            | exact (proj2 (proj2 (proj2 Ho)) _ Hox) | exact (proj2 (proj2 (proj2 Ho')) _ Hox)].
Qed.

(** What [reconcileHandler] does with the queue, for a pass that does not
    panic: the request is re-added after an error, the watches' requests
    are added, nothing is dropped. *)
Lemma reconcileHandler_spec c req q w :
  (forall e, fst (Reconcile req w) = Err e -> not_panic e) ->
  snd (reconcileHandler c req q w) = None /\
  ls_world (fst (reconcileHandler c req q w)) = snd (Reconcile req w) /\
  (forall x, x ∈ ls_queue (fst (reconcileHandler c req q w)) ->
     x ∈ q \/ x ∈ change_requests c (w_store w) (w_store (snd (Reconcile req w))) \/ x = req) /\
  (forall x, x ∈ q -> x ∈ ls_queue (fst (reconcileHandler c req q w))) /\
  (forall e, fst (Reconcile req w) = Err e -> req ∈ ls_queue (fst (reconcileHandler c req q w))).
Proof.
  intros Hnp. unfold reconcileHandler.
  destruct (Reconcile req w) as [[x|e] w'] eqn:Hr; simpl in *.
  - split; [done|]. split; [done|].
    split; [intros y Hy; apply elem_of_wq_add_all in Hy; tauto|].
    split; [intros y Hy; apply elem_of_wq_add_all; by right|done].
  - specialize (Hnp e eq_refl).
    destruct e; try (exfalso; by eapply Hnp); simpl;
      (split; [done|]; split; [done|]; split; [|split];
       [intros y Hy; apply elem_of_wq_add in Hy as [->|Hy]; [tauto|apply elem_of_wq_add_all in Hy; tauto]
       |intros y Hy; apply elem_of_wq_add; right; apply elem_of_wq_add_all; by right
       |intros e' _; apply elem_of_wq_add; by left]).
Qed.

(** A pass for a key holding a quiet Service (or none) writes nothing
    and fails only with the errors of its [Get]. *)
Lemma Reconcile_quiet w ck :
  (forall c, st_services (w_store w) !! ck = Some c -> quiet_svc c) ->
  w_store (snd (Reconcile ck w)) = w_store w /\ w_files (snd (Reconcile ck w)) = w_files w /\
  (forall e, fst (Reconcile ck w) = Err e -> api_error w e).
Proof.
  intros Hq. unfold Reconcile, sbind.
  destruct (client_get_frame (T:=Service) ck w) as [Hs Hfi].
  pose proof (client_get_err (T:=Service) ck w) as He.
  destruct (client_get ck w) as [[c|e] w1] eqn:Hg; simpl in *.
  - apply client_get_inv in Hg as (Hc & _). destruct (Hq c Hc) as [Hd Hn]. rewrite Hd.
    unfold handleDelete.
    destruct Hn as [Hn|Hn]; [rewrite Hn|rewrite Hn; destruct (ContainsFinalizer _ _)]; simpl;
      (split; [done|]; split; [done|]; by intros e ?).
  - split; [done|]. split; [done|]. intros e' [= <-]. by eapply He.
Qed.

Lemma clean_id w : w_faults w = [] -> clean w = w.
Proof. destruct w as [s f fs l]. simpl. intros ->. reflexivity. Qed.

Lemma faults_suffix_nil w w' : faults_suffix w w' -> w_faults w = [] -> w_faults w' = [].
Proof. unfold faults_suffix. intros Hs Hf. rewrite Hf in Hs. by apply suffix_nil_inv. Qed.

Lemma handleDelete_quiet c w : quiet_svc c -> handleDelete c w = (Ok tt, w).
Proof.
  intros [_ [Hn|Hn]]; [unfold handleDelete; by rewrite Hn|by apply handleDelete_no_deviceID].
Qed.

(** In a fault-free world the pass for a quiet Service succeeds and writes
    nothing. *)
Lemma Reconcile_quiet_free w ck c :
  w_faults w = [] -> st_services (w_store w) !! ck = Some c -> quiet_svc c ->
  Reconcile ck w = (Ok tt, w).
Proof.
  intros Hf Hc Hq. rewrite (Reconcile_handleDelete w ck c Hf Hc (proj1 Hq)).
  by apply handleDelete_quiet.
Qed.

(** A successful pass that writes nothing queues nothing. *)
Lemma handler_queue_same c req q w w' :
  Reconcile req w = (Ok tt, w') -> w_store w' = w_store w ->
  ls_queue (fst (reconcileHandler c req q w)) = q /\ ls_world (fst (reconcileHandler c req q w)) = w'.
Proof. intros Hr Hs. unfold reconcileHandler. rewrite Hr. simpl. by rewrite Hs, change_requests_same. Qed.

Lemma run_idle c n ls : ls_queue ls = [] -> run c n ls = (Idle, ls).
Proof. intros Hq. destruct n; cbn [run]; by rewrite Hq. Qed.

Lemma run_step c n ls req q ls' :
  ls_queue ls = req :: q -> reconcileHandler c req q (ls_world ls) = (ls', None) ->
  run c (S n) ls = run c n ls'.
Proof. intros Hq Hh. cbn [run]. by rewrite Hq, Hh. Qed.

(** *** Draining the queue

    A worker whose requests keep an invariant [I] and never crash, and
    which, once the oracle is exhausted, uses up a budget [B] with every
    request, becomes idle within [length faults + m0] requests, since every
    request consumes an entry of the oracle while it lasts. *)
Section Drain.
Context (c : Controller) (I D : LState -> Prop) (B : LState -> nat -> Prop) (m0 : nat).
Hypothesis step_inv : forall ls req q, I ls -> ls_queue ls = req :: q ->
  snd (reconcileHandler c req q (ls_world ls)) = None /\
  I (fst (reconcileHandler c req q (ls_world ls))) /\
  ls_world (fst (reconcileHandler c req q (ls_world ls))) = snd (Reconcile req (ls_world ls)).
Hypothesis step_budget : forall ls req q m, I ls -> ls_queue ls = req :: q ->
  w_faults (ls_world ls) = [] -> B ls (S m) -> B (fst (reconcileHandler c req q (ls_world ls))) m.
Hypothesis budget_zero : forall ls, B ls 0 -> ls_queue ls = [].
Hypothesis budget_init : forall ls m, I ls -> m0 <= m -> B ls m.
Hypothesis idle_done_D : forall ls, I ls -> ls_queue ls = [] -> D ls.

Lemma run_drain_free m ls :
  I ls -> w_faults (ls_world ls) = [] -> B ls m -> exists ls', run c m ls = (Idle, ls') /\ D ls'.
Proof.
  revert ls. induction m as [|m IH]; intros ls Hinv Hf Hb;
    (destruct (ls_queue ls) as [|req q] eqn:Hq;
     [exists ls; split; [by apply run_idle|by apply idle_done_D]|]).
  - by rewrite budget_zero in Hq.
  - destruct (step_inv ls req q Hinv Hq) as (Hn & Hinv' & Hw).
    pose proof (step_budget ls req q m Hinv Hq Hf Hb) as Hb'.
    pose proof (Reconcile_within faults_suffix req (ls_world ls)) as Hsuf. rewrite <- Hw in Hsuf.
    pose proof (faults_suffix_nil _ _ Hsuf Hf) as Hf'.
    destruct (reconcileHandler c req q (ls_world ls)) as [ls' o] eqn:Hh.
    simpl in Hn, Hinv', Hb', Hf'. subst o.
    rewrite (run_step _ _ ls req q ls' Hq Hh). by apply IH.
Qed.

Lemma run_drain n ls :
  I ls -> length (w_faults (ls_world ls)) <= n ->
  exists ls', run c (n + m0) ls = (Idle, ls') /\ D ls'.
Proof.
  revert ls. induction n as [|n IH]; intros ls Hinv Hlen.
  - apply run_drain_free; [done| |by apply budget_init].
    destruct (w_faults (ls_world ls)); [done|simpl in Hlen; lia].
  - destruct (w_faults (ls_world ls)) as [|f fs] eqn:Hf;
      [apply run_drain_free; [done|done|apply budget_init; [done|lia]]|].
    destruct (ls_queue ls) as [|req q] eqn:Hq;
      [exists ls; split; [by apply run_idle|by apply idle_done_D]|].
    destruct (step_inv ls req q Hinv Hq) as (Hn & Hinv' & Hw).
    pose proof (Reconcile_consumes req (ls_world ls) f fs Hf) as Hc.
    destruct (reconcileHandler c req q (ls_world ls)) as [ls' o] eqn:Hh.
    simpl in Hn, Hinv', Hw. subst o. rewrite <- Hw in Hc.
    change (S n + m0) with (S (n + m0)). rewrite (run_step _ _ ls req q ls' Hq Hh).
    apply IH; [done|]. apply suffix_length in Hc. simpl in Hlen. lia.
Qed.
End Drain.

(** *** The passes of the running controller *)

Section Passes.
Context (k : Request) (P tsvc : Service) (tsts : StatefulSet).
Hypothesis HkP : obj_key P = k.
Hypothesis Hen : reconcile_disabled P = false.
Hypothesis Hts : svc_template_ok tsvc = true.
Hypothesis Htst : sts_template_ok tsts = true.
Hypothesis Hu : 8 <= String.length (om_uid (svc_meta P)).

Let F := mkFiles (Some tsvc) (Some tsts).

Lemma pass_child_prov w : provisionable k P F w -> pass_child w k = childKey P.
Proof.
  intros (_ & _ & (P' & HP' & Hc) & _). unfold pass_child. rewrite HP'.
  apply (same_identity_childKey _ _ (proj1 Hc)).
Qed.

(** A pass for [k] that succeeds, whatever the oracle held, leaves the
    parent done. *)
Lemma Reconcile_clean_done w :
  provisionable k P F w ->
  exists w1, Reconcile k (clean w) = (Ok tt, w1) /\ parent_done k P tsvc tsts (w_store w1).
Proof.
  intros Hpr. destruct Hpr as (Hwf & HF & (P' & HP' & Hc) & Hl1 & Hl2).
  pose proof (same_identity_childKey _ _ (proj1 Hc)) as HcK.
  assert (childKey P <> k) as Hck by eauto with ctrl.
  destruct (Reconcile_first_pass (clean w) k P' tsvc tsts)
    as (P'' & cs & ss & d & w1 & Hr1 & Hsv & Hst & Hfin & Hid & Hd' & Han & _ & _ & Hcs & Hscs
        & Hkcs & Hd & Hss & Hsss & Hkss & _);
    [reflexivity|exact Hwf|exact HP'|by apply (compat_enabled P P')|simpl; by rewrite HF|done
    |simpl; by rewrite HF|done| |rewrite HcK; exact Hl1|rewrite HcK; exact Hl2|].
  { destruct Hc as ((_ & _ & Hu' & _) & _). by rewrite Hu'. }
  exists w1. split; [exact Hr1|]. simpl in Hsv, Hst. rewrite HcK in Hsv, Hst, Hkcs, Hkss.
  exists P'', cs, ss, d. rewrite Hsv, Hst.
  split; [by rewrite lookup_insert_ne, lookup_insert_eq|].
  split; [apply (compat_trans P P' P'' Hc); by split|]. split; [done|].
  split; [by rewrite <- (same_identity_desired _ _ _ (proj1 Hc))|].
  split; [apply lookup_insert_eq|]. split; [done|].
  split; [eapply settled_ext; [|exact Hscs]; intros x; apply same_identity_service_child_fn, Hc|].
  split; [exact (same_identity_child_service_ok P P' _ _ (proj1 Hc) Hcs)|].
  split; [apply lookup_insert_eq|]. split; [done|].
  split; [eapply settled_ext; [|exact Hsss]; intros x; apply same_identity_sts_child_fn, Hc|].
  exact (same_identity_child_sts_ok P P' _ _ (proj1 Hc) Hss).
Qed.

Lemma Reconcile_ok_done w w' :
  provisionable k P F w -> Reconcile k w = (Ok tt, w') -> parent_done k P tsvc tsts (w_store w').
Proof.
  intros Hpr Hr. apply Reconcile_ok_sim in Hr.
  destruct (Reconcile_clean_done w Hpr) as (w1 & Hr1 & Hd).
  rewrite Hr in Hr1. injection Hr1 as <-. exact Hd.
Qed.

(** A fault-free pass for [k] succeeds and leaves the parent done. *)
Lemma Reconcile_free_done w :
  provisionable k P F w -> w_faults w = [] ->
  exists w1, Reconcile k w = (Ok tt, w1) /\ parent_done k P tsvc tsts (w_store w1).
Proof. intros Hpr Hf. rewrite <- (clean_id w Hf). by apply Reconcile_clean_done. Qed.

(** Once the parent is done, a fault-free pass for [k] writes nothing. *)
Lemma Reconcile_done_noop w :
  provisionable k P F w -> w_faults w = [] -> parent_done k P tsvc tsts (w_store w) ->
  exists w', Reconcile k w = (Ok tt, w') /\ w_store w' = w_store w /\ w_files w' = w_files w.
Proof.
  intros (Hwf & HF & _) Hf (P' & cs & ss & d & HP' & Hc & Hfin & Hd & Hcs & Hkcs & Hscs & _
                           & Hss & Hkss & Hsss & _).
  pose proof (same_identity_childKey _ _ (proj1 Hc)) as HcK.
  assert (obj_key P' = k) as HkP' by apply (proj1 Hwf _ _ HP').
  exists (world_log (WUpdate "Service" k (svc_meta P')) w). split; [|done].
  apply (Reconcile_settled w k P' tsvc tsts d cs ss Hf HP' HkP'); try rewrite HcK; try done.
  - by apply (compat_enabled P P').
  - by rewrite HF.
  - by rewrite HF.
  - by rewrite (same_identity_desired _ _ _ (proj1 Hc)).
  - eapply settled_ext; [|exact Hscs]. intros x. symmetry. apply same_identity_service_child_fn, Hc.
  - eapply settled_ext; [|exact Hsss]. intros x. symmetry. apply same_identity_sts_child_fn, Hc.
Qed.
(** The pass for the child key writes nothing. *)
Lemma pass_ok_ck ls q :
  loop_inv k P tsvc tsts ls -> ls_queue ls = childKey P :: q ->
  pass_ok k P tsvc tsts (ls_world ls) (childKey P) q.
Proof.
  intros (Hpr & Ho & Hf & _ & Hsc & Hk) Hq. rewrite Hq in Hsc, Hk.
  set (w := ls_world ls) in *.
  assert (childKey P <> k) as Hck by eauto with ctrl.
  destruct (Reconcile_quiet w (childKey P)) as (Hs & Hfi & He);
    [intros c Hc; apply (proj1 (proj2 Ho) c Hc)|].
  pose proof (Reconcile_within faults_suffix (childKey P) w) as Hsuf.
  unfold pass_ok. destruct (Reconcile (childKey P) w) as [r w'] eqn:Hr. simpl in *.
  split; [by apply (provisionable_frame k P F w w')|].
  split; [by rewrite Hs|]. split; [by apply (api_faults_suffix w)|].
  split; [intros e ->; by apply (api_error_not_panic w), He|].
  split.
  - intros x [Hx|[Hx| ->]]; rewrite Hs.
    + apply Hsc, elem_of_cons. by right.
    + rewrite Hs, change_requests_same in Hx. by apply not_elem_of_nil in Hx.
    + apply Hsc, elem_of_cons. by left.
  - rewrite Hs. destruct Hk as [Hk|Hk]; [|by right; left].
    apply elem_of_cons in Hk as [Hk|Hk]; [congruence|by left].
Qed.

(** The pass for the parent: whatever fails, nothing outside the scope is
    asked for, and a success leaves the parent done. *)
Lemma pass_ok_k ls q :
  loop_inv k P tsvc tsts ls -> ls_queue ls = k :: q -> pass_ok k P tsvc tsts (ls_world ls) k q.
Proof.
  intros (Hpr & Ho & Hf & _ & Hsc & _) Hq. rewrite Hq in Hsc.
  set (w := ls_world ls) in *.
  assert (childKey P <> k) as Hck by eauto with ctrl.
  pose proof (Reconcile_prov k P F HkP Hen w Hpr) as Hpr'.
  destruct (Reconcile_step k (childKey P) (not_eq_sym Hck) P F w Hpr HkP eq_refl Hen) as [Hso _].
  pose proof (Reconcile_within faults_suffix k w) as Hsuf.
  pose proof (Reconcile_frame_rel w k (proj1 Hpr)) as Hfr. rewrite pass_child_prov in Hfr by done.
  pose proof (Reconcile_no_panic k P tsvc tsts HkP Hts Htst Hu Hen w (conj Hpr Hf)) as Hnp.
  unfold pass_ok. destruct (Reconcile k w) as [r w'] eqn:Hr. simpl in *.
  pose proof (Hso Ho) as Ho'.
  split; [done|]. split; [done|]. split; [by apply (api_faults_suffix w)|].
  split; [intros e ->; exact (Hnp e eq_refl)|].
  split.
  - intros x [Hx|[Hx| ->]]; [|exact (change_requests_sub k (childKey P) w w' x (not_eq_sym Hck) Hfr
                                     (proj1 Hpr) Ho Ho' Hx)|by left].
    destruct (Hsc x ltac:(apply elem_of_cons; by right)) as [->|[-> Hs]]; [by left|].
    right. split; [done|]. exact (proj1 (proj2 (proj2 (proj2 Hfr))) (proj1 Hpr) _ Hck Hs).
  - destruct r as [[]|e]; [right; left; exact (Reconcile_ok_done w w' Hpr Hr)|right; right; split; [done|by eexists]].
Qed.

(** One request of the worker keeps the invariant and never crashes. *)
Lemma handler_step ls req q :
  loop_inv k P tsvc tsts ls -> ls_queue ls = req :: q ->
  snd (reconcileHandler ServiceController req q (ls_world ls)) = None /\
  loop_inv k P tsvc tsts (fst (reconcileHandler ServiceController req q (ls_world ls))) /\
  ls_world (fst (reconcileHandler ServiceController req q (ls_world ls))) =
    snd (Reconcile req (ls_world ls)).
Proof.
  intros Hinv Hq.
  assert (pass_ok k P tsvc tsts (ls_world ls) req q) as Hok.
  { pose proof Hinv as (_ & _ & _ & _ & Hsc & _). rewrite Hq in Hsc.
    destruct (Hsc req ltac:(by apply elem_of_cons; left)) as [->|[-> _]];
      [by apply pass_ok_k|by apply pass_ok_ck]. }
  destruct Hinv as (_ & _ & _ & Hnd & _). rewrite Hq in Hnd. apply NoDup_cons in Hnd as [_ Hnd].
  pose proof (reconcileHandler_NoDup ServiceController req q (ls_world ls) Hnd) as Hnd'.
  unfold pass_ok in Hok.
  destruct (Reconcile req (ls_world ls)) as [r w'] eqn:Hr.
  destruct Hok as (Hpr & Ho & Hf & Hnp & Hsc & Hk).
  destruct (reconcileHandler_spec ServiceController req q (ls_world ls)) as (Hn & Hw & Hin & Hsub & Hre);
    [rewrite Hr; exact Hnp|].
  rewrite Hr in Hw, Hin, Hre. simpl in *.
  split; [done|]. split; [|done]. unfold loop_inv. rewrite Hw.
  split; [done|]. split; [done|]. split; [done|]. split; [done|].
  split; [intros x Hx; apply Hsc, Hin, Hx|].
  destruct Hk as [Hk|[Hk|(-> & e & ->)]]; [left; by apply Hsub|by right|left; by eapply Hre].
Qed.
(** *** Running to idle *)

Lemma queue_length ls : loop_inv k P tsvc tsts ls -> length (ls_queue ls) <= 2.
Proof.
  intros (_ & _ & _ & Hnd & Hsc & _).
  change 2 with (length [k; childKey P]). apply submseteq_length, NoDup_submseteq; [done|].
  intros x Hx. destruct (Hsc x Hx) as [->|[-> _]]; set_solver.
Qed.

Lemma inv_budget ls m : loop_inv k P tsvc tsts ls -> 4 <= m -> budget k P tsvc tsts ls m.
Proof. intros Hinv Hm. pose proof (queue_length ls Hinv). split; [lia|right; lia]. Qed.

Lemma idle_done ls :
  loop_inv k P tsvc tsts ls -> ls_queue ls = [] -> parent_done k P tsvc tsts (w_store (ls_world ls)).
Proof.
  intros (_ & _ & _ & _ & _ & [Hk|Hd]) Hq; [|done]. rewrite Hq in Hk. by apply not_elem_of_nil in Hk.
Qed.

(** Once the oracle is exhausted, every request uses up the budget. *)
Lemma handler_free_step ls req q m :
  loop_inv k P tsvc tsts ls -> ls_queue ls = req :: q -> w_faults (ls_world ls) = [] ->
  budget k P tsvc tsts ls (S m) ->
  budget k P tsvc tsts (fst (reconcileHandler ServiceController req q (ls_world ls))) m.
Proof.
  intros Hinv Hq Hf [Hl Hb]. rewrite Hq in Hl, Hb. simpl in Hl, Hb.
  destruct (handler_step ls req q Hinv Hq) as (_ & Hinv' & Hw).
  pose proof Hinv as (Hpr & Ho & _ & _ & Hsc & _). rewrite Hq in Hsc.
  assert (forall w', Reconcile req (ls_world ls) = (Ok tt, w') -> w_store w' = w_store (ls_world ls) ->
            budget k P tsvc tsts (fst (reconcileHandler ServiceController req q (ls_world ls))) m)
    as Hsame.
  { intros w' Hr Hs. destruct (handler_queue_same ServiceController req q _ w' Hr Hs) as [Hq' Hw'].
    unfold budget. rewrite Hq', Hw'.
    split; [lia|]. rewrite Hs. destruct Hb as [Hb|Hb]; [by left|right; lia]. }
  destruct (Hsc req ltac:(by apply elem_of_cons; left)) as [->|[-> [c Hc]]].
  - destruct Hb as [Hd|Hb].
    + destruct (Reconcile_done_noop (ls_world ls) Hpr Hf Hd) as (w' & Hr & Hs & _).
      exact (Hsame w' Hr Hs).
    + destruct (Reconcile_free_done (ls_world ls) Hpr Hf) as (w' & Hr & Hd).
      pose proof (queue_length _ Hinv') as Hl'.
      split; [lia|left]. rewrite Hw, Hr. exact Hd.
  - exact (Hsame _ (Reconcile_quiet_free _ _ c Hf Hc (proj1 (proj1 (proj2 Ho) c Hc))) eq_refl).
Qed.

(** Every request consumes an entry of the oracle while it lasts; then at
    most four requests remain. *)
Lemma run_settles n ls :
  loop_inv k P tsvc tsts ls -> length (w_faults (ls_world ls)) <= n ->
  exists ls', run ServiceController (n + 4) ls = (Idle, ls') /\
              parent_done k P tsvc tsts (w_store (ls_world ls')).
Proof.
  apply (run_drain ServiceController (loop_inv k P tsvc tsts)
           (fun ls => parent_done k P tsvc tsts (w_store (ls_world ls))) (budget k P tsvc tsts) 4).
  - exact handler_step.
  - exact handler_free_step.
  - intros ls0 [Hl _]. apply nil_length_inv. lia.
  - exact inv_budget.
  - exact idle_done.
Qed.
End Passes.

(** The invariant holds when the worker starts on an enabled parent with
    its request queued. *)
Lemma loop_inv_intro w P tsvc tsts q :
  store_wf (w_store w) -> st_services (w_store w) !! obj_key P = Some P ->
  reconcile_disabled P = false -> w_files w = mkFiles (Some tsvc) (Some tsts) ->
  api_faults w -> objs_ok (obj_key P) (childKey P) (w_store w) ->
  (forall c, st_services (w_store w) !! childKey P = Some c -> is_Some (om_labels (svc_meta c))) ->
  (forall c, st_statefulsets (w_store w) !! childKey P = Some c ->
             is_Some (om_labels (sts_meta c))) ->
  NoDup q -> obj_key P ∈ q ->
  (forall r, r ∈ q -> in_scope (obj_key P) (childKey P) (w_store w) r) ->
  loop_inv (obj_key P) P tsvc tsts (mkLState w q).
Proof.
  intros Hwf HP Hen HF Hf Ho Hl1 Hl2 Hnd Hk Hsc.
  split; [split; [done|]; split; [done|]; split; [|by split]|].
  { exists P. split; [done|]. apply compat_refl. by apply reconcile_disabled_false. }
  do 4 (split; [done|]). by left.
Qed.

(** ** Properties *)

(** C5: the running controller settles.  Start the worker of the
    controller [New] registers with the parent's request queued: an
    enabled parent with usable templates and a UID of eight bytes or more,
    no controller reference on the parent or on the objects at its child
    key, a disabled Service (if any) at the child key, and an oracle that
    fails any API calls with status errors.  Within [length faults + 4]
    requests the worker is idle: it never crashes, the queue drains, and
    the parent carries the finalizer while both children serve it. *)
Theorem controller_settles w P tsvc tsts :
  store_wf (w_store w) -> st_services (w_store w) !! obj_key P = Some P ->
  reconcile_disabled P = false -> w_files w = mkFiles (Some tsvc) (Some tsts) ->
  svc_template_ok tsvc = true -> sts_template_ok tsts = true ->
  8 <= String.length (om_uid (svc_meta P)) ->
  api_faults w -> objs_ok (obj_key P) (childKey P) (w_store w) ->
  (forall c, st_services (w_store w) !! childKey P = Some c -> is_Some (om_labels (svc_meta c))) ->
  (forall c, st_statefulsets (w_store w) !! childKey P = Some c ->
             is_Some (om_labels (sts_meta c))) ->
  exists ls', run ServiceController (length (w_faults w) + 4) (mkLState w [obj_key P]) = (Idle, ls') /\
    (exists P', st_services (w_store (ls_world ls')) !! obj_key P = Some P' /\
                finalizer ∈ om_finalizers (svc_meta P')) /\
    (exists cs, st_services (w_store (ls_world ls')) !! childKey P = Some cs /\
                child_service_ok P tsvc cs) /\
    (exists ss, st_statefulsets (w_store (ls_world ls')) !! childKey P = Some ss /\
                child_sts_ok P tsts ss).
Proof.
  intros Hwf HP Hen HF Hts Htst Hu Hf Ho Hl1 Hl2.
  assert (loop_inv (obj_key P) P tsvc tsts (mkLState w [obj_key P])) as Hinv.
  { apply loop_inv_intro; try done; [apply NoDup_singleton|by apply list_elem_of_singleton|].
    intros r ->%list_elem_of_singleton. by left. }
  destruct (run_settles (obj_key P) P tsvc tsts eq_refl Hen Hts Htst Hu (length (w_faults w)) _ Hinv)
    as (ls' & Hrun & (P' & cs & ss & d & HP' & _ & Hfin & _ & Hcs & _ & _ & Hcsok & Hss & _ & _ & Hssok));
    [done|].
  exists ls'. split; [done|]. split; [by exists P'|]. split; [by exists cs|]. by exists ss.
Qed.

Lemma controller_settles_witness :
  exists ls', run ServiceController (length (w_faults demo_loop_world) + 4)
                (mkLState demo_loop_world [obj_key demo_enabled]) = (Idle, ls') /\
    (exists P', st_services (w_store (ls_world ls')) !! obj_key demo_enabled = Some P' /\
                finalizer ∈ om_finalizers (svc_meta P')) /\
    (exists cs, st_services (w_store (ls_world ls')) !! childKey demo_enabled = Some cs /\
                child_service_ok demo_enabled sample_svc_template cs) /\
    (exists ss, st_statefulsets (w_store (ls_world ls')) !! childKey demo_enabled = Some ss /\
                child_sts_ok demo_enabled sample_sts_template ss).
Proof.
  apply controller_settles.
  - split; apply (bool_decide_unpack _); vm_compute; reflexivity.
  - reflexivity.
  - reflexivity.
  - reflexivity.
  - reflexivity.
  - reflexivity.
  - apply Nat.leb_le. reflexivity.
  - unfold api_faults. simpl. repeat constructor; intros e He p Hp; simplify_eq.
  - split; [|split; [|split]]; intros o Ho; vm_compute in Ho;
      first [discriminate | injection Ho as <-; reflexivity].
  - intros c Hc. vm_compute in Hc. discriminate.
  - intros c Hc. vm_compute in Hc. discriminate.
Defined.

End Settle.
