(* ===== verification/Teardown.v ===== *)
(** * Teardown in the running controller

    A Service that is disabled while it carries the finalizer goes through
    [handleDelete]: with the device-ID annotation its finalizer is removed
    by one accepted [Update] ([Reconcile_release]).  [tear_inv] is the
    state of the worker while it works on such a parent [P] at [k]: the
    queue holds at most [k], the Service at [k] is [P] up to its
    finalizers and resource version, the StatefulSets are untouched, and
    [k] is queued until the finalizer is gone.  With [Settle]'s [run_drain]
    the worker becomes idle within [length faults + 2] requests with the
    finalizer removed ([disable_releases]): the first accepted pass
    releases the parent, the pass its own update asks for writes nothing.
    When the parent is being deleted and the finalizer is its last one,
    the accepted [Update] deletes it, and the request its deletion queues
    fails with [NotFound] and is re-added forever ([deletion_spins]). *)

From S2P Require Import Spec2Rocq GoRuntime Objects Naming Store Controller Frame Watch Loop Faults Settle.

Module Teardown.
Import Naming Store Controller Frame Watch Loop Faults Settle.

(** The parent after the accepted [Update] of [handleDelete]. *)
Definition released (P' : Service) : Service :=
  with_system (om_uid (svc_meta P')) (om_deletion_timestamp (svc_meta P'))
    (S (om_resource_version (svc_meta P'))) (RemoveFinalizer P' finalizer).

(** The store after that [Update]: the API server deletes an object whose
    deletion was requested once its last finalizer is gone. *)
Definition release_store (k : Request) (P' : Service) (s : Store) : Store :=
  if finalised P' (RemoveFinalizer P' finalizer)
  then mkStore (delete k (st_services s)) (st_statefulsets s)
  else mkStore (<[k := released P']> (st_services s)) (st_statefulsets s).

(** [P'] is [P] as the teardown passes leave it: the same annotations,
    deletion timestamp and owner references. *)
Definition tear_same (P P' : Service) : Prop :=
  om_annotations (svc_meta P') = om_annotations (svc_meta P) /\
  om_deletion_timestamp (svc_meta P') = om_deletion_timestamp (svc_meta P) /\
  om_owner_references (svc_meta P') = om_owner_references (svc_meta P).

(** The parent at [k] is released: present, without the finalizer. *)
Definition tear_done (k : Request) (P : Service) (s : Store) : Prop :=
  exists P', st_services s !! k = Some P' /\ tear_same P P' /\ finalizer ∉ om_finalizers (svc_meta P').

(** The worker while it tears the disabled parent [P] at [k] down; [sts0]
    are the StatefulSets when it started. *)
Definition tear_inv (k : Request) (P : Service) (sts0 : gmap Request StatefulSet) (ls : LState)
  : Prop :=
  store_wf (w_store (ls_world ls)) /\ api_faults (ls_world ls) /\
  NoDup (ls_queue ls) /\ (forall r, r ∈ ls_queue ls -> r = k) /\
  st_statefulsets (w_store (ls_world ls)) = sts0 /\
  exists P', st_services (w_store (ls_world ls)) !! k = Some P' /\ tear_same P P' /\
    (k ∈ ls_queue ls \/ finalizer ∉ om_finalizers (svc_meta P')).

(** The requests left once the oracle is exhausted: one more while the
    finalizer is still there. *)
Definition tear_budget (k : Request) (P : Service) (ls : LState) (m : nat) : Prop :=
  length (ls_queue ls) <= m /\
  (tear_done k P (w_store (ls_world ls)) \/ length (ls_queue ls) + 1 <= m).

(** A cluster for the witness: [default/web] with the enable annotation
    set to ["false"], the finalizer and a device ID, and an oracle that
    fails the first two API calls. *)
Definition demo_disabled : Service :=
  demo_parent (<[enableAnnotation := "false"]> {[deviceIDAnnotation := "n123"]}) None [finalizer].

(** [default/web] being deleted, with only our finalizer and a device ID. *)
Definition demo_deleted : Service :=
  demo_parent {[deviceIDAnnotation := "n123"]} (Some 7) [finalizer].

Definition demo_teardown_world : World :=
  world_with_faults [Some ErrConflict; Some ErrTransient; None] (demo_world demo_disabled).

(** ** Lemmas *)

Lemma RemoveFinalizer_not_in (P' : Service) : finalizer ∉ om_finalizers (svc_meta (RemoveFinalizer P' finalizer)).
Proof. simpl. intros (Hne & _)%list_elem_of_filter. by apply Hne. Qed.

(** Removing a finalizer the object carries is never a no-op. *)
Lemma RemoveFinalizer_changes (P' : Service) :
  finalizer ∈ om_finalizers (svc_meta P') ->
  semantic_deep_equal (RemoveFinalizer P' finalizer) P' = false.
Proof.
  intros Hf. apply bool_decide_eq_false. intros Heq.
  apply (f_equal (fun o => om_finalizers (svc_meta o))) in Heq. simpl in Heq.
  apply (RemoveFinalizer_not_in P'). simpl. by rewrite Heq.
Qed.

(** An [Update] that changes the stored object either fails with an
    error the oracle injected, writing nothing, or writes it (deleting it
    when it is finalised). *)
Lemma client_update_changed {T} `{EqDecision T} `{object T} `{Stored T} (o cur : T) w r w' :
  tbl (w_store w) !! obj_key o = Some cur ->
  om_resource_version (obj_meta o) = om_resource_version (obj_meta cur) ->
  semantic_deep_equal o cur = false ->
  client_update o w = (r, w') ->
  (exists e, r = Err e /\ Some e ∈ w_faults w /\ w_store w' = w_store w) \/
  (is_ok r = true /\
   w_store w' = tbl_put (if finalised cur o then delete (obj_key o) (tbl (w_store w))
                         else <[obj_key o := with_system (om_uid (obj_meta cur))
                                  (om_deletion_timestamp (obj_meta cur))
                                  (S (om_resource_version (obj_meta cur))) o]> (tbl (w_store w)))
                        (w_store w)).
Proof.
  intros Hk Hrv Hne. unfold client_update, sbind, api_call, store_lookup.
  destruct (w_faults w) as [|[e|] fs] eqn:Hf; cbn -[tbl tbl_put obj_key];
    [| intros [= <- <-]; left; exists e; split; [done|]; split; [by left|done] |];
    rewrite Hk, decide_True, Hne by done; destruct (finalised cur o); cbn -[tbl tbl_put obj_key];
    intros [= <- <-]; right; done.
Qed.

(** A [Get] of a present object fails only with an injected error. *)
Lemma client_get_present_err {T} `{EqDecision T} `{object T} `{Stored T} k w (o : T) e w1 :
  tbl (w_store w) !! k = Some o -> client_get k w = (Err e, w1) -> Some e ∈ w_faults w.
Proof.
  intros Hk. unfold client_get, sbind, api_call, store_lookup.
  destruct (w_faults w) as [|[e'|] fs]; cbn -[tbl]; rewrite ?Hk;
    intros [=]; subst; by left.
Qed.

(** The pass for a disabled parent with the finalizer and the device-ID
    annotation: it fails with an error the oracle injected, writing
    nothing, or removes the finalizer. *)
Lemma Reconcile_release w k P' :
  st_services (w_store w) !! k = Some P' -> obj_key P' = k -> reconcile_disabled P' = true ->
  finalizer ∈ om_finalizers (svc_meta P') ->
  is_Some (gomap_get (om_annotations (svc_meta P')) deviceIDAnnotation) ->
  w_files (snd (Reconcile k w)) = w_files w /\
  ((exists e, fst (Reconcile k w) = Err e /\ Some e ∈ w_faults w /\
              w_store (snd (Reconcile k w)) = w_store w) \/
   (fst (Reconcile k w) = Ok tt /\ w_store (snd (Reconcile k w)) = release_store k P' (w_store w))).
Proof.
  intros HP Hk Hd Hf [dID HdID].
  unfold Reconcile, sbind.
  destruct (client_get_frame (T:=Service) k w) as [Hs1 Hfi1].
  pose proof (client_get_suffix (T:=Service) k w) as [l Hl].
  pose proof (client_get_present_err (T:=Service) k w P') as He1.
  destruct (client_get k w) as [[P''|e] w1] eqn:Hg; simpl in *;
    [|split; [done|left]; exists e; split; [done|]; split; [by eapply He1|done]].
  apply client_get_inv in Hg as (HP'' & _). simpl in HP''. rewrite HP in HP''. injection HP'' as <-.
  rewrite Hd. unfold handleDelete.
  rewrite (proj2 (ContainsFinalizer_spec P' finalizer) ltac:(exact Hf)), HdID. unfold sbind.
  assert (tbl (w_store w1) !! obj_key (RemoveFinalizer P' finalizer) = Some P') as HP1
    by (rewrite RemoveFinalizer_key, Hk, Hs1; exact HP).
  destruct (client_update (RemoveFinalizer P' finalizer) w1) as [r2 w2] eqn:Hu.
  pose proof (client_update_outcome _ _ _ _ Hu) as [Hfi2 _].
  apply (client_update_changed _ P' w1) in Hu as [(e & -> & He & Hs2)|(Hok & Hs2)];
    [| |exact HP1|reflexivity|by apply RemoveFinalizer_changes].
  - simpl. split; [congruence|left]. exists e. split; [done|]. split; [|congruence].
    rewrite Hl. apply elem_of_app. by right.
  - destruct r2 as [x|e]; [|done]. simpl. split; [congruence|right]. split; [done|].
    rewrite Hs2, RemoveFinalizer_key, Hk, Hs1. unfold release_store, released.
    by destruct (finalised P' _).
Qed.

Lemma tear_same_released P P' : tear_same P P' -> tear_same P (released P').
Proof. intros (Ha & Hd & Ho). by repeat split. Qed.

Lemma uncontrolled_same P P' : tear_same P P' -> uncontrolled (svc_meta P) -> uncontrolled (svc_meta P').
Proof. intros (_ & _ & Ho). unfold uncontrolled, GetControllerOf. by rewrite Ho. Qed.

(** A parent that is not being deleted is written back, not deleted. *)
Lemma release_store_live k P' s :
  om_deletion_timestamp (svc_meta P') = None ->
  release_store k P' s = mkStore (<[k := released P']> (st_services s)) (st_statefulsets s).
Proof.
  intros Hd. unfold release_store, finalised. rewrite bool_decide_eq_false_2; [done|].
  simpl. rewrite Hd. intros [[? ?] _]. discriminate.
Qed.

Lemma reconcile_disabled_deleting P :
  is_Some (om_deletion_timestamp (svc_meta P)) -> reconcile_disabled P = true.
Proof.
  intros Hd. unfold reconcile_disabled. destruct (gomap_get _ _); [|done].
  rewrite (bool_decide_eq_true_2 _ Hd). apply orb_true_r.
Qed.

(** A parent being deleted whose last finalizer is ours is deleted by the
    accepted [Update]. *)
Lemma release_store_deleted k P' s :
  is_Some (om_deletion_timestamp (svc_meta P')) -> om_finalizers (svc_meta P') = [finalizer] ->
  release_store k P' s = mkStore (delete k (st_services s)) (st_statefulsets s).
Proof.
  intros Hd Hf. unfold release_store, finalised. rewrite bool_decide_eq_true_2; [done|].
  split; [exact Hd|]. simpl. by rewrite Hf.
Qed.

(** *** The requests of the worker during teardown *)

Section TearSteps.
Context (k : Request) (P : Service) (sts0 : gmap Request StatefulSet).
Hypothesis Hdis : reconcile_disabled P = true.
Hypothesis HdID : is_Some (gomap_get (om_annotations (svc_meta P)) deviceIDAnnotation).
Hypothesis Hunc : uncontrolled (svc_meta P).
Hypothesis Hlive : om_deletion_timestamp (svc_meta P) = None.

Lemma tear_same_facts P' :
  tear_same P P' -> reconcile_disabled P' = true /\
  is_Some (gomap_get (om_annotations (svc_meta P')) deviceIDAnnotation) /\
  om_deletion_timestamp (svc_meta P') = None.
Proof.
  intros (Ha & Hd & _). rewrite (reconcile_disabled_ext P P' Ha Hd), Ha, Hd. done.
Qed.

(** The pass for [k]: it never panics, and it writes nothing (the
    finalizer is gone already, or an injected error stopped it) or writes
    the released parent back. *)
Lemma tear_pass w P' :
  store_wf (w_store w) -> api_faults w -> st_services (w_store w) !! k = Some P' -> tear_same P P' ->
  (forall e, fst (Reconcile k w) = Err e -> not_panic e) /\
  ((w_store (snd (Reconcile k w)) = w_store w /\
    (finalizer ∉ om_finalizers (svc_meta P') \/ exists e, fst (Reconcile k w) = Err e)) \/
   w_store (snd (Reconcile k w)) =
     mkStore (<[k := released P']> (st_services (w_store w))) (st_statefulsets (w_store w))).
Proof.
  intros Hwf Hf HP' Hs.
  pose proof (proj1 (proj1 Hwf _ _ HP')) as Hk'.
  destruct (tear_same_facts P' Hs) as (Hd' & HdID' & Hl').
  destruct (decide (finalizer ∈ om_finalizers (svc_meta P'))) as [Hin|Hnin].
  - destruct (Reconcile_release w k P' HP' Hk' Hd' Hin HdID') as [_ [(e & Hr & He & Hst)|(Hr & Hst)]];
      rewrite Hr.
    + split; [intros e' [= <-]; eapply api_error_not_panic; [exact Hf|by do 4 right]|].
      left. split; [done|right; by eexists].
    + split; [done|]. right. rewrite Hst. by apply release_store_live.
  - destruct (Reconcile_quiet w k) as (Hst & _ & He).
    { intros c Hc. rewrite HP' in Hc. injection Hc as <-. split; [done|left].
      apply not_true_iff_false. by rewrite (ContainsFinalizer_spec P' finalizer). }
    split; [intros e Hr; by eapply api_error_not_panic, He|]. left. by split; [|left].
Qed.

Lemma tear_queue ls : tear_inv k P sts0 ls -> length (ls_queue ls) <= 1.
Proof.
  intros (_ & _ & Hnd & Hsc & _).
  change 1 with (length [k]). apply submseteq_length, NoDup_submseteq; [done|].
  intros x Hx. rewrite (Hsc x Hx). set_solver.
Qed.

(** One request of the worker keeps the teardown invariant and never
    crashes. *)
Lemma tear_step ls req q :
  tear_inv k P sts0 ls -> ls_queue ls = req :: q ->
  snd (reconcileHandler ServiceController req q (ls_world ls)) = None /\
  tear_inv k P sts0 (fst (reconcileHandler ServiceController req q (ls_world ls))) /\
  ls_world (fst (reconcileHandler ServiceController req q (ls_world ls))) =
    snd (Reconcile req (ls_world ls)).
Proof.
  intros (Hwf & Hf & Hnd & Hsc & Hsts & P' & HP' & Hs & _) Hq. rewrite Hq in Hnd, Hsc.
  assert (req = k) as -> by (apply Hsc; by left).
  apply NoDup_cons in Hnd as [_ Hnd].
  pose proof (reconcileHandler_NoDup ServiceController k q (ls_world ls) Hnd) as Hnd'.
  pose proof (proj1 (Reconcile_frame_rel (ls_world ls) k Hwf) Hwf) as Hwf'.
  pose proof (api_faults_suffix _ _ (Reconcile_within faults_suffix k (ls_world ls)) Hf) as Hf'.
  pose proof (proj1 (proj1 Hwf _ _ HP')) as Hk'.
  destruct (tear_pass (ls_world ls) P' Hwf Hf HP' Hs) as [Hnp Hp].
  destruct (reconcileHandler_spec ServiceController k q (ls_world ls) Hnp)
    as (Hn & Hw & Hin & _ & Hre).
  split; [done|]. split; [|done]. unfold tear_inv. rewrite Hw.
  do 3 (split; [done|]).
  destruct Hp as [[Hst Hfin]|Hst].
  - split.
    { intros x Hx. destruct (Hin x Hx) as [Hx'|[Hx'| ->]]; [apply Hsc; by right| |done].
      rewrite Hst, change_requests_same in Hx'. by apply not_elem_of_nil in Hx'. }
    rewrite Hst. split; [done|]. exists P'. split; [done|]. split; [done|].
    destruct Hfin as [Hfin|(e & He)]; [by right|left; by eapply Hre].
  - assert (forall o, st_services (w_store (ls_world ls)) !! k = Some o \/
                      st_services (w_store (snd (Reconcile k (ls_world ls)))) !! k = Some o ->
                      uncontrolled (svc_meta o) /\ obj_key o = k) as Ho.
    { rewrite Hst. simpl. rewrite lookup_insert_eq. intros o [Ho|[= <-]].
      - rewrite HP' in Ho. injection Ho as <-. split; [by apply (uncontrolled_same P)|done].
      - split; [exact (uncontrolled_same P _ (tear_same_released P P' Hs) Hunc)|].
        unfold released. by rewrite with_system_key, RemoveFinalizer_key. }
    split.
    { intros x Hx. destruct (Hin x Hx) as [Hx'|[Hx'| ->]]; [apply Hsc; by right| |done].
      refine (change_requests_at k _ _ x _ _ Ho Hx'); [|by rewrite Hst].
      intros y Hy. rewrite Hst. simpl. by rewrite lookup_insert_ne by congruence. }
    rewrite Hst. split; [done|]. exists (released P'). simpl. rewrite lookup_insert_eq.
    split; [done|]. split; [by apply tear_same_released|right].
    exact (RemoveFinalizer_not_in P').
Qed.

Lemma tear_idle ls :
  tear_inv k P sts0 ls -> ls_queue ls = [] ->
  tear_done k P (w_store (ls_world ls)) /\ st_statefulsets (w_store (ls_world ls)) = sts0.
Proof.
  intros (_ & _ & _ & _ & Hsts & P' & HP' & Hs & [Hk|Hn]) Hq;
    [rewrite Hq in Hk; by apply not_elem_of_nil in Hk|].
  split; [by exists P'|done].
Qed.

Lemma tear_inv_budget ls m : tear_inv k P sts0 ls -> 2 <= m -> tear_budget k P ls m.
Proof. intros Hinv Hm. pose proof (tear_queue ls Hinv). split; [lia|right; lia]. Qed.

(** Once the oracle is exhausted, every request uses up the budget: the
    first pass releases the parent, the one its own update asks for
    writes nothing. *)
Lemma tear_free_step ls req q m :
  tear_inv k P sts0 ls -> ls_queue ls = req :: q -> w_faults (ls_world ls) = [] ->
  tear_budget k P ls (S m) ->
  tear_budget k P (fst (reconcileHandler ServiceController req q (ls_world ls))) m.
Proof.
  intros Hinv Hq Hf [Hl Hb].
  destruct (tear_step ls req q Hinv Hq) as (_ & Hinv' & Hw).
  pose proof (tear_queue _ Hinv') as Hl'.
  pose proof Hinv as (Hwf & _ & _ & Hsc & _ & P' & HP' & Hs & _).
  rewrite Hq in Hsc, Hl, Hb. simpl in Hl, Hb.
  assert (req = k) as -> by (apply Hsc; by left).
  pose proof (proj1 (proj1 Hwf _ _ HP')) as Hk'.
  destruct (tear_same_facts P' Hs) as (Hd' & HdID' & Hl0).
  destruct (decide (finalizer ∈ om_finalizers (svc_meta P'))) as [Hin|Hnin].
  - destruct (Reconcile_release (ls_world ls) k P' HP' Hk' Hd' Hin HdID')
      as [_ [(e & _ & He & _)|(_ & Hst)]]; [rewrite Hf in He; by apply not_elem_of_nil in He|].
    destruct Hb as [(P'' & HP'' & _ & Hn)|Hb];
      [rewrite HP' in HP''; injection HP'' as <-; done|].
    split; [lia|left]. rewrite Hw, Hst, release_store_live by done.
    exists (released P'). simpl. rewrite lookup_insert_eq.
    split; [done|]. split; [by apply tear_same_released|exact (RemoveFinalizer_not_in P')].
  - assert (Reconcile k (ls_world ls) = (Ok tt, ls_world ls)) as Hr.
    { apply (Reconcile_quiet_free _ _ P' Hf HP'). split; [done|left].
      apply not_true_iff_false. by rewrite (ContainsFinalizer_spec P' finalizer). }
    destruct (handler_queue_same ServiceController k q _ _ Hr eq_refl) as [Hq' Hw'].
    unfold tear_budget. rewrite Hq', Hw'. split; [lia|left]. by exists P'.
Qed.

(** Every request consumes an entry of the oracle while it lasts; then at
    most two requests remain. *)
Lemma run_teardown n ls :
  tear_inv k P sts0 ls -> length (w_faults (ls_world ls)) <= n ->
  exists ls', run ServiceController (n + 2) ls = (Idle, ls') /\
    tear_done k P (w_store (ls_world ls')) /\ st_statefulsets (w_store (ls_world ls')) = sts0.
Proof.
  apply (run_drain ServiceController (tear_inv k P sts0)
           (fun ls => tear_done k P (w_store (ls_world ls)) /\
                      st_statefulsets (w_store (ls_world ls)) = sts0) (tear_budget k P) 2).
  - exact tear_step.
  - exact tear_free_step.
  - intros ls0 [Hl _]. apply nil_length_inv. lia.
  - exact tear_inv_budget.
  - exact tear_idle.
Qed.

End TearSteps.

(** ** Properties *)

(** C7: disabling a Service releases it.  Start the worker of [New]
    with the request of a parent that is disabled (its enable annotation
    is not "true") but not being deleted, and carries the device-ID
    annotation and no controller reference, in a well formed store and
    under an oracle that fails any API calls with status errors.  Within
    [length faults + 2] requests the worker is idle: it never crashes,
    the parent is still there without the finalizer, its annotations,
    deletion timestamp and owner references unchanged, and no StatefulSet
    was written. *)
Theorem disable_releases w P :
  store_wf (w_store w) -> st_services (w_store w) !! obj_key P = Some P ->
  reconcile_disabled P = true -> om_deletion_timestamp (svc_meta P) = None ->
  is_Some (gomap_get (om_annotations (svc_meta P)) deviceIDAnnotation) ->
  GetControllerOf (svc_meta P) = None -> api_faults w ->
  exists ls', run ServiceController (length (w_faults w) + 2) (mkLState w [obj_key P]) = (Idle, ls') /\
    tear_done (obj_key P) P (w_store (ls_world ls')) /\
    st_statefulsets (w_store (ls_world ls')) = st_statefulsets (w_store w).
Proof.
  intros Hwf HP Hdis Hlive HdID Hunc Hf.
  apply (run_teardown (obj_key P) P _ Hdis HdID Hunc Hlive); [|done].
  split; [done|]. split; [done|]. split; [apply NoDup_singleton|].
  split; [by intros r ->%list_elem_of_singleton|]. split; [done|].
  exists P. split; [done|]. split; [by repeat split|]. left. by apply list_elem_of_singleton.
Qed.

Lemma disable_releases_witness :
  exists ls', run ServiceController (length (w_faults demo_teardown_world) + 2)
                (mkLState demo_teardown_world [obj_key demo_disabled]) = (Idle, ls') /\
    tear_done (obj_key demo_disabled) demo_disabled (w_store (ls_world ls')) /\
    st_statefulsets (w_store (ls_world ls')) = st_statefulsets (w_store demo_teardown_world).
Proof.
  apply disable_releases.
  - split; apply (bool_decide_unpack _); vm_compute; reflexivity.
  - reflexivity.
  - vm_compute. reflexivity.
  - reflexivity.
  - exists "n123". vm_compute. reflexivity.
  - reflexivity.
  - unfold api_faults. simpl. repeat constructor; intros e He p Hp; simplify_eq.
Defined.

(** C8: a deleted parent is released, then its request spins.  In a
    fault-free world, start the worker of [New] with the request of a
    parent whose deletion was requested, whose only finalizer is ours and
    which has the device-ID annotation and no controller reference.  The
    first request removes the finalizer, so the API server deletes the
    parent and its watch asks for the key again; from then on every
    request fails with [NotFound] and is re-added: with any fuel the worker
    is still running on that one request, in the world the first request
    left, where the parent is gone. *)
Theorem deletion_spins w P :
  w_faults w = [] -> store_wf (w_store w) -> st_services (w_store w) !! obj_key P = Some P ->
  is_Some (om_deletion_timestamp (svc_meta P)) -> om_finalizers (svc_meta P) = [finalizer] ->
  is_Some (gomap_get (om_annotations (svc_meta P)) deviceIDAnnotation) ->
  GetControllerOf (svc_meta P) = None ->
  st_services (w_store (snd (Reconcile (obj_key P) w))) !! obj_key P = None /\
  forall n, run ServiceController (S n) (mkLState w [obj_key P]) =
            (Running, mkLState (snd (Reconcile (obj_key P) w)) [obj_key P]).
Proof.
  intros Hf Hwf HP Hd Hfin HdID Hunc.
  assert (finalizer ∈ om_finalizers (svc_meta P)) as Hin by (rewrite Hfin; by left).
  destruct (Reconcile_release w (obj_key P) P HP eq_refl (reconcile_disabled_deleting P Hd) Hin HdID)
    as [_ [(e & _ & He & _)|(Hr & Hst)]]; [rewrite Hf in He; by apply not_elem_of_nil in He|].
  rewrite release_store_deleted in Hst by done.
  pose proof (faults_suffix_nil _ _ (Reconcile_within faults_suffix (obj_key P) w) Hf) as Hf1.
  assert (st_services (w_store (snd (Reconcile (obj_key P) w))) !! obj_key P = None) as Hgone
    by (rewrite Hst; apply lookup_delete_eq).
  split; [exact Hgone|]. intros n.
  assert (forall o, st_services (w_store w) !! obj_key P = Some o \/
            st_services (w_store (snd (Reconcile (obj_key P) w))) !! obj_key P = Some o ->
            uncontrolled (svc_meta o) /\ obj_key o = obj_key P) as Ho.
  { rewrite Hgone, HP. intros o [[= <-]|?]; [done|discriminate]. }
  assert (wq_add_all [] (change_requests ServiceController (w_store w)
            (w_store (snd (Reconcile (obj_key P) w)))) = [obj_key P]) as Hq.
  { apply NoDup_only; [apply wq_add_all_NoDup, NoDup_nil_2| |].
    - intros x [Hx|Hx]%elem_of_wq_add_all; [|by apply not_elem_of_nil in Hx].
      refine (change_requests_at _ _ _ x _ _ Ho Hx); [|by rewrite Hst].
      intros y Hy. rewrite Hst. simpl. by rewrite lookup_delete_ne by congruence.
    - apply elem_of_wq_add_all. left. apply change_requests_complete; [by rewrite HP, Hgone|exact Ho]. }
  cbn [run ls_queue ls_world]. unfold reconcileHandler.
  destruct (Reconcile (obj_key P) w) as [r w1] eqn:HR. simpl in Hr, Hq, Hgone, Hf1. subst r.
  rewrite Hq. by apply run_missing_free.
Qed.

Lemma deletion_spins_witness :
  st_services (w_store (snd (Reconcile (obj_key demo_deleted) (demo_world demo_deleted))))
    !! obj_key demo_deleted = None /\
  forall n, run ServiceController (S n) (mkLState (demo_world demo_deleted) [obj_key demo_deleted]) =
            (Running, mkLState (snd (Reconcile (obj_key demo_deleted) (demo_world demo_deleted)))
                         [obj_key demo_deleted]).
Proof.
  apply deletion_spins.
  - reflexivity.
  - split; apply (bool_decide_unpack _); vm_compute; reflexivity.
  - reflexivity.
  - by eexists.
  - reflexivity.
  - exists "n123". vm_compute. reflexivity.
  - reflexivity.
Defined.

End Teardown.
