(* ===== verification/Template.v ===== *)
(** * The template store: [parseFile]

    [parseFile(fn, o)] of [tailscale.go] reads [fn] from the working
    directory with [ioutil.ReadFile] and decodes it into [o] with
    [yaml.Unmarshal]; each failure is returned as it is.  The working
    directory is a map [Dir] from file names to contents, and
    [yaml.Unmarshal] (a library the code only calls) is the class
    [Unmarshal]: the decoded object or the decoder's message.  [Store]'s
    [Files] holds what [parseFile] gives for [svc.yaml] and [sts.yaml]
    ([files_of]); [parseFile_svc_dir] shows that [Controller]'s
    [parseFile_svc] is [parseFile] on that view, with both errors reported
    as [ErrFile "svc.yaml"] (they differ only in the value [Reconcile]
    returns, which the worker does not inspect).

    [template_error_spins] composes the template store with the worker:
    when [svc.yaml] cannot be read or decoded, an enabled parent gets the
    finalizer, no child is written, and its request is re-added forever.
    [sts_template_error_partial]: when only [sts.yaml] fails, one pass
    writes the finalizer and the Service child, then returns the error
    before any StatefulSet is written. *)

From S2P Require Import Spec2Rocq GoRuntime Objects Naming Builder Store Controller Frame Watch Loop Faults Settle.

Module Template.
Import Naming Builder Store Controller Frame Watch Loop Faults Settle.

(** The working directory: the contents of each file. *)
Definition Dir : Type := gmap string string.

(** [yaml.Unmarshal] into an object of type [T]. *)
Class Unmarshal (T : Type) := yaml_unmarshal : string -> res string T.

(** The errors [parseFile] returns: [ReadFile]'s and [Unmarshal]'s. *)
Inductive parse_error : Type :=
| ReadFileError (fn : string)
| UnmarshalError (fn : string) (msg : string).

Section Parse.
Context {T : Type} `{Unmarshal T}.

(** [parseFile]: read, return the error; decode, return the error;
    return the decoded object. *)
Definition parseFile (d : Dir) (fn : string) : res parse_error T :=
  match d !! fn with
  | None => Err (ReadFileError fn)
  | Some b =>
      match yaml_unmarshal b with
      | Err msg => Err (UnmarshalError fn msg)
      | Ok o => Ok o
      end
  end.
End Parse.

Definition res_option {E A} (r : res E A) : option A :=
  match r with Ok a => Some a | Err _ => None end.

(** The templates a working directory gives. *)
Definition files_of `{Unmarshal Service} `{Unmarshal StatefulSet} (d : Dir) : Files :=
  mkFiles (res_option (parseFile (T:=Service) d "svc.yaml"))
          (res_option (parseFile (T:=StatefulSet) d "sts.yaml")).

(** Decoders for the witness: they accept one spelling of each template. *)
#[local] Instance demo_unmarshal_svc : Unmarshal Service :=
  fun b => if String.eqb b "kind: Service" then Ok sample_svc_template
           else Err "error converting YAML to JSON".

#[local] Instance demo_unmarshal_sts : Unmarshal StatefulSet :=
  fun b => if String.eqb b "kind: StatefulSet" then Ok sample_sts_template
           else Err "error converting YAML to JSON".

(** A working directory whose [svc.yaml] does not decode. *)
Definition demo_dir : Dir :=
  {[ "svc.yaml" := "kind: Servic"; "sts.yaml" := "kind: StatefulSet" ]}.

(** A working directory without [sts.yaml]. *)
Definition demo_dir_no_sts : Dir := {[ "svc.yaml" := "kind: Service" ]}.

Definition demo_no_sts_world : World :=
  mkWorld (mkStore {[("default", "web") := demo_enabled]} ∅) (files_of demo_dir_no_sts) [] [].

Definition demo_template_world : World :=
  mkWorld (mkStore {[("default", "web") := demo_enabled]} ∅) (files_of demo_dir) [] [].

(** ** Lemmas *)

Lemma parseFile_svc_dir `{Unmarshal Service} `{Unmarshal StatefulSet} d w :
  w_files w = files_of d ->
  parseFile_svc w =
    (match parseFile (T:=Service) d "svc.yaml" with
     | Ok t => Ok t | Err _ => Err (ErrFile "svc.yaml") end, w).
Proof.
  intros Hf. unfold parseFile_svc. rewrite Hf. simpl.
  by destruct (parseFile (T:=Service) d "svc.yaml").
Qed.

Lemma parseFile_svc_none w :
  file_svc_yaml (w_files w) = None -> parseFile_svc w = (Err (ErrFile "svc.yaml"), w).
Proof. intros Hn. unfold parseFile_svc. by rewrite Hn. Qed.

Section Spin.
Context (k : Request).

(** A fault-free pass of an enabled parent when [svc.yaml] fails: the
    finalizer [Update] is accepted, then [reconcileService] returns the
    error before any child is written. *)
Lemma Reconcile_svc_error w P :
  w_faults w = [] -> store_wf (w_store w) -> st_services (w_store w) !! k = Some P ->
  reconcile_disabled P = false -> file_svc_yaml (w_files w) = None ->
  exists P' w1, Reconcile k w = (Err (ErrFile "svc.yaml"), w1) /\
    finalizer ∈ om_finalizers (svc_meta P') /\ reconcile_disabled P' = false /\
    w_store w1 = mkStore (<[k:=P']> (st_services (w_store w))) (st_statefulsets (w_store w)) /\
    w_files w1 = w_files w /\ w_faults w1 = [] /\
    (finalizer ∈ om_finalizers (svc_meta P) -> P' = P) /\
    obj_key P' = obj_key P /\ GetControllerOf (svc_meta P') = GetControllerOf (svc_meta P).
Proof.
  intros Hf Hwf HP Hen Hnone.
  destruct (proj1 Hwf _ _ HP) as [Hk _].
  destruct (update_add_finalizer w k P Hf Hwf HP (reconcile_disabled_false P Hen))
    as (P' & w1 & Hu & Hin & (Hn & Hns & _) & Hd' & Hs1 & Hfi1 & Hf1 & _ & Ha & _ & Hor).
  exists P', w1.
  assert (Reconcile k w = (Err (ErrFile "svc.yaml"), w1)) as Hr.
  { unfold Reconcile, sbind. rewrite (client_get_found (T:=Service) w k P Hf ltac:(exact HP)), Hen, Hu.
    unfold deployTailscale, reconcileService, sbind. rewrite parseFile_svc_none by congruence. done. }
  split; [done|]. split; [done|].
  split; [rewrite (reconcile_disabled_ext P P' Ha); [done|by rewrite Hd', (reconcile_disabled_false P Hen)]|].
  do 3 (split; [done|]). split.
  - intros Hc. rewrite <- Hk in HP.
    rewrite AddFinalizer_present, (client_update_noop _ P P) in Hu
      by (try done; by apply ContainsFinalizer_spec || apply bool_decide_eq_true).
    by injection Hu as <-.
  - split; [|unfold GetControllerOf; by rewrite Hor].
    change (obj_key P') with (om_namespace (svc_meta P'), om_name (svc_meta P')). by rewrite Hn, Hns.
Qed.

(** Once the parent carries the finalizer, every fault-free request
    fails the same way, writes nothing and is re-added alone. *)
Lemma run_svc_error n w P :
  w_faults w = [] -> store_wf (w_store w) -> st_services (w_store w) !! k = Some P ->
  reconcile_disabled P = false -> file_svc_yaml (w_files w) = None ->
  finalizer ∈ om_finalizers (svc_meta P) ->
  exists ls', run ServiceController n (mkLState w [k]) = (Running, ls') /\
    ls_queue ls' = [k] /\ w_store (ls_world ls') = w_store w.
Proof.
  revert w. induction n as [|n IH]; intros w Hf Hwf HP Hen Hnone Hin;
    [by exists (mkLState w [k])|].
  destruct (Reconcile_svc_error w P Hf Hwf HP Hen Hnone) as (P' & w1 & Hr & _ & _ & Hs1 & Hfi1 & Hf1 & HPP & _).
  rewrite (HPP Hin), insert_id in Hs1 by done.
  assert (w_store w1 = w_store w) as Hs by (rewrite Hs1; by destruct (w_store w)).
  cbn [run ls_queue ls_world]. unfold reconcileHandler. rewrite Hr. simpl.
  rewrite Hs, change_requests_same. simpl.
  destruct (IH w1) as (ls' & Hrun & Hq & Hs'); [done|by rewrite Hs|by rewrite Hs|done|congruence|done|].
  exists ls'. split; [done|]. split; [done|]. by rewrite Hs', Hs.
Qed.
End Spin.

(** ** Properties *)

(** C9: a template that cannot be read or decoded keeps the worker busy
    forever.  In a fault-free world whose working directory has a
    [svc.yaml] that [ioutil.ReadFile] cannot read or [yaml.Unmarshal]
    cannot decode, start the worker of [New] with the request of an
    enabled parent without controller reference.  The first pass writes
    the finalizer on the parent, writes no child and returns the error of
    [parseFile]; from then on every request fails the same way and is
    re-added: with any fuel the worker is still running on that one
    request, with the store the first pass left. *)
Theorem template_error_spins `{Unmarshal Service} `{Unmarshal StatefulSet} d pe w P :
  w_faults w = [] -> store_wf (w_store w) -> st_services (w_store w) !! obj_key P = Some P ->
  reconcile_disabled P = false -> GetControllerOf (svc_meta P) = None ->
  w_files w = files_of d -> parseFile (T:=Service) d "svc.yaml" = Err pe ->
  fst (Reconcile (obj_key P) w) = Err (ErrFile "svc.yaml") /\
  (exists P', st_services (w_store (snd (Reconcile (obj_key P) w))) =
                <[obj_key P := P']> (st_services (w_store w)) /\
              finalizer ∈ om_finalizers (svc_meta P')) /\
  st_statefulsets (w_store (snd (Reconcile (obj_key P) w))) = st_statefulsets (w_store w) /\
  forall n, exists ls', run ServiceController (S n) (mkLState w [obj_key P]) = (Running, ls') /\
    ls_queue ls' = [obj_key P] /\ w_store (ls_world ls') = w_store (snd (Reconcile (obj_key P) w)).
Proof.
  intros Hf Hwf HP Hen Hunc HF Hpe.
  assert (file_svc_yaml (w_files w) = None) as Hnone by (rewrite HF; simpl; by rewrite Hpe).
  destruct (Reconcile_svc_error (obj_key P) w P Hf Hwf HP Hen Hnone)
    as (P' & w1 & Hr & Hin & Hen' & Hs1 & Hfi1 & Hf1 & _ & HkP' & HcP').
  pose proof (proj1 (Reconcile_frame_rel w (obj_key P) Hwf) Hwf) as Hwf1.
  rewrite Hr in Hwf1 |- *. simpl in *. split; [done|]. split; [exists P'; by rewrite Hs1|].
  split; [by rewrite Hs1|]. intros n.
  assert (st_services (w_store w1) !! obj_key P = Some P') as HP1
    by (rewrite Hs1; apply lookup_insert_eq).
  assert (forall x, x ∈ change_requests ServiceController (w_store w) (w_store w1) -> x = obj_key P)
    as Hsub.
  { intros x Hx. refine (change_requests_at _ _ _ x _ _ _ Hx).
    - intros y Hy. rewrite Hs1. simpl. by rewrite lookup_insert_ne by congruence.
    - by rewrite Hs1.
    - rewrite HP, HP1. intros o [[= <-]|[= <-]]; [done|]. by rewrite HcP'. }
  cbn [run ls_queue ls_world]. unfold reconcileHandler. rewrite Hr. simpl.
  rewrite wq_add_single;
    [|apply wq_add_all_NoDup, NoDup_nil_2
     |intros x [Hx|Hx]%elem_of_wq_add_all; [by apply Hsub|by apply not_elem_of_nil in Hx]].
  destruct (run_svc_error (obj_key P) n w1 P') as (ls' & Hrun & Hq & Hs); try done;
    [by rewrite Hfi1|].
  by exists ls'.
Qed.

Lemma template_error_spins_witness :
  fst (Reconcile (obj_key demo_enabled) demo_template_world) = Err (ErrFile "svc.yaml") /\
  (exists P', st_services (w_store (snd (Reconcile (obj_key demo_enabled) demo_template_world))) =
                <[obj_key demo_enabled := P']> (st_services (w_store demo_template_world)) /\
              finalizer ∈ om_finalizers (svc_meta P')) /\
  st_statefulsets (w_store (snd (Reconcile (obj_key demo_enabled) demo_template_world))) =
    st_statefulsets (w_store demo_template_world) /\
  forall n, exists ls', run ServiceController (S n)
                          (mkLState demo_template_world [obj_key demo_enabled]) = (Running, ls') /\
    ls_queue ls' = [obj_key demo_enabled] /\
    w_store (ls_world ls') = w_store (snd (Reconcile (obj_key demo_enabled) demo_template_world)).
Proof.
  apply (template_error_spins demo_dir (UnmarshalError "svc.yaml" "error converting YAML to JSON")).
  - reflexivity.
  - split; apply (bool_decide_unpack _); vm_compute; reflexivity.
  - reflexivity.
  - reflexivity.
  - reflexivity.
  - reflexivity.
  - vm_compute. reflexivity.
Defined.

(** C10: a failing [sts.yaml] leaves the parent half provisioned.  In a
    fault-free world whose working directory has a usable [svc.yaml] but a
    [sts.yaml] that [ioutil.ReadFile] cannot read or [yaml.Unmarshal]
    cannot decode, one pass of an enabled parent (whose existing child
    Service, if any, has labels) writes the finalizer on the parent and
    the Service child serving it, in that order, then returns the error
    of [parseFile("sts.yaml", ...)] without writing any StatefulSet:
    [deployTailscale] reconciles the Service child before it reads the
    StatefulSet template. *)
Theorem sts_template_error_partial `{Unmarshal Service} `{Unmarshal StatefulSet} d pe tsvc w P :
  w_faults w = [] -> store_wf (w_store w) -> st_services (w_store w) !! obj_key P = Some P ->
  reconcile_disabled P = false -> w_files w = files_of d ->
  parseFile (T:=Service) d "svc.yaml" = Ok tsvc -> svc_template_ok tsvc = true ->
  parseFile (T:=StatefulSet) d "sts.yaml" = Err pe ->
  (forall c, st_services (w_store w) !! childKey P = Some c -> is_Some (om_labels (svc_meta c))) ->
  exists P' cs w', Reconcile (obj_key P) w = (Err (ErrFile "sts.yaml"), w') /\
    st_services (w_store w') = <[childKey P := cs]> (<[obj_key P := P']> (st_services (w_store w))) /\
    finalizer ∈ om_finalizers (svc_meta P') /\ child_service_ok P tsvc cs /\
    st_statefulsets (w_store w') = st_statefulsets (w_store w).
Proof.
  intros Hf Hwf HP Hen HF Hsvc Hts Hsts Hl1.
  assert (file_svc_yaml (w_files w) = Some tsvc) as Hfs by (rewrite HF; simpl; by rewrite Hsvc).
  assert (file_sts_yaml (w_files w) = None) as Hfst by (rewrite HF; simpl; by rewrite Hsts).
  set (k := obj_key P) in *.
  assert (childKey P <> k) as Hck by (subst k; eauto with ctrl).
  destruct (update_add_finalizer w k P)
    as (P' & w1 & Hup & Hfin & Hid & Hd' & Hs1 & Hfi1 & Hfa1 & _); try done;
    [by apply reconcile_disabled_false|].
  pose proof (same_identity_childKey _ _ Hid) as HcK.
  assert (store_wf (w_store w1)) as Hwf1.
  { rewrite Hs1. split; [|apply Hwf]. simpl. apply tbl_wf_insert; [apply Hwf| |].
    - subst k. destruct Hid as (Hn & Hns & _).
      change (obj_key P') with (om_namespace (svc_meta P'), om_name (svc_meta P')). by rewrite Hn, Hns.
    - simpl. by rewrite Hd'; intros []. }
  destruct (reconcileService_post P' tsvc w1)
    as (cs & w2 & Hrs & Hcs & _ & _ & Hs2 & Hfi2 & _ & _); [done|done|congruence|done| |].
  { intros c. rewrite Hs1. simpl. rewrite HcK, lookup_insert_ne by done. apply Hl1. }
  exists P', cs, w2. split.
  { unfold Reconcile, sbind. rewrite (client_get_found (T:=Service) w k P Hf ltac:(exact HP)), Hen, Hup.
    unfold deployTailscale, sbind. rewrite Hrs.
    unfold reconcileStatefulSet, sbind, parseFile_sts. by rewrite Hfi2, Hfi1, Hfst. }
  rewrite Hs2, Hs1, HcK. simpl. split; [done|]. split; [done|].
  split; [by apply (same_identity_child_service_ok _ P')|done].
Qed.

Lemma sts_template_error_partial_witness :
  exists P' cs w', Reconcile (obj_key demo_enabled) demo_no_sts_world = (Err (ErrFile "sts.yaml"), w') /\
    st_services (w_store w') = <[childKey demo_enabled := cs]>
      (<[obj_key demo_enabled := P']> (st_services (w_store demo_no_sts_world))) /\
    finalizer ∈ om_finalizers (svc_meta P') /\ child_service_ok demo_enabled sample_svc_template cs /\
    st_statefulsets (w_store w') = st_statefulsets (w_store demo_no_sts_world).
Proof.
  apply (sts_template_error_partial demo_dir_no_sts (ReadFileError "sts.yaml")).
  - reflexivity.
  - split; apply (bool_decide_unpack _); vm_compute; reflexivity.
  - reflexivity.
  - reflexivity.
  - reflexivity.
  - vm_compute. reflexivity.
  - reflexivity.
  - vm_compute. reflexivity.
  - intros c Hc. vm_compute in Hc. discriminate.
Defined.

End Template.
