(* ===== verification/Collision.v ===== *)
(** * Child names collide with the names of other Services

    The child of a parent named [n] is [n-tailscale] in the parent's
    namespace ([childName]).  Names are unique per namespace, but nothing
    keeps a user from naming a Service [n-tailscale]: the pass of [n] then
    fetches that Service in [createOrUpdate] and updates it in place.
    [ident_kept] is what such a pass keeps of the object at the child key:
    the store stays well formed and the object there keeps its UID,
    annotations and finalizers; the parent's pass keeps it whatever the
    API returns ([Reconcile_ident_kept]). *)

From S2P Require Import Spec2Rocq GoRuntime Objects Naming Builder Store Controller Frame Faults Settle.

Module Collision.
Import Naming Builder Store Controller Frame Faults Settle.

(** The pass keeps the store well formed and the identity of the Service
    at [ck]. *)
Definition ident_kept (ck : string * string) (w w' : World) : Prop :=
  store_wf (w_store w) -> store_wf (w_store w') /\
  forall o, st_services (w_store w) !! ck = Some o ->
    exists o', st_services (w_store w') !! ck = Some o' /\
      om_uid (svc_meta o') = om_uid (svc_meta o) /\
      om_annotations (svc_meta o') = om_annotations (svc_meta o) /\
      om_finalizers (svc_meta o') = om_finalizers (svc_meta o).

(** A user's Service under the child name of [demo_enabled]: an enabled
    parent of its own, with labels, ports and a selector of its own. *)
Definition demo_sibling : Service :=
  mkService (mkObjectMeta "web-tailscale" "default" "ffff0000-0000-0000-0000-000000000000" 5
               (Some ∅) (Some {[enableAnnotation := "true"]}) [] None [])
    (mkServiceSpec (Some {["app" := "db"]}) "10.0.0.9" [mkServicePort "dns" 53 53] "ClusterIP").

Definition demo_world_sibling : World :=
  world_with_store
    (mkStore (<[("default", "web-tailscale") := demo_sibling]> {[("default", "web") := demo_enabled]}) ∅)
    (demo_world demo_enabled).

(** ** Lemmas *)

#[export] Instance ident_kept_preorder ck : PreOrder (ident_kept ck).
Proof.
  split.
  - intros w Hwf. split; [done|]. intros o Ho. by exists o.
  - intros w1 w2 w3 H12 H23 Hwf.
    destruct (H12 Hwf) as [Hwf2 K12]. destruct (H23 Hwf2) as [Hwf3 K23].
    split; [done|]. intros o Ho.
    destruct (K12 o Ho) as (o2 & Ho2 & U2 & A2 & F2).
    destruct (K23 o2 Ho2) as (o3 & Ho3 & U3 & A3 & F3).
    exists o3. split; [done|]. split; [congruence|]. split; congruence.
Qed.

Lemma ident_kept_frame ck w w' :
  wf_kept w w' -> st_services (w_store w') !! ck = st_services (w_store w) !! ck ->
  ident_kept ck w w'.
Proof. intros Hk Hs Hwf. split; [by apply Hk|]. intros o Ho. exists o. by rewrite Hs. Qed.

Lemma ident_kept_same ck w w' : w_store w' = w_store w -> ident_kept ck w w'.
Proof. intros Hs. apply ident_kept_frame; [unfold wf_kept; by rewrite Hs|by rewrite Hs]. Qed.

Section Steps.
Context (k ck : string * string).
Hypothesis Hkc : k <> ck.

(** An [Update] of the Service at another key. *)
Lemma ident_kept_update (o : Service) w :
  obj_key o <> ck -> ident_kept ck w (snd (client_update o w)).
Proof.
  intros Hk. pose proof (@wp_update wf_kept _ o w) as Hwf.
  destruct (client_update o w) as [r w'] eqn:Hu. simpl in *. apply ident_kept_frame; [done|].
  apply client_update_outcome in Hu as (_ & [(Hs & _)|(cur & _ & _ & [(_ & Hs)|(_ & Hs)])]);
    rewrite Hs; [done| |]; simpl; [by rewrite lookup_insert_ne|by rewrite lookup_delete_ne].
Qed.

(** [CreateOrUpdate] of the Service child updates the Service found at the
    child key in place: [SetOwnerReference] and the closure keep its
    annotations and finalizers, the server its UID. *)
Lemma ident_kept_cou_svc (x tsvc : Service) w :
  obj_key (service_init x) = ck ->
  ident_kept ck w (snd (CreateOrUpdate (service_init x) (service_child_fn x tsvc) w)).
Proof.
  intros Hck Hwf. split; [exact (@wp_cou_svc wf_kept _ _ _ w Hwf)|]. intros o Ho.
  destruct (CreateOrUpdate_no_delete (T:=Service) (service_init x) (service_child_fn x tsvc) w ck)
    as [o' Ho']; [exact (proj1 Hwf)|exact (service_child_fn_finalizers x tsvc)|simpl; rewrite Ho; by eexists|].
  exists o'. split; [done|].
  destruct (CreateOrUpdate _ _ w) as [r w'] eqn:Hc. simpl in Ho'.
  apply CreateOrUpdate_outcome in Hc as [Hat _]. rewrite Hck in Hat.
  destruct (Hat o' Ho') as [Hold|[(x' & y & rv & Hx' & Hy & ->)|(y & Hn & _)]].
  - simpl in Hold. rewrite Ho in Hold. by injection Hold as ->.
  - simpl in Hx'. rewrite Ho in Hx'. injection Hx' as <-.
    destruct (service_child_fn_fields _ _ _ _ Hy) as (Ha & Hf & _). simpl. by rewrite Ha, Hf.
  - simpl in Hn. by rewrite Ho in Hn.
Qed.

(** [CreateOrUpdate] of the StatefulSet child leaves the Services alone. *)
Lemma ident_kept_cou_sts (x : Service) d w :
  ident_kept ck w (snd (CreateOrUpdate (statefulset_init x) (sts_child_fn x d) w)).
Proof.
  pose proof (CreateOrUpdate_key_step (statefulset_init x) (sts_child_fn x d) (fun _ => True)
                (fun _ _ _ _ _ _ => I) w) as (_ & Hts & _ & _).
  apply ident_kept_frame; [exact (@wp_cou_sts wf_kept _ _ _ w)|]. rewrite Hts. reflexivity.
Qed.

Lemma ident_kept_deploy (x : Service) :
  childKey x = ck -> within (ident_kept ck) (deployTailscale x).
Proof.
  intros Hck. refine (within_bind _ _ _ _ (fun _ => _)).
  - refine (within_bind _ _ _ (fun w => _) (fun tmpl => _)).
    + unfold parseFile_svc. destruct (file_svc_yaml _); by apply ident_kept_same.
    + exact (within_bind _ _ _ (fun w => ident_kept_cou_svc x tmpl w Hck) (fun _ => within_ret _ _)).
  - refine (within_bind _ _ _ (fun w => _) (fun tmpl => _)).
    + unfold parseFile_sts. destruct (file_sts_yaml _); by apply ident_kept_same.
    + refine (within_bind _ _ _ (within_lift _ _) (fun d => _)).
      exact (within_bind _ _ _ (fun w => ident_kept_cou_sts x d w) (fun _ => within_ret _ _)).
Qed.

(** A pass for the parent at [k], whose child key is [ck], keeps the
    identity of the Service at [ck], whatever the API returns. *)
Lemma Reconcile_ident_kept w :
  store_wf (w_store w) -> pass_child w k = ck -> ident_kept ck w (snd (Reconcile k w)).
Proof.
  intros Hwf Hpc. unfold Reconcile, sbind.
  destruct (client_get_frame (T:=Service) k w) as [Hs1 _].
  destruct (client_get k w) as [[P''|e] w1] eqn:Hg; simpl in *; [|by apply ident_kept_same].
  apply client_get_inv in Hg as (HP'' & _). simpl in HP''.
  assert (obj_key P'' = k) as Hk'' by apply (proj1 Hwf _ _ HP'').
  unfold pass_child in Hpc. rewrite HP'' in Hpc.
  etrans; [by apply ident_kept_same|].
  destruct (reconcile_disabled P'').
  - unfold handleDelete. destruct (ContainsFinalizer P'' finalizer); [|reflexivity].
    destruct (gomap_get _ _); [|reflexivity].
    refine (within_bind _ _ _ (fun w => ident_kept_update _ w _) (fun _ => within_ret _ _) w1).
    by rewrite RemoveFinalizer_key, Hk''.
  - pose proof (ident_kept_update (AddFinalizer P'' finalizer) w1) as H2.
    pose proof (update_result_childKey P'') as Hx.
    destruct (client_update (AddFinalizer P'' finalizer) w1) as [r w2] eqn:Hu. simpl in H2.
    destruct r as [x|e]; simpl; [|apply H2; by rewrite AddFinalizer_key, Hk''].
    etrans; [apply H2; by rewrite AddFinalizer_key, Hk''|]. apply ident_kept_deploy.
    rewrite (Hx x w1 (Ok x) w2); [done|by rewrite Hk'', Hs1|done|done].
Qed.
End Steps.

(** ** Properties *)

(** C20: the child name is not collision-free.  In one namespace, let [Q]
    be a Service named [childName P] (a name that is unique, as the store
    enforces) next to the enabled parent [P].  A fault-free pass of [P]
    takes [Q] over as its child instead of creating one: the object at
    [Q]'s key keeps [Q]'s UID, annotations and finalizers (it is [Q],
    updated in place, and stays enabled if [Q] was), but it is now owned
    by [P], labelled [svc=<P>], and its cluster IP, ports, type and
    selector are the template's. *)
Theorem Reconcile_takes_over_sibling w P Q tsvc tsts :
  w_faults w = [] -> store_wf (w_store w) ->
  st_services (w_store w) !! obj_key P = Some P -> reconcile_disabled P = false ->
  file_svc_yaml (w_files w) = Some tsvc -> svc_template_ok tsvc = true ->
  file_sts_yaml (w_files w) = Some tsts -> sts_template_ok tsts = true ->
  8 <= String.length (om_uid (svc_meta P)) ->
  st_services (w_store w) !! obj_key Q = Some Q ->
  om_namespace (svc_meta Q) = om_namespace (svc_meta P) -> om_name (svc_meta Q) = childName P ->
  is_Some (om_labels (svc_meta Q)) ->
  (forall c, st_statefulsets (w_store w) !! childKey P = Some c ->
             is_Some (om_labels (sts_meta c))) ->
  exists w' Q', Reconcile (obj_key P) w = (Ok tt, w') /\
    st_services (w_store w') !! obj_key Q = Some Q' /\
    om_uid (svc_meta Q') = om_uid (svc_meta Q) /\
    om_annotations (svc_meta Q') = om_annotations (svc_meta Q) /\
    om_finalizers (svc_meta Q') = om_finalizers (svc_meta Q) /\
    child_service_ok P tsvc Q'.
Proof.
  intros Hf Hwf HP Hen Hfs Hts Hfst Htst Hu HQ Hns Hn Hl Hl2.
  assert (childKey P = obj_key Q) as HcQ.
  { unfold childKey, obj_key. simpl. by rewrite Hns, Hn. }
  assert (childKey P <> obj_key P) as Hck by eauto with ctrl.
  destruct (Reconcile_first_pass w (obj_key P) P tsvc tsts)
    as (P' & cs & ss & d & w' & Hr & Hsv & _ & _ & _ & _ & _ & _ & _ & Hcs & _); try done.
  { intros c Hc. rewrite HcQ, HQ in Hc. by injection Hc as <-. }
  pose proof (Reconcile_ident_kept (obj_key P) (childKey P) (not_eq_sym Hck) w Hwf) as Hid.
  rewrite Hr in Hid. simpl in Hid. unfold pass_child in Hid. rewrite HP in Hid.
  destruct (Hid eq_refl Hwf) as [_ Hk].
  destruct (Hk Q ltac:(by rewrite HcQ)) as (o' & Ho' & Hu' & Ha' & Hf').
  rewrite Hsv, lookup_insert_eq in Ho'. injection Ho' as <-.
  exists w', cs. rewrite <- HcQ, Hsv, lookup_insert_eq. do 4 (split; [done|]). by split.
Qed.

(** The Service [web-tailscale] of a user, itself an enabled parent, is
    taken over by the pass of [web]. *)
Lemma Reconcile_takes_over_sibling_witness :
  exists w' Q', Reconcile (obj_key demo_enabled) demo_world_sibling = (Ok tt, w') /\
    st_services (w_store w') !! obj_key demo_sibling = Some Q' /\
    om_uid (svc_meta Q') = om_uid (svc_meta demo_sibling) /\
    om_annotations (svc_meta Q') = om_annotations (svc_meta demo_sibling) /\
    om_finalizers (svc_meta Q') = om_finalizers (svc_meta demo_sibling) /\
    child_service_ok demo_enabled sample_svc_template Q'.
Proof.
  apply (Reconcile_takes_over_sibling demo_world_sibling demo_enabled demo_sibling
           sample_svc_template sample_sts_template);
    [reflexivity|split; apply (bool_decide_unpack _); vm_compute; reflexivity
    |reflexivity|reflexivity|reflexivity|reflexivity|reflexivity|reflexivity
    |apply Nat.leb_le; reflexivity|reflexivity|reflexivity|reflexivity|by eexists
    |intros c Hc; vm_compute in Hc; discriminate].
Defined.

End Collision.
