(* ===== verification/Main.v ===== *)
(** * The operator process: [main] in [main.go]

    [main] installs the logger, builds the manager from the cluster
    configuration ([GetConfigOrDie] ends the process when there is none),
    registers the controller with [controller.New] and blocks in
    [manager.Start] until SIGTERM or SIGINT; each error is logged and ends
    the process with [os.Exit(1)].  [Start] lists the cluster (the
    informers deliver a create event per object to the controller's
    handlers) and runs the worker of [Loop] until the signal, modelled as
    the number of requests processed before it arrives.  The process
    ends with status 0 when [Start] returns after the signal, and with an
    unrecovered panic (status 2) when a pass panics.  Logging has no
    effect on the cluster and is not modelled.  The flag
    [--tailscale-image] is registered ([flags]) but [flag.Parse] is never
    called and the flag is never read, so it takes no part in [main]. *)

From S2P Require Import Spec2Rocq GoRuntime Objects Naming Builder Store Controller Convergence Watch Loop Faults Settle.

Module Main.
Import Naming Builder Store Controller Convergence Watch Loop Faults Settle.

(** How the process ends: [os.Exit(code)] or the return of [main]
    (status 0), or an unrecovered panic of a pass. *)
Inductive Exit : Type := ExitCode (code : nat) | ExitPanic (p : panic).

(** What [main] finds outside: whether [GetConfigOrDie] finds a
    configuration, the errors of [NewManager] and of [Start] (before the
    controllers run: cache sync, leader election), and the number of
    requests the worker processes before the signal. *)
Record ProcEnv : Type := mkProcEnv {
  pe_config : bool;
  pe_new_manager_error : option string;
  pe_start_error : option string;
  pe_signal_after : nat
}.

(** [flag.String(name, value, usage)]: a command-line flag registered
    with the default command line. *)
Record Flag : Type := mkFlag { flag_name : string; flag_default : string; flag_usage : string }.

(** The flags [main.go] registers at package initialisation. *)
Definition flags : list Flag :=
  [mkFlag "tailscale-image" "" "Image to use for the Tailscale StatefulSet"].

Definition empty_store : Store := mkStore ∅ ∅.

(** The requests of the informers' initial list: a create event per
    object of the cluster, handed to the controller's watches. *)
Definition initial_requests (c : Controller) (s : Store) : list Request :=
  wq_add_all [] (change_requests c empty_store s).

(** [manager.Start] for a manager running one controller: its error, or
    the worker run on the initial list until the signal. *)
Definition Start (c : Controller) (env : ProcEnv) (w : World) : res string (Outcome * LState) :=
  match pe_start_error env with
  | Some e => Err e
  | None => Ok (run c (pe_signal_after env) (mkLState w (initial_requests c (w_store w))))
  end.

(** [main]; the cluster after the process ends is returned with its exit.
    [New] registers exactly one controller with the fresh manager; a
    manager with several controllers (whose workers run concurrently) is
    not modelled. *)
Definition main (env : ProcEnv) (w : World) : Exit * World :=
  if negb (pe_config env) then (ExitCode 1, w) else
  match pe_new_manager_error env with
  | Some _ => (ExitCode 1, w)
  | None =>
      match New (mkManager []) with
      | Err _ => (ExitCode 1, w)
      | Ok mgr =>
          match mgr_controllers mgr with
          | [c] =>
              match Start c env w with
              | Err _ => (ExitCode 1, w)
              | Ok (Crashed p, ls) => (ExitPanic p, ls_world ls)
              | Ok (_, ls) => (ExitCode 0, ls_world ls)
              end
          | _ => (ExitCode 1, w)
          end
      end
  end.

(** The environment of the witness: configuration found, manager built
    and started, signal after nine requests. *)
Definition demo_env : ProcEnv := mkProcEnv true None None 9.

(** ** Lemmas *)

Lemma table_events_created {T} `{EqDecision T} `{object T} `{Stored T} gk s s' x o :
  tbl (T:=T) s !! x = None -> tbl (T:=T) s' !! x = Some o ->
  CreateEvent gk (obj_meta o) ∈ table_events (T:=T) gk s s'.
Proof.
  intros Hx Hx'. unfold table_events. apply elem_of_concat_fmap. exists x. split.
  - apply elem_of_elements, elem_of_union. right. apply elem_of_dom. by eexists.
  - rewrite Hx, Hx', decide_False by done. by apply list_elem_of_singleton.
Qed.

(** With no controller reference in the cluster, the initial list asks
    for exactly the keys of the Services. *)
Lemma initial_requests_services s r :
  store_wf s ->
  (forall x o, st_services s !! x = Some o -> GetControllerOf (svc_meta o) = None) ->
  (forall x o, st_statefulsets s !! x = Some o -> GetControllerOf (sts_meta o) = None) ->
  r ∈ initial_requests ServiceController s <-> is_Some (st_services s !! r).
Proof.
  intros Hwf Hsvc Hsts. unfold initial_requests. rewrite elem_of_wq_add_all.
  split.
  - intros [Hr|Hr%not_elem_of_nil]; [|done].
    apply change_requests_changed in Hr.
    + simpl in Hr. rewrite lookup_empty in Hr. by destruct (st_services s !! r).
    + intros x o _ [Ho|Ho]; [simpl in Ho; by rewrite lookup_empty in Ho|].
      split; [exact (Hsvc x o Ho)|apply (proj1 (proj1 Hwf _ _ Ho))].
    + intros x o _ [Ho|Ho]; [simpl in Ho; by rewrite lookup_empty in Ho|exact (Hsts x o Ho)].
  - intros [o Ho]. left. apply elem_of_concat_fmap.
    exists (CreateEvent service_gk (svc_meta o)). split.
    + apply elem_of_app. left.
      exact (table_events_created (T:=Service) service_gk empty_store s r o (lookup_empty r) Ho).
    + rewrite ServiceController_requests by (apply Forall_singleton; exact (Hsvc r o Ho)).
      simpl. apply list_elem_of_singleton.
      change (request_of (svc_meta o)) with (obj_key o). symmetry. apply (proj1 (proj1 Hwf _ _ Ho)).
Qed.

(** Once idle, the worker stays idle whatever fuel is added. *)
Lemma run_idle_more c n m ls ls' : run c n ls = (Idle, ls') -> run c (n + m) ls = (Idle, ls').
Proof.
  revert ls. induction n as [|n IH]; intros ls Hr;
    cbn [run] in Hr; destruct (ls_queue ls) as [|req q] eqn:Hq;
    try (injection Hr as <-; by apply run_idle); [discriminate|].
  destruct (reconcileHandler c req q (ls_world ls)) as [ls1 [p|]] eqn:Hh; [discriminate|].
  change (S n + m) with (S (n + m)). rewrite (run_step c _ ls req q ls1 Hq Hh). by apply IH.
Qed.

(** A request whose pass panics crashes the worker. *)
Lemma run_crash c n ls req q p :
  ls_queue ls = req :: q -> fst (Reconcile req (ls_world ls)) = Err (ErrPanic p) ->
  fst (run c (S n) ls) = Crashed p.
Proof.
  intros Hq Hr. cbn [run]. rewrite Hq. unfold reconcileHandler.
  destruct (Reconcile req (ls_world ls)) as [r w'] eqn:E. simpl in Hr. by subst r.
Qed.

Lemma NoDup_two {A} (l : list A) a b :
  NoDup l -> a <> b -> (forall r, r ∈ l <-> r = a \/ r = b) -> l = [a; b] \/ l = [b; a].
Proof.
  intros Hnd Hab Hl.
  assert (a ∈ l) as Ha by (apply Hl; by left). assert (b ∈ l) as Hb by (apply Hl; by right).
  destruct l as [|x [|y [|z l]]].
  - by apply not_elem_of_nil in Ha.
  - apply list_elem_of_singleton in Ha, Hb. congruence.
  - apply NoDup_cons in Hnd as [Hxy _].
    apply elem_of_cons in Ha as [-> | Ha%list_elem_of_singleton];
      apply elem_of_cons in Hb as [-> | Hb%list_elem_of_singleton]; subst; auto; congruence.
  - exfalso.
    assert (length (x :: y :: z :: l) <= length [a; b]) as Hlen.
    { apply submseteq_length, NoDup_submseteq; [done|]. intros r [-> | ->]%Hl; apply elem_of_cons; [by left|right; by apply list_elem_of_singleton]. }
    simpl in Hlen. lia.
Qed.

(** ** Properties *)

(** C19: [main] exits with status 1 exactly when no configuration is
    found, [NewManager] fails or [Start] fails: [controller.New] cannot
    fail on the manager [main] builds, so its error branch is never
    taken. *)
Theorem main_exit_one env w :
  fst (main env w) = ExitCode 1 <->
  pe_config env = false \/ is_Some (pe_new_manager_error env) \/ is_Some (pe_start_error env).
Proof.
  unfold main. rewrite New_registers. simpl.
  destruct (pe_config env); simpl; [|split; [intros _; by left|done]].
  destruct (pe_new_manager_error env); simpl; [split; [intros _; right; left; by eexists|done]|].
  unfold Start. destruct (pe_start_error env); simpl;
    [split; [intros _; right; right; by eexists|done]|].
  destruct (run _ _ _) as [[|p|] ls]; simpl;
    (split; [intros H; discriminate|intros [H|[[? H]|[? H]]]; discriminate]).
Qed.

(** C6: the process provisions the parent.  Run the operator on a
    cluster whose only Service is an enabled parent with usable
    templates, a UID of eight bytes or more and no controller reference,
    whose StatefulSets carry no controller reference, with an oracle
    failing any API calls with status errors.  When the configuration is
    found, the manager is built and started, and the signal comes after
    at least [length faults + 4] requests, the process exits with status
    0 and leaves the parent with the finalizer and both children serving
    it. *)
Theorem main_provisions env w P tsvc tsts :
  pe_config env = true -> pe_new_manager_error env = None -> pe_start_error env = None ->
  length (w_faults w) + 4 <= pe_signal_after env ->
  store_wf (w_store w) -> st_services (w_store w) = {[obj_key P := P]} ->
  reconcile_disabled P = false -> w_files w = mkFiles (Some tsvc) (Some tsts) ->
  svc_template_ok tsvc = true -> sts_template_ok tsts = true ->
  8 <= String.length (om_uid (svc_meta P)) -> api_faults w ->
  GetControllerOf (svc_meta P) = None ->
  (forall x ss, st_statefulsets (w_store w) !! x = Some ss -> GetControllerOf (sts_meta ss) = None) ->
  (forall ss, st_statefulsets (w_store w) !! childKey P = Some ss ->
              is_Some (om_labels (sts_meta ss))) ->
  exists w', main env w = (ExitCode 0, w') /\
    (exists P', st_services (w_store w') !! obj_key P = Some P' /\
                finalizer ∈ om_finalizers (svc_meta P')) /\
    (exists cs, st_services (w_store w') !! childKey P = Some cs /\ child_service_ok P tsvc cs) /\
    (exists ss, st_statefulsets (w_store w') !! childKey P = Some ss /\ child_sts_ok P tsts ss).
Proof.
  intros Hc Hnm Hse Hsig Hwf Hsvc Hen HF Hts Htst Hu Hf HPu Hsts Hl2.
  assert (st_services (w_store w) !! obj_key P = Some P) as HP
    by (rewrite Hsvc; apply lookup_singleton_eq).
  assert (childKey P <> obj_key P) as Hck by eauto with ctrl.
  assert (st_services (w_store w) !! childKey P = None) as Hnc
    by (rewrite Hsvc; by apply lookup_singleton_ne).
  assert (forall r, r ∈ initial_requests ServiceController (w_store w) <-> r = obj_key P) as Hinit.
  { intros r. rewrite initial_requests_services; [|done| |done].
    - rewrite Hsvc. split; [intros [o (<- & _)%lookup_singleton_Some]; done|].
      intros ->. rewrite lookup_singleton_eq. by eexists.
    - intros x o. rewrite Hsvc. by intros (<- & <-)%lookup_singleton_Some. }
  assert (loop_inv (obj_key P) P tsvc tsts
            (mkLState w (initial_requests ServiceController (w_store w)))) as Hinv.
  { apply loop_inv_intro; try done.
    - split; [intros o Ho; rewrite HP in Ho; by injection Ho as <-|].
      split; [intros c Hc'; by rewrite Hnc in Hc'|].
      split; intros c Hc'; exact (Hsts _ c Hc').
    - intros c Hc'. by rewrite Hnc in Hc'.
    - apply wq_add_all_NoDup, NoDup_nil_2.
    - by apply Hinit.
    - intros r Hr%Hinit. by left. }
  destruct (run_settles (obj_key P) P tsvc tsts eq_refl Hen Hts Htst Hu (length (w_faults w)) _ Hinv)
    as (ls' & Hrun & (P' & cs & ss & d & HP' & _ & Hfin & _ & Hcs & _ & _ & Hcsok & Hss & _ & _ & Hssok));
    [done|].
  exists (ls_world ls'). split.
  - unfold main. rewrite Hc, Hnm, New_registers. simpl. unfold Start. rewrite Hse.
    replace (pe_signal_after env)
      with (length (w_faults w) + 4 + (pe_signal_after env - (length (w_faults w) + 4))) by lia.
    by rewrite (run_idle_more _ _ _ _ _ Hrun).
  - split; [by exists P'|]. split; [by exists cs|]. by exists ss.
Qed.

(** The parent of [Controller] on the cluster of [Settle]'s witness, with
    five entries in the oracle. *)
Lemma main_provisions_witness :
  exists w', main demo_env demo_loop_world = (ExitCode 0, w') /\
    (exists P', st_services (w_store w') !! obj_key demo_enabled = Some P' /\
                finalizer ∈ om_finalizers (svc_meta P')) /\
    (exists cs, st_services (w_store w') !! childKey demo_enabled = Some cs /\
                child_service_ok demo_enabled sample_svc_template cs) /\
    (exists ss, st_statefulsets (w_store w') !! childKey demo_enabled = Some ss /\
                child_sts_ok demo_enabled sample_sts_template ss).
Proof.
  apply main_provisions;
    [reflexivity|reflexivity|reflexivity|apply Nat.leb_le; reflexivity
    |split; apply (bool_decide_unpack _); vm_compute; reflexivity
    |reflexivity|reflexivity|reflexivity|reflexivity|reflexivity
    |apply Nat.leb_le; reflexivity
    |unfold api_faults; simpl; repeat constructor; intros e He p Hp; simplify_eq
    |reflexivity
    |intros x ss Hss; vm_compute in Hss; discriminate
    |intros ss Hss; vm_compute in Hss; discriminate].
Defined.

(** C18: one foreign Service crashes the operator.  Start the process on a
    fault-free cluster holding an enabled parent and, under its child name,
    a disabled Service without the finalizer whose labels are nil (no
    controller references anywhere).  Whichever of the two requests of the
    initial list the worker takes first, the parent's pass panics on the
    nil label map within two requests and the panic is not recovered: the
    process dies, and every restart lists the same cluster. *)
Theorem main_crashes_nil_labels env w P tsvc c :
  pe_config env = true -> pe_new_manager_error env = None -> pe_start_error env = None ->
  2 <= pe_signal_after env -> w_faults w = [] -> store_wf (w_store w) ->
  st_services (w_store w) = <[obj_key P := P]> {[childKey P := c]} ->
  reconcile_disabled P = false -> file_svc_yaml (w_files w) = Some tsvc ->
  om_labels (svc_meta c) = None -> reconcile_disabled c = true ->
  finalizer ∉ om_finalizers (svc_meta c) ->
  GetControllerOf (svc_meta P) = None -> GetControllerOf (svc_meta c) = None ->
  (forall x ss, st_statefulsets (w_store w) !! x = Some ss -> GetControllerOf (sts_meta ss) = None) ->
  fst (main env w) = ExitPanic PanicNilMap.
Proof.
  intros Hc Hnm Hse Hsig Hf Hwf Hsvc Hen Hfs Hl Hcd Hcf HPu Hcu Hsts.
  assert (childKey P <> obj_key P) as Hck by eauto with ctrl.
  assert (st_services (w_store w) !! obj_key P = Some P) as HP
    by (rewrite Hsvc; apply lookup_insert_eq).
  assert (st_services (w_store w) !! childKey P = Some c) as Hcs
    by (rewrite Hsvc, lookup_insert_ne by done; apply lookup_singleton_eq).
  assert (fst (Reconcile (obj_key P) w) = Err (ErrPanic PanicNilMap)) as Hpanic.
  { destruct (Reconcile_nil_labels w (obj_key P) P tsvc c) as (w' & -> & _); done. }
  set (q := initial_requests ServiceController (w_store w)).
  assert (q = [obj_key P; childKey P] \/ q = [childKey P; obj_key P]) as Hq.
  { apply NoDup_two; [apply wq_add_all_NoDup, NoDup_nil_2|done|].
    intros r. unfold q. rewrite initial_requests_services by
      (try done; intros x o; rewrite Hsvc, lookup_insert_Some, lookup_singleton_Some;
       by intros [[_ <-]|[_ [_ <-]]]).
    rewrite Hsvc, lookup_insert_is_Some', lookup_singleton_is_Some. split; intros [-> | ->]; auto. }
  unfold main. rewrite Hc, Hnm, New_registers. simpl. unfold Start. rewrite Hse.
  destruct (pe_signal_after env) as [|[|n]]; [lia|lia|]. fold q.
  destruct Hq as [Hq|Hq]; rewrite Hq.
  - pose proof (run_crash ServiceController (S n) (mkLState w _) (obj_key P) [childKey P] PanicNilMap
                 eq_refl Hpanic) as Hcr.
    destruct (run _ _ _) as [o ls']. simpl in Hcr. by subst o.
  - assert (reconcileHandler ServiceController (childKey P) [obj_key P] w = (mkLState w [obj_key P], None))
      as Hh.
    { assert (Reconcile (childKey P) w = (Ok tt, w)) as Hr.
      { apply (Reconcile_quiet_free w _ c Hf Hcs). split; [done|left].
        destruct (ContainsFinalizer c finalizer) eqn:E; [|done]. by apply ContainsFinalizer_spec in E. }
      unfold reconcileHandler. rewrite Hr. simpl. by rewrite change_requests_same. }
    rewrite (run_step _ _ (mkLState w [childKey P; obj_key P]) (childKey P) [obj_key P] _ eq_refl Hh).
    pose proof (run_crash ServiceController n (mkLState w _) (obj_key P) [] PanicNilMap
                 eq_refl Hpanic) as Hcr.
    destruct (run _ _ _) as [o ls']. simpl in Hcr. by subst o.
Qed.

(** The cluster of [Controller]'s witness: the enabled parent and a
    Service [web-tailscale] some user created without labels. *)
Lemma main_crashes_nil_labels_witness :
  fst (main demo_env demo_world_unlabelled) = ExitPanic PanicNilMap.
Proof.
  apply (main_crashes_nil_labels demo_env demo_world_unlabelled demo_enabled sample_svc_template
           demo_unlabelled_child);
    [reflexivity|reflexivity|reflexivity|apply Nat.leb_le; reflexivity|reflexivity
    |split; apply (bool_decide_unpack _); vm_compute; reflexivity
    |vm_compute; reflexivity|reflexivity|reflexivity|reflexivity|reflexivity
    |apply not_elem_of_nil|reflexivity|reflexivity
    |intros x ss Hss; vm_compute in Hss; discriminate].
Defined.

End Main.
